(* ===== verification/_CoqProject ===== *)
-Q . S2P
Prelude.v
Wp.v
Ring.v
Monitor.v
Stream.v
BoundedQueue.v
Sync.v
CircularQueue.v
ThreadLife.v
Event.v
EventTypes.v
Files.v
Archive.v
Text.v
Ini.v
IniMap.v
IniText.v
PgPool.v
Sock.v
Teardown.v
Tcp.v
Servers.v
MemList.v
Timer.v
Paths.v
Shm.v
ShmThread.v
ShmSeg.v
Logger.v
Icmp.v
IcmpLink.v
Udp.v
MsgQueue.v
IfConfig.v
Runtime.v
TimerEvents.v
TimerService.v
Heartbeat.v
Objects.v
Props.v
