(* ===== verification/Prelude.v ===== *)
(** * A verification of the PDK C++20 support library

    The repository is a library of building blocks for long-running servers:
    synchronisation primitives and thread objects, queues, event threads,
    timers, streams and archives, configuration files, a rotating logger, a
    PostgreSQL connection pool, sockets with TCP and UDP servers on top of
    them, shared-memory and System V message queues, an ICMP monitor, and the
    declarations of a VoiceXML document model.  This development translates
    those classes into executable definitions and proves what makes each of them
    correct.  File and function names below are those of [include/] and
    [src/].

    ** How code is modelled

    - A call returns an [outcome]: a value, a thrown exception or undefined
      behaviour of a named kind (null or freed pointer, out-of-range access,
      signed overflow, uninitialised read, overlapping copy).  Methods that thread an object
      use the state monad [M].  A call that blocks is [None] of an [option].
      Where an exception is part of a protocol (a start that throws, an [open]
      that fails) it is a value of the result type instead.
    - Integers are [Z] (sizes [nat]) at their width: [uwrap], [swrap] wrap,
      [chk32] makes signed overflow undefined.  Raw memory is a list of bytes
      with [blit] and [slice] for [memcpy]; pointers are locations of a
      finite map where aliasing and deletion matter (MemList, Timer, PgPool).
      C strings are lists of characters ([str]).
    - Threads are step relations over explicit states.  A class guarded by one
      mutex and a condition variable is an instance of [Monitor]
      (Monitor.v), whose laws give the absence of lost wake-ups once for all
      its instances; finer interleavings (CircularQueue, Thread, PgPool,
      Logger, TcpServer, Event, MsgQueue, Teardown) have step relations of
      their own.  A pointer to a shared buffer is read in a step of its own.
    - What is outside the repository (kernel, libpq, clock, C library calendar)
      is a type class of operations and, where a theorem needs it, a class of
      laws stating documented behaviour; each such class has a concrete
      instance, which the witnesses use.

    ** Files

    - Prelude.v: outcomes, machine integers, buffers, little-endian encoding,
      list lemmas, tactics and the [pdk] hint databases.
    - Wp.v: weakest preconditions of the state monad and the invariants a
      method [keeps], for the socket layer and its clients.
    - Ring.v: ring-buffer indices, shared by BoundedQueue, CircularQueue and
      Shm.  Monitor.v: mutex-and-condition-variable objects and their runs.
    - Stream.v: [Stream] as an interface and [MemoryStream] (stream.hpp).
    - BoundedQueue.v: [BoundedQueue<T>] (bounded_queue.hpp), its FIFO
      specification, refinement, linearizability, wake-ups.
    - Sync.v: [Semaphore], [AutoSemaphore], [Sync], [SyncAck], [Queue<T>],
      [Queue1To1<T>] (jthread.hpp).  ThreadLife.v: [Thread] (jthread.hpp,
      jthread.cpp): create, start, close and their races.
    - CircularQueue.v: [CircularQueue] (util.hpp) with its semaphores.
    - EventTypes.v: the numbers of the event types (eventdefs.hpp).
    - Event.v: event layout (eventdefs.hpp) and [QThread] (qthread.hpp,
      qthread.cpp) over [Queue<T>].
    - Files.v: [File], [Time], [TimeMs] (base.hpp, base.cpp, file.cpp) over
      the [Posix] interface, and the in-memory file system [MemFs].
      Archive.v: [Archive] (archive.cpp) over [File].
    - Text.v: C string functions; Ini.v: [IniFile] (inifile.hpp,
      inifile.cpp); IniMap.v: the store against a map of maps and the typed
      accessors; IniText.v: the file format.
    - PgPool.v: [PgResult], [PgConnection], [PgGuard], [PgConnectionPool]
      (pgpool.hpp, pgpool.cpp) over an interface of libpq.
    - Sock.v: [Socket], [TcpSocket], [UnixUdp], [InetUdpSocket] (sock.hpp,
      sock.cpp) over an interface of the socket calls, with classes of laws for
      the descriptors they open and close; the instance [Net].
    - Teardown.v: a destructor that wakes, closes and joins a worker waiting in
      a system call, as steps (tcpserver.cpp, udpserver.cpp, sock.cpp).
    - Tcp.v: framing, channels and admission of [TcpChannel] and [TcpServer]
      (tcpserver.hpp, tcpserver.cpp).  Servers.v: the same servers and the UDP
      ones on the sockets of Sock: start, rounds, close, destructors.
    - MemList.v, Timer.v, Paths.v: [MemList], [GlobalTimer] and the path and
      string helpers of util.hpp and util.cpp.
    - Shm.v: [SharedMemory] and [ShmQueue] (sharedmemory.hpp).
      ShmThread.v: [ShmQThread] and its congestion thread.  ShmSeg.v: the
      segments behind them, as addresses and attachments.
    - MsgQueue.v: [MsgQueue] (msgqueue.hpp) and [CMsgQueueThread] (mtq.hpp)
      over an interface of [msgget], [msgsnd] and [msgrcv].
    - Logger.v: [Logger] (logger.hpp, logger.cpp) over [Queue1To1] and [File].
    - Udp.v: the UDP receivers, servers and [UUdpIfThread] (udpserver.hpp,
      udpserver.cpp) over the packets of Event.
    - Icmp.v: [IcmpManager] and [IcmpMonitor] (icmp.hpp), using the timer's
      time arithmetic and [tokenize].  IcmpLink.v: their raw sockets, [start],
      [send_icmp], [reset_link] and the loop of the monitor.
    - TimerEvents.v: the scan of the timer thread with the event queues it
      posts to (util.cpp over qthread.cpp).  TimerService.v: the loop of that
      thread, the free functions and their callers, with a history of the timers
      started, stopped and fired.  Heartbeat.v: the ICMP monitor's
      loop, its timer and its queue together.
    - Objects.v: data and virtual interface of the document objects
      (objects.hpp).  Props.v: the typed properties (props.hpp).
    - IfConfig.v: [IfConfig] (ifconfig.hpp).  Runtime.v: [GlobalTimer::get],
      clock helpers, [ping_check], signal masks, [Exception::format] and the
      small templates of types.hpp, trace.hpp and destroyer.hpp.

    ** What is proved

    - Queues and synchronisation: refinement of a bounded FIFO, FIFO order and
      capacity in every interleaving, no lost wake-ups, nobody parked after a
      shutdown (BoundedQueue, Sync, CircularQueue); sequential refinement of
      the shared-memory queue (Shm).
    - Threads: at most one worker, event delivery and the close of an event
      thread in every interleaving with its worker (ThreadLife, Event), the logger's worker handles every
      message once and terminates on [Stop] (Logger).
    - Data: write/read round trips of streams, archives and configuration
      files, integer and boolean accessors (Stream, Archive, IniText, IniMap);
      the configuration store, the timers and [MemList] against abstract
      lists and maps (IniMap, Timer, MemList); rotation keeps the log
      (Logger).
    - Resources: descriptor ownership of [File] and of every socket class,
      no descriptor lost by the TCP and UDP servers and the ICMP manager under
      any failures of the system calls, exclusive connections and their return
      to the pool, admission and clean-up of TCP channels (Files, Sock,
      Servers, IcmpLink, PgPool, Tcp).
    - Sockets and servers: what a client connection does, and that a reconnection
      copies a buffer onto itself; a round of the accept loop on real sockets
      refines the abstract round of Tcp (Sock, Servers); the teardown order, by
      its shutdown, wakes a worker that waits in a system call (Teardown).
    - Inter-process queues: the slots of a shared-memory queue lie inside its
      segment until [reset] moves it (ShmSeg); a message passed to [send] is the
      one received, as an event of the owner's queue, and the one its consumer
      reads through the pointer it is given; the congestion thread leaves no
      event unannounced (MsgQueue, ShmThread).
    - Protocols: TCP packet framing for every way the stream is cut that makes
      no overlapping [memcpy]; one
      delivery per UDP datagram; valid checksums and lengths of ICMP packets
      and the activity tracking of replies (Tcp, Udp, Icmp).
    - Compositions: a timer that is due becomes one event in its owner's queue,
      whatever else is pending, or uses an owner that is gone (TimerEvents); every
      timer started has fired, was stopped or is pending, none fires a
      millisecond early, due ones do fire, and the thread can be stopped
      (TimerService); a pool always serves the next client (PgPool); the
      ICMP monitor comes to its next ping from every state unless its queue was
      full (Heartbeat).
    - Document objects: counts and arrays agree through every virtual call
      (Objects).
    - The failure branches are theorems too: where a class has inputs or
      interleavings it does not handle, the statement says exactly which.

    ** Fuel and bounds

    Loops that are not structural take fuel and return an explicit failure
    when it runs out; the theorems prove results for enough fuel and the
    operations pass enough: [tokenize] one more than the length of the line
    (each token takes a character), [make_dirs] more than the length of the
    path (each recursion is on a shorter one), the readers of Ini one round
    per character, the packet loop of Tcp one per byte, [free_loop] of MemList
    one per allocated item, decimal printing ten digits for 32 bits and twenty
    for 64, the retry loops of Sock one per attempt the source counts.

    ** Not modelled

    Of [objects.hpp] and [props.hpp] only what the headers define: most bodies,
    and the headers [objects.hpp] includes, are not in the repository, so the
    interpreter of documents ([CVxmlObjects]), serialisation and the table of
    properties are left out.  [list], [alarm] and [config] are aliases, macros
    and enumerations.  [std::format], the text of [strftime], the arithmetic of
    floating-point values (a [double] is an opaque value with its text), the
    sleep helpers and diagnostics on [stderr] are left out, and so is the ARP
    query of [mac_addr], whose first line does not compile. *)

From stdpp Require Export base list gmap strings numbers relations.
From Stdlib Require Export Ascii ZArith Lia.

(** ** Outcomes of a C++ call *)

(** The kinds of undefined behaviour the modelled code can run into. *)
Inductive ub_kind : Type :=
| NullDeref
| OutOfBounds
| UseAfterFree
| SignedOverflow
| Uninitialised
| Overlap.

(** A call returns a value, throws an exception (its [what()] text) or has
    undefined behaviour. *)
Inductive outcome (A : Type) : Type :=
| Ok (a : A)
| Exc (what : string)
| Ub (k : ub_kind).
Arguments Ok {A} a.
Arguments Exc {A} what.
Arguments Ub {A} k.

#[global] Instance ub_kind_eq_dec : EqDecision ub_kind.
Proof. solve_decision. Defined.
#[global] Instance outcome_eq_dec {A} `{EqDecision A} : EqDecision (outcome A).
Proof. solve_decision. Defined.

#[global] Instance outcome_ret : MRet outcome := fun A => Ok.
#[global] Instance outcome_bind : MBind outcome := fun A B f m =>
  match m with
  | Ok a => f a
  | Exc e => Exc e
  | Ub k => Ub k
  end.

(** [safe m]: the call has no undefined behaviour. *)
Definition safe {A} (m : outcome A) : Prop := forall k, m <> Ub k.

(** ** A state monad over outcomes, for the methods that thread an object *)
Definition M (S A : Type) : Type := S -> outcome (A * S).

#[global] Instance M_ret {S} : MRet (M S) := fun A a s => Ok (a, s).
#[global] Instance M_bind {S} : MBind (M S) := fun A B f m s =>
  match m s with
  | Ok (a, s') => f a s'
  | Exc e => Exc e
  | Ub k => Ub k
  end.

Definition get_st {S} : M S S := fun s => Ok (s, s).
Definition put_st {S} (s' : S) : M S unit := fun _ => Ok (tt, s').
Definition throw {S A} (e : string) : M S A := fun _ => Exc e.
Definition undef {S A} (k : ub_kind) : M S A := fun _ => Ub k.
Definition lift {S A} (m : outcome A) : M S A := fun s =>
  match m with
  | Ok a => Ok (a, s)
  | Exc e => Exc e
  | Ub k => Ub k
  end.

(** ** Machine integers *)
Definition uwrap (w z : Z) : Z := (z mod 2 ^ w)%Z.
Definition swrap (w z : Z) : Z := ((z + 2 ^ (w - 1)) mod 2 ^ w - 2 ^ (w - 1))%Z.

Abbreviation u8 := (uwrap 8).
Abbreviation u16 := (uwrap 16).
Abbreviation u32 := (uwrap 32).
Abbreviation s32 := (swrap 32).

Definition INT32_MAX : Z := 2147483647.
Definition INT32_MIN : Z := (-2147483648)%Z.

Definition in_s32 (z : Z) : Prop := (INT32_MIN <= z <= INT32_MAX)%Z.
Definition in_uw (w z : Z) : Prop := (0 <= z < 2 ^ w)%Z.

(** Signed 32-bit arithmetic: a result out of range is undefined. *)
Definition chk32 (z : Z) : outcome Z :=
  if ((INT32_MIN <=? z) && (z <=? INT32_MAX))%Z then Ok z else Ub SignedOverflow.

(** A [size_t] converted to [unsigned int]. *)
Definition u32n (n : nat) : nat := Z.to_nat (u32 (Z.of_nat n)).

Lemma uwrap_small w z : in_uw w z -> uwrap w z = z.
Proof. intros H. unfold uwrap. by apply Z.mod_small. Qed.

Lemma uwrap_range w z : (0 <= w)%Z -> in_uw w (uwrap w z).
Proof. intros Hw. unfold uwrap, in_uw. apply Z.mod_pos_bound. lia. Qed.

Lemma uwrap_idem w z : (0 <= w)%Z -> uwrap w (uwrap w z) = uwrap w z.
Proof. intros Hw. by apply uwrap_small, uwrap_range. Qed.

Lemma swrap_small z : in_s32 z -> s32 z = z.
Proof.
  unfold in_s32, INT32_MIN, INT32_MAX, swrap. intros H.
  rewrite Z.mod_small; [lia|]. change (2 ^ 32)%Z with 4294967296%Z.
  change (2 ^ (32 - 1))%Z with 2147483648%Z. lia.
Qed.

Lemma swrap_uwrap z : in_s32 z -> s32 (u32 z) = z.
Proof.
  unfold in_s32, INT32_MIN, INT32_MAX, swrap, uwrap. intros H.
  change (2 ^ 32)%Z with 4294967296%Z. change (2 ^ (32 - 1))%Z with 2147483648%Z.
  rewrite Zplus_mod_idemp_l, Z.mod_small; lia.
Qed.

Lemma swrap_range z : in_s32 (s32 z).
Proof.
  unfold in_s32, INT32_MIN, INT32_MAX, swrap.
  change (2 ^ 32)%Z with 4294967296%Z. change (2 ^ (32 - 1))%Z with 2147483648%Z.
  pose proof (Z.mod_pos_bound (z + 2147483648) 4294967296). lia.
Qed.

Lemma chk32_ok z : in_s32 z -> chk32 z = Ok z.
Proof.
  unfold in_s32, chk32. intros [??].
  rewrite (proj2 (Z.leb_le _ _)), (proj2 (Z.leb_le _ _)) by lia. done.
Qed.

Lemma u32n_small n : (Z.of_nat n < 2 ^ 32)%Z -> u32n n = n.
Proof. intros H. unfold u32n. rewrite uwrap_small by (unfold in_uw; lia). lia. Qed.

(** ** Raw buffers *)

(** [splice off bs l]: [l] with the bytes from [off] on overwritten by [bs]. *)
Definition splice {A} (off : nat) (bs l : list A) : list A :=
  take off l ++ bs ++ drop (off + length bs) l.

(** [memcpy] into a buffer at an offset; a copy past its end is undefined. *)
Definition blit {A} (off : nat) (bs l : list A) : outcome (list A) :=
  if bool_decide (off + length bs <= length l)%nat then Ok (splice off bs l)
  else Ub OutOfBounds.

(** [memcpy] out of a buffer. *)
Definition slice {A} (off n : nat) (l : list A) : outcome (list A) :=
  if bool_decide (off + n <= length l)%nat then Ok (take n (drop off l))
  else Ub OutOfBounds.

Section buffers.
Context {A : Type}.
Implicit Types (l bs : list A) (off n i : nat).

Lemma length_splice off bs l :
  (off + length bs <= length l)%nat -> length (splice off bs l) = length l.
Proof.
  intros H. unfold splice. rewrite !length_app, length_take, length_drop. lia.
Qed.

Lemma take_splice off bs l :
  (off <= length l)%nat ->
  take (off + length bs) (splice off bs l) = take off l ++ bs.
Proof.
  intros H. unfold splice. rewrite app_assoc, take_app_length'; [done|].
  rewrite length_app, length_take. lia.
Qed.

Lemma drop_splice off bs l :
  (off <= length l)%nat ->
  drop (off + length bs) (splice off bs l) = drop (off + length bs) l.
Proof.
  intros H. unfold splice. rewrite app_assoc, drop_app_length'; [done|].
  rewrite length_app, length_take. lia.
Qed.

Lemma splice_read off bs l :
  (off <= length l)%nat ->
  take (length bs) (drop off (splice off bs l)) = bs.
Proof.
  intros H. unfold splice. rewrite drop_app_length' by (rewrite length_take; lia).
  by rewrite take_app_length.
Qed.

Lemma lookup_splice_out off bs l i :
  (off <= length l)%nat -> (i < off \/ off + length bs <= i)%nat ->
  splice off bs l !! i = l !! i.
Proof.
  intros Hl [Hi|Hi]; unfold splice.
  - rewrite lookup_app_l by (rewrite length_take; lia). by apply lookup_take_lt.
  - rewrite lookup_app_r by (rewrite length_take; lia).
    rewrite lookup_app_r by (rewrite length_take; lia).
    rewrite lookup_drop, length_take. f_equal. lia.
Qed.

Lemma blit_ok off bs l :
  (off + length bs <= length l)%nat -> blit off bs l = Ok (splice off bs l).
Proof. intros H. unfold blit. by rewrite bool_decide_true. Qed.

Lemma slice_ok off n l :
  (off + n <= length l)%nat -> slice off n l = Ok (take n (drop off l)).
Proof. intros H. unfold slice. by rewrite bool_decide_true. Qed.
End buffers.

(** ** Little-endian encoding (the memory layout of the target) *)
Fixpoint le_enc (n : nat) (z : Z) : list Z :=
  match n with
  | O => []
  | S n => (z mod 256)%Z :: le_enc n (z / 256)%Z
  end.

Fixpoint le_dec (bs : list Z) : Z :=
  match bs with
  | [] => 0%Z
  | b :: bs => (b + 256 * le_dec bs)%Z
  end.

Lemma length_le_enc n z : length (le_enc n z) = n.
Proof. revert z; induction n as [|n IH]; intros z; simpl; [done|]. by rewrite IH. Qed.

Lemma le_dec_enc n z : le_dec (le_enc n z) = (z mod 2 ^ (8 * Z.of_nat n))%Z.
Proof.
  revert z; induction n as [|n IH]; intros z; cbn [le_enc le_dec].
  - by rewrite Z.mod_1_r.
  - rewrite IH. replace (8 * Z.of_nat (S n))%Z with (8 + 8 * Z.of_nat n)%Z by lia.
    rewrite Z.pow_add_r by lia. change (2 ^ 8)%Z with 256%Z.
    rewrite Z.rem_mul_r by lia. lia.
Qed.

Lemma le_dec_enc_uw n z :
  in_uw (8 * Z.of_nat n) z -> le_dec (le_enc n z) = z.
Proof. intros H. rewrite le_dec_enc. by apply Z.mod_small. Qed.

(** ** C strings and [std::string] as lists of characters *)
Abbreviation str := (list ascii).

Fixpoint chars (s : string) : str :=
  match s with
  | EmptyString => []
  | String c s => c :: chars s
  end.

(** ** Small facts on lists shared by the components *)
Section lists.
Context {A : Type}.

Lemma take_drop_split (l : list A) n m :
  take n (drop m l) ++ drop (m + n) l = drop m l.
Proof. rewrite <-drop_drop. apply take_drop. Qed.

Lemma NoDup_snoc (l : list A) x : NoDup (l ++ [x]) <-> NoDup l /\ x ∉ l.
Proof.
  rewrite NoDup_app. split.
  - intros (?&H&_). split; [done|]. intros Hx. apply (H x Hx). set_solver.
  - intros [??]. split_and!; [done| |apply NoDup_singleton].
    intros y Hy ->%list_elem_of_singleton. done.
Qed.
End lists.

(** ** Automation *)
Create HintDb pdk discriminated.
Create Rewrite HintDb pdk.
#[export] Hint Resolve uwrap_small swrap_small chk32_ok blit_ok slice_ok : pdk.
#[export] Hint Rewrite @length_app @length_take @length_drop @length_replicate
  @length_insert length_le_enc : pdk.

(** Split the conditionals of a model into its branches, turning boolean
    tests into propositions. *)
Ltac case_ifs :=
  repeat match goal with
  | |- context [if bool_decide ?P then _ else _] =>
      destruct (bool_decide_reflect P)
  | H : context [if bool_decide ?P then _ else _] |- _ =>
      destruct (bool_decide_reflect P)
  | |- context [if ?b then _ else _] => destruct b eqn:?
  | H : context [if ?b then _ else _] |- _ => destruct b eqn:?
  end.

(** Boolean comparisons to propositions. *)
Ltac bprop :=
  repeat match goal with
  | H : (_ && _) = true |- _ => apply andb_true_iff in H as [??]
  | H : (_ || _) = false |- _ => apply orb_false_iff in H as [??]
  | H : (_ && _) = false |- _ => apply andb_false_iff in H as [?|?]
  | H : (_ || _) = true |- _ => apply orb_true_iff in H as [?|?]
  | H : negb _ = true |- _ => apply negb_true_iff in H
  | H : negb _ = false |- _ => apply negb_false_iff in H
  | H : (_ <? _)%Z = true |- _ => apply Z.ltb_lt in H
  | H : (_ <? _)%Z = false |- _ => apply Z.ltb_ge in H
  | H : (_ <=? _)%Z = true |- _ => apply Z.leb_le in H
  | H : (_ <=? _)%Z = false |- _ => apply Z.leb_gt in H
  | H : (_ =? _)%Z = true |- _ => apply Z.eqb_eq in H
  | H : (_ =? _)%Z = false |- _ => apply Z.eqb_neq in H
  | H : (_ =? _)%nat = true |- _ => apply Nat.eqb_eq in H
  | H : (_ =? _)%nat = false |- _ => apply Nat.eqb_neq in H
  | H : (_ <? _)%nat = true |- _ => apply Nat.ltb_lt in H
  | H : (_ <? _)%nat = false |- _ => apply Nat.ltb_ge in H
  | H : (_ <=? _)%nat = true |- _ => apply Nat.leb_le in H
  | H : (_ <=? _)%nat = false |- _ => apply Nat.leb_gt in H
  | H : bool_decide _ = true |- _ => apply bool_decide_eq_true in H
  | H : bool_decide _ = false |- _ => apply bool_decide_eq_false in H
  end.

(** Evaluate the monadic binds of a method once its first step is known. *)
Ltac mrun := unfold mbind, M_bind, outcome_bind, mret, M_ret, outcome_ret,
  get_st, put_st, throw, undef, lift; simpl.
