(* ===== verification/Wp.v ===== *)
(** * Weakest preconditions for methods

    [wp m Q s]: the method [m], started in [s], returns normally (no
    exception, no undefined behaviour) in a state and with a result that
    satisfy [Q].  The rules follow the combinators of the monad [M]; the
    tactic [wp_step] applies them. *)

From S2P Require Import Prelude.

Definition wp {S A : Type} (m : M S A) (Q : A -> S -> Prop) (s : S) : Prop :=
  match m s with
  | Ok (a, s') => Q a s'
  | Exc _ | Ub _ => False
  end.

Section rules.
Context {S : Type}.

Lemma wp_ret {A} (a : A) (Q : A -> S -> Prop) s : Q a s -> wp (mret a : M S A) Q s.
Proof. done. Qed.

Lemma wp_bind {A B} (m : M S A) (k : A -> M S B) (Q : B -> S -> Prop) s :
  wp m (fun a s' => wp (k a) Q s') s -> wp (mbind k m : M S B) Q s.
Proof.
  unfold wp, mbind, M_bind. by destruct (m s) as [[a s']| |].
Qed.

Lemma wp_mono {A} (m : M S A) (Q1 Q2 : A -> S -> Prop) s :
  (forall a s', Q1 a s' -> Q2 a s') -> wp m Q1 s -> wp m Q2 s.
Proof. unfold wp. destruct (m s) as [[a s']| |]; auto. Qed.

Lemma wp_get (Q : S -> S -> Prop) s : Q s s -> wp get_st Q s.
Proof. done. Qed.

Lemma wp_put (s1 : S) (Q : unit -> S -> Prop) s : Q tt s1 -> wp (put_st s1) Q s.
Proof. done. Qed.

Lemma wp_and {A} (m : M S A) (Q1 Q2 : A -> S -> Prop) s :
  wp m Q1 s -> wp m Q2 s -> wp m (fun a s' => Q1 a s' /\ Q2 a s') s.
Proof. unfold wp. by destruct (m s) as [[a s']| |]. Qed.

(** A method that returns is one whose [wp] holds. *)
Lemma wp_ok {A} (m : M S A) (Q : A -> S -> Prop) s :
  wp m Q s <-> exists a s', m s = Ok (a, s') /\ Q a s'.
Proof.
  unfold wp. split.
  - destruct (m s) as [[a s']| |]; [eauto|done|done].
  - by intros (a & s' & -> & HQ).
Qed.
End rules.

(** Preservation of a state predicate, for every result. *)
Abbreviation keeps P m := (forall s, P s -> wp m (fun _ s' => P s') s).

Lemma keeps_ret {S A} (P : S -> Prop) (a : A) : keeps P (mret a : M S A).
Proof. done. Qed.

Lemma keeps_bind {S A B} (P : S -> Prop) (m : M S A) (k : A -> M S B) :
  keeps P m -> (forall a, keeps P (k a)) -> keeps P (mbind k m : M S B).
Proof.
  intros Hm Hk s Hs. apply wp_bind. eapply wp_mono; [|by apply Hm]. intros a s'. apply Hk.
Qed.

Lemma keeps_if {S A} (P : S -> Prop) (b : bool) (m1 m2 : M S A) :
  (b = true -> keeps P m1) -> (b = false -> keeps P m2) -> keeps P (if b then m1 else m2).
Proof. destruct b; auto. Qed.

Create HintDb keeps discriminated.
#[export] Hint Resolve keeps_ret keeps_bind keeps_if : keeps.
#[export] Hint Constants Opaque : keeps.
