(* ===== verification/Ring.v ===== *)
(** * Ring buffers

    The representation shared by [pdk::BoundedQueue] and
    [pdk::CircularQueue]: a buffer of [cap] cells read from index [tail] on,
    indices taken modulo [cap]. *)

From S2P Require Import Prelude.

(** An index of a [std::vector] or array; an index out of range is
    undefined. *)
Definition store {A} (i : nat) (x : A) (l : list A) : outcome (list A) :=
  if bool_decide (i < length l)%nat then Ok (<[i := x]> l) else Ub OutOfBounds.

Definition fetch {A} (i : nat) (l : list A) : outcome A :=
  match l !! i with
  | Some x => Ok x
  | None => Ub OutOfBounds
  end.

Section ring.
Context {A : Type}.
Implicit Types (cap tail head n i j : nat) (buf : list A) (f : nat -> A).

(** Cell [i] counted from [tail] holds [f i]. *)
Definition ring_rep cap tail buf f : Prop :=
  length buf = cap /\ (tail < cap)%nat /\
  forall i, (i < cap)%nat -> buf !! ((tail + i) mod cap) = Some (f i).

Lemma mod_wrap cap tail i :
  (tail < cap)%nat -> (i < cap)%nat ->
  (tail + i) mod cap = if (tail + i <? cap)%nat then (tail + i)%nat else (tail + i - cap)%nat.
Proof.
  intros Ht Hi. destruct (Nat.ltb_spec (tail + i) cap).
  - by apply Nat.mod_small.
  - rewrite <-(Nat.mod_small (tail + i - cap) cap) by lia.
    replace (tail + i)%nat with (tail + i - cap + 1 * cap)%nat at 1 by lia.
    by rewrite Nat.Div0.mod_add.
Qed.

Lemma mod_next cap tail i :
  (tail < cap)%nat -> (S i < cap)%nat ->
  ((tail + 1) mod cap + i) mod cap = (tail + S i) mod cap.
Proof.
  intros Ht Hi. rewrite Nat.Div0.add_mod_idemp_l. f_equal. lia.
Qed.

Lemma mod_last cap tail :
  (tail < cap)%nat -> ((tail + 1) mod cap + (cap - 1)) mod cap = tail.
Proof.
  intros Ht. rewrite Nat.Div0.add_mod_idemp_l.
  replace (tail + 1 + (cap - 1))%nat with (tail + 1 * cap)%nat by lia.
  rewrite Nat.Div0.mod_add. by apply Nat.mod_small.
Qed.

Lemma mod_inj cap tail i j :
  (tail < cap)%nat -> (i < cap)%nat -> (j < cap)%nat ->
  (tail + i) mod cap = (tail + j) mod cap -> i = j.
Proof.
  intros Ht Hi Hj. rewrite !mod_wrap by done.
  destruct (Nat.ltb_spec (tail + i) cap), (Nat.ltb_spec (tail + j) cap); lia.
Qed.

Lemma mod_bound cap n : (0 < cap)%nat -> (n mod cap < cap)%nat.
Proof. intros H. apply Nat.mod_upper_bound. lia. Qed.

Lemma ring_fetch cap tail buf f :
  ring_rep cap tail buf f -> fetch tail buf = Ok (f 0%nat).
Proof.
  intros (Hl & Ht & H). specialize (H 0%nat ltac:(lia)).
  rewrite Nat.add_0_r, Nat.mod_small in H by lia.
  unfold fetch. by rewrite H.
Qed.

(** Writing cell [n]. *)
Lemma ring_store cap tail buf f n x :
  ring_rep cap tail buf f -> (n < cap)%nat ->
  exists buf', store ((tail + n) mod cap) x buf = Ok buf' /\
    ring_rep cap tail buf' (fun i => if decide (i = n) then x else f i).
Proof.
  intros (Hl & Ht & H) Hn. unfold store.
  pose proof (mod_bound cap (tail + n) ltac:(lia)).
  rewrite bool_decide_true by lia. eexists; split; [done|].
  split_and!; [by rewrite length_insert|done|].
  intros i Hi. case_decide as Hin.
  - subst i. apply list_lookup_insert_eq. lia.
  - rewrite list_lookup_insert_ne; [by apply H|].
    intros Heq. apply Hin. symmetry. by apply (mod_inj cap tail).
Qed.

(** Clearing the first cell and moving the start past it. *)
Lemma ring_advance cap tail buf f y :
  ring_rep cap tail buf f ->
  exists buf', store tail y buf = Ok buf' /\
    ring_rep cap ((tail + 1) mod cap) buf'
      (fun i => if decide (i = cap - 1)%nat then y else f (S i)).
Proof.
  intros Hr. pose proof Hr as (Hl & Ht & H).
  destruct (ring_store cap tail buf f 0 y Hr ltac:(lia)) as (buf' & Hs & Hr').
  rewrite Nat.add_0_r, Nat.mod_small in Hs by done.
  exists buf'; split; [done|]. destruct Hr' as (Hl' & _ & H').
  split_and!; [done|apply mod_bound; lia|].
  intros i Hi. case_decide as Hc.
  - subst i. rewrite mod_last by done.
    specialize (H' 0%nat ltac:(lia)). rewrite Nat.add_0_r, Nat.mod_small in H' by done.
    exact H'.
  - rewrite mod_next by lia. rewrite H' by lia. done.
Qed.
End ring.
