(* ===== verification/Monitor.v ===== *)
(** * Monitors with one condition variable

    The pattern of [pdk::Semaphore], [pdk::Queue] and [pdk::Queue1To1]: an
    object behind a mutex, and threads that park on one
    [std::condition_variable] until its predicate holds.  [Monitor] is the
    interface (the methods as atomic steps, [None] for a caller that parks),
    [MonitorLaws] what a class has to promise about its notifications, and
    [monitor_no_lost_wakeup] what it gets for it. *)

From S2P Require Import Prelude.

(** What a finished method does to the condition variable. *)
Inductive cv_effect : Type := Quiet | NotifyOne | NotifyAll.

Class Monitor (S Op R : Type) := {
  mon_exec : Op -> S -> option (R * S);
  mon_effect : Op -> R -> cv_effect;
  mon_blocking : Op -> bool;
  mon_avail : S -> nat;
  mon_open : S -> bool;
}.

(** [mon_avail] counts the waiters the object could serve; [mon_open] is
    false once nobody may wait any more. *)
Class MonitorLaws (S Op R : Type) `{Mon : Monitor S Op R} : Prop := {
  mon_park : forall op s, mon_exec op s = None ->
    mon_blocking op = true /\ mon_avail s = 0%nat /\ mon_open s = true;
  mon_quiet : forall op s r s', mon_exec op s = Some (r, s') ->
    mon_effect op r = Quiet ->
    (mon_avail s' <= mon_avail s)%nat /\ mon_open s' = mon_open s;
  mon_notify_one : forall op s r s', mon_exec op s = Some (r, s') ->
    mon_effect op r = NotifyOne ->
    (mon_avail s' <= mon_avail s + 1)%nat /\ mon_open s' = mon_open s /\
    mon_blocking op = false;
  mon_consume : forall op s r s', mon_exec op s = Some (r, s') ->
    mon_blocking op = true ->
    (mon_avail s' <= mon_avail s - 1)%nat /\ mon_effect op r = Quiet;
}.

Section monitor.
Context {S Op R : Type} `{MonitorLaws S Op R}.

(** The object, the threads parked in [wait], and the threads that left
    the wait and have yet to test the predicate again. *)
Record cvsys : Type := CV { cv_obj : S; cv_wait : nat; cv_woken : nat }.

Definition cv_after (e : cv_effect) (s' : S) (w k : nat) : cvsys :=
  match e, w with
  | NotifyOne, Datatypes.S w' => CV s' w' (Datatypes.S k)
  | NotifyAll, _ => CV s' 0 (w + k)
  | _, _ => CV s' w k
  end.

(** A call by a fresh thread or by one that resumes after its wait; a
    parked thread may leave the wait at any time (spurious wake-up or
    timeout). *)
Inductive cvstep : cvsys -> option (Op * R) -> cvsys -> Prop :=
| cv_call op r s s' w k :
    mon_exec op s = Some (r, s') ->
    cvstep (CV s w k) (Some (op, r)) (cv_after (mon_effect op r) s' w k)
| cv_resume op r s s' w k :
    mon_blocking op = true -> mon_exec op s = Some (r, s') ->
    cvstep (CV s w (Datatypes.S k)) (Some (op, r))
           (cv_after (mon_effect op r) s' w k)
| cv_park op s w k :
    mon_exec op s = None -> cvstep (CV s w k) None (CV s (Datatypes.S w) k)
| cv_repark op s w k :
    mon_exec op s = None ->
    cvstep (CV s w (Datatypes.S k)) None (CV s (Datatypes.S w) k)
| cv_leave s w k :
    cvstep (CV s (Datatypes.S w) k) None (CV s w (Datatypes.S k)).

Inductive cvrun : cvsys -> list (Op * R) -> cvsys -> Prop :=
| cvrun_nil s : cvrun s [] s
| cvrun_snoc s tr s1 l s2 :
    cvrun s tr s1 -> cvstep s1 l s2 -> cvrun s (tr ++ option_list l) s2.

Definition cv_init (s : S) : cvsys := CV s 0 0.

Definition cv_inv (c : cvsys) : Prop :=
  (mon_open (cv_obj c) = false -> cv_wait c = 0%nat) /\
  (cv_wait c = 0%nat \/ (mon_avail (cv_obj c) <= cv_woken c)%nat).

Lemma cvstep_inv c l c' : cv_inv c -> cvstep c l c' -> cv_inv c'.
Proof.
  intros [H1 H2] Hst.
  destruct Hst as [op r s s' w k He|op r s s' w k Hb He|op s w k He|op s w k He|s w k];
    unfold cv_inv, cv_after in *; simpl in *.
  - destruct (mon_effect op r) eqn:Hf.
    + destruct (mon_quiet _ _ _ _ He Hf) as [? Ho].
      simpl. rewrite Ho. split; [done|lia].
    + destruct (mon_notify_one _ _ _ _ He Hf) as (? & Ho & _).
      destruct w; simpl; rewrite Ho; split; try (intros; specialize (H1 ltac:(done))); lia.
    + simpl. split; [done|by left].
  - destruct (mon_consume _ _ _ _ He Hb) as [? Hf]. rewrite Hf. simpl.
    destruct (mon_quiet _ _ _ _ He Hf) as [_ Ho]. rewrite Ho. split; [done|lia].
  - destruct (mon_park _ _ He) as (_ & ? & Ho). rewrite Ho. split; [done|lia].
  - destruct (mon_park _ _ He) as (_ & ? & Ho). rewrite Ho. split; [done|lia].
  - split; [intros Ho; specialize (H1 Ho)|]; lia.
Qed.

(** A property of the object and the trace, kept by every completed call. *)
Lemma cvrun_ind_obj (P : list (Op * R) -> S -> Prop) s0 tr c :
  P [] s0 ->
  (forall tr s op r s', P tr s -> mon_exec op s = Some (r, s') ->
     P (tr ++ [(op, r)]) s') ->
  cvrun (cv_init s0) tr c -> P tr (cv_obj c).
Proof.
  intros Hinit Hstep Hrun. remember (cv_init s0) as c0 eqn:Hc0.
  induction Hrun as [c|c tr c1 l c2 Hrun IH Hst]; subst; [done|].
  specialize (IH eq_refl).
  destruct Hst as [op r s s' w k He|op r s s' w k Hb He|op s w k He|op s w k He|s w k];
    simpl in *; rewrite ?app_nil_r; try done;
    unfold cv_after; destruct (mon_effect op r), w; simpl; by eapply Hstep.
Qed.

Lemma monitor_no_lost_wakeup s0 tr c :
  cvrun (cv_init s0) tr c -> cv_inv c.
Proof.
  intros Hrun. remember (cv_init s0) as c0 eqn:Hc0.
  induction Hrun as [c|c tr c1 l c2 Hrun IH Hst]; subst.
  - split; simpl; auto.
  - eapply cvstep_inv; eauto.
Qed.

Lemma cvrun_call s0 tr s w k op r s' c :
  cvrun (cv_init s0) tr (CV s w k) -> mon_exec op s = Some (r, s') ->
  c = cv_after (mon_effect op r) s' w k -> cvrun (cv_init s0) (tr ++ [(op, r)]) c.
Proof.
  intros Hrun He ->. apply (cvrun_snoc _ _ _ (Some (op, r)) _ Hrun). by constructor.
Qed.

Lemma cvrun_park s0 tr s w k op :
  cvrun (cv_init s0) tr (CV s w k) -> mon_exec op s = None ->
  cvrun (cv_init s0) tr (CV s (Datatypes.S w) k).
Proof.
  intros Hrun He. rewrite <-(app_nil_r tr).
  apply (cvrun_snoc _ _ _ None _ Hrun). by eapply cv_park.
Qed.
End monitor.
Arguments cvsys : clear implicits.
