(* ===== verification/Stream.v ===== *)
(** * In-memory streams (include/stream.hpp)

    The virtual interface of [pdk::Stream] is the class [StreamOps]; the
    non-virtual methods of the base class are defined against it, and
    [MemoryStream] and the base class are its two instances.  The bytes of a
    stream are a list of byte values, the position is a signed 32-bit
    integer whose overflow is undefined. *)

From S2P Require Import Prelude.

Inductive TSeekOrigin : Type := soBeginning | soCurrent | soEnd.

(** The virtual methods.  [stream_read n] returns the count and the bytes it
    copied out; [stream_write buf n] copies the first [n] bytes of [buf]. *)
Class StreamOps (S : Type) := {
  stream_SetSize : Z -> M S unit;
  stream_read : Z -> M S (Z * list Z);
  stream_write : list Z -> Z -> M S Z;
  stream_seek : Z -> TSeekOrigin -> M S Z;
}.

(** ** The base class *)
Section base.
Context {S : Type} `{StreamOps S}.

Definition position : M S Z := stream_seek 0 soCurrent.

Definition set_position (pos : Z) : M S unit :=
  _ ← stream_seek pos soBeginning; mret tt.

Definition GetSize : M S Z :=
  cur ← stream_seek 0 soCurrent;
  end_ ← stream_seek 0 soEnd;
  _ ← stream_seek cur soBeginning;
  mret end_.

Definition read_buffer (n : Z) : M S (list Z) :=
  if (n =? 0)%Z then mret []
  else
    r ← stream_read n;
    if (r.1 =? n)%Z then mret r.2 else throw "Stream: read error".

Definition write_buffer (buf : list Z) (n : Z) : M S unit :=
  if (n =? 0)%Z then mret tt
  else
    r ← stream_write buf n;
    if (r =? n)%Z then mret tt else throw "Stream: write error".
End base.

(** [Stream] itself: the default bodies of the virtual methods. *)
Record base_stream : Type := BaseStream {}.

Definition Stream_SetSize (_ : Z) : M base_stream unit := mret tt.
Definition Stream_read (_ : Z) : M base_stream (Z * list Z) := mret (0%Z, []).
Definition Stream_write (_ : list Z) (_ : Z) : M base_stream Z := mret 0%Z.
Definition Stream_seek (_ : Z) (_ : TSeekOrigin) : M base_stream Z := mret 0%Z.

#[export] Instance Stream_ops : StreamOps base_stream := {|
  stream_SetSize := Stream_SetSize;
  stream_read := Stream_read;
  stream_write := Stream_write;
  stream_seek := Stream_seek;
|}.

(** ** [MemoryStream] *)
Record mstream : Type := MStream { ms_buf : list Z; ms_pos : Z }.

#[export] Instance mstream_eq_dec : EqDecision mstream.
Proof. solve_decision. Defined.

Definition MemoryStream_new : mstream := MStream [] 0.

Definition ms_clear : M mstream unit := put_st (MStream [] 0).

(** [data()]: null when the vector is empty. *)
Definition ms_data (s : mstream) : option (list Z) :=
  match ms_buf s with [] => None | b => Some b end.

Definition ms_size (s : mstream) : Z := s32 (Z.of_nat (length (ms_buf s))).

Definition ms_read (n : Z) : M mstream (Z * list Z) := fun s =>
  if ((ms_pos s <? 0) || (n <=? 0))%Z then Ok ((0%Z, []), s)
  else
    avail ← chk32 (ms_size s - ms_pos s);
    if (avail <=? 0)%Z then Ok ((0%Z, []), s)
    else
      let cnt := if (n <? avail)%Z then n else avail in
      bs ← slice (Z.to_nat (ms_pos s)) (Z.to_nat cnt) (ms_buf s);
      pos ← chk32 (ms_pos s + cnt);
      Ok ((cnt, bs), MStream (ms_buf s) pos).

Definition ms_write (buf : list Z) (n : Z) : M mstream Z := fun s =>
  if ((ms_pos s <? 0) || (n <=? 0))%Z then Ok (0%Z, s)
  else
    newSize ← chk32 (ms_pos s + n);
    let b := if (ms_size s <? newSize)%Z
             then resize (Z.to_nat newSize) 0%Z (ms_buf s) else ms_buf s in
    src ← slice 0 (Z.to_nat n) buf;
    b' ← blit (Z.to_nat (ms_pos s)) src b;
    Ok (n, MStream b' newSize).

Definition ms_seek (offset : Z) (origin : TSeekOrigin) : M mstream Z := fun s =>
  pos ← match origin with
        | soBeginning => Ok offset
        | soCurrent => chk32 (ms_pos s + offset)
        | soEnd => chk32 (ms_size s + offset)
        end;
  Ok (pos, MStream (ms_buf s) pos).

Definition ms_SetSize (n : Z) : M mstream unit := fun s =>
  let b := resize (Z.to_nat (if (0 <? n)%Z then n else 0%Z)) 0%Z (ms_buf s) in
  Ok (tt, MStream b (if (n <? ms_pos s)%Z then n else ms_pos s)).

#[export] Instance MemoryStream_ops : StreamOps mstream := {|
  stream_SetSize := ms_SetSize;
  stream_read := ms_read;
  stream_write := ms_write;
  stream_seek := ms_seek;
|}.

(** ** What the operations do *)

(** A stream whose size fits the [int32_t] the interface reports and whose
    position is a valid index or past the end. *)
Definition ms_wf (s : mstream) : Prop :=
  (0 <= ms_pos s <= INT32_MAX)%Z /\ (Z.of_nat (length (ms_buf s)) <= INT32_MAX)%Z.

Lemma ms_size_wf s : ms_wf s -> ms_size s = Z.of_nat (length (ms_buf s)).
Proof.
  intros [_ H]. unfold ms_size. apply swrap_small.
  unfold in_s32, INT32_MIN in *. lia.
Qed.

(** The buffer a write acts on: grown with zeros up to the write's end. *)
Definition ms_grown (s : mstream) (n : nat) : list Z :=
  resize (Nat.max (Z.to_nat (ms_pos s) + n) (length (ms_buf s))) 0%Z (ms_buf s).

Lemma ms_write_spec s bs :
  ms_wf s -> bs <> [] ->
  (ms_pos s + Z.of_nat (length bs) <= INT32_MAX)%Z ->
  ms_write bs (Z.of_nat (length bs)) s =
    Ok (Z.of_nat (length bs),
        MStream (splice (Z.to_nat (ms_pos s)) bs (ms_grown s (length bs)))
                (ms_pos s + Z.of_nat (length bs))).
Proof.
  intros Hwf Hne Hfit. pose proof Hwf as [[Hp _] Hlen].
  assert (0 < length bs)%nat by (destruct bs; simpl; [done|lia]).
  unfold ms_write. rewrite ms_size_wf by done.
  destruct (Z.ltb_spec (ms_pos s) 0); [lia|].
  destruct (Z.leb_spec (Z.of_nat (length bs)) 0); [lia|]. cbn [orb].
  rewrite chk32_ok by (unfold in_s32, INT32_MIN; lia). mrun.
  rewrite slice_ok by lia. mrun. rewrite drop_0, Nat2Z.id, firstn_all.
  assert ((if (Z.of_nat (length (ms_buf s)) <? ms_pos s + Z.of_nat (length bs))%Z
           then resize (Z.to_nat (ms_pos s + Z.of_nat (length bs))) 0%Z (ms_buf s)
           else ms_buf s) = ms_grown s (length bs)) as ->.
  { unfold ms_grown.
    destruct (Z.ltb_spec (Z.of_nat (length (ms_buf s)))
                (ms_pos s + Z.of_nat (length bs))).
    - f_equal; lia.
    - rewrite resize_all_alt by lia. done. }
  rewrite blit_ok; [done|]. unfold ms_grown. rewrite length_resize. lia.
Qed.

Lemma ms_read_spec s n :
  ms_wf s -> (0 < n)%nat -> (Z.to_nat (ms_pos s) + n <= length (ms_buf s))%nat ->
  ms_read (Z.of_nat n) s =
    Ok ((Z.of_nat n, take n (drop (Z.to_nat (ms_pos s)) (ms_buf s))),
        MStream (ms_buf s) (ms_pos s + Z.of_nat n)).
Proof.
  intros Hwf Hn Hfit. pose proof Hwf as [[Hp _] Hlen].
  unfold ms_read. rewrite ms_size_wf by done.
  destruct (Z.ltb_spec (ms_pos s) 0); [lia|].
  destruct (Z.leb_spec (Z.of_nat n) 0); [lia|]. cbn [orb].
  unfold INT32_MAX in *.
  rewrite chk32_ok by (unfold in_s32, INT32_MIN, INT32_MAX; lia). mrun.
  destruct (Z.leb_spec (Z.of_nat (length (ms_buf s)) - ms_pos s) 0); [lia|].
  assert ((if (Z.of_nat n <? Z.of_nat (length (ms_buf s)) - ms_pos s)%Z
           then Z.of_nat n else (Z.of_nat (length (ms_buf s)) - ms_pos s)%Z)
          = Z.of_nat n) as ->.
  { destruct (Z.ltb_spec (Z.of_nat n) (Z.of_nat (length (ms_buf s)) - ms_pos s)); lia. }
  rewrite Nat2Z.id, slice_ok by lia. mrun.
  rewrite chk32_ok by (unfold in_s32, INT32_MIN, INT32_MAX; lia). done.
Qed.

Lemma ms_seek_begin s z : ms_seek z soBeginning s = Ok (z, MStream (ms_buf s) z).
Proof. done. Qed.

Lemma ms_seek_here s : ms_wf s -> ms_seek 0 soCurrent s = Ok (ms_pos s, s).
Proof.
  intros [Hp _]. unfold ms_seek. rewrite Z.add_0_r.
  rewrite chk32_ok by (unfold in_s32, INT32_MIN; lia). by destruct s.
Qed.

Lemma ms_seek_end s :
  ms_wf s ->
  ms_seek 0 soEnd s =
    Ok (Z.of_nat (length (ms_buf s)),
        MStream (ms_buf s) (Z.of_nat (length (ms_buf s)))).
Proof.
  intros Hwf. unfold ms_seek. rewrite ms_size_wf, Z.add_0_r by done.
  destruct Hwf as [_ Hl].
  rewrite chk32_ok by (unfold in_s32, INT32_MIN; lia). done.
Qed.

(** The generic [GetSize] reports a memory stream's size and leaves the
    stream as it was, although it moves the position three times. *)
Lemma ms_GetSize s : ms_wf s -> GetSize s = Ok (Z.of_nat (length (ms_buf s)), s).
Proof.
  intros Hwf. unfold GetSize, mbind, M_bind.
  cbn [stream_seek MemoryStream_ops].
  rewrite ms_seek_here, ms_seek_end, ms_seek_begin by done. by destruct s.
Qed.

(** ** Round trip *)

(** C25: for every memory stream at a non-negative position and every
    non-empty block that ends within the 31-bit range, [write] stores the
    whole block and moves the position to its end, seeking back and reading
    the same number of bytes returns exactly the block, and every byte of the
    old contents outside the written range is kept (a gap before the block is
    filled with zeros).  Assumed: the buffer can be allocated. *)
Theorem stream_write_read_roundtrip s bs :
  ms_wf s -> bs <> [] ->
  (ms_pos s + Z.of_nat (length bs) <= INT32_MAX)%Z ->
  exists s1 s2,
    ms_write bs (Z.of_nat (length bs)) s = Ok (Z.of_nat (length bs), s1) /\
    ms_seek (ms_pos s) soBeginning s1 = Ok (ms_pos s, s2) /\
    ms_read (Z.of_nat (length bs)) s2 = Ok ((Z.of_nat (length bs), bs), s1) /\
    forall i, (i < Z.to_nat (ms_pos s) \/ Z.to_nat (ms_pos s) + length bs <= i)%nat ->
      ms_buf s1 !! i =
        match ms_buf s !! i with
        | Some b => Some b
        | None => if bool_decide (i < Z.to_nat (ms_pos s))%nat then Some 0%Z else None
        end.
Proof.
  intros Hwf Hne Hfit. pose proof Hwf as [[Hp _] Hlen].
  assert (0 < length bs)%nat by (destruct bs; simpl; [done|lia]).
  set (p := Z.to_nat (ms_pos s)).
  set (g := ms_grown s (length bs)).
  assert (length g = Nat.max (p + length bs) (length (ms_buf s))) as Hg
    by apply length_resize.
  rewrite ms_write_spec by done. do 2 eexists. split_and!.
  - done.
  - apply ms_seek_begin.
  - rewrite ms_read_spec; simpl.
    + fold p g. rewrite splice_read by lia. done.
    + split; simpl; [lia|]. fold p g. rewrite length_splice by lia.
      unfold INT32_MAX in *. lia.
    + done.
    + fold p g. rewrite length_splice; lia.
  - intros i Hi. simpl. fold p g. rewrite lookup_splice_out by (done || lia).
    unfold g, ms_grown. fold p. destruct (ms_buf s !! i) eqn:E.
    + apply lookup_lt_Some in E as Hlt. rewrite lookup_resize by lia. done.
    + apply lookup_ge_None in E. case_bool_decide.
      * rewrite lookup_resize_new by lia. done.
      * apply lookup_ge_None. rewrite length_resize. lia.
Qed.

(** A write past the end of a three-byte stream: the gap is zero-filled. *)
Lemma stream_write_read_roundtrip_witness :
  let s := MStream [1; 2; 3]%Z 5 in
  ms_wf s /\
  exists s1 s2,
    ms_write [7; 8]%Z 2 s = Ok (2%Z, s1) /\
    ms_seek 5 soBeginning s1 = Ok (5%Z, s2) /\
    ms_read 2 s2 = Ok ((2%Z, [7; 8]%Z), s1).
Proof.
  assert (ms_wf (MStream [1; 2; 3]%Z 5)) as Hwf
    by (unfold ms_wf, INT32_MAX; simpl; lia).
  split; [exact Hwf|].
  destruct (stream_write_read_roundtrip (MStream [1; 2; 3]%Z 5) [7; 8]%Z Hwf)
    as (s1 & s2 & H1 & H2 & H3 & _).
  - discriminate.
  - unfold INT32_MAX; simpl; lia.
  - exists s1, s2. split_and!; [exact H1|exact H2|exact H3].
Defined.
