(* ===== verification/BoundedQueue.v ===== *)
(** * The bounded MPMC queue (include/bounded_queue.hpp)

    The ring of [std::optional<T>] cells with its mutex-protected methods,
    the FIFO it implements, and the threads that block on its two condition
    variables.  Every method runs under [mu_], so a method is one atomic
    step; a thread that finds its wait predicate false gives the mutex up and
    parks, which is the result [RBlocked]. *)

From S2P Require Import Prelude Ring.

Section bounded_queue.
Context {T : Type}.

(** ** State and methods *)
Record bq : Type := BQ {
  bq_buffer : list (option T);
  bq_capacity : nat;
  bq_head : nat;
  bq_tail : nat;
  bq_size : nat;
  bq_closed : bool;
}.

Definition BoundedQueue_new (capacity : nat) : outcome bq :=
  if (capacity =? 0)%nat then Exc "BoundedQueue capacity must be > 0"
  else Ok (BQ (replicate capacity None) capacity 0 0 0 false).

(** The locked tail of the three pushing methods. *)
Definition bq_enqueue (value : T) (q : bq) : outcome bq :=
  buf ← store (bq_head q) (Some value) (bq_buffer q);
  Ok (BQ buf (bq_capacity q) ((bq_head q + 1) mod bq_capacity q) (bq_tail q)
         (bq_size q + 1) (bq_closed q)).

Definition pop_locked (q : bq) : outcome (option T * bq) :=
  out ← fetch (bq_tail q) (bq_buffer q);
  buf ← store (bq_tail q) None (bq_buffer q);
  Ok (out, BQ buf (bq_capacity q) (bq_head q)
              ((bq_tail q + 1) mod bq_capacity q) (bq_size q - 1) (bq_closed q)).

(** The results of the methods, [RBlocked] for a thread that parks. *)
Inductive bret : Type :=
| RBlocked
| RBool (b : bool)
| RVal (v : option T)
| RNat (n : nat)
| RUnit.

Definition not_full (q : bq) : bool := (bq_size q <? bq_capacity q)%nat || bq_closed q.
Definition not_empty (q : bq) : bool := (0 <? bq_size q)%nat || bq_closed q.

Definition push (value : T) (q : bq) : outcome (bret * bq) :=
  if negb (not_full q) then Ok (RBlocked, q)
  else if bq_closed q then Ok (RBool false, q)
  else q' ← bq_enqueue value q; Ok (RBool true, q').

Definition try_push (value : T) (q : bq) : outcome (bret * bq) :=
  if bq_closed q || (bq_capacity q <=? bq_size q)%nat then Ok (RBool false, q)
  else q' ← bq_enqueue value q; Ok (RBool true, q').

(** [expired]: the deadline of [wait_for] has passed. *)
Definition try_push_for (expired : bool) (value : T) (q : bq) : outcome (bret * bq) :=
  if negb (not_full q) then Ok (if expired then RBool false else RBlocked, q)
  else if bq_closed q then Ok (RBool false, q)
  else q' ← bq_enqueue value q; Ok (RBool true, q').

Definition pop (q : bq) : outcome (bret * bq) :=
  if negb (not_empty q) then Ok (RBlocked, q)
  else if (bq_size q =? 0)%nat then Ok (RVal None, q)
  else '(v, q') ← pop_locked q; Ok (RVal v, q').

Definition try_pop (q : bq) : outcome (bret * bq) :=
  if (bq_size q =? 0)%nat then Ok (RVal None, q)
  else '(v, q') ← pop_locked q; Ok (RVal v, q').

Definition try_pop_for (expired : bool) (q : bq) : outcome (bret * bq) :=
  if negb (not_empty q) then Ok (if expired then RVal None else RBlocked, q)
  else if (bq_size q =? 0)%nat then Ok (RVal None, q)
  else '(v, q') ← pop_locked q; Ok (RVal v, q').

Definition shutdown (q : bq) : bq :=
  BQ (bq_buffer q) (bq_capacity q) (bq_head q) (bq_tail q) (bq_size q) true.

(** All methods of the class as one operation type. *)
Inductive bop : Type :=
| OPush (v : T)
| OTryPush (v : T)
| OTryPushFor (expired : bool) (v : T)
| OPop
| OTryPop
| OTryPopFor (expired : bool)
| OShutdown
| OSize
| OCapacity
| OClosed.

Definition bq_exec (op : bop) (q : bq) : outcome (bret * bq) :=
  match op with
  | OPush v => push v q
  | OTryPush v => try_push v q
  | OTryPushFor e v => try_push_for e v q
  | OPop => pop q
  | OTryPop => try_pop q
  | OTryPopFor e => try_pop_for e q
  | OShutdown => Ok (RUnit, shutdown q)
  | OSize => Ok (RNat (bq_size q), q)
  | OCapacity => Ok (RNat (bq_capacity q), q)
  | OClosed => Ok (RBool (bq_closed q), q)
  end.

(** ** The abstract queue *)
Record fifo : Type := Fifo { f_items : list T; f_cap : nat; f_closed : bool }.

Definition fifo_push (blocking : bool) (v : T) (f : fifo) : bret * fifo :=
  if f_closed f then (RBool false, f)
  else if (length (f_items f) <? f_cap f)%nat
       then (RBool true, Fifo (f_items f ++ [v]) (f_cap f) false)
       else (if blocking then RBlocked else RBool false, f).

Definition fifo_pop (blocking : bool) (f : fifo) : bret * fifo :=
  match f_items f with
  | v :: vs => (RVal (Some v), Fifo vs (f_cap f) (f_closed f))
  | [] => (if blocking && negb (f_closed f) then RBlocked else RVal None, f)
  end.

Definition fifo_exec (op : bop) (f : fifo) : bret * fifo :=
  match op with
  | OPush v => fifo_push true v f
  | OTryPush v => fifo_push false v f
  | OTryPushFor e v => fifo_push (negb e) v f
  | OPop => fifo_pop true f
  | OTryPop => fifo_pop false f
  | OTryPopFor e => fifo_pop (negb e) f
  | OShutdown => (RUnit, Fifo (f_items f) (f_cap f) true)
  | OSize => (RNat (length (f_items f)), f)
  | OCapacity => (RNat (f_cap f), f)
  | OClosed => (RBool (f_closed f), f)
  end.

(** ** The threads around the queue *)

(** Per condition variable: threads parked in [wait] and threads that left
    the wait (notified, spuriously woken or timed out) and have yet to take
    the mutex and test their predicate again. *)
Record bsys : Type := BSys {
  bs_q : bq;
  nf_wait : nat; nf_woken : nat;
  ne_wait : nat; ne_woken : nat;
}.

Definition notify_one (w : nat * nat) : nat * nat :=
  match w.1 with O => w | S n => (n, S w.2) end.

Definition notify_all (w : nat * nat) : nat * nat := (0%nat, (w.1 + w.2)%nat).

Definition notify_ne (s : bsys) : bsys :=
  let w := notify_one (ne_wait s, ne_woken s) in
  BSys (bs_q s) (nf_wait s) (nf_woken s) w.1 w.2.

Definition notify_nf (s : bsys) : bsys :=
  let w := notify_one (nf_wait s, nf_woken s) in
  BSys (bs_q s) w.1 w.2 (ne_wait s) (ne_woken s).

(** What a finished step does to the waiting threads: a successful push
    notifies a consumer, a successful pop a producer, [shutdown] everybody. *)
Definition after (op : bop) (r : bret) (s : bsys) : bsys :=
  match op, r with
  | (OPush _ | OTryPushFor _ _), RBlocked =>
      BSys (bs_q s) (S (nf_wait s)) (nf_woken s) (ne_wait s) (ne_woken s)
  | (OPop | OTryPopFor _), RBlocked =>
      BSys (bs_q s) (nf_wait s) (nf_woken s) (S (ne_wait s)) (ne_woken s)
  | (OPush _ | OTryPush _ | OTryPushFor _ _), RBool true => notify_ne s
  | (OPop | OTryPop | OTryPopFor _), RVal (Some _) => notify_nf s
  | OShutdown, _ =>
      let wf := notify_all (nf_wait s, nf_woken s) in
      let we := notify_all (ne_wait s, ne_woken s) in
      BSys (bs_q s) wf.1 wf.2 we.1 we.2
  | _, _ => s
  end.

(** A call is made by a fresh thread, or by a thread that resumes a blocking
    call after its wait. *)
Inductive enter : bop -> bsys -> bsys -> Prop :=
| enter_fresh op s : enter op s s
| enter_push v q nfw nfk new nek :
    enter (OPush v) (BSys q nfw (S nfk) new nek) (BSys q nfw nfk new nek)
| enter_push_for e v q nfw nfk new nek :
    enter (OTryPushFor e v) (BSys q nfw (S nfk) new nek) (BSys q nfw nfk new nek)
| enter_pop q nfw nfk new nek :
    enter OPop (BSys q nfw nfk new (S nek)) (BSys q nfw nfk new nek)
| enter_pop_for e q nfw nfk new nek :
    enter (OTryPopFor e) (BSys q nfw nfk new (S nek)) (BSys q nfw nfk new nek).

Definition set_q (q : bq) (s : bsys) : bsys :=
  BSys q (nf_wait s) (nf_woken s) (ne_wait s) (ne_woken s).

Inductive bstep : bsys -> option (bop * bret) -> bsys -> Prop :=
| bstep_call op r s s1 q' :
    enter op s s1 -> bq_exec op (bs_q s1) = Ok (r, q') ->
    bstep s (Some (op, r)) (after op r (set_q q' s1))
| bstep_leave_nf q nfw nfk new nek :
    bstep (BSys q (S nfw) nfk new nek) None (BSys q nfw (S nfk) new nek)
| bstep_leave_ne q nfw nfk new nek :
    bstep (BSys q nfw nfk (S new) nek) None (BSys q nfw nfk new (S nek)).

(** Runs with their trace of completed calls. *)
Inductive brun : bsys -> list (bop * bret) -> bsys -> Prop :=
| brun_nil s : brun s [] s
| brun_snoc s tr s1 l s2 :
    brun s tr s1 -> bstep s1 l s2 -> brun s (tr ++ option_list l) s2.

Definition bsys_init (q : bq) : bsys := BSys q 0 0 0 0.

(** Values accepted by and handed out by the queue along a trace. *)
Definition pushed (tr : list (bop * bret)) : list T :=
  omap (fun e => match e with
    | ((OPush v | OTryPush v | OTryPushFor _ v), RBool true) => Some v
    | _ => None end) tr.

Definition popped (tr : list (bop * bret)) : list T :=
  omap (fun e => match e with
    | ((OPop | OTryPop | OTryPopFor _), RVal (Some v)) => Some v
    | _ => None end) tr.

(** ** Refinement *)
Definition bq_rep (q : bq) (f : fifo) : Prop :=
  bq_capacity q = f_cap f /\ bq_closed q = f_closed f /\
  bq_size q = length (f_items f) /\ (length (f_items f) <= f_cap f)%nat /\
  bq_head q = ((bq_tail q + bq_size q) mod bq_capacity q) /\
  ring_rep (bq_capacity q) (bq_tail q) (bq_buffer q) (fun i => f_items f !! i).

Lemma bq_rep_new cap q :
  BoundedQueue_new cap = Ok q -> bq_rep q (Fifo [] cap false).
Proof.
  unfold BoundedQueue_new. destruct (Nat.eqb_spec cap 0); [done|].
  intros [= <-]. split_and!; simpl; try done || lia.
  - by rewrite Nat.Div0.mod_0_l.
  - split_and!; [apply length_replicate|lia|].
    intros i Hi. apply lookup_replicate. split; [done|]. apply mod_bound; lia.
Qed.

Lemma bq_enqueue_rep q f v :
  bq_rep q f -> (length (f_items f) < f_cap f)%nat ->
  exists q', bq_enqueue v q = Ok q' /\
    bq_rep q' (Fifo (f_items f ++ [v]) (f_cap f) (f_closed f)).
Proof.
  intros (Hc & Hcl & Hs & Hle & Hh & Hr) Hlt.
  destruct (ring_store _ _ _ _ (bq_size q) (Some v) Hr ltac:(lia)) as (buf & Hst & Hr').
  unfold bq_enqueue. rewrite Hh, Hst. eexists; split; [done|].
  split_and!; simpl; try done.
  - rewrite length_app; simpl; lia.
  - rewrite length_app; simpl; lia.
  - rewrite Nat.Div0.add_mod_idemp_l. f_equal. lia.
  - destruct Hr' as (Hl & Ht & H'). split_and!; [done|done|].
    intros i Hi. rewrite H' by done. f_equal. case_decide as Hi'.
    + subst i. rewrite Hs. symmetry. by apply list_lookup_middle.
    + destruct (decide (i < length (f_items f))%nat).
      * by rewrite lookup_app_l.
      * rewrite !(proj2 (lookup_ge_None _ _)); [done| |lia].
        rewrite length_app; simpl; lia.
Qed.

Lemma pop_locked_rep q f v vs :
  bq_rep q f -> f_items f = v :: vs ->
  exists q', pop_locked q = Ok (Some v, q') /\
    bq_rep q' (Fifo vs (f_cap f) (f_closed f)).
Proof.
  intros (Hc & Hcl & Hs & Hle & Hh & Hr) Hf.
  pose proof Hr as (_ & Ht & _).
  destruct (ring_advance _ _ _ _ None Hr) as (buf & Hst & Hr').
  unfold pop_locked. rewrite (ring_fetch _ _ _ _ Hr), Hst. mrun. rewrite Hf in *.
  simpl in *. eexists; split; [done|]. split_and!; simpl; try done || lia.
  - rewrite Hh, Hs. rewrite Nat.Div0.add_mod_idemp_l. f_equal. lia.
  - destruct Hr' as (Hl & Ht' & H'). split_and!; [done|done|].
    intros i Hi. rewrite H' by done. f_equal. case_decide as Hi'; [|done].
    symmetry. apply lookup_ge_None. lia.
Qed.

Lemma bq_push_rep (blocking : bool) v q f :
  bq_rep q f ->
  exists r q' f',
    (if negb (not_full q) then Ok (if blocking then RBlocked else RBool false, q)
     else if bq_closed q then Ok (RBool false, q)
     else q' ← bq_enqueue v q; Ok (RBool true, q')) = Ok (r, q') /\
    fifo_push blocking v f = (r, f') /\ bq_rep q' f'.
Proof.
  intros Hrep. pose proof Hrep as (Hc & Hcl & Hs & Hle & _).
  unfold fifo_push, not_full. rewrite Hc, Hcl, Hs.
  destruct (f_closed f) eqn:Hclosed.
  { rewrite orb_true_r; simpl. eauto 10. }
  destruct (Nat.ltb_spec (length (f_items f)) (f_cap f)) as [Hlt|Hge]; simpl.
  - destruct (bq_enqueue_rep q f v Hrep Hlt) as (q' & -> & Hrep').
    rewrite Hclosed in Hrep'. eauto 10.
  - eauto 10.
Qed.

Lemma bq_pop_rep (blocking : bool) q f :
  bq_rep q f ->
  exists r q' f',
    (if negb (not_empty q) then Ok (if blocking then RBlocked else RVal None, q)
     else if (bq_size q =? 0)%nat then Ok (RVal None, q)
     else '(v, q') ← pop_locked q; Ok (RVal v, q')) = Ok (r, q') /\
    fifo_pop blocking f = (r, f') /\ bq_rep q' f'.
Proof.
  intros Hrep. pose proof Hrep as (Hc & Hcl & Hs & Hle & _).
  unfold fifo_pop, not_empty. rewrite Hcl, Hs.
  destruct (f_items f) as [|v vs] eqn:Hf; simpl.
  - destruct (f_closed f); simpl; [rewrite andb_false_r|rewrite andb_true_r]; eauto 10.
  - destruct (pop_locked_rep q f v vs Hrep Hf) as (q' & -> & Hrep'). mrun. eauto 10.
Qed.

Lemma bq_exec_rep op q f :
  bq_rep q f ->
  exists r q' f', bq_exec op q = Ok (r, q') /\ fifo_exec op f = (r, f') /\ bq_rep q' f'.
Proof.
  intros Hrep. pose proof Hrep as (Hc & Hcl & Hs & Hle & Hh & Hr).
  destruct op as [v|v|e v| | |e| | | |]; simpl.
  - apply (bq_push_rep true v q f Hrep).
  - destruct (bq_push_rep false v q f Hrep) as (r & q' & f' & He & Hf & Hr').
    exists r, q', f'; split_and!; [|done..]. rewrite <-He. unfold try_push, not_full.
    rewrite Hc, Hs. destruct (bq_closed q); simpl; [by rewrite orb_true_r|].
    rewrite orb_false_r.
    destruct (Nat.ltb_spec (length (f_items f)) (f_cap f)),
             (Nat.leb_spec (f_cap f) (length (f_items f))); done || lia.
  - destruct (bq_push_rep (negb e) v q f Hrep) as (r & q' & f' & He & Hf & Hr').
    exists r, q', f'; split_and!; [|done..]. rewrite <-He. by destruct e.
  - apply (bq_pop_rep true q f Hrep).
  - destruct (bq_pop_rep false q f Hrep) as (r & q' & f' & He & Hf & Hr').
    exists r, q', f'; split_and!; [|done..]. rewrite <-He. unfold try_pop, not_empty.
    destruct (Nat.eqb_spec (bq_size q) 0) as [->|Hne]; simpl.
    + by destruct (bq_closed q).
    + by destruct (Nat.ltb_spec 0 (bq_size q)); [|lia].
  - destruct (bq_pop_rep (negb e) q f Hrep) as (r & q' & f' & He & Hf & Hr').
    exists r, q', f'; split_and!; [|done..]. rewrite <-He. by destruct e.
  - eexists _, _, _; split_and!; [done..|].
    by split_and!.
  - rewrite Hs. eauto 10.
  - rewrite Hc. eauto 10.
  - rewrite Hcl. eauto 10.
Qed.
(** ** Invariants of the threaded system *)

(** Nobody stays parked while his condition holds: parked consumers imply that
    every queued item has a consumer on its way, parked producers that every
    free cell has a producer on its way; nobody is parked once the queue is
    closed. *)
Definition winv (f : fifo) (s : bsys) : Prop :=
  (f_closed f = true -> nf_wait s = 0%nat /\ ne_wait s = 0%nat) /\
  (nf_wait s = 0%nat \/ (f_cap f - length (f_items f) <= nf_woken s)%nat) /\
  (ne_wait s = 0%nat \/ (length (f_items f) <= ne_woken s)%nat).

(** The same with the resuming thread no longer counted. *)
Definition winv_entered (op : bop) (f : fifo) (s : bsys) : Prop :=
  let dp := match op with OPush _ | OTryPushFor _ _ => 1%nat | _ => 0%nat end in
  let dc := match op with OPop | OTryPopFor _ => 1%nat | _ => 0%nat end in
  (f_closed f = true -> nf_wait s = 0%nat /\ ne_wait s = 0%nat) /\
  (nf_wait s = 0%nat \/ (f_cap f - length (f_items f) <= nf_woken s + dp)%nat) /\
  (ne_wait s = 0%nat \/ (length (f_items f) <= ne_woken s + dc)%nat).

Lemma enter_winv op s s1 f :
  winv f s -> enter op s s1 -> winv_entered op f s1 /\ bs_q s1 = bs_q s.
Proof.
  intros (H1 & H2 & H3) He. destruct He; simpl in *; (split; [|done]);
    unfold winv_entered; simpl; split_and!; try done; try lia.
  all: destruct op; simpl; lia.
Qed.

Lemma after_winv op r f f' s q' :
  fifo_exec op f = (r, f') -> (length (f_items f) <= f_cap f)%nat ->
  winv_entered op f s -> winv f' (after op r (set_q q' s)).
Proof.
  intros Hx Hle (H1 & H2 & H3).
  destruct s as [q nfw nfk new nek], f as [xs cap cl]; simpl in *.
  destruct op; simpl in Hx; unfold fifo_push, fifo_pop in Hx; simpl in Hx.
  1-3: destruct cl; [|destruct (Nat.ltb_spec (length xs) cap)];
    simplify_eq; try destruct expired; simpl in *; unfold winv; simpl;
    try (destruct new; simpl); rewrite ?length_app; simpl;
    (split_and!; intros; try discriminate; lia).
  1-3: destruct xs as [|x xs]; simpl in *; [|]; destruct cl; simpl in *;
    simplify_eq; try destruct expired; simpl in *; unfold winv; simpl;
    try (destruct nfw; simpl); (split_and!; intros; try discriminate; lia).
  all: destruct cl; try specialize (H1 eq_refl); simplify_eq; unfold winv; simpl;
    split_and!; intros; try discriminate; lia.
Qed.

Lemma fifo_exec_trace op r f f' tr :
  fifo_exec op f = (r, f') ->
  pushed tr = popped tr ++ f_items f ->
  pushed (tr ++ [(op, r)]) = popped (tr ++ [(op, r)]) ++ f_items f'.
Proof.
  intros Hx Htr. unfold pushed, popped in *. rewrite !omap_app, Htr, <-!app_assoc.
  f_equal. destruct f as [xs cap cl].
  destruct op; simpl in *; unfold fifo_push, fifo_pop in Hx; simpl in Hx.
  1-3: destruct cl; [|destruct (Nat.ltb_spec (length xs) cap)];
    simplify_eq/=; try destruct expired; simpl; by rewrite ?app_nil_r.
  1-3: destruct xs as [|x xs]; [destruct cl|]; simplify_eq/=;
    try destruct expired; simpl; by rewrite ?app_nil_r.
  all: simplify_eq/=; by rewrite ?app_nil_r.
Qed.

Lemma fifo_exec_cap op r f f' :
  fifo_exec op f = (r, f') -> f_cap f' = f_cap f.
Proof.
  intros Hx. destruct op; simpl in Hx; unfold fifo_push, fifo_pop in Hx;
    repeat case_match; simplify_eq/=; done.
Qed.

Definition binv (cap : nat) (tr : list (bop * bret)) (s : bsys) : Prop :=
  exists f, bq_rep (bs_q s) f /\ f_cap f = cap /\ winv f s /\
    pushed tr = popped tr ++ f_items f.

Lemma bstep_binv cap tr s l s' :
  binv cap tr s -> bstep s l s' -> binv cap (tr ++ option_list l) s'.
Proof.
  intros (f & Hrep & Hcap & Hw & Htr) Hst.
  destruct Hst as [op r s s1 q' Hen Hex|q nfw nfk new nek|q nfw nfk new nek].
  - destruct (enter_winv _ _ _ _ Hw Hen) as [Hwe Hq]. rewrite <-Hq in Hrep.
    destruct (bq_exec_rep op _ f Hrep) as (r' & q'' & f' & He & Hf & Hrep').
    rewrite Hex in He. simplify_eq. exists f'. split_and!.
    + by destruct op, r'; simpl; try case_match; try case_match.
    + by eapply fifo_exec_cap.
    + eapply after_winv; [done| |done]. by destruct Hrep as (_&_&_&?&_).
    + by eapply fifo_exec_trace.
  - exists f; simpl in *. rewrite app_nil_r. split_and!; try done.
    destruct Hw as (Hc&?&?); unfold winv; simpl in *.
    split_and!; [intros Hcl; specialize (Hc Hcl)|..]; lia.
  - exists f; simpl in *. rewrite app_nil_r. split_and!; try done.
    destruct Hw as (Hc&?&?); unfold winv; simpl in *.
    split_and!; [intros Hcl; specialize (Hc Hcl)|..]; lia.
Qed.

Lemma brun_call s0 tr s op r s1 q' s2 :
  brun s0 tr s -> enter op s s1 -> bq_exec op (bs_q s1) = Ok (r, q') ->
  s2 = after op r (set_q q' s1) -> brun s0 (tr ++ [(op, r)]) s2.
Proof.
  intros Hrun Hen Hex ->.
  apply (brun_snoc _ _ s (Some (op, r))); [done|by econstructor].
Qed.

Lemma brun_binv cap q tr s :
  BoundedQueue_new cap = Ok q -> brun (bsys_init q) tr s -> binv cap tr s.
Proof.
  intros Hnew Hrun. remember (bsys_init q) as s0 eqn:Hs0.
  induction Hrun as [s|s tr s1 l s2 Hrun IH Hst]; subst.
  - exists (Fifo [] cap false). split_and!; [by apply bq_rep_new|done|..].
    + by split_and!; simpl; [| left|left].
    + done.
  - eapply bstep_binv; eauto.
Qed.
End bounded_queue.

Arguments bq : clear implicits.
Arguments bop : clear implicits.
Arguments bret : clear implicits.
Arguments fifo : clear implicits.
Arguments bsys : clear implicits.

(** ** Properties *)

(** C1: refinement.  For every queue that represents an abstract FIFO
    (contents in order, capacity, closed flag) and every method of the class,
    the method has no undefined behaviour and produces exactly the result and
    the contents of the FIFO's operation: pushes append while there is room
    and the queue is open, block or refuse when it is full, refuse when it is
    closed; pops deliver the oldest item, also after [shutdown], and block,
    or report nothing once closed or timed out, when it is empty. *)
Theorem bounded_queue_refines_fifo {T} (op : bop T) (q : bq T) (f : fifo T) :
  bq_rep q f ->
  exists r q' f',
    bq_exec op q = Ok (r, q') /\ fifo_exec op f = (r, f') /\ bq_rep q' f'.
Proof. apply bq_exec_rep. Qed.

Lemma bounded_queue_refines_fifo_witness :
  exists q : bq nat, BoundedQueue_new 2 = Ok q /\
  exists r q' f',
    bq_exec (OPush 7) q = Ok (r, q') /\
    fifo_exec (OPush 7) (Fifo [] 2 false) = (r, f') /\ bq_rep q' f'.
Proof.
  exists (BQ [None; None] 2 0 0 0 false). split; [reflexivity|].
  apply (bounded_queue_refines_fifo (OPush 7)). by apply (bq_rep_new 2).
Defined.

(** C2: FIFO linearizability and the capacity bound.  In every run of any
    number of producer and consumer threads (calls in any interleaving,
    blocked threads, spurious wake-ups, timeouts, [shutdown]), the values
    accepted so far are, in order, the values handed out so far followed by
    the values still queued, the queue never holds more than [capacity]
    items, and what [size()] reports is their number. *)
Theorem bounded_queue_fifo_linearizable {T} (cap : nat) (q : bq T) tr s :
  BoundedQueue_new cap = Ok q -> brun (bsys_init q) tr s ->
  exists items, bq_rep (bs_q s) (Fifo items cap (bq_closed (bs_q s))) /\
    pushed tr = popped tr ++ items /\ (length items <= cap)%nat /\
    bq_size (bs_q s) = length items.
Proof.
  intros Hnew Hrun.
  destruct (brun_binv _ _ _ _ Hnew Hrun) as ([xs c cl] & Hrep & Hcap & _ & Htr).
  pose proof Hrep as (_ & Hcl & Hs & Hle & _). simpl in *. subst c cl.
  exists xs. by split_and!.
Qed.

(** Two producers and a consumer on a one-cell queue: the second producer
    parks, the pop notifies him, and he completes. *)
Definition bq_demo_trace : list (bop nat * bret nat) :=
  [(OPush 1, RBool true); (OPush 2, RBlocked); (OPop, RVal (Some 1));
   (OPush 2, RBool true)]%nat.

Lemma bq_demo_parked :
  brun (bsys_init (BQ [None] 1 0 0 0 false)) (take 2 bq_demo_trace)
       (BSys (BQ [Some 1%nat] 1 0 0 1 false) 1 0 0 0).
Proof.
  eapply (brun_call _ [(OPush 1, RBool true)]%nat);
    [eapply (brun_call _ []); [apply brun_nil|apply enter_fresh|reflexivity..]|
     apply enter_fresh|reflexivity..].
Qed.

Lemma bq_demo_run :
  brun (bsys_init (BQ [None] 1 0 0 0 false)) bq_demo_trace
       (BSys (BQ [Some 2%nat] 1 0 0 1 false) 0 0 0 0).
Proof.
  eapply (brun_call _ (take 3 bq_demo_trace) (BSys (BQ [None] 1 0 0 0 false) 0 1 0 0));
    [eapply (brun_call _ (take 2 bq_demo_trace));
       [exact bq_demo_parked|apply enter_fresh|reflexivity..]|
     apply enter_push|reflexivity..].
Qed.

Lemma bounded_queue_fifo_linearizable_witness :
  exists items : list nat, pushed bq_demo_trace = popped bq_demo_trace ++ items /\
    (length items <= 1)%nat.
Proof.
  destruct (bounded_queue_fifo_linearizable 1 (BQ [None] 1 0 0 0 false)
              bq_demo_trace (BSys (BQ [Some 2%nat] 1 0 0 1 false) 0 0 0 0)
              eq_refl bq_demo_run) as (items & _ & H1 & H2 & _).
  exists items. split; assumption.
Defined.

(** C3: no lost wake-up.  In every reachable state of the threaded system, a
    consumer parked in [pop]/[try_pop_for] while items are queued has at
    least as many consumers already notified as there are items, a parked
    producer has at least as many producers notified as there are free cells,
    and nobody is parked after [shutdown]; in particular a state in which no
    thread is on its way and somebody is parked is one where the queue is
    open and the condition he waits for is false. *)
Theorem bounded_queue_no_lost_wakeup {T} (cap : nat) (q : bq T) tr s :
  BoundedQueue_new cap = Ok q -> brun (bsys_init q) tr s ->
  ((0 < ne_wait s)%nat -> (bq_size (bs_q s) <= ne_woken s)%nat) /\
  ((0 < nf_wait s)%nat -> (cap - bq_size (bs_q s) <= nf_woken s)%nat) /\
  (bq_closed (bs_q s) = true -> nf_wait s = 0%nat /\ ne_wait s = 0%nat) /\
  (ne_woken s = 0%nat -> (0 < ne_wait s)%nat ->
     not_empty (bs_q s) = false) /\
  (nf_woken s = 0%nat -> (0 < nf_wait s)%nat ->
     not_full (bs_q s) = false).
Proof.
  intros Hnew Hrun.
  destruct (brun_binv _ _ _ _ Hnew Hrun) as (f & Hrep & Hcap & (H1 & H2 & H3) & _).
  destruct Hrep as (Hc & Hcl & Hs & Hle & _). rewrite <-Hcl in H1.
  unfold not_empty, not_full. rewrite Hc, Hs, Hcap.
  destruct (bq_closed (bs_q s)) eqn:E.
  { destruct (H1 eq_refl). split_and!; intros; lia. }
  rewrite !orb_false_r, !Nat.ltb_ge. split_and!; intros; try discriminate; lia.
Qed.

Lemma bounded_queue_no_lost_wakeup_witness :
  let s := BSys (BQ [Some 1%nat] 1 0 0 1 false) 1 0 0 0 in
  (0 < nf_wait s)%nat /\ (1 - bq_size (bs_q s) <= nf_woken s)%nat /\
  not_full (bs_q s) = false.
Proof.
  destruct (bounded_queue_no_lost_wakeup 1 (BQ [None] 1 0 0 0 false)
              (take 2 bq_demo_trace) _ eq_refl bq_demo_parked) as (_ & H2 & _ & _ & H5).
  simpl in *. split_and!; [lia|apply H2; lia|apply H5; simpl; lia].
Defined.
