(* ===== verification/Sync.v ===== *)
(** * Synchronisation primitives (include/jthread.hpp)

    [Semaphore], [AutoSemaphore], [Sync], [SyncAck], the bounded event queue
    [Queue<T>] and the unbounded [Queue1To1<T>].  Each class is a [Monitor]:
    its methods are atomic under its mutex and [None] is a caller that parks
    on the class's condition variable. *)

From S2P Require Import Prelude Monitor.

(** ** [Mutex] and [AutoLock] *)
Module Mutex.
(** The thread that holds it. *)
Definition mutex : Type := option nat.

Definition lock (t : nat) (m : mutex) : option mutex :=
  match m with None => Some (Some t) | Some _ => None end.
Definition try_lock (t : nat) (m : mutex) : bool * mutex :=
  match m with None => (true, Some t) | Some _ => (false, m) end.
Definition unlock (m : mutex) : mutex := None.

(** The scope of an [AutoLock]: the constructor locks, the destructor unlocks;
    [body] is what runs in between. *)
Definition AutoLock {A} (t : nat) (body : A -> A) (s : mutex * A) : option (mutex * A) :=
  m ← lock t s.1; Some (unlock m, body s.2).
End Mutex.

(** ** [Semaphore] *)
Module Semaphore.
(** [count_] is an [unsigned]: 32 bits, wrapping. *)
Record semaphore : Type := Sem { count : N }.

#[global] Instance semaphore_eq_dec : EqDecision semaphore.
Proof. solve_decision. Defined.

Definition uint (n : N) : N := (n mod 2 ^ 32)%N.

Definition new (value : N) : semaphore := Sem (uint value).

Definition reset_count (value : N) (s : semaphore) : bool * semaphore :=
  (true, Sem (uint value)).

Definition wait (s : semaphore) : option semaphore :=
  if (0 <? count s)%N then Some (Sem (count s - 1)) else None.

(** [wait(msecs)]: [expired] when the timeout has passed. *)
Definition wait_ms (expired : bool) (s : semaphore) : option (Z * semaphore) :=
  let ok := (0 <? count s)%N in
  if ok then Some (1%Z, Sem (count s - 1))
  else if expired then Some (0%Z, s) else None.

Definition signal (s : semaphore) : semaphore := Sem (uint (count s + 1)).

Definition lock (s : semaphore) : option (bool * semaphore) :=
  s' ← wait s; Some (true, s').

Definition lock_ms (expired : bool) (s : semaphore) : option (bool * semaphore) :=
  '(r, s') ← wait_ms expired s; Some ((r =? 1)%Z, s').

Definition unlock (s : semaphore) : bool * semaphore := (true, signal s).

(** [unlock(lCount)]: the loop runs [max 0 lCount] times. *)
Definition unlock_n (lCount : Z) (s : semaphore) : bool * semaphore :=
  (true, Nat.iter (Z.to_nat lCount) signal s).

Definition will_block (s : semaphore) : Z := if (count s =? 0)%N then 1%Z else 0%Z.

(** [AutoSemaphore]: a scope that waits on entry and signals on exit. *)
Definition AutoSemaphore_ctor : semaphore -> option semaphore := wait.
Definition AutoSemaphore_dtor : semaphore -> semaphore := signal.

(** [Sync] starts at zero. *)
Definition Sync_new : semaphore := new 0.

Inductive op : Type :=
| OWait | OWaitMs (expired : bool) | OSignal | OWillBlock.

Definition exec (o : op) (s : semaphore) : option (Z * semaphore) :=
  match o with
  | OWait => s' ← wait s; Some (1%Z, s')
  | OWaitMs e => wait_ms e s
  | OSignal => Some (1%Z, signal s)
  | OWillBlock => Some (will_block s, s)
  end.

#[global] Instance monitor : Monitor semaphore op Z := {|
  mon_exec := exec;
  mon_effect o _ := match o with OSignal => NotifyOne | _ => Quiet end;
  mon_blocking o := match o with OWait | OWaitMs _ => true | _ => false end;
  mon_avail s := N.to_nat (count s);
  mon_open _ := true;
|}.

Lemma uint_le n : (uint n <= n)%N.
Proof. unfold uint. apply N.Div0.mod_le. Qed.

Lemma uint_small n : (n < 2 ^ 32)%N -> uint n = n.
Proof. unfold uint. apply N.mod_small. Qed.

#[global] Instance monitor_laws : MonitorLaws semaphore op Z.
Proof.
  split; intros o s; simpl.
  - destruct o; simpl; unfold wait, wait_ms; simpl;
      destruct (N.ltb_spec 0 (count s)); simpl; try done.
    + intros _. split_and!; [done|lia|done].
    + destruct expired; [done|]. intros _. split_and!; [done|lia|done].
  - intros r s' He Hf. destruct o; try done; simpl in *; unfold wait, wait_ms in He;
      destruct (N.ltb_spec 0 (count s)); simplify_eq/=; try done;
      try destruct expired; simplify_eq/=; (split; [|done]); lia.
  - intros r s' He Hf. destruct o; simplify_eq/=. split_and!; try done.
    pose proof (uint_le (count s + 1)). lia.
  - intros r s' He Hb. destruct o; try done; simpl in *; unfold wait, wait_ms in He;
      destruct (N.ltb_spec 0 (count s)); simplify_eq/=;
      try destruct expired; simplify_eq/=; (split; [|done]); lia.
Qed.

(** [unlock(n)] releases [n] units, modulo the width of the counter. *)
Lemma unlock_n_spec n s :
  (0 <= n)%Z -> (count s + Z.to_N n < 2 ^ 32)%N ->
  unlock_n n s = (true, Sem (count s + Z.to_N n)).
Proof.
  intros Hn Hfit. unfold unlock_n. f_equal.
  assert (forall k : nat, (count s + N.of_nat k < 2 ^ 32)%N ->
            Nat.iter k signal s = Sem (count s + N.of_nat k)) as Hk.
  { induction k as [|k IH]; intros Hlt.
    - simpl. destruct s; simpl. f_equal. lia.
    - rewrite Nat.iter_succ, IH by lia. unfold signal; simpl.
      rewrite uint_small by lia. f_equal. lia. }
  rewrite Hk by lia. f_equal. lia.
Qed.
End Semaphore.

(** ** [SyncAck]: a signal that waits to be acknowledged *)
Module SyncAck.
Import Semaphore.

(** The [Sync] part, the [ack_] semaphore, the signallers between the two
    halves of [signal()], and counters of finished [signal()] and [ack()]
    calls. *)
Record state : Type := SA {
  sa_sync : semaphore; sa_ack : semaphore; sa_in_flight : nat;
  sa_signalled : nat; sa_acked : nat;
}.

Definition init : state := SA Sync_new Sync_new 0 0 0.

Inductive step : state -> state -> Prop :=
| signal_post sy a n d k :
    step (SA sy a n d k) (SA (signal sy) a (S n) d k)
| signal_acked sy a a' n d k :
    wait a = Some a' -> step (SA sy a (S n) d k) (SA sy a' n (S d) k)
| do_ack sy a n d k :
    step (SA sy a n d k) (SA sy (signal a) n d (S k))
| do_wait sy sy' a n d k :
    wait sy = Some sy' -> step (SA sy a n d k) (SA sy' a n d k).

Definition inv (s : state) : Prop :=
  (sa_signalled s + N.to_nat (count (sa_ack s)) <= sa_acked s)%nat.

Lemma inv_reachable s : rtc step init s -> inv s.
Proof.
  apply (rtc_ind_r inv); [by apply Nat.leb_le|]. intros x y _ Hst IH. unfold inv in *.
  destruct Hst as [| sy a a' n d k Hw| |]; simpl in *; try lia.
  - unfold wait in Hw. destruct (N.ltb_spec 0 (count a)); simplify_eq/=. lia.
  - pose proof (uint_le (count a + 1)). lia.
Qed.
End SyncAck.

(** ** [Queue<T>]: the bounded event queue *)
Module Queue.
Section queue.
Context {T : Type}.

(** [q_scratch] is the member the pointer-returning methods fill; a pointer
    they return reads whatever [q_scratch] holds at that moment. *)
Record queue : Type := Q {
  q_items : list T; q_max : Z; q_scratch : T; q_closed : bool;
}.

Definition new (dflt : T) (n : Z) : queue := Q [] n dflt false.

Definition size_int (q : queue) : Z := s32 (Z.of_nat (length (q_items q))).

Definition put (item : T) (q : queue) : Z * queue :=
  if q_closed q || (q_max q <=? size_int q)%Z then ((-1)%Z, q)
  else (0%Z, Q (q_items q ++ [item]) (q_max q) (q_scratch q) (q_closed q)).

Definition ready (q : queue) : bool :=
  match q_items q with [] => q_closed q | _ :: _ => true end.

(** A non-null result is the address of [q_scratch]. *)
Definition get (q : queue) : option (bool * queue) :=
  if negb (ready q) then None
  else match q_items q with
       | [] => Some (false, q)
       | x :: xs => Some (true, Q xs (q_max q) x (q_closed q))
       end.

Definition try_get (q : queue) : bool * queue :=
  match q_items q with
  | [] => (false, q)
  | x :: xs => (true, Q xs (q_max q) x (q_closed q))
  end.

Definition try_get_timed (expired : bool) (q : queue) : option (bool * queue) :=
  if negb (ready q) then (if expired then Some (false, q) else None)
  else match q_items q with
       | [] => Some (false, q)
       | x :: xs => Some (true, Q xs (q_max q) x (q_closed q))
       end.

Definition pop (q : queue) : option (option T * queue) :=
  if negb (ready q) then None
  else match q_items q with
       | [] => Some (None, q)
       | x :: xs => Some (Some x, Q xs (q_max q) (q_scratch q) (q_closed q))
       end.

Definition try_pop (q : queue) : option T * queue :=
  match q_items q with
  | [] => (None, q)
  | x :: xs => (Some x, Q xs (q_max q) (q_scratch q) (q_closed q))
  end.

Definition shutdown (q : queue) : queue :=
  Q (q_items q) (q_max q) (q_scratch q) true.

(** What a returned pointer reads. *)
Definition deref (q : queue) : T := q_scratch q.

(** The methods, and the read through a pointer some [get] has returned: a
    step of its own, since it is outside the lock. *)
Inductive op : Type :=
| OPut (x : T) | OGet | OTryGet | OTryGetTimed (expired : bool)
| OPop | OTryPop | OLength | OShutdown | ORead.

(** Results: a code, a pointer ([true] for [&scratch_], [false] for null), a
    value. *)
Inductive ret : Type := RCode (z : Z) | RPtr (b : bool) | RGot (x : option T) | RUnit.

Definition exec (o : op) (q : queue) : option (ret * queue) :=
  match o with
  | OPut x => let r := put x q in Some (RCode r.1, r.2)
  | OGet => r ← get q; Some (RPtr r.1, r.2)
  | OTryGet => let r := try_get q in Some (RPtr r.1, r.2)
  | OTryGetTimed e => r ← try_get_timed e q; Some (RPtr r.1, r.2)
  | OPop => r ← pop q; Some (RGot r.1, r.2)
  | OTryPop => let r := try_pop q in Some (RGot r.1, r.2)
  | OLength => Some (RCode (size_int q), q)
  | OShutdown => Some (RUnit, shutdown q)
  | ORead => Some (RGot (Some (deref q)), q)
  end.

#[global] Instance monitor : Monitor queue op ret := {|
  mon_exec := exec;
  mon_effect o r := match o, r with
    | OPut _, RCode 0%Z => NotifyOne
    | OShutdown, _ => NotifyAll
    | _, _ => Quiet
    end;
  mon_blocking o := match o with OGet | OTryGetTimed _ | OPop => true | _ => false end;
  mon_avail q := length (q_items q);
  mon_open q := negb (q_closed q);
|}.

#[global] Instance monitor_laws : MonitorLaws queue op ret.
Proof.
  split; intros o [xs mx sc cl]; simpl.
  - destruct o; simpl; unfold get, try_get_timed, pop, ready; simpl; try done;
      destruct xs, cl; simpl; try done; by destruct expired.
  - intros r s' He Hf.
    destruct o; simpl in *; unfold put, get, try_get, try_get_timed, pop, try_pop, ready in *;
      simpl in *.
    1: destruct (cl || _); simplify_eq/=; done || (split; [lia|done]).
    all: destruct xs, cl; simplify_eq/=; try destruct expired; simplify_eq/=;
      try done; split; lia || done.
  - intros r s' He Hf. destruct o; simpl in *; try done.
    unfold put in He; simpl in He. destruct (cl || _); simplify_eq/=.
    rewrite length_app; simpl. split_and!; [lia|done|done].
  - intros r s' He Hb.
    destruct o; try done; simpl in *;
      unfold get, try_get_timed, pop, ready in *; simpl in *; destruct xs, cl; simplify_eq/=; try destruct expired;
      simplify_eq/=; try done; split; lia || done.
Qed.

Definition puts (tr : list (op * ret)) : list T :=
  omap (fun e => match e with (OPut x, RCode 0%Z) => Some x | _ => None end) tr.

(** The values consumers have got hold of: popped, or read through a pointer. *)
Definition gots (tr : list (op * ret)) : list T :=
  omap (fun e => match e.2 with RGot (Some x) => Some x | _ => None end) tr.

(** The number of items taken off the queue. *)
Definition took (e : op * ret) : nat :=
  match e with (ORead, _) => 0 | (_, RPtr true) | (_, RGot (Some _)) => 1 | _ => 0 end.
Definition takes (tr : list (op * ret)) : nat := sum_list_with took tr.

(** The two ways the contract in the header allows.  By value: nobody uses the
    pointer methods.  By pointer: one consumer, which reads what it was given
    before it asks for more; [Some u] when the trace is of that kind, [u] telling
    whether a pointer has been returned and not been read yet. *)
Definition value_op (o : op) : bool :=
  match o with OGet | OTryGet | OTryGetTimed _ | ORead => false | _ => true end.
Definition by_value (tr : list (op * ret)) : Prop := Forall (fun e => value_op e.1) tr.
Definition pointer_step (u : option bool) (e : op * ret) : option bool :=
  match u, e with
  | Some false, (ORead, _) => None
  | Some true, (ORead, _) => Some false
  | Some false, (_, RPtr true) => Some true
  | Some true, (_, RPtr true) => None
  | Some _, (_, RGot (Some _)) => None
  | _, _ => u
  end.
Definition by_pointer (tr : list (op * ret)) : option bool := fold_left pointer_step tr (Some false).

(** What is on its way to the pointer consumer. *)
Definition in_hand (u : bool) (q : queue) : list T := if u then [q_scratch q] else [].

Record qinv (mx : Z) (tr : list (op * ret)) (q : queue) : Prop := {
  qi_max : q_max q = mx;
  qi_len : (Z.of_nat (length (q_items q)) <= Z.max 0 mx)%Z;
  qi_takes : exists taken, puts tr = taken ++ q_items q /\ length taken = takes tr;
  qi_value : by_value tr -> puts tr = gots tr ++ q_items q;
  qi_pointer : forall u, by_pointer tr = Some u -> puts tr = gots tr ++ in_hand u q ++ q_items q;
}.

Lemma qinv_new dflt mx : qinv mx [] (new dflt mx).
Proof.
  split; [done|simpl; lia|by exists []|done|]. intros u Hu. unfold by_pointer in Hu. by simplify_eq/=.
Qed.

Lemma size_int_small mx q : (mx <= INT32_MAX)%Z -> (Z.of_nat (length (q_items q)) <= Z.max 0 mx)%Z ->
  size_int q = Z.of_nat (length (q_items q)).
Proof. intros Hmx Hl. apply swrap_small. unfold in_s32, INT32_MIN, INT32_MAX in *. lia. Qed.

(** What a call does to the items, and what the trace records of it: nothing, an
    item added at the back, one taken off the front into the scratch member or by
    value, or a read of the scratch member. *)
Definition idle_step (o : op) (r : ret) (q q' : queue) : Prop :=
  puts [(o, r)] = [] /\ gots [(o, r)] = [] /\ took (o, r) = 0%nat /\
  (forall u, pointer_step (Some u) (o, r) = Some u) /\ q_items q' = q_items q /\ q_scratch q' = q_scratch q.
Definition put_step (o : op) (r : ret) (q q' : queue) : Prop := exists x,
  puts [(o, r)] = [x] /\ gots [(o, r)] = [] /\ took (o, r) = 0%nat /\
  (forall u, pointer_step (Some u) (o, r) = Some u) /\ q_items q' = q_items q ++ [x] /\
  q_scratch q' = q_scratch q /\ (size_int q < q_max q)%Z.
Definition pointer_take (o : op) (r : ret) (q q' : queue) : Prop := exists x,
  puts [(o, r)] = [] /\ gots [(o, r)] = [] /\ took (o, r) = 1%nat /\ value_op o = false /\
  (forall u, pointer_step (Some u) (o, r) = if u then None else Some true) /\
  q_items q = x :: q_items q' /\ q_scratch q' = x.
Definition value_take (o : op) (r : ret) (q q' : queue) : Prop := exists x,
  puts [(o, r)] = [] /\ gots [(o, r)] = [x] /\ took (o, r) = 1%nat /\
  (forall u, pointer_step (Some u) (o, r) = None) /\ q_items q = x :: q_items q'.
Definition read_step (o : op) (r : ret) (q q' : queue) : Prop :=
  puts [(o, r)] = [] /\ gots [(o, r)] = [q_scratch q] /\ took (o, r) = 0%nat /\ value_op o = false /\
  (forall u, pointer_step (Some u) (o, r) = if u then Some false else None) /\ q' = q.

Lemma exec_cases o r q q' : exec o q = Some (r, q') -> q_max q' = q_max q /\
  (idle_step o r q q' \/ put_step o r q q' \/ pointer_take o r q q' \/ value_take o r q q' \/ read_step o r q q').
Proof.
  destruct q as [xs m sc cl]. unfold idle_step, put_step, pointer_take, value_take, read_step. intros He.
  destruct o; simpl in He; unfold put, get, try_get, try_get_timed, pop, try_pop, ready in He; simpl in He.
  1: destruct cl; simpl in He; [|destruct (Z.leb_spec m (size_int (Q xs m sc false)))]; simplify_eq/=;
    (split; [done|]); [left|left|right; left; exists x]; (split_and!; try done); by intros [].
  all: destruct xs, cl; simplify_eq/=; try destruct expired; simplify_eq/=; (split; [done|]).
  all: first [left; (split_and!; try done); by intros []
    | right; right; left; eexists; (split_and!; try done); by intros []
    | right; right; right; left; eexists; (split_and!; try done); by intros []
    | right; right; right; right; (split_and!; try done); by intros [] ].
Qed.

Lemma by_value_snoc tr o r : by_value (tr ++ [(o, r)]) -> by_value tr /\ value_op o = true.
Proof. intros [H1 H2]%Forall_app. split; [done|]. by apply Forall_singleton, Is_true_eq_true in H2. Qed.

Lemma by_pointer_snoc tr o r u : by_pointer (tr ++ [(o, r)]) = Some u ->
  exists u0, by_pointer tr = Some u0 /\ pointer_step (Some u0) (o, r) = Some u.
Proof.
  unfold by_pointer. rewrite fold_left_app. cbn [fold_left].
  destruct (fold_left pointer_step tr (Some false)) as [u0|]; [eauto|done].
Qed.

Lemma exec_qinv mx tr o r q q' :
  (mx <= INT32_MAX)%Z -> qinv mx tr q -> exec o q = Some (r, q') ->
  qinv mx (tr ++ [(o, r)]) q'.
Proof.
  intros Hmx [Hm Hlen (tk & Htk & Hn) Hv Hp] He. pose proof (size_int_small mx q Hmx Hlen) as Hsz.
  destruct (exec_cases o r q q' He) as (Hmax & Hcase).
  assert (puts (tr ++ [(o, r)]) = puts tr ++ puts [(o, r)]) as Hputs by apply omap_app.
  assert (gots (tr ++ [(o, r)]) = gots tr ++ gots [(o, r)]) as Hgots by apply omap_app.
  assert (takes (tr ++ [(o, r)]) = (takes tr + took (o, r))%nat) as Htakes
    by (unfold takes; rewrite sum_list_with_app; simpl; lia).
  split; rewrite ?Hmax, ?Hputs, ?Hgots, ?Htakes; [done|..].
  all: destruct Hcase as [(Hpu & Hgo & Hto & Hs & Hi & Hsc)|[(x & Hpu & Hgo & Hto & Hs & Hi & Hsc & Hroom)
    |[(x & Hpu & Hgo & Hto & Hvo & Hs & Hi & Hsc)|[(x & Hpu & Hgo & Hto & Hs & Hi)|(Hpu & Hgo & Hto & Hvo & Hs & ->)]]]];
    rewrite ?Hpu, ?Hgo, ?Hto, ?app_nil_r, ?Hi.
  1-5: rewrite ?Hi, ?length_app in *; simpl in *; lia.
  1-5: rewrite Htk, ?Hi.
  11-15: intros u (u0 & Hu0 & Hu)%by_pointer_snoc; rewrite Hs in Hu; rewrite (Hp u0 Hu0), ?Hi; unfold in_hand.
  6-10: intros (Hv0 & Ho)%by_value_snoc; rewrite (Hv Hv0), ?Hi; try congruence.
  - exists tk. split; [done|lia].
  - exists tk. rewrite <-app_assoc. split; [done|lia].
  - exists (tk ++ [x]). rewrite <-app_assoc, length_app. split; [done|simpl; lia].
  - exists (tk ++ [x]). rewrite <-app_assoc, length_app. split; [done|simpl; lia].
  - exists tk. split; [done|lia].
  - by rewrite <-app_assoc.
  - by rewrite <-app_assoc.
  - simplify_eq. by rewrite Hsc.
  - simplify_eq. by rewrite Hsc, <-!app_assoc.
  - by destruct u0; simplify_eq/=.
  - done.
  - destruct u0; simplify_eq. simpl. by rewrite <-app_assoc.
Qed.

Lemma run_qinv dflt mx tr c : (mx <= INT32_MAX)%Z -> cvrun (cv_init (new dflt mx)) tr c -> qinv mx tr (cv_obj c).
Proof.
  intros Hmx. apply cvrun_ind_obj; [apply qinv_new|]. intros. by eapply exec_qinv.
Qed.
End queue.
Arguments queue : clear implicits.
Arguments op : clear implicits.
Arguments ret : clear implicits.
End Queue.

(** ** [Queue1To1<T>]: the unbounded producer-consumer queue *)
Module Queue1To1.
Section queue.
Context {T : Type}.

Record queue : Type := Q { q_items : list T }.

Definition new : queue := Q [].
Definition put (x : T) (q : queue) : queue := Q (q_items q ++ [x]).
Definition get (q : queue) : option (T * queue) :=
  match q_items q with [] => None | x :: xs => Some (x, Q xs) end.
Definition try_get (q : queue) : option T * queue :=
  match q_items q with [] => (None, q) | x :: xs => (Some x, Q xs) end.
Definition qlength (q : queue) : Z := s32 (Z.of_nat (length (q_items q))).

Inductive op : Type := OPut (x : T) | OGet | OTryGet | OLength.
Inductive ret : Type := RUnit | RGot (x : option T) | RLen (z : Z).

Definition exec (o : op) (q : queue) : option (ret * queue) :=
  match o with
  | OPut x => Some (RUnit, put x q)
  | OGet => r ← get q; Some (RGot (Some r.1), r.2)
  | OTryGet => let r := try_get q in Some (RGot r.1, r.2)
  | OLength => Some (RLen (qlength q), q)
  end.

#[global] Instance monitor : Monitor queue op ret := {|
  mon_exec := exec;
  mon_effect o _ := match o with OPut _ => NotifyOne | _ => Quiet end;
  mon_blocking o := match o with OGet => true | _ => false end;
  mon_avail q := length (q_items q);
  mon_open _ := true;
|}.

#[global] Instance monitor_laws : MonitorLaws queue op ret.
Proof.
  split; intros o [xs]; simpl.
  - by destruct o, xs.
  - intros r s' He Hf. destruct o, xs; simplify_eq/=; try done; split; lia || done.
  - intros r s' He Hf. destruct o; simplify_eq/=.
    rewrite length_app; simpl. split_and!; [lia|done|done].
  - intros r s' He Hb. destruct o, xs; simplify_eq/=; try done; split; lia || done.
Qed.

Definition puts (tr : list (op * ret)) : list T :=
  omap (fun e => match e with (OPut x, RUnit) => Some x | _ => None end) tr.

Definition gots (tr : list (op * ret)) : list T :=
  omap (fun e => match e.2 with RGot (Some x) => Some x | _ => None end) tr.

Lemma exec_trace tr o r q q' :
  puts tr = gots tr ++ q_items q -> exec o q = Some (r, q') ->
  puts (tr ++ [(o, r)]) = gots (tr ++ [(o, r)]) ++ q_items q'.
Proof.
  intros Htr He. unfold puts, gots in *. rewrite !omap_app, Htr, <-!app_assoc.
  f_equal. destruct q as [xs]. destruct o; simplify_eq/=; rewrite ?app_nil_r; try done;
    destruct xs; simplify_eq/=; done.
Qed.
End queue.
Arguments queue : clear implicits.
Arguments op : clear implicits.
Arguments ret : clear implicits.
End Queue1To1.

(** ** Properties *)

(** C4: the event queue [Queue<T>] is a bounded FIFO without lost wake-ups.  In every
    run of any number of producers and consumers (blocking, timed or polling, with
    spurious wake-ups and [shutdown]) the items queued are those accepted by [put]
    less the ones taken, oldest first, and at most [max_] are queued; no consumer is
    parked after [shutdown]; and a consumer parked while items are queued has a
    notified consumer for every item.  When all consumers take by value, the values
    they got followed by the queued ones are the values accepted, in order.  When
    there is one consumer and it reads each pointer before it asks for the next,
    the values it read, the one it has yet to read and the queued ones are the
    values accepted, in order. *)
Theorem event_queue_fifo_no_lost_wakeup {T} (dflt : T) (n : Z) tr c :
  (n <= INT32_MAX)%Z ->
  cvrun (cv_init (Queue.new dflt n)) tr c ->
  (exists taken, Queue.puts tr = taken ++ Queue.q_items (cv_obj c) /\ length taken = Queue.takes tr) /\
  (Z.of_nat (length (Queue.q_items (cv_obj c))) <= Z.max 0 n)%Z /\
  (Queue.q_closed (cv_obj c) = true -> cv_wait c = 0%nat) /\
  ((0 < cv_wait c)%nat -> (length (Queue.q_items (cv_obj c)) <= cv_woken c)%nat) /\
  (Queue.by_value tr -> Queue.puts tr = Queue.gots tr ++ Queue.q_items (cv_obj c)) /\
  (forall unread, Queue.by_pointer tr = Some unread -> Queue.puts tr = Queue.gots tr ++
     (if unread then [Queue.deref (cv_obj c)] else []) ++ Queue.q_items (cv_obj c)).
Proof.
  intros Hn Hrun.
  destruct (monitor_no_lost_wakeup _ _ _ Hrun) as [H1 H2]. simpl in *.
  destruct (Queue.run_qinv dflt n tr c Hn Hrun) as [_ Hlen Htk Hv Hp].
  split_and!; [done|done| |lia|done|exact Hp]. intros Hcl. apply H1. by rewrite Hcl.
Qed.

Definition queue_demo_trace : list (Queue.op nat * Queue.ret nat) :=
  [(Queue.OPut 5%nat, Queue.RCode 0); (Queue.OGet, Queue.RPtr true); (Queue.ORead, Queue.RGot (Some 5%nat))].

(** A consumer parks on the empty queue, a put notifies it, and it takes and
    reads the item. *)
Lemma queue_demo_run :
  cvrun (cv_init (Queue.new 0%nat 2)) queue_demo_trace
        (CV (Queue.Q [] 2 5%nat false) 0 1).
Proof.
  eapply (cvrun_call _ [(Queue.OPut 5%nat, Queue.RCode 0); (Queue.OGet, Queue.RPtr true)]
            (Queue.Q [] 2 5%nat false) 0 1 Queue.ORead); [|reflexivity..].
  eapply (cvrun_call _ [(Queue.OPut 5%nat, Queue.RCode 0)] (Queue.Q [5%nat] 2 0%nat false) 0 1
            Queue.OGet); [|reflexivity..].
  eapply (cvrun_call _ [] (Queue.new 0%nat 2) 1 0 (Queue.OPut 5%nat)); [|reflexivity..].
  eapply (cvrun_park _ _ _ _ _ Queue.OGet); [apply cvrun_nil|reflexivity].
Qed.

Lemma event_queue_fifo_no_lost_wakeup_witness :
  Queue.puts queue_demo_trace = Queue.gots queue_demo_trace ++ [] ++ [] /\ (2 <= INT32_MAX)%Z.
Proof.
  assert (2 <= INT32_MAX)%Z as H2 by (unfold INT32_MAX; lia).
  split; [|exact H2].
  destruct (event_queue_fifo_no_lost_wakeup 0%nat 2 _ _ H2 queue_demo_run) as (_ & _ & _ & _ & _ & Hp).
  exact (Hp false eq_refl).
Defined.

(** Two pointer consumers break the contract: both read the second value, and the
    first is lost. *)
Lemma scratch_overwritten :
  let tr := [(Queue.OPut 5%nat, Queue.RCode 0); (Queue.OPut 6%nat, Queue.RCode 0);
             (Queue.OGet, Queue.RPtr true); (Queue.OGet, Queue.RPtr true);
             (Queue.ORead, Queue.RGot (Some 6%nat)); (Queue.ORead, Queue.RGot (Some 6%nat))] in
  cvrun (cv_init (Queue.new 0%nat 2)) tr (CV (Queue.Q [] 2 6%nat false) 0 0) /\
  Queue.gots tr = [6; 6]%nat /\ Queue.puts tr = [5; 6]%nat /\ Queue.by_pointer tr = None.
Proof.
  intros tr. split_and!; [|done..].
  eapply (cvrun_call _ (take 5 tr) (Queue.Q [] 2 6%nat false) 0 0 Queue.ORead); [|reflexivity..].
  eapply (cvrun_call _ (take 4 tr) (Queue.Q [] 2 6%nat false) 0 0 Queue.ORead); [|reflexivity..].
  eapply (cvrun_call _ (take 3 tr) (Queue.Q [6%nat] 2 5%nat false) 0 0 Queue.OGet); [|reflexivity..].
  eapply (cvrun_call _ (take 2 tr) (Queue.Q [5; 6]%nat 2 0%nat false) 0 0 Queue.OGet); [|reflexivity..].
  eapply (cvrun_call _ (take 1 tr) (Queue.Q [5%nat] 2 0%nat false) 0 0 (Queue.OPut 6%nat)); [|reflexivity..].
  eapply (cvrun_call _ [] (Queue.new 0%nat 2) 0 0 (Queue.OPut 5%nat)); [apply cvrun_nil|reflexivity..].
Qed.

(** C33: [Queue1To1<T>], the logger's queue: in every run nothing that was put
    is lost, duplicated or reordered, and a parked consumer of a non-empty
    queue has a notified consumer for every queued item. *)
Theorem queue1to1_fifo_no_lost_wakeup {T} tr (c : cvsys (Queue1To1.queue T)) :
  cvrun (cv_init Queue1To1.new) tr c ->
  Queue1To1.puts tr = Queue1To1.gots tr ++ Queue1To1.q_items (cv_obj c) /\
  ((0 < cv_wait c)%nat -> (length (Queue1To1.q_items (cv_obj c)) <= cv_woken c)%nat).
Proof.
  intros Hrun. destruct (monitor_no_lost_wakeup _ _ _ Hrun) as [_ H2]. simpl in *.
  split; [|lia]. revert Hrun.
  apply (cvrun_ind_obj (fun tr q =>
    Queue1To1.puts tr = Queue1To1.gots tr ++ Queue1To1.q_items q)); [done|].
  intros. by eapply Queue1To1.exec_trace.
Qed.

Lemma queue1to1_fifo_no_lost_wakeup_witness :
  let tr := [(Queue1To1.OPut 5%nat, Queue1To1.RUnit)] in
  Queue1To1.puts tr = Queue1To1.gots tr ++ [5%nat].
Proof.
  assert (cvrun (cv_init Queue1To1.new) [(Queue1To1.OPut 5%nat, Queue1To1.RUnit)]
            (CV (Queue1To1.Q [5%nat]) 0 0)) as Hrun.
  { eapply (cvrun_call _ [] Queue1To1.new 0 0 (Queue1To1.OPut 5%nat));
      [apply cvrun_nil|reflexivity..]. }
  exact (proj1 (queue1to1_fifo_no_lost_wakeup _ _ Hrun)).
Defined.

(** C34: [Semaphore] never strands a waiter while only [wait], [wait(msecs)]
    and [signal] are used: in every run from any initial count, if a thread
    is parked then at least as many threads as the counter have been notified
    and are on their way. *)
Theorem semaphore_no_lost_wakeup v tr (c : cvsys Semaphore.semaphore) :
  cvrun (cv_init (Semaphore.new v)) tr c -> (0 < cv_wait c)%nat ->
  (N.to_nat (Semaphore.count (cv_obj c)) <= cv_woken c)%nat.
Proof.
  intros Hrun Hw. destruct (monitor_no_lost_wakeup _ _ _ Hrun) as [_ H2].
  simpl in *. lia.
Qed.

Lemma semaphore_no_lost_wakeup_witness :
  let c : cvsys Semaphore.semaphore := CV (Semaphore.Sem 1) 1 1 in
  (N.to_nat (Semaphore.count (cv_obj c)) <= cv_woken c)%nat.
Proof.
  assert (cvrun (cv_init (Semaphore.new 0)) [(Semaphore.OSignal, 1%Z)]
            (CV (Semaphore.Sem 1) 1 1)) as Hrun.
  { eapply (cvrun_call _ [] (Semaphore.new 0) 2 0 Semaphore.OSignal); [|reflexivity..].
    eapply (cvrun_park _ _ _ _ _ Semaphore.OWait); [|reflexivity].
    eapply (cvrun_park _ _ _ _ _ Semaphore.OWait); [apply cvrun_nil|reflexivity]. }
  apply (semaphore_no_lost_wakeup _ _ _ Hrun). simpl. lia.
Defined.
