(* ===== verification/CircularQueue.v ===== *)
(** * The POD ring queue (include/util.hpp, [CircularQueue<TYPE, MAX>])

    [put] and [get] are three separate critical sections: a semaphore
    reservation, the ring update under [crit_sec_], and the release of the
    opposite semaphore.  The model keeps them as separate atomic steps, so
    that every interleaving of any number of producers and consumers is a
    run of [step]. *)

From S2P Require Import Prelude Ring Monitor Sync.

Section circular_queue.
Context {T : Type}.
(** The all-zero payload that [memset] leaves in a free node, and [MAX]. *)
Variable zero : T.
Variable MAX : nat.

Definition QNODE_SUCCESS : Z := 0.
Definition QNODE_BUFFER_FULL : Z := (-1)%Z.
Definition QNODE_BUFFER_EMPTY : Z := (-2)%Z.

(** A node: its payload and [in_use_]. *)
Record cq : Type := CQ {
  nodes : list (T * bool);
  front : nat;
  rear : nat;
  sem_put : Semaphore.semaphore;
  sem_get : Semaphore.semaphore;
}.

(** ** Methods *)

(** [initialize()]: the nodes zeroed, the indices and both counters reset. *)
Definition initialize (q : cq) : cq :=
  CQ (replicate MAX (zero, false)) 0 0
     (Semaphore.reset_count (N.of_nat (MAX - 1)) (sem_put q)).2
     (Semaphore.reset_count 0 (sem_get q)).2.

(** The members are default-constructed before the constructor's body. *)
Definition CircularQueue_new : cq :=
  initialize (CQ (replicate MAX (zero, false)) 0 0
                (Semaphore.new (N.of_nat (MAX - 1))) (Semaphore.new 0)).

Definition reset : cq -> cq := initialize.

Definition unlock_queue (q : cq) : cq :=
  CQ (nodes q) (front q) (rear q)
     (Semaphore.unlock (sem_put q)).2 (Semaphore.unlock (sem_get q)).2.

Definition queue_pos (q : cq) : nat * nat := (front q, rear q).
Definition queue_length (q : cq) : nat := MAX.
Definition empty (q : cq) : bool := (front q =? rear q)%nat.

(** The locked section of [put_impl]: a full ring gives the reservation back. *)
Definition put_locked (data : T) (q : cq) : outcome (Z * cq) :=
  let next_rear := (rear q + 1) mod MAX in
  if (next_rear =? front q)%nat then
    Ok (QNODE_BUFFER_FULL,
        CQ (nodes q) (front q) (rear q) (Semaphore.unlock (sem_put q)).2 (sem_get q))
  else
    ns ← store (rear q) (data, true) (nodes q);
    Ok (QNODE_SUCCESS, CQ ns (front q) next_rear (sem_put q) (sem_get q)).

(** The locked section of [get_impl]. *)
Definition get_locked (q : cq) : outcome (Z * option T * cq) :=
  if (front q =? rear q)%nat then
    Ok (QNODE_BUFFER_EMPTY, None,
        CQ (nodes q) (front q) (rear q) (sem_put q) (Semaphore.unlock (sem_get q)).2)
  else
    node ← fetch (front q) (nodes q);
    ns ← store (front q) (zero, false) (nodes q);
    Ok (QNODE_SUCCESS, Some node.1,
        CQ ns ((front q + 1) mod MAX) (rear q) (sem_put q) (sem_get q)).

Definition with_put (q : cq) (s : Semaphore.semaphore) : cq :=
  CQ (nodes q) (front q) (rear q) s (sem_get q).
Definition with_get (q : cq) (s : Semaphore.semaphore) : cq :=
  CQ (nodes q) (front q) (rear q) (sem_put q) s.

(** The whole calls, run without interference; [None] is a caller that
    parks on a semaphore.  [try_put]/[try_get] pass a zero timeout, which has
    expired as soon as the counter is zero. *)
Definition put_impl (nonblocking : bool) (data : T) (q : cq) : option (outcome (Z * cq)) :=
  let finish q1 :=
    '(r, q2) ← put_locked data q1;
    if (r =? QNODE_SUCCESS)%Z
    then Ok (r, with_get q2 (Semaphore.unlock (sem_get q2)).2)
    else Ok (r, q2) in
  if nonblocking then
    match Semaphore.lock_ms true (sem_put q) with
    | Some (false, _) => Some (Ok (QNODE_BUFFER_FULL, q))
    | Some (true, s) => Some (finish (with_put q s))
    | None => None
    end
  else
    match Semaphore.lock (sem_put q) with
    | Some (_, s) => Some (finish (with_put q s))
    | None => None
    end.

(** How [get_impl] reserves: [try_get], [get_timed] (with its timeout passed
    or not) and [get]. *)
Inductive get_mode : Type := Try | Timed (expired : bool) | Block.

Definition get_impl (mode : get_mode) (q : cq) : option (outcome (Z * option T * cq)) :=
  let finish q1 :=
    '(r, v, q2) ← get_locked q1;
    if (r =? QNODE_SUCCESS)%Z
    then Ok (r, v, with_put q2 (Semaphore.unlock (sem_put q2)).2)
    else Ok (r, v, q2) in
  let timed e :=
    match Semaphore.lock_ms e (sem_get q) with
    | Some (false, _) => Some (Ok (QNODE_BUFFER_EMPTY, None, q))
    | Some (true, s) => Some (finish (with_get q s))
    | None => None
    end in
  match mode with
  | Try => timed true
  | Timed e => timed e
  | Block =>
      match Semaphore.lock (sem_get q) with
      | Some (_, s) => Some (finish (with_get q s))
      | None => None
      end
  end.

(** ** All interleavings *)

(** Producers that hold a reservation (with their payload), producers that
    published and have not signalled yet, and the same for consumers. *)
Record sys : Type := Sys {
  sq : cq;
  p_reserved : list T;
  p_published : nat;
  c_reserved : nat;
  c_taken : nat;
}.

Inductive ev : Type :=
| EvPut (r : Z) (v : T)
| EvGet (r : Z) (v : option T)
| EvTau.

Inductive step : sys -> ev -> sys -> Prop :=
| s_put_reserve v q s P pp C cc :
    Semaphore.wait (sem_put q) = Some s ->
    step (Sys q P pp C cc) EvTau (Sys (with_put q s) (v :: P) pp C cc)
| s_try_put_full v q s P pp C cc :
    Semaphore.lock_ms true (sem_put q) = Some (false, s) ->
    step (Sys q P pp C cc) (EvPut QNODE_BUFFER_FULL v) (Sys q P pp C cc)
| s_put_locked v q q' P1 P2 pp C cc :
    put_locked v q = Ok (QNODE_SUCCESS, q') ->
    step (Sys q (P1 ++ v :: P2) pp C cc) (EvPut QNODE_SUCCESS v)
         (Sys q' (P1 ++ P2) (S pp) C cc)
| s_put_refused v q q' P1 P2 pp C cc :
    put_locked v q = Ok (QNODE_BUFFER_FULL, q') ->
    step (Sys q (P1 ++ v :: P2) pp C cc) (EvPut QNODE_BUFFER_FULL v)
         (Sys q' (P1 ++ P2) pp C cc)
| s_put_signal q P pp C cc :
    step (Sys q P (S pp) C cc) EvTau
         (Sys (with_get q (Semaphore.signal (sem_get q))) P pp C cc)
| s_get_reserve q s P pp C cc :
    Semaphore.wait (sem_get q) = Some s ->
    step (Sys q P pp C cc) EvTau (Sys (with_get q s) P pp (S C) cc)
| s_get_timeout q s P pp C cc :
    Semaphore.lock_ms true (sem_get q) = Some (false, s) ->
    step (Sys q P pp C cc) (EvGet QNODE_BUFFER_EMPTY None) (Sys q P pp C cc)
| s_get_locked q q' v P pp C cc :
    get_locked q = Ok (QNODE_SUCCESS, Some v, q') ->
    step (Sys q P pp (S C) cc) (EvGet QNODE_SUCCESS (Some v)) (Sys q' P pp C (S cc))
| s_get_refused q q' P pp C cc :
    get_locked q = Ok (QNODE_BUFFER_EMPTY, None, q') ->
    step (Sys q P pp (S C) cc) (EvGet QNODE_BUFFER_EMPTY None) (Sys q' P pp C cc)
| s_get_signal q P pp C cc :
    step (Sys q P pp C (S cc)) EvTau
         (Sys (with_put q (Semaphore.signal (sem_put q))) P pp C cc).

Inductive run : sys -> list ev -> sys -> Prop :=
| run_nil s : run s [] s
| run_snoc s tr s1 e s2 : run s tr s1 -> step s1 e s2 -> run s (tr ++ [e]) s2.

Definition sys_init : sys := Sys CircularQueue_new [] 0 0 0.

Definition cq_put (tr : list ev) : list T :=
  omap (fun e => match e with EvPut 0%Z v => Some v | _ => None end) tr.
Definition cq_got (tr : list ev) : list T :=
  omap (fun e => match e with EvGet 0%Z v => v | _ => None end) tr.

(** ** Representation *)
Definition node_of (items : list T) (i : nat) : T * bool :=
  match items !! i with Some v => (v, true) | None => (zero, false) end.

(** The ring holds [items]; free nodes are zeroed and marked free. *)
Definition cq_rep (q : cq) (items : list T) : Prop :=
  (length items <= MAX - 1)%nat /\
  rear q = ((front q + length items) mod MAX) /\
  ring_rep MAX (front q) (nodes q) (node_of items).

Context (HMAX : (1 < MAX)%nat).

Lemma cq_rep_new : cq_rep CircularQueue_new [].
Proof.
  split_and!; simpl; [lia|by rewrite Nat.Div0.mod_0_l|].
  split_and!; [apply length_replicate|lia|].
  intros i Hi. apply lookup_replicate. split; [done|]. apply mod_bound; lia.
Qed.

Lemma cq_rep_full q items :
  cq_rep q items ->
  ((rear q + 1) mod MAX =? front q)%nat = (length items =? MAX - 1)%nat.
Proof.
  intros (Hle & Hr & (_ & Hf & _)). rewrite Hr, Nat.Div0.add_mod_idemp_l.
  destruct (Nat.eqb_spec (length items) (MAX - 1)) as [He|Hne].
  - rewrite He. replace (front q + (MAX - 1) + 1)%nat with (front q + 1 * MAX)%nat by lia.
    rewrite Nat.Div0.mod_add, Nat.mod_small by lia. by rewrite Nat.eqb_refl.
  - apply Nat.eqb_neq. rewrite <-Nat.add_assoc, mod_wrap by lia.
    destruct (Nat.ltb_spec (front q + (length items + 1)) MAX); lia.
Qed.

Lemma cq_rep_empty q items :
  cq_rep q items -> (front q =? rear q)%nat = (length items =? 0)%nat.
Proof.
  intros (Hle & Hr & (_ & Hf & _)). rewrite Hr, mod_wrap by lia.
  destruct (Nat.eqb_spec (length items) 0) as [He|Hne].
  - rewrite He, Nat.add_0_r. rewrite (proj2 (Nat.ltb_lt _ _)) by lia.
    by rewrite Nat.eqb_refl.
  - apply Nat.eqb_neq. destruct (Nat.ltb_spec (front q + length items) MAX); lia.
Qed.

Lemma put_locked_spec q items v :
  cq_rep q items ->
  exists r q', put_locked v q = Ok (r, q') /\
    if (length items =? MAX - 1)%nat
    then r = QNODE_BUFFER_FULL /\ cq_rep q' items /\
         q' = with_put q (Semaphore.signal (sem_put q))
    else r = QNODE_SUCCESS /\ cq_rep q' (items ++ [v]) /\
         sem_put q' = sem_put q /\ sem_get q' = sem_get q.
Proof.
  intros Hrep. unfold put_locked. rewrite (cq_rep_full q items Hrep).
  destruct (Nat.eqb_spec (length items) (MAX - 1)) as [He|Hne].
  { eexists _, _; split; [done|]. by split_and!. }
  destruct Hrep as (Hle & Hr & Hring).
  destruct (ring_store _ _ _ _ (length items) (v, true) Hring ltac:(lia))
    as (ns & Hst & (Hl & Hf & Hn)).
  rewrite Hr, Hst. mrun. eexists _, _; split; [done|]. split_and!; try done.
  unfold cq_rep; simpl; split_and!.
  - rewrite length_app; simpl; lia.
  - rewrite Nat.Div0.add_mod_idemp_l, length_app. f_equal. simpl; lia.
  - split_and!; [done|done|]. intros i Hi. rewrite Hn by done. f_equal.
    unfold node_of. case_decide as Hd.
    + subst i. by rewrite list_lookup_middle.
    + destruct (decide (i < length items)%nat).
      * by rewrite lookup_app_l.
      * rewrite (lookup_ge_None_2 items) by lia.
        by rewrite (lookup_ge_None_2 (items ++ [v])) by (rewrite length_app; simpl; lia).
Qed.

Lemma get_locked_spec q items :
  cq_rep q items ->
  match items with
  | [] => get_locked q =
            Ok (QNODE_BUFFER_EMPTY, None, with_get q (Semaphore.signal (sem_get q)))
  | v :: vs => exists q', get_locked q = Ok (QNODE_SUCCESS, Some v, q') /\
       cq_rep q' vs /\ sem_put q' = sem_put q /\ sem_get q' = sem_get q
  end.
Proof.
  intros Hrep. unfold get_locked. rewrite (cq_rep_empty q items Hrep).
  destruct items as [|v vs]; simpl; [done|].
  destruct Hrep as (Hle & Hr & Hring). simpl in *.
  pose proof Hring as (_ & Hf & _).
  destruct (ring_advance _ _ _ _ (zero, false) Hring) as (ns & Hst & (Hl & Hf' & Hn)).
  rewrite (ring_fetch _ _ _ _ Hring), Hst. mrun.
  eexists; split; [done|]. split_and!; try done.
  unfold cq_rep; simpl; split_and!.
  - lia.
  - rewrite Hr, Nat.Div0.add_mod_idemp_l. f_equal. lia.
  - split_and!; [done|done|]. intros i Hi. rewrite Hn by done. f_equal.
    case_decide; [|done]. unfold node_of.
    by rewrite (proj2 (lookup_ge_None _ _)) by lia.
Qed.

(** ** The semaphore account *)
Definition acct (s : sys) (items : list T) : Prop :=
  (N.to_nat (Semaphore.count (sem_put (sq s))) + length (p_reserved s)
     + c_taken s + length items = MAX - 1)%nat /\
  (N.to_nat (Semaphore.count (sem_get (sq s))) + c_reserved s + p_published s
     = length items)%nat.

Definition cinv (tr : list ev) (s : sys) : Prop :=
  exists items, cq_rep (sq s) items /\ acct s items /\ cq_put tr = cq_got tr ++ items.

Context (HMAX32 : (Z.of_nat MAX < 2 ^ 32)%Z).

Lemma sem_signal_count s :
  (N.to_nat (Semaphore.count s) < MAX)%nat ->
  N.to_nat (Semaphore.uint (Semaphore.count s + 1)) = S (N.to_nat (Semaphore.count s)).
Proof. intros H. rewrite Semaphore.uint_small; lia. Qed.

Lemma sem_wait_count s s' :
  Semaphore.wait s = Some s' ->
  N.to_nat (Semaphore.count s) = S (N.to_nat (Semaphore.count s')).
Proof.
  unfold Semaphore.wait. destruct (N.ltb_spec 0 (Semaphore.count s)); [|done].
  intros [= <-]; simpl. lia.
Qed.

Lemma cinv_init : cinv [] sys_init.
Proof.
  exists []. split_and!; [apply cq_rep_new| |done].
  unfold acct; simpl. unfold Semaphore.uint. rewrite !N.mod_small by lia. lia.
Qed.

Lemma trace_tau tr e items :
  match e with EvPut 0%Z _ | EvGet 0%Z (Some _) => False | _ => True end ->
  cq_put tr = cq_got tr ++ items ->
  cq_put (tr ++ [e]) = cq_got (tr ++ [e]) ++ items.
Proof.
  intros He Htr. unfold cq_put, cq_got in *. rewrite !omap_app, Htr.
  destruct e as [[]|[]|]; simpl in *; rewrite ?app_nil_r; try done.
  destruct v; [done|]. by rewrite app_nil_r.
Qed.

Lemma step_cinv tr s e s' :
  cinv tr s -> step s e s' ->
  cinv (tr ++ [e]) s' /\
  match e with EvPut r _ | EvGet r _ => r = QNODE_SUCCESS \/ s' = s | EvTau => True end.
Proof.
  intros (items & Hrep & [Ha1 Ha2] & Htr) Hst.
  destruct Hst as [v q se P pp C cc Hw|v q se P pp C cc Hw|v q q' P1 P2 pp C cc Hp
    |v q q' P1 P2 pp C cc Hp|q P pp C cc|q se P pp C cc Hw|q se P pp C cc Hw
    |q q' v P pp C cc Hg|q q' P pp C cc Hg|q P pp C cc]; unfold acct in *; simpl in *.
  - split; [|done]. exists items. split_and!; [done| |by apply trace_tau].
    apply sem_wait_count in Hw. unfold acct; simpl. lia.
  - split; [|by right]. exists items. split_and!; [done|done|]. by apply trace_tau.
  - rewrite length_app in Ha1; simpl in Ha1.
    destruct (put_locked_spec q items v Hrep) as (r & q'' & He & Hs).
    rewrite Hp in He. simplify_eq.
    destruct (Nat.eqb_spec (length items) (MAX - 1)); [lia|].
    destruct Hs as (_ & Hrep' & Hsp & Hsg). split; [|by left].
    exists (items ++ [v]). split_and!; [done| |].
    + unfold acct; simpl. rewrite Hsp, Hsg, !length_app; simpl. lia.
    + unfold cq_put, cq_got in *. rewrite !omap_app, Htr. simpl.
      by rewrite app_nil_r, app_assoc.
  - rewrite length_app in Ha1; simpl in Ha1.
    destruct (put_locked_spec q items v Hrep) as (r & q'' & He & Hs).
    rewrite Hp in He. simplify_eq.
    destruct (Nat.eqb_spec (length items) (MAX - 1)); [lia|]. by destruct Hs.
  - split; [|done]. exists items. split_and!; [done| |by apply trace_tau].
    unfold acct; simpl. rewrite sem_signal_count by lia. lia.
  - split; [|done]. exists items. split_and!; [done| |by apply trace_tau].
    apply sem_wait_count in Hw. unfold acct; simpl. lia.
  - split; [|by right]. exists items. split_and!; [done|done|]. by apply trace_tau.
  - pose proof (get_locked_spec q items Hrep) as Hs.
    destruct items as [|v' vs]; [rewrite Hs in Hg; done|].
    destruct Hs as (q'' & He & Hrep' & Hsp & Hsg). rewrite Hg in He. simplify_eq.
    split; [|by left]. exists vs. split_and!; [done| |].
    + unfold acct; simpl in *. rewrite Hsp, Hsg. lia.
    + unfold cq_put, cq_got in *. rewrite !omap_app, Htr. simpl.
      by rewrite app_nil_r, <-app_assoc.
  - pose proof (get_locked_spec q items Hrep) as Hs.
    destruct items as [|v' vs]; [simpl in *; lia|].
    destruct Hs as (q'' & He & _). rewrite Hg in He. done.
  - split; [|done]. exists items. split_and!; [done| |by apply trace_tau].
    unfold acct; simpl. rewrite sem_signal_count by lia. lia.
Qed.

Lemma run_cinv tr s : run sys_init tr s -> cinv tr s.
Proof.
  intros Hrun. remember sys_init as s0 eqn:Hs0.
  induction Hrun as [s|s tr s1 e s2 Hrun IH Hst]; subst; [apply cinv_init|].
  by eapply step_cinv; [apply IH|].
Qed.

(** ** Calls on a quiescent queue *)
Lemma quiescent_counts tr q :
  run sys_init tr (Sys q [] 0 0 0) ->
  exists items, cq_rep q items /\ cq_put tr = cq_got tr ++ items /\
    Semaphore.count (sem_put q) = N.of_nat (MAX - 1 - length items) /\
    Semaphore.count (sem_get q) = N.of_nat (length items).
Proof.
  intros Hrun. destruct (run_cinv _ _ Hrun) as (items & Hrep & [H1 H2] & Htr).
  simpl in *. exists items. split_and!; [done|done|lia|lia].
Qed.

Lemma put_impl_quiescent q items nonblocking v :
  cq_rep q items ->
  Semaphore.count (sem_put q) = N.of_nat (MAX - 1 - length items) ->
  if (length items =? MAX - 1)%nat
  then put_impl nonblocking v q =
         if nonblocking then Some (Ok (QNODE_BUFFER_FULL, q)) else None
  else exists q', put_impl nonblocking v q = Some (Ok (QNODE_SUCCESS, q')) /\
         cq_rep q' (items ++ [v]).
Proof.
  intros Hrep Hc. pose proof Hrep as (Hle & _).
  unfold put_impl, Semaphore.lock_ms, Semaphore.lock, Semaphore.wait_ms, Semaphore.wait.
  rewrite Hc. destruct (Nat.eqb_spec (length items) (MAX - 1)) as [He|Hne].
  - replace (MAX - 1 - length items)%nat with 0%nat by lia. by destruct nonblocking.
  - destruct (N.ltb_spec 0 (N.of_nat (MAX - 1 - length items))); [|lia]. simpl.
    set (q1 := with_put q _).
    destruct (put_locked_spec q1 items v Hrep) as (r & q' & He & Hs).
    destruct (Nat.eqb_spec (length items) (MAX - 1)); [lia|].
    destruct Hs as (-> & Hrep' & _). rewrite He. mrun.
    destruct nonblocking; eexists; split; done.
Qed.

Lemma get_impl_quiescent q items mode :
  cq_rep q items ->
  Semaphore.count (sem_get q) = N.of_nat (length items) ->
  match items with
  | [] => get_impl mode q =
            match mode with
            | Block | Timed false => None
            | _ => Some (Ok (QNODE_BUFFER_EMPTY, None, q))
            end
  | v :: vs => exists q', get_impl mode q = Some (Ok (QNODE_SUCCESS, Some v, q')) /\
                 cq_rep q' vs
  end.
Proof.
  intros Hrep Hc.
  unfold get_impl, Semaphore.lock_ms, Semaphore.lock, Semaphore.wait_ms, Semaphore.wait.
  rewrite Hc. destruct items as [|v vs]; [by destruct mode as [|[]|]|].
  destruct (N.ltb_spec 0 (N.of_nat (length (v :: vs)))); [|simpl in *; lia]. simpl.
  set (q1 := with_get q _).
  destruct (get_locked_spec q1 (v :: vs) Hrep) as (q' & He & Hrep' & _).
  rewrite He. mrun. destruct mode as [|[]|]; eexists; split; done.
Qed.
End circular_queue.

Arguments cq : clear implicits.
Arguments sys : clear implicits.
Arguments ev : clear implicits.

(** ** Properties *)

(** C13: for every [MAX > 1] and every interleaving of any number of producers
    and consumers at the granularity of the three critical sections, the
    queue is a FIFO of at most [MAX - 1] items, free nodes are zeroed, and a
    caller that obtained its semaphore reservation is never turned away: the
    structural full/empty tests under [crit_sec_] cannot fire, so a call that
    reports full or empty is one whose reservation failed and it changes
    nothing. *)
Theorem circular_queue_interleavings {T} (zero : T) MAX tr s :
  (1 < MAX)%nat -> (Z.of_nat MAX < 2 ^ 32)%Z ->
  run zero MAX (sys_init zero MAX) tr s ->
  (exists items, cq_rep zero MAX (sq s) items /\ cq_put tr = cq_got tr ++ items /\
     (length items <= MAX - 1)%nat) /\
  forall e s', step zero MAX s e s' ->
    match e with
    | EvPut r _ | EvGet r _ => r = QNODE_SUCCESS \/ s' = s
    | EvTau => True
    end.
Proof.
  intros H1 H2 Hrun. pose proof (run_cinv zero MAX H1 H2 tr s Hrun) as Hinv. split.
  - destruct Hinv as (items & Hrep & _ & Htr). exists items.
    split_and!; [done|done|apply Hrep].
  - intros e s' Hst. by apply (step_cinv zero MAX H1 H2 tr s e s' Hinv Hst).
Qed.

(** One producer publishes and signals on a ring of three nodes. *)
Lemma circular_queue_demo_run :
  run 0%nat 3 (sys_init 0%nat 3) [EvTau; EvPut 0 7%nat; EvTau]
    (Sys (CQ [(7, true); (0, false); (0, false)]%nat 0 1
            (Semaphore.Sem 1) (Semaphore.Sem 1)) [] 0 0 0).
Proof.
  apply (run_snoc _ _ _ [EvTau; EvPut 0 7%nat]
    (Sys (CQ [(7, true); (0, false); (0, false)]%nat 0 1
            (Semaphore.Sem 1) (Semaphore.Sem 0)) [] 1 0 0)).
  - apply (run_snoc _ _ _ [EvTau]
      (Sys (CQ [(0, false); (0, false); (0, false)]%nat 0 0
              (Semaphore.Sem 1) (Semaphore.Sem 0)) [7%nat] 0 0 0)).
    + apply (run_snoc _ _ _ [] (sys_init 0%nat 3)); [apply run_nil|].
      apply (s_put_reserve 0%nat 3 7%nat (CircularQueue_new 0%nat 3) (Semaphore.Sem 1)).
      reflexivity.
    + apply (s_put_locked 0%nat 3 7%nat _ _ [] []). reflexivity.
  - apply s_put_signal.
Qed.

Lemma circular_queue_interleavings_witness :
  (exists items, cq_put [EvTau; EvPut 0 7; EvTau]%nat
                 = cq_got [EvTau; EvPut 0 7; EvTau]%nat ++ items) /\
  (1 < 3)%nat /\ (Z.of_nat 3 < 2 ^ 32)%Z.
Proof.
  assert (1 < 3)%nat as H1 by lia. assert (Z.of_nat 3 < 2 ^ 32)%Z as H2 by lia.
  split_and!; [|exact H1|exact H2].
  destruct (circular_queue_interleavings 0%nat 3 _ _ H1 H2 circular_queue_demo_run)
    as [(items & _ & Htr & _) _].
  exists items. exact Htr.
Defined.

(** The calls themselves on a queue with no other call in flight: [put]
    and [try_put] append the payload exactly when fewer than [MAX - 1] items
    are queued, otherwise [try_put] reports full without changing anything
    and [put] parks; [get], [try_get] and [get_timed] deliver the oldest
    payload exactly when there is one, otherwise they park or report empty
    without changing anything. *)
Theorem circular_queue_calls {T} (zero : T) MAX tr q v nonblocking mode :
  (1 < MAX)%nat -> (Z.of_nat MAX < 2 ^ 32)%Z ->
  run zero MAX (sys_init zero MAX) tr (Sys q [] 0 0 0) ->
  exists items, cq_rep zero MAX q items /\ cq_put tr = cq_got tr ++ items /\
    (if (length items =? MAX - 1)%nat
     then put_impl MAX nonblocking v q =
            if nonblocking then Some (Ok (QNODE_BUFFER_FULL, q)) else None
     else exists q', put_impl MAX nonblocking v q = Some (Ok (QNODE_SUCCESS, q')) /\
            cq_rep zero MAX q' (items ++ [v])) /\
    match items with
    | [] => get_impl zero MAX mode q =
              match mode with
              | Block | Timed false => None
              | _ => Some (Ok (QNODE_BUFFER_EMPTY, None, q))
              end
    | x :: xs => exists q', get_impl zero MAX mode q = Some (Ok (QNODE_SUCCESS, Some x, q'))
                   /\ cq_rep zero MAX q' xs
    end.
Proof.
  intros H1 H2 Hrun.
  destruct (quiescent_counts zero MAX H1 H2 tr q Hrun) as (items & Hrep & Htr & Hp & Hg).
  exists items. split_and!; [done|done| |].
  - by apply put_impl_quiescent.
  - by apply get_impl_quiescent.
Qed.

Lemma circular_queue_calls_witness :
  let q := CQ [(7, true); (0, false); (0, false)]%nat 0 1
             (Semaphore.Sem 1) (Semaphore.Sem 1) in
  exists items, cq_rep 0%nat 3 q items /\
    cq_put [EvTau; EvPut 0 7; EvTau]%nat = cq_got [EvTau; EvPut 0 7; EvTau]%nat ++ items.
Proof.
  destruct (circular_queue_calls 0%nat 3 _ _ 8%nat true Block ltac:(lia) ltac:(lia)
              circular_queue_demo_run) as (items & H1 & H2 & _).
  exists items. split; [exact H1|exact H2].
Defined.

(** [reset()] strands blocked producers.  For every [MAX > 1] there is a
    run of the put-semaphore in which a producer is parked on the full queue
    with nobody notified; [reset_count(MAX - 1)], which [reset()] uses, makes
    every slot available without notifying the condition variable, so the
    producer stays parked although its predicate holds. *)
Theorem circular_queue_reset_strands_producer MAX :
  (1 < MAX)%nat -> (Z.of_nat MAX < 2 ^ 32)%Z ->
  exists tr (c : cvsys Semaphore.semaphore),
    cvrun (cv_init (Semaphore.new (N.of_nat (MAX - 1)))) tr c /\
    cv_wait c = 1%nat /\ cv_woken c = 0%nat /\
    let s' := (Semaphore.reset_count (N.of_nat (MAX - 1)) (cv_obj c)).2 in
    is_Some (Semaphore.wait s') /\ Semaphore.count s' = N.of_nat (MAX - 1) /\
    ~ cv_inv (CV s' (cv_wait c) (cv_woken c)).
Proof.
  intros H1 H2. set (n := (MAX - 1)%nat).
  assert (forall k, (k <= n)%nat ->
    exists tr, cvrun (cv_init (Semaphore.new (N.of_nat n))) tr
      (CV (Semaphore.Sem (N.of_nat (n - k))) 0 0)) as Hk.
  { induction k as [|k IH]; intros Hle.
    - exists []. rewrite Nat.sub_0_r. unfold Semaphore.new.
      rewrite Semaphore.uint_small by lia. apply cvrun_nil.
    - destruct IH as [tr Hrun]; [lia|].
      exists (tr ++ [(Semaphore.OWait, 1%Z)]).
      eapply (cvrun_call _ _ _ _ _ Semaphore.OWait); [done| |reflexivity].
      simpl. unfold Semaphore.wait; simpl.
      destruct (N.ltb_spec 0 (N.of_nat (n - k))); [|lia]. simpl. do 3 f_equal. lia. }
  destruct (Hk n ltac:(lia)) as [tr Hrun]. rewrite Nat.sub_diag in Hrun.
  exists tr, (CV (Semaphore.Sem 0) 1 0). split_and!; try done; simpl.
  - by eapply (cvrun_park _ _ _ _ _ Semaphore.OWait).
  - unfold Semaphore.wait; simpl. rewrite Semaphore.uint_small by lia.
    destruct (N.ltb_spec 0 (N.of_nat n)); [|lia].
    split_and!; [eauto|done|]. intros [_ Hinv]; simpl in *. lia.
Qed.

Lemma circular_queue_reset_strands_producer_witness :
  exists tr (c : cvsys Semaphore.semaphore),
    cvrun (cv_init (Semaphore.new 3)) tr c /\ cv_wait c = 1%nat.
Proof.
  destruct (circular_queue_reset_strands_producer 4 ltac:(lia) ltac:(lia))
    as (tr & c & Hrun & Hw & _).
  exists tr, c. split; [exact Hrun|exact Hw].
Defined.
