(* ===== verification/ThreadLife.v ===== *)
(** * Thread life cycle (include/jthread.hpp class [Thread], src/jthread.cpp)

    [create], [close_pre] and the two locked halves of [close_post] are
    atomic under [mutex_]; the join between the halves of [close_post] runs
    outside it.  The system below lets any number of threads call them in
    any order while workers run and end. *)

From S2P Require Import Prelude.

(** A worker: one launched [thread_proc]. *)
Definition wid : Type := nat.

(** [std::jthread] handles: joinable with its worker, or moved from. *)
Inductive jthread : Type := Joinable (w : wid) | MovedFrom.

#[export] Instance jthread_eq_dec : EqDecision jthread.
Proof. solve_decision. Defined.

Record thread : Type := Thr {
  thread_ : option jthread;
  stop_requested : bool;
  closing_ : bool;
}.

Definition Thread_new : thread := Thr None false false.

Definition is_joinable (o : option jthread) : bool :=
  match o with Some (Joinable _) => true | _ => false end.

(** ** Methods *)

(** [create] on a thread object, launching worker [w] when it has to; [None]
    is a caller that waits on [cv_] for [closing_] to clear.  The flag tells
    whether [w] was launched. *)
Definition create (w : wid) (t : thread) : option (Z * bool * thread) :=
  if closing_ t then None
  else if is_joinable (thread_ t) then Some (1%Z, false, t)
  else
    let stop := if stop_requested t then false else stop_requested t in
    Some (1%Z, true, Thr (Some (Joinable w)) stop (closing_ t)).

Definition close_pre (t : thread) : thread := Thr (thread_ t) true (closing_ t).

(** The first locked half of [close_post]: [None] when it returns at once,
    otherwise the handle moved into [local]. *)
Definition close_post_begin (t : thread) : option (jthread * thread) :=
  if closing_ t then None
  else match thread_ t with
       | None => None
       | Some j => Some (j, Thr (Some MovedFrom) (stop_requested t) true)
       end.

(** The second locked half. *)
Definition close_post_end (t : thread) : thread := Thr None (stop_requested t) false.

Definition thread_exists (t : thread) : Z := if is_joinable (thread_ t) then 1%Z else 0%Z.
Definition joinable (t : thread) : bool := is_joinable (thread_ t).
Definition native_handle (t : thread) : option wid :=
  match thread_ t with Some (Joinable w) => Some w | _ => None end.
Definition do_exit (t : thread) : bool := stop_requested t.
Definition start (w : wid) (t : thread) : option (bool * bool * thread) :=
  '(r, l, t') ← create w t; Some ((r =? 1)%Z, l, t').

(** ** Concurrent callers *)

(** The object, the workers whose [thread_proc] runs, the next worker's
    name, the callers of [close()] between [close_pre] and [close_post], and
    the callers of [close_post] between its halves with their handles. *)
Record tsys : Type := TSys {
  obj : thread;
  running : gset wid;
  next : wid;
  mid_close : nat;
  joiners : list jthread;
}.

Definition tsys_init : tsys := TSys Thread_new ∅ 0 0 [].

Inductive tev : Type :=
| TCreate (launched : bool)
| TCloseReturns
| TOther.

Inductive tstep : tsys -> tev -> tsys -> Prop :=
| t_create t R n m J r l t' :
    create n t = Some (r, l, t') ->
    tstep (TSys t R n m J) (TCreate l)
          (TSys t' (if l then {[n]} ∪ R else R) (S n) m J)
| t_close_pre t R n m J :
    tstep (TSys t R n m J) TOther (TSys (close_pre t) R n (S m) J)
| t_close_post_return t R n m J :
    close_post_begin t = None ->
    tstep (TSys t R n (S m) J) TCloseReturns (TSys t R n m J)
| t_close_post_begin t R n m J j t' :
    close_post_begin t = Some (j, t') ->
    tstep (TSys t R n (S m) J) TOther (TSys t' R n m (j :: J))
| t_join t R n m J1 j J2 :
    (forall w, j = Joinable w -> w ∉ R) ->
    tstep (TSys t R n m (J1 ++ j :: J2)) TCloseReturns
          (TSys (close_post_end t) R n m (J1 ++ J2))
| t_worker_ends t R n m J w :
    w ∈ R -> tstep (TSys t R n m J) TOther (TSys t (R ∖ {[w]}) n m J).

Inductive trun : tsys -> list tev -> tsys -> Prop :=
| trun_nil s : trun s [] s
| trun_snoc s tr s1 e s2 : trun s tr s1 -> tstep s1 e s2 -> trun s (tr ++ [e]) s2.

(** ** The invariant *)

(** The one worker that may be running. *)
Definition owned (s : tsys) : option wid :=
  match thread_ (obj s), joiners s with
  | Some (Joinable w), _ => Some w
  | _, [Joinable w] => Some w
  | _, _ => None
  end.

Definition tinv (s : tsys) : Prop :=
  (forall w, w ∈ running s -> owned s = Some w /\ (w < next s)%nat) /\
  (closing_ (obj s) = true ->
     (exists w, joiners s = [Joinable w]) /\ thread_ (obj s) = Some MovedFrom) /\
  (closing_ (obj s) = false -> joiners s = []) /\
  (closing_ (obj s) = false -> thread_ (obj s) <> Some MovedFrom).

Lemma tinv_init : tinv tsys_init.
Proof. split_and!; simpl; try done; set_solver. Qed.

Lemma tstep_tinv s e s' : tinv s -> tstep s e s' -> tinv s'.
Proof.
  intros (Hr & Hc & Hj & Hm) Hst.
  destruct Hst as [t R n m J r l t' He|t R n m J|t R n m J He|t R n m J j t' He
    |t R n m J1 j J2 He|t R n m J w Hw]; unfold tinv, owned in *; simpl in *.
  - unfold create in He. destruct (closing_ t) eqn:Hcl; [done|].
    specialize (Hj eq_refl). subst J.
    destruct (is_joinable (thread_ t)) eqn:Hjn; simplify_eq/=.
    + split_and!; try done; rewrite ?Hcl; try done.
      intros w Hw. destruct (Hr w Hw). split; [done|lia].
    + split_and!; try done.
      intros w [->%elem_of_singleton|Hw]%elem_of_union; [split; [done|lia]|].
      destruct (Hr w Hw) as [Ho _]. destruct (thread_ t) as [[]|]; done.
  - split_and!; done.
  - split_and!; done.
  - unfold close_post_begin in He. destruct (closing_ t) eqn:Hcl; [done|].
    specialize (Hj eq_refl). specialize (Hm eq_refl). subst J.
    destruct (thread_ t) as [[w|]|]; simplify_eq/=; try done.
    split_and!; try done. by intros _; split; [eexists|].
  - destruct (closing_ t) eqn:Hcl; [|by destruct J1; specialize (Hj eq_refl)].
    destruct (Hc eq_refl) as [[w HJ] Ht].
    destruct J1 as [|j1 J1]; [|by destruct J1; simplify_eq/=]. simplify_eq/=.
    split_and!; try done. intros w' Hw'. destruct (Hr w' Hw') as [Ho _].
    rewrite Ht in Ho. simplify_eq. by destruct (He w' eq_refl).
  - split_and!; try done. intros w' [Hw' _]%elem_of_difference. by apply Hr.
Qed.

Lemma trun_tinv tr s : trun tsys_init tr s -> tinv s.
Proof.
  intros Hrun. remember tsys_init as s0 eqn:Hs0.
  induction Hrun as [|s tr s1 e s2 Hrun IH Hst]; subst; [apply tinv_init|].
  by eapply tstep_tinv; [apply IH|].
Qed.

(** ** Properties *)

(** C14: at most one worker.  However [create]/[start] and [close()] are
    called concurrently, at most one [thread_proc] of the object runs at any
    time; a worker that runs is the one the handle or the closing caller
    owns; [create] launches a worker only when none runs and no shutdown is
    in progress, and the [close()] that performed the join returns only when
    no worker runs. *)
Theorem thread_single_worker tr s :
  trun tsys_init tr s ->
  (forall w1 w2, w1 ∈ running s -> w2 ∈ running s -> w1 = w2) /\
  (forall w, w ∈ running s -> thread_ (obj s) = Some (Joinable w) \/ joiners s = [Joinable w]) /\
  (forall s', tstep s (TCreate true) s' ->
     running s = ∅ /\ closing_ (obj s) = false) /\
  (forall s', tstep s TCloseReturns s' -> joiners s' <> joiners s ->
     running s' = ∅).
Proof.
  intros Hrun. pose proof (trun_tinv _ _ Hrun) as (Hr & Hc & Hj & Hm).
  split_and!.
  - intros w1 w2 H1 H2. destruct (Hr _ H1) as [E1 _], (Hr _ H2) as [E2 _]. congruence.
  - intros w Hw. destruct (Hr w Hw) as [Ho _]. unfold owned in Ho.
    destruct (thread_ (obj s)) as [[w'|]|]; [left; congruence|right..];
      destruct (joiners s) as [|[w'|] [|]]; congruence.
  - intros s' Hst. inversion Hst as [t R n m J r l t' He| | | | |]; subst; simpl in *.
    unfold create in He. destruct (closing_ t) eqn:Hcl; [done|].
    destruct (is_joinable (thread_ t)) eqn:Hjn; simplify_eq/=. split; [|done].
    apply set_eq. intros w. split; [|set_solver]. intros Hw.
    destruct (Hr w Hw) as [Ho _]. unfold owned in Ho; simpl in Ho.
    rewrite (Hj eq_refl) in Ho. by destruct (thread_ t) as [[]|].
  - intros s' Hst Hne. inversion Hst as [| |t R n m J He| |t R n m J1 j J2 He|];
      subst; simpl in *; [done|].
    destruct (closing_ t) eqn:Hcl; [|by destruct J1; specialize (Hj eq_refl)].
    destruct (Hc eq_refl) as [[w HJ] Ht].
    destruct J1 as [|j1 J1]; [|by destruct J1; simplify_eq/=]. simplify_eq/=.
    apply set_eq. intros w'. split; [|set_solver]. intros Hw'.
    destruct (Hr w' Hw') as [Ho _]. unfold owned in Ho; simpl in Ho.
    rewrite Ht in Ho. simplify_eq. by destruct (He w' eq_refl).
Qed.

(** A worker is launched and a closer waits for it. *)
Lemma thread_demo_run :
  trun tsys_init [TCreate true; TOther; TOther]
    (TSys (Thr (Some MovedFrom) true true) {[0%nat]} 1 0 [Joinable 0]).
Proof.
  apply (trun_snoc _ [TCreate true; TOther]
           (TSys (Thr (Some (Joinable 0)) true false) {[0%nat]} 1 1 [])).
  - apply (trun_snoc _ [TCreate true]
             (TSys (Thr (Some (Joinable 0)) false false) {[0%nat]} 1 0 [])).
    + apply (trun_snoc _ [] tsys_init); [apply trun_nil|].
      replace ({[0%nat]} : gset wid) with ({[0%nat]} ∪ ∅ : gset wid) by set_solver.
      apply (t_create Thread_new ∅ 0 0 [] 1 true _ eq_refl).
    + apply t_close_pre.
  - by apply t_close_post_begin.
Qed.

Lemma thread_single_worker_witness :
  let s := TSys (Thr (Some MovedFrom) true true) {[0%nat]} 1 0 [Joinable 0] in
  0%nat ∈ running s /\ (forall w1 w2, w1 ∈ running s -> w2 ∈ running s -> w1 = w2).
Proof.
  split; [set_solver|]. exact (proj1 (thread_single_worker _ _ thread_demo_run)).
Defined.

(** A [close()] that races a [start()] can wait for a worker nobody asks
    to stop.  There is a run in which a caller of [close()] has requested
    stop on an idle object, a concurrent [create] replaces the triggered stop
    source and launches a worker, and the closer then joins that worker while
    [do_exit()] is false: the closer cannot return and new starts are blocked
    as long as the worker does not end on its own. *)
Theorem thread_close_start_race :
  exists tr s w,
    trun tsys_init tr s /\ joiners s = [Joinable w] /\ w ∈ running s /\
    closing_ (obj s) = true /\ do_exit (obj s) = false /\
    (forall x, create x (obj s) = None) /\
    forall s', ~ tstep s TCloseReturns s'.
Proof.
  exists [TOther; TCreate true; TOther],
    (TSys (Thr (Some MovedFrom) false true) ({[0%nat]} ∪ ∅) 1 0 [Joinable 0]), 0%nat.
  split_and!; try done.
  - apply (trun_snoc _ [TOther; TCreate true]
             (TSys (Thr (Some (Joinable 0)) false false) ({[0%nat]} ∪ ∅) 1 1 [])).
    + apply (trun_snoc _ [TOther] (TSys (Thr None true false) ∅ 0 1 [])).
      * apply (trun_snoc _ [] tsys_init); [apply trun_nil|]. apply t_close_pre.
      * apply (t_create (Thr None true false) ∅ 0 1 [] 1 true _ eq_refl).
    + by apply t_close_post_begin.
  - intros s' Hst. inversion Hst as [| | | |? ? ? ? J1 j J2 He|]; subst; simpl in *.
    destruct J1 as [|? [|]]; simplify_eq/=. apply (He 0%nat eq_refl). simpl; set_solver.
Qed.

(** A second [close()] returns before the object is quiet.  In every
    reachable state in which one caller is joining a running worker, another
    caller that has passed [close_pre] returns from [close_post] at once with
    the worker still running. *)
Theorem thread_second_close_returns_early tr t R n m J w :
  trun tsys_init tr (TSys t R n (S m) J) ->
  closing_ t = true -> w ∈ R ->
  tstep (TSys t R n (S m) J) TCloseReturns (TSys t R n m J) /\
  joiners (TSys t R n m J) = [Joinable w].
Proof.
  intros Hrun Hcl Hw. pose proof (trun_tinv _ _ Hrun) as (Hr & Hc & _ & _).
  simpl in *. split.
  - apply t_close_post_return. unfold close_post_begin. by rewrite Hcl.
  - destruct (Hc Hcl) as [[w' ->] Ht]. destruct (Hr w Hw) as [Ho _].
    unfold owned in Ho; simpl in Ho. rewrite Ht in Ho. by simplify_eq.
Qed.

Lemma thread_second_close_returns_early_witness :
  tstep (TSys (Thr (Some MovedFrom) true true) {[0%nat]} 1 1 [Joinable 0]) TCloseReturns
        (TSys (Thr (Some MovedFrom) true true) {[0%nat]} 1 0 [Joinable 0]).
Proof.
  assert (trun tsys_init [TCreate true; TOther; TOther; TOther]
    (TSys (Thr (Some MovedFrom) true true) {[0%nat]} 1 1 [Joinable 0])) as Hrun.
  { apply (trun_snoc _ [TCreate true; TOther; TOther] _ TOther _ thread_demo_run).
    apply t_close_pre. }
  refine (proj1 (thread_second_close_returns_early _ _ _ _ _ _ 0%nat Hrun eq_refl _)).
  set_solver.
Defined.
