(* ===== verification/Event.v ===== *)
(** * Events and event-driven threads
    (include/eventdefs.hpp, include/qthread.hpp, src/qthread.cpp)

    The fixed-size packet [EVENTINFO] with its in-memory layout, and
    [QThread], a [Thread] that owns an [EventQueue].  A worker's
    [thread_proc] is the consumer of the queue. *)

From S2P Require Import Prelude Monitor Sync ThreadLife.

(** ** The packet *)
Record XTMADDR : Type := {
  usZoneId : Z; usSysId : Z; usParentId : Z; usChildId : Z; ulTmpPid : Z;
}.

Record XTMMSGHDR : Type := {
  nMagicCookie : Z;
  nMsgLen : Z;
  stReceiver : XTMADDR;
  stSender : XTMADDR;
  snHopCnt : Z;
  usTransactionId : Z;
  snSerNo : Z;
  usType : Z;
  usSubType : Z;
  h_reserved : Z;
}.

Record ARSLINE : Type := {
  usAreaId : Z; usSystemId : Z; usBoardId : Z; usTrunkId : Z; usChannelId : Z;
  usReserved0 : Z; usReserved1 : Z; usReserved2 : Z;
}.

Record EVENTINFO : Type := { h : XTMMSGHDR; line : ARSLINE; Value : list Z }.

(** The layout in memory: all members are naturally aligned, so there is no
    padding. *)
Definition xtmaddr_bytes (a : XTMADDR) : list Z :=
  le_enc 2 (usZoneId a) ++ le_enc 2 (usSysId a) ++ le_enc 2 (usParentId a)
  ++ le_enc 2 (usChildId a) ++ le_enc 4 (ulTmpPid a).

Definition header_bytes (m : XTMMSGHDR) : list Z :=
  le_enc 4 (nMagicCookie m) ++ le_enc 4 (nMsgLen m)
  ++ xtmaddr_bytes (stReceiver m) ++ xtmaddr_bytes (stSender m)
  ++ le_enc 2 (snHopCnt m) ++ le_enc 2 (usTransactionId m) ++ le_enc 2 (snSerNo m)
  ++ le_enc 2 (usType m) ++ le_enc 2 (usSubType m) ++ le_enc 2 (h_reserved m).

Definition line_bytes (a : ARSLINE) : list Z :=
  le_enc 2 (usAreaId a) ++ le_enc 2 (usSystemId a) ++ le_enc 2 (usBoardId a)
  ++ le_enc 2 (usTrunkId a) ++ le_enc 2 (usChannelId a)
  ++ le_enc 2 (usReserved0 a) ++ le_enc 2 (usReserved1 a) ++ le_enc 2 (usReserved2 a).

Definition event_bytes (e : EVENTINFO) : list Z :=
  header_bytes (h e) ++ line_bytes (line e) ++ Value e.

(** The zeroed structures ([memset] or value-initialisation). *)
Definition xtmaddr0 : XTMADDR := Build_XTMADDR 0 0 0 0 0.
Definition header0 : XTMMSGHDR := Build_XTMMSGHDR 0 0 xtmaddr0 xtmaddr0 0 0 0 0 0 0.
Definition line0 : ARSLINE := Build_ARSLINE 0 0 0 0 0 0 0 0.

Definition MAX_EVENTINFO_SIZE : nat := 4 * 1024.
Definition EVENTINFO_HEADER_LENGTH : nat :=
  length (header_bytes header0) + length (line_bytes line0).
Definition MAX_VALUE_SIZE : nat := MAX_EVENTINFO_SIZE - EVENTINFO_HEADER_LENGTH.

Definition event0 : EVENTINFO :=
  Build_EVENTINFO header0 line0 (replicate MAX_VALUE_SIZE 0%Z).

(** Assignments to the members the code sets. *)
Definition set_type (v : Z) (e : EVENTINFO) : EVENTINFO :=
  let m := h e in
  Build_EVENTINFO
    (Build_XTMMSGHDR (nMagicCookie m) (nMsgLen m) (stReceiver m) (stSender m)
       (snHopCnt m) (usTransactionId m) (snSerNo m) v (usSubType m) (h_reserved m))
    (line e) (Value e).

Definition set_subtype (v : Z) (e : EVENTINFO) : EVENTINFO :=
  let m := h e in
  Build_EVENTINFO
    (Build_XTMMSGHDR (nMagicCookie m) (nMsgLen m) (stReceiver m) (stSender m)
       (snHopCnt m) (usTransactionId m) (snSerNo m) (usType m) v (h_reserved m))
    (line e) (Value e).

Definition set_msglen (v : Z) (e : EVENTINFO) : EVENTINFO :=
  let m := h e in
  Build_EVENTINFO
    (Build_XTMMSGHDR (nMagicCookie m) v (stReceiver m) (stSender m)
       (snHopCnt m) (usTransactionId m) (snSerNo m) (usType m) (usSubType m) (h_reserved m))
    (line e) (Value e).

Definition set_value (bs : list Z) (e : EVENTINFO) : EVENTINFO :=
  Build_EVENTINFO (h e) (line e) bs.

(** [event_value_length] / [EVENTINFO_VALUE_LENGTH]. *)
Definition event_value_length (e : EVENTINFO) : Z :=
  (nMsgLen (h e) - Z.of_nat EVENTINFO_HEADER_LENGTH)%Z.

Definition CI_QUIT_THREAD : Z := 0xf003.
Definition CI_TIMER_DONE : Z := 0xffff.
Definition DEF_EVENT_QUEUE_LENGTH : Z := 32.

(** ** Building an event *)

(** The byte form of [QThread::add_event], up to the call of [add]: [pValue]
    is the memory the pointer refers to, [None] a null pointer. *)
Definition make_event (type_ stype : Z) (pValue : option (list Z)) (nLen : Z)
  : outcome EVENTINFO :=
  let e := set_subtype (u16 stype) (set_type (u16 type_) event0) in
  v ← match pValue with
      | Some mem =>
          if (0 <? nLen)%Z then
            src ← slice 0 (Z.to_nat nLen) mem; blit 0 src (Value e)
          else Ok (Value e)
      | None => Ok (Value e)
      end;
  len ← chk32 (Z.of_nat EVENTINFO_HEADER_LENGTH + nLen);
  Ok (set_msglen len (set_value v e)).

(** The [PDK32U] form. *)
Definition make_event32 (type_ stype value : Z) : outcome EVENTINFO :=
  let e := set_subtype (u16 stype) (set_type (u16 type_) event0) in
  v ← blit 0 (le_enc 4 (u32 value)) (Value e);
  Ok (set_msglen (Z.of_nat EVENTINFO_HEADER_LENGTH + 4)
        (set_value v e)).

(** ** [QThread] *)
Module QThread.
Record qthread : Type := QT {
  qt_thread : thread;
  qt_queue : Queue.queue EVENTINFO;
}.

Definition new (nBufferLen : Z) : qthread :=
  QT Thread_new (Queue.new event0 nBufferLen).
Definition new_default : qthread := new DEF_EVENT_QUEUE_LENGTH.

Definition with_queue (q : Queue.queue EVENTINFO) (t : qthread) : qthread :=
  QT (qt_thread t) q.

(** [add]: false when the queue is full (the event is dropped). *)
Definition add (e : EVENTINFO) (t : qthread) : bool * qthread :=
  let r := Queue.put e (qt_queue t) in
  (negb (negb (r.1 =? 0)%Z), with_queue r.2 t).

(** [remove] and [try_remove] return the queue's scratch packet. *)
Definition remove (t : qthread) : option (option EVENTINFO * qthread) :=
  match Queue.get (qt_queue t) with
  | None => None
  | Some (ok, q) => Some (if ok then Some (Queue.deref q) else None, with_queue q t)
  end.

Definition try_remove (t : qthread) : option EVENTINFO * qthread :=
  let r := Queue.try_get (qt_queue t) in
  (if r.1 then Some (Queue.deref r.2) else None, with_queue r.2 t).

Definition qt_length (t : qthread) : Z := Queue.size_int (qt_queue t).

Definition add_event (type_ stype : Z) (pValue : option (list Z)) (nLen : Z)
  (t : qthread) : outcome (bool * qthread) :=
  e ← make_event type_ stype pValue nLen; Ok (add e t).

Definition add_event32 (type_ stype value : Z) (t : qthread) : outcome (bool * qthread) :=
  e ← make_event32 type_ stype value; Ok (add e t).

Definition add_quit_event (t : qthread) : outcome (bool * qthread) :=
  add_event CI_QUIT_THREAD 0 None 0 t.

(** [start]: [create() == 1]; the flag tells whether a worker was launched. *)
Definition start (w : wid) (t : qthread) : option (bool * bool * qthread) :=
  match create w (qt_thread t) with
  | None => None
  | Some (r, l, th) => Some ((r =? 1)%Z, l, QT th (qt_queue t))
  end.

(** [close] up to the join in [close_post]: request stop, post the quit
    event, take the handle (if this caller is the one to join). *)
Definition close_begin (t : qthread) : outcome (option jthread * qthread) :=
  let t1 := QT (close_pre (qt_thread t)) (qt_queue t) in
  '(_, t2) ← add_quit_event t1;
  match close_post_begin (qt_thread t2) with
  | None => Ok (None, t2)
  | Some (j, th) => Ok (Some j, QT th (qt_queue t2))
  end.
Definition close_end (t : qthread) : qthread :=
  QT (close_post_end (qt_thread t)) (qt_queue t).
Definition stop_begin : qthread -> outcome (option jthread * qthread) := close_begin.
End QThread.

(** ** Layout *)
Lemma length_xtmaddr_bytes a : length (xtmaddr_bytes a) = 12%nat.
Proof. unfold xtmaddr_bytes. by autorewrite with pdk. Qed.

Lemma length_header_bytes m : length (header_bytes m) = 44%nat.
Proof.
  unfold header_bytes. autorewrite with pdk. by rewrite !length_xtmaddr_bytes.
Qed.

Lemma length_line_bytes a : length (line_bytes a) = 16%nat.
Proof. unfold line_bytes. by autorewrite with pdk. Qed.

Lemma header_length_eq : EVENTINFO_HEADER_LENGTH = 60%nat.
Proof. reflexivity. Qed.

Lemma max_value_size_eq : MAX_VALUE_SIZE = Z.to_nat 4036.
Proof. vm_compute. reflexivity. Qed.

Lemma length_event0 : length (Value event0) = MAX_VALUE_SIZE.
Proof. apply length_replicate. Qed.

(** The bytes of the message length, at offset four of the packet. *)
Lemma event_bytes_msglen e rest :
  take 4 (drop 4 (event_bytes e ++ rest)) = le_enc 4 (nMsgLen (h e)).
Proof. reflexivity. Qed.

(** ** Delivery *)

Lemma make_event_spec ty sty mem nLen :
  (0 <= nLen <= Z.of_nat (length mem))%Z -> (nLen <= Z.of_nat MAX_VALUE_SIZE)%Z ->
  exists e, make_event ty sty (Some mem) nLen = Ok e /\
    usType (h e) = u16 ty /\ usSubType (h e) = u16 sty /\
    event_value_length e = nLen /\ length (Value e) = MAX_VALUE_SIZE /\
    take (Z.to_nat nLen) (Value e) = take (Z.to_nat nLen) mem.
Proof.
  intros [H0 Hm] Hv. unfold make_event.
  assert (chk32 (Z.of_nat EVENTINFO_HEADER_LENGTH + nLen) =
          Ok (Z.of_nat EVENTINFO_HEADER_LENGTH + nLen)%Z) as Hc.
  { apply chk32_ok. rewrite max_value_size_eq in Hv. rewrite header_length_eq.
    unfold in_s32, INT32_MIN, INT32_MAX. lia. }
  assert (length (Value (set_subtype (u16 sty) (set_type (u16 ty) event0))) = MAX_VALUE_SIZE)
    as Hl by apply length_event0.
  destruct (Z.ltb_spec 0 nLen) as [Hpos|Hz].
  - rewrite slice_ok by lia. unfold mbind, outcome_bind. rewrite drop_0.
    rewrite blit_ok by (autorewrite with pdk; rewrite Hl; lia). rewrite Hc.
    eexists; split; [reflexivity|]. cbn [set_msglen set_value set_subtype set_type h Value usType usSubType].
    split_and!; [done|done| | |].
    + unfold event_value_length. cbn -[EVENTINFO_HEADER_LENGTH Z.of_nat]. lia.
    + rewrite length_splice; [done|autorewrite with pdk; rewrite length_event0; lia].
    + unfold splice. rewrite take_0; simpl. rewrite take_app_length'; [done|].
      autorewrite with pdk. lia.
  - assert (nLen = 0%Z) as -> by lia. unfold mbind, outcome_bind. rewrite Hc.
    eexists; split; [reflexivity|]. split_and!; try reflexivity; apply length_event0.
Qed.

Module QThreadFacts.
Import QThread.

(** [n] calls of [remove] in a row, by the worker. *)
Fixpoint removes (n : nat) (t : qthread) : option (list EVENTINFO * qthread) :=
  match n with
  | O => Some ([], t)
  | S n =>
      match remove t with
      | Some (Some e, t1) =>
          match removes n t1 with Some (es, t2) => Some (e :: es, t2) | None => None end
      | _ => None
      end
  end.

Definition items (t : qthread) : list EVENTINFO := Queue.q_items (qt_queue t).
Definition max (t : qthread) : Z := Queue.q_max (qt_queue t).

Lemma removes_items t n es rest :
  n = length es -> items t = es ++ rest ->
  exists t', removes n t = Some (es, t') /\ items t' = rest.
Proof.
  intros ->. revert t. induction es as [|e es IH]; intros t Ht; simpl in *.
  { by exists t. }
  unfold remove, items in *. destruct t as [th [qi m sc cl]]; simpl in *. subst qi.
  unfold Queue.get, Queue.ready; simpl.
  edestruct (IH (QT th (Queue.Q (es ++ rest) m e cl))) as (t' & Hr & Hi); [done|].
  unfold with_queue; simpl. rewrite Hr. eauto.
Qed.

Lemma size_items t : (Z.of_nat (length (items t)) <= INT32_MAX)%Z ->
  Queue.size_int (qt_queue t) = Z.of_nat (length (items t)).
Proof.
  intros Hl. unfold Queue.size_int. apply swrap_small.
  unfold in_s32, INT32_MIN, INT32_MAX in *. unfold items in *. lia.
Qed.

Lemma add_accepts e t :
  Queue.q_closed (qt_queue t) = false -> (max t <= INT32_MAX)%Z ->
  (Z.of_nat (length (items t)) < max t)%Z ->
  exists t', add e t = (true, t') /\ items t' = items t ++ [e] /\
    max t' = max t /\ qt_thread t' = qt_thread t.
Proof.
  intros Hc Hm Hl. unfold add, Queue.put. rewrite Hc, size_items by lia.
  unfold max in *. rewrite (proj2 (Z.leb_gt _ _)) by lia. simpl. eauto.
Qed.
End QThreadFacts.

Import QThread QThreadFacts.

(** C15: an event posted with [QThread::add_event] reaches the worker
    intact.  With room in the queue and a payload that fits
    [EVENTINFO::Value], the call succeeds; the worker's following
    [remove] calls return first the events queued before and then this one,
    with its type and subtype, a value length of [nLen] and the [nLen]
    payload bytes. *)
Theorem qthread_event_delivery ty sty mem nLen t :
  Queue.q_closed (qt_queue t) = false -> (max t <= INT32_MAX)%Z ->
  (Z.of_nat (length (items t)) < max t)%Z ->
  (0 <= nLen <= Z.of_nat (length mem))%Z -> (nLen <= Z.of_nat MAX_VALUE_SIZE)%Z ->
  exists e t' t'',
    add_event ty sty (Some mem) nLen t = Ok (true, t') /\
    removes (S (length (items t))) t' = Some (items t ++ [e], t'') /\ items t'' = [] /\
    usType (h e) = u16 ty /\ usSubType (h e) = u16 sty /\
    event_value_length e = nLen /\
    take (Z.to_nat nLen) (Value e) = take (Z.to_nat nLen) mem.
Proof.
  intros Hc Hm Hroom Hn Hv.
  destruct (make_event_spec ty sty mem nLen) as (e & He & H1 & H2 & H3 & _ & H4); [done..|].
  destruct (add_accepts e t) as (t' & Ha & Hi & _); [done..|].
  destruct (removes_items t' (S (length (items t))) (items t ++ [e]) []) as (t'' & Hr & Hi');
    [rewrite length_app; simpl; lia|by rewrite app_nil_r|].
  exists e, t', t''. unfold add_event, mbind, outcome_bind. by rewrite He, Ha.
Qed.

Lemma qthread_event_delivery_witness :
  exists e t' t'',
    add_event CI_TIMER_DONE 7 (Some [1; 2; 3]%Z) 3 new_default = Ok (true, t') /\
    removes 1 t' = Some ([e], t'') /\ items t'' = [] /\
    usType (h e) = 0xffff%Z /\ usSubType (h e) = 7%Z /\
    event_value_length e = 3%Z /\ take 3 (Value e) = [1; 2; 3]%Z.
Proof.
  apply (qthread_event_delivery CI_TIMER_DONE 7 [1; 2; 3]%Z 3 new_default);
    vm_compute; try reflexivity; try (split; intro Hx; discriminate Hx); intro Hx; discriminate Hx.
Defined.

(** The failure branches of [QThread::add_event].  A full or shut-down
    queue makes the call return [false] and leaves the queue as it was; a
    payload longer than [EVENTINFO::Value] is written past the end of the
    packet (the length is not checked). *)
Theorem qthread_add_event_failures ty sty mem nLen t :
  (0 < nLen <= Z.of_nat (length mem))%Z -> (max t <= INT32_MAX)%Z ->
  (Z.of_nat (length (items t)) <= INT32_MAX)%Z ->
  ((nLen <= Z.of_nat MAX_VALUE_SIZE)%Z ->
   Queue.q_closed (qt_queue t) = true \/ (max t <= Z.of_nat (length (items t)))%Z ->
   add_event ty sty (Some mem) nLen t = Ok (false, t)) /\
  ((Z.of_nat MAX_VALUE_SIZE < nLen)%Z ->
   add_event ty sty (Some mem) nLen t = Ub OutOfBounds).
Proof.
  intros Hn Hm Hl. split.
  - intros Hv Hfull. destruct (make_event_spec ty sty mem nLen) as (e & He & _); [lia..|].
    unfold add_event, mbind, outcome_bind. rewrite He.
    unfold add, Queue.put. rewrite size_items by lia. unfold max in *.
    destruct t as [th q]; simpl in *.
    replace (Queue.q_closed q || (Queue.q_max q <=? Z.of_nat (length (items (QT th q))))%Z)
      with true; [done|]. symmetry.
    destruct Hfull as [->|Hf]; [done|].
    rewrite (proj2 (Z.leb_le _ _)) by lia. by rewrite orb_true_r.
  - intros Hv. unfold add_event, make_event.
    rewrite (proj2 (Z.ltb_lt _ _)) by lia. rewrite slice_ok by lia.
    unfold mbind, outcome_bind. unfold blit. rewrite bool_decide_false; [done|].
    autorewrite with pdk. intros Hle.
    change (length (Value (set_subtype (u16 sty) (set_type (u16 ty) event0))))
      with (length (Value event0)) in Hle. rewrite length_event0 in Hle. lia.
Qed.

Lemma qthread_add_event_failures_witness :
  add_event CI_TIMER_DONE 0 (Some [1]%Z) 1 (new 0) = Ok (false, new 0) /\
  add_event CI_TIMER_DONE 0 (Some (replicate 4037 0%Z)) 4037 (new 0) = Ub OutOfBounds.
Proof.
  split.
  - apply (qthread_add_event_failures CI_TIMER_DONE 0 [1]%Z 1 (new 0)); simpl;
      try (right; vm_compute; intro Hx; discriminate Hx); vm_compute;
      try (split; (reflexivity || intro Hx; discriminate Hx)); intro Hx; discriminate Hx.
  - apply (qthread_add_event_failures CI_TIMER_DONE 0 (replicate 4037 0%Z) 4037 (new 0));
      vm_compute; try (split; (reflexivity || intro Hx; discriminate Hx));
      try reflexivity; intro Hx; discriminate Hx.
Defined.

(** ** Closing against a worker and producers *)
Module Closing.

(** The calls of [QThread::close]; [close_post] as its two locked halves, with
    the join in between. *)
Inductive call : Type := ClosePre | QuitEvent | PostBegin | PostEnd.
#[export] Instance call_eq_dec : EqDecision call.
Proof. solve_decision. Defined.
Definition close_prog : list call := [ClosePre; QuitEvent; PostBegin; PostEnd].

(** The worker, [while (!do_exit()) { remove(); ... }]: about to test, in
    [remove] and about to look at the queue, parked there, or finished. *)
Inductive wpc : Type := WTest | WRemove | WParked | WDone.
#[export] Instance wpc_eq_dec : EqDecision wpc.
Proof. solve_decision. Defined.

Record csys : Type := CS {
  cs_t : qthread; cs_worker : wpc; cs_close : list call; cs_join : option jthread;
}.

(** A successful [put] notifies; a caller that was not parked is not affected. *)
Definition notify (accepted : bool) (w : wpc) : wpc :=
  match accepted, w with true, WParked => WRemove | _, _ => w end.

(** [join] returns when the worker of the handle has ended. *)
Definition joined (s : csys) : bool :=
  match cs_join s, cs_worker s with
  | Some (Joinable _), WDone | Some MovedFrom, _ => true
  | _, _ => false
  end.

Definition worker_step (s : csys) : option csys :=
  let '(CS t w c j) := s in
  match w with
  | WTest => Some (CS t (if do_exit (qt_thread t) then WDone else WRemove) c j)
  | WRemove =>
      match remove t with
      | None => Some (CS t WParked c j)
      | Some (_, t') => Some (CS t' WTest c j)
      end
  | WParked | WDone => None
  end.

Definition closer_step (s : csys) : option csys :=
  let '(CS t w c j) := s in
  match c with
  | [] => None
  | ClosePre :: c => Some (CS (QT (close_pre (qt_thread t)) (qt_queue t)) w c j)
  | QuitEvent :: c =>
      match add_quit_event t with Ok (r, t') => Some (CS t' (notify r w) c j) | _ => None end
  | PostBegin :: c =>
      match close_post_begin (qt_thread t) with
      | None => Some (CS t w [] j)
      | Some (h, th) => Some (CS (QT th (qt_queue t)) w c (Some h))
      end
  | PostEnd :: c => if joined s then Some (CS (close_end t) w c j) else None
  end.

(** A step of the worker or of the closer, an event from another thread, a
    spurious wake-up. *)
Inductive act : Type := AWorker | ACloser | AAdd (e : EVENTINFO) | ASpurious.

Definition cexec (a : act) (s : csys) : option csys :=
  match a with
  | AWorker => worker_step s
  | ACloser => closer_step s
  | AAdd e => let r := add e (cs_t s) in
      Some (CS r.2 (notify r.1 (cs_worker s)) (cs_close s) (cs_join s))
  | ASpurious => match cs_worker s with
      | WParked => Some (CS (cs_t s) WRemove (cs_close s) (cs_join s)) | _ => None end
  end.

Definition crun (l : list act) (s : csys) : option csys :=
  fold_left (fun o a => o ≫= cexec a) l (Some s).

(** A thread just started by its first [start()], about to be closed. *)
Definition closing (n : Z) : option csys :=
  '(_, _, t) ← QThread.start 0%nat (new n); Some (CS t WTest close_prog None).

(** Steps of its own the worker and the closer have left once the quit event is
    out. *)
Definition worker_left (w : wpc) : nat :=
  match w with WDone => 0 | WTest => 1 | WRemove => 2 | WParked => 3 end.
Definition left (s : csys) : nat := (worker_left (cs_worker s) + length (cs_close s))%nat.

Definition quit_event : EVENTINFO :=
  set_msglen (Z.of_nat EVENTINFO_HEADER_LENGTH)
    (set_subtype 0 (set_type (u16 CI_QUIT_THREAD) event0)).

Definition cthread (s : csys) : thread := qt_thread (cs_t s).

(** What each point of [close] knows of the thread object and the worker. *)
Definition at_point (s : csys) : Prop :=
  match cs_close s with
  | [ClosePre; QuitEvent; PostBegin; PostEnd] =>
      cthread s = Thr (Some (Joinable 0)) false false /\ cs_worker s <> WDone
  | [QuitEvent; PostBegin; PostEnd] => cthread s = Thr (Some (Joinable 0)) true false
  | [PostBegin; PostEnd] => cthread s = Thr (Some (Joinable 0)) true false
  | [PostEnd] => cthread s = Thr (Some MovedFrom) true true /\ cs_join s = Some (Joinable 0)
  | [] => cthread s = Thr None true false /\ cs_worker s = WDone
  | _ => False
  end.

Record cinv (n : Z) (s : csys) : Prop := {
  ci_open : Queue.q_closed (qt_queue (cs_t s)) = false;
  ci_max : max (cs_t s) = n;
  ci_len : (Z.of_nat (length (items (cs_t s))) <= n)%Z;
  ci_parked : cs_worker s = WParked -> items (cs_t s) = [];
  ci_quit : QuitEvent ∉ cs_close s -> cs_worker s = WRemove -> items (cs_t s) <> [];
  ci_awake : QuitEvent ∉ cs_close s -> cs_worker s <> WParked;
  ci_point : at_point s;
}.

Lemma closing_cinv n s : (0 < n)%Z -> closing n = Some s -> cinv n s.
Proof. intros Hn [= <-]. by split; simpl; try lia. Qed.

Lemma add_cases n e t : (0 < n <= INT32_MAX)%Z -> Queue.q_closed (qt_queue t) = false ->
  max t = n -> (Z.of_nat (length (items t)) <= n)%Z ->
  exists r t', add e t = (r, t') /\ qt_thread t' = qt_thread t /\ max t' = n /\
    Queue.q_closed (qt_queue t') = false /\ (Z.of_nat (length (items t')) <= n)%Z /\ items t' <> [] /\
    (r = true /\ items t' = items t ++ [e] \/ r = false /\ items t' = items t).
Proof.
  intros Hn Hc Hm Hl. unfold add, Queue.put. rewrite Hc, size_items by lia. unfold max in *. rewrite Hm. simpl.
  destruct (Z.leb_spec n (Z.of_nat (length (items t)))) as [Hf|Hf]; eexists _, _; split; try reflexivity.
  - split_and!; try done; [|by right]. intros Hi. change (items t = []) in Hi. rewrite Hi in Hf. simpl in Hf. lia.
  - unfold items in *; simpl. rewrite length_app. split_and!; try done; [simpl; lia| |by left].
    by destruct (Queue.q_items (qt_queue t)).
Qed.

Lemma add_quit_is_add t : add_quit_event t = Ok (add quit_event t).
Proof. reflexivity. Qed.

(** An event posted by the closer or by another thread. *)
Lemma cinv_add n e c s : (0 < n <= INT32_MAX)%Z -> cinv n s ->
  (c = cs_close s \/ cs_close s = QuitEvent :: c) ->
  let r := add e (cs_t s) in
  let s' := CS r.2 (notify r.1 (cs_worker s)) c (cs_join s) in at_point s' -> cinv n s'.
Proof.
  intros Hn [Ho Hm Hl Hp Hq Ha Hpt] Hc.
  destruct (add_cases n e (cs_t s) Hn Ho Hm Hl) as (r & t' & -> & Hth & Hm' & Ho' & Hl' & Hne & Hr).
  simpl. intros Hpt'. split; simpl; try done.
  - intros Hw. destruct Hr as [ [-> Hi]|[-> Hi]]; destruct (cs_worker s); try done. rewrite Hi. by apply Hp.
  - intros Hnq Hw. destruct Hr as [ [-> Hi]|[-> Hi]]; simpl in Hw; destruct (cs_worker s) eqn:Hwk; try done.
    rewrite (Hp eq_refl) in Hi. by rewrite Hi in Hne.
Qed.

Lemma at_point_worker t t' w w' c j : qt_thread t' = qt_thread t -> w <> WDone -> w' <> WDone ->
  at_point (CS t w c j) -> at_point (CS t' w' c j).
Proof.
  unfold at_point, cthread; simpl. intros -> Hw Hw' Hp. repeat (case_match; try done); by destruct_and?.
Qed.

Lemma worker_step_cinv n s s' : cinv n s -> worker_step s = Some s' -> cinv n s'.
Proof.
  destruct s as [t [] c j]; intros [Ho Hm Hl Hp Hq Ha Hpt] He; simpl in *; try done.
  - simplify_eq. assert (do_exit (qt_thread t) = true \/ c = close_prog) as Hd.
    { unfold at_point, cthread in Hpt; simpl in Hpt.
      repeat (case_match; try done); simplify_eq; unfold do_exit; destruct_and?;
        repeat match goal with H : qt_thread t = _ |- _ => rewrite H end; auto. }
    destruct (do_exit (qt_thread t)) eqn:Hx; split; simpl; try done.
    + unfold at_point, cthread in *; simpl in *. repeat (case_match; try done); destruct_and?; try done.
      match goal with H : qt_thread t = _ |- _ => rewrite H in Hx end. done.
    + destruct Hd as [| ->]; [done|]. intros Hn. destruct Hn. unfold close_prog. set_solver.
    + by eapply at_point_worker; [..|exact Hpt].
  - unfold remove, Queue.get, Queue.ready in He. destruct t as [th [xs m sc cl]]; simpl in *.
    unfold items, max in *; simpl in *. subst cl.
    destruct xs as [|x xs]; simplify_eq/=; split; simpl; try done; try (unfold items; simpl in *; lia).
    + intros Hn _. by apply (Hq Hn eq_refl).
    + by eapply at_point_worker; [..|exact Hpt].
    + by eapply at_point_worker; [..|exact Hpt].
Qed.

Lemma closer_step_cinv n s s' : (0 < n <= INT32_MAX)%Z -> cinv n s -> closer_step s = Some s' -> cinv n s'.
Proof.
  intros Hn Hinv He. pose proof Hinv as [Ho Hm Hl Hp Hq Ha Hpt].
  destruct s as [ [th q] w c j]. unfold at_point, cthread in Hpt; cbn [cs_t cs_worker cs_close cs_join qt_thread] in *.
  destruct c as [|[] [|[] [|[] [|[] [|]]]]]; try done;
    try match type of Hpt with _ /\ _ => destruct Hpt as [Hpt Hw] end; subst th; cbn [closer_step] in He.
  - simplify_eq/=. by split; simpl; try done; intros Hnq; destruct Hnq; set_solver.
  - rewrite add_quit_is_add in He. injection He as <-.
    destruct (add_cases n quit_event _ Hn Ho Hm Hl) as (r & t' & Hadd & Hth & _).
    eapply (cinv_add n quit_event [PostBegin; PostEnd] _ Hn Hinv); [by right|].
    unfold at_point, cthread. cbn [cs_close cs_t]. rewrite Hadd. exact Hth.
  - simplify_eq/=. split; simpl; try done; intros _; [apply Hq|apply Ha]; set_solver.
  - unfold joined in He; simpl in He. destruct w; simplify_eq/=. by split.
Qed.

Lemma cexec_cinv n a s s' : (0 < n <= INT32_MAX)%Z -> cinv n s -> cexec a s = Some s' -> cinv n s'.
Proof.
  intros Hn Hinv He. destruct a; simpl in He.
  - by eapply worker_step_cinv.
  - by eapply closer_step_cinv.
  - injection He as <-. pose proof Hinv as [Ho Hm Hl _ _ _ Hpt].
    destruct (add_cases n e _ Hn Ho Hm Hl) as (r & t' & Hadd & Hth & _).
    apply (cinv_add n e (cs_close s) s Hn Hinv); [by left|]. rewrite Hadd. simpl.
    destruct s as [t w c j]; simpl in *. destruct (decide (w = WDone)) as [->|Hw].
    + unfold at_point, cthread in *; simpl in *. rewrite Hth. by destruct r.
    + eapply at_point_worker; [..|exact Hpt]; [done..|]. by destruct r, w.
  - destruct s as [t [] c j]; simplify_eq/=. destruct Hinv as [Ho Hm Hl Hp Hq Ha Hpt]; simpl in *.
    split; simpl; try done; [intros Hnq; by destruct (Ha Hnq)|by eapply at_point_worker; [..|exact Hpt] ].
Qed.

Lemma crun_cinv n l s0 s : (0 < n <= INT32_MAX)%Z -> closing n = Some s0 -> crun l s0 = Some s -> cinv n s.
Proof.
  intros Hn H0. revert s. induction l as [|a l IH] using rev_ind; intros s Hs.
  - injection Hs as ->. apply closing_cinv; [lia|done].
  - unfold crun in *. rewrite fold_left_app in Hs. simpl in Hs.
    destruct (fold_left _ l _) as [s1|] eqn:H1; [|done]. eapply cexec_cinv; [done|by apply IH|done].
Qed.

(** Once the quit event is out. *)
Lemma past_quit n s : cinv n s -> QuitEvent ∉ cs_close s ->
  cs_close s = [] \/ cs_close s = [PostEnd] \/ cs_close s = [PostBegin; PostEnd].
Proof.
  intros Hinv Hq. pose proof (ci_point n s Hinv) as Hp. unfold at_point in Hp.
  repeat (case_match; try done); auto; destruct Hq; set_solver.
Qed.

Lemma past_quit_step n a s s' : (0 < n <= INT32_MAX)%Z -> cinv n s -> QuitEvent ∉ cs_close s ->
  cexec a s = Some s' ->
  (left s' <= left s)%nat /\ (a = AWorker \/ a = ACloser -> (left s' < left s)%nat).
Proof.
  intros Hn Hinv Hq He. pose proof (ci_awake n s Hinv Hq) as Hw. pose proof (ci_quit n s Hinv Hq) as Hi.
  pose proof (past_quit n s Hinv Hq) as Hc. pose proof (ci_open n s Hinv) as Ho. pose proof (ci_point n s Hinv) as Hp.
  destruct s as [t w c j]. unfold left. destruct a; cbn [cexec cs_t cs_worker cs_close cs_join] in *.
  - enough (worker_left (cs_worker s') < worker_left w /\ cs_close s' = c)%nat as [? ->] by (split; [lia|intros; lia]).
    destruct w; simplify_eq/=.
    + replace (do_exit (qt_thread t)) with true; [simpl; split; [lia|done]|].
      unfold at_point, cthread in Hp; simpl in Hp. unfold do_exit. destruct Hc as [->|[->| ->]].
      * by destruct Hp as [-> _].
      * by destruct Hp as [-> _].
      * by rewrite Hp.
    + destruct t as [th [xs m sc cl] ]; simpl in *. subst cl. unfold remove, Queue.get, Queue.ready in He; simpl in He.
      destruct xs; simplify_eq/=; [by destruct (Hi eq_refl)|split; [lia|done] ].
  - enough (cs_worker s' = w /\ length (cs_close s') < length c)%nat as [-> ?] by (split; [lia|intros; lia]).
    destruct Hc as [->|[->| ->]]; cbn [closer_step] in He.
    + done.
    + by destruct (joined _); simplify_eq/=; split; [|lia].
    + destruct (close_post_begin (qt_thread t)) as [ []|]; simplify_eq/=; (split; [done|lia]).
  - injection He as <-. simpl. replace (notify _ w) with w by (by destruct (Queue.put _ _).1, w).
    split; [lia|naive_solver].
  - by destruct w.
Qed.

Lemma past_quit_moves n s : cinv n s -> QuitEvent ∉ cs_close s -> cs_close s <> [] ->
  is_Some (cexec AWorker s) \/ is_Some (cexec ACloser s).
Proof.
  intros Hinv Hq Hne. pose proof (ci_awake n s Hinv Hq) as Hw. pose proof (ci_point n s Hinv) as Hp.
  destruct (past_quit n s Hinv Hq) as [Hc|[Hc|Hc]]; [done|..];
    destruct s as [t w c j]; unfold at_point, cthread in Hp; simpl in *; subst c.
  - destruct Hp as [_ ->]. destruct w; try done; [left; by eexists|left|right; by eexists].
    destruct (remove t) as [ []|]; by eexists.
  - right. rewrite Hp. by eexists.
Qed.

Lemma closer_enabled n s : cinv n s -> cs_close s <> [] -> cs_close s <> [PostEnd] ->
  is_Some (cexec ACloser s).
Proof.
  intros Hinv Hne Hnp. pose proof (ci_point n s Hinv) as Hp. destruct s as [t w c j].
  unfold at_point, cthread in Hp; cbn [cs_close cs_t cs_worker cs_join cexec closer_step] in *.
  destruct c as [|[] c]; [done|by eexists|..].
  - rewrite add_quit_is_add. destruct (add quit_event t). by eexists.
  - destruct (close_post_begin (qt_thread t)) as [ []|]; by eexists.
  - destruct c; done.
Qed.

Lemma quit_wakes n s rest : (0 < n <= INT32_MAX)%Z -> cinv n s -> cs_worker s = WParked ->
  cs_close s = QuitEvent :: rest ->
  exists s' e t, cexec ACloser s = Some s' /\ cs_worker s' = WRemove /\
    remove (cs_t s') = Some (Some e, t) /\ usType (h e) = CI_QUIT_THREAD.
Proof.
  intros Hn [Ho Hm Hl Hp _ _ _] Hw Hc.
  destruct (add_cases n quit_event (cs_t s) Hn Ho Hm Hl) as (r & t' & Hadd & _ & _ & _ & _ & Hne & Hr).
  rewrite (Hp Hw) in Hr. destruct Hr as [ [-> Hi]|[-> Hi] ]; [|by rewrite Hi in Hne].
  destruct s as [t w c j]; cbn [cs_close cs_t cs_worker cs_join cexec closer_step] in *; subst w c.
  cbn [closer_step]. rewrite add_quit_is_add, Hadd. do 3 eexists.
  split; [reflexivity|]. split; [done|]. simpl. destruct t' as [th [xs m sc cl] ]. unfold items in Hi; simpl in Hi.
  subst xs. split; reflexivity.
Qed.

(** Undisturbed, the closer's calls up to the join are [close_begin]. *)
Lemma close_begin_is_prog t w jn jo t' : close_begin t = Ok (Some jn, t') ->
  exists w', crun [ACloser; ACloser; ACloser] (CS t w close_prog jo) = Some (CS t' w' [PostEnd] (Some jn)).
Proof.
  unfold close_begin. rewrite add_quit_is_add. unfold crun, close_prog. cbn [fold_left mbind option_bind cexec closer_step].
  rewrite add_quit_is_add. cbn [mbind outcome_bind].
  destruct (add quit_event _) as [r t2]. cbn [mbind option_bind cexec closer_step].
  destruct (close_post_begin (qt_thread t2)) as [ [j0 th]|]; intros He; simplify_eq. by eexists.
Qed.
End Closing.
Import Closing.

(** C16: [QThread::close] gets through to the worker.  A thread is started once
    and then closed by one caller, while its worker runs the loop
    [while (!do_exit()) remove();] and any other threads post events: in every
    interleaving of their steps (with spurious wake-ups, the queue length being
    positive) [close()] can always take its next step, except for the join.  If
    the worker is parked in [remove] when [close] posts the quit event, it is
    woken and takes that event.  From that call on the worker is not parked; the
    worker or the closer can move until [close()] has returned; each such step
    brings the return nearer and no step of the others puts it off; and when
    [close()] has returned, the worker has ended and the object is free for a new
    start.  The handling of an event is assumed to return. *)
Theorem qthread_close_wakes_idle_worker n s0 l s :
  (0 < n <= INT32_MAX)%Z -> closing n = Some s0 -> crun l s0 = Some s ->
  (cs_close s <> [] -> cs_close s <> [PostEnd] -> is_Some (cexec ACloser s)) /\
  (cs_worker s = WParked -> forall rest, cs_close s = QuitEvent :: rest ->
     exists s' e t, cexec ACloser s = Some s' /\ cs_worker s' = WRemove /\
       remove (cs_t s') = Some (Some e, t) /\ usType (h e) = CI_QUIT_THREAD) /\
  (QuitEvent ∉ cs_close s ->
     cs_worker s <> WParked /\
     (cs_close s <> [] -> is_Some (cexec AWorker s) \/ is_Some (cexec ACloser s)) /\
     (forall s', cexec AWorker s = Some s' \/ cexec ACloser s = Some s' -> (left s' < left s)%nat) /\
     (forall a s', cexec a s = Some s' -> (left s' <= left s)%nat) /\
     (cs_close s = [] -> cs_worker s = WDone /\ cthread s = Thr None true false)).
Proof.
  intros Hn H0 Hrun. pose proof (crun_cinv n l s0 s Hn H0 Hrun) as Hinv.
  split_and!; [by eapply closer_enabled| |].
  - intros Hw rest Hc. by eapply quit_wakes.
  - intros Hq. split_and!.
    + by apply (ci_awake n s Hinv).
    + by eapply past_quit_moves.
    + intros s' [He|He]; eapply (past_quit_step n) in He; naive_solver.
    + intros a s' He. by eapply (past_quit_step n) in He as [? _].
    + intros Hc. pose proof (ci_point n s Hinv) as Hp. unfold at_point in Hp. rewrite Hc in Hp. naive_solver.
Qed.

(** The worker parks, [close] runs up to its join, the worker leaves, [close]
    returns. *)
Lemma qthread_close_wakes_idle_worker_witness :
  exists s0 s, closing 32 = Some s0 /\
    crun [AWorker; AWorker; ACloser; ACloser; ACloser; AWorker; AWorker; ACloser] s0 = Some s /\
    cs_close s = [] /\ cs_worker s = WDone /\ cthread s = Thr None true false.
Proof.
  destruct (closing 32) as [s0|] eqn:H0; [|vm_compute in H0; discriminate H0].
  destruct (crun [AWorker; AWorker; ACloser; ACloser; ACloser; AWorker; AWorker; ACloser] s0) as [s|] eqn:Hs.
  2: { vm_compute in H0. injection H0 as <-. vm_compute in Hs. discriminate Hs. }
  assert (cs_close s = []) as Hc.
  { vm_compute in H0. injection H0 as <-. vm_compute in Hs. by injection Hs as <-. }
  exists s0, s. assert (0 < 32 <= INT32_MAX)%Z as H32 by (unfold INT32_MAX; lia).
  destruct (qthread_close_wakes_idle_worker 32 s0 _ s H32 H0 Hs) as (_ & _ & Hq).
  assert (QuitEvent ∉ cs_close s) as Hnq by (rewrite Hc; set_solver).
  destruct (Hq Hnq) as (_ & _ & _ & _ & Hend). destruct (Hend Hc). done.
Defined.
