(* ===== verification/EventTypes.v ===== *)
(** * Event types (include/eventdefs.hpp, [enum EVENTTYPE])

    The enumeration with the numbers C++ gives it: an enumerator without a value is
    one more than the one before.  Receivers tell events apart by comparing the
    16-bit type field with these numbers. *)

From S2P Require Import Prelude Sync ThreadLife Event.

Module EventType.
Inductive EVENTTYPE : Type :=
  | CI_QUIT | CI_NONE | CI_ACK | CI_LOGIN | CI_LOGOUT | CI_TIMEOUT | CI_ARS_START | CI_ARS_STOP |
  CI_SS7_CALL | CI_SS7_HANGUP | CI_SS7_ALERT | CI_SS7_ANSWER | CI_SS7_RECV | CI_SS7_RELEASE |
  CI_SS7_REJECT | CI_TTS_REQUEST | CI_TTS_REPLY | CI_PLAY_DONE | CI_RECORD_DONE | CI_DTMF_SINGLE |
  CI_DTMF_MULTI | CI_NOINPUT | CI_NOMATCH | CI_NMS_EVENT | CI_VXML_REQUEST | CI_VXML_DONE |
  CI_QUIT_THREAD | CI_START_SIM | CI_STOP_SIM | CI_START_SIM_HELPER | CI_GEN_DTMF | CI_PLAY_FILE |
  CI_VXML_RESPONSE | CI_APP_REQUEST | CI_SS7_REQUEST | CI_SS7_OG_REQ | CI_SS7_CH_STATUS |
  CI_SS7_CH_STATUS_ACK | CI_JUMP_DOC | CI_USER_CERT | CI_SS7_REL_COMPLETE | CI_SS7_RESET |
  CI_SS7_REATEMPT | CI_OG_MESSAGE | CI_OG_RELEASE | CI_OG_CALL_RES | CI_OG_CALL_RECV |
  CI_OG_CALL_ACCEPT | CI_MGR_MESSAGE | CI_MGR_CALL | CI_MGR_CALL_ACCEPT | CI_MGR_RECALL |
  CI_MGR_REL | CI_MGR_FREECH | CI_OG_REQUEST | CI_CTRL_MESSAGE | CI_SS7_G_DISTRIBUTE_RESET |
  CI_START_VXML | CI_DTMF_TONE | CI_OG_STATUS_REQ | CI_OG_STATUS_RES.

#[global] Instance EVENTTYPE_eq_dec : EqDecision EVENTTYPE.
Proof. solve_decision. Defined.

(** The declaration, with the values it gives. *)
Definition declared : list (EVENTTYPE * option Z) :=
  [(CI_QUIT, Some 0x7fff); (CI_NONE, Some 0x8000); (CI_ACK, Some 0x8001); (CI_LOGIN, Some 0x8002);
   (CI_LOGOUT, Some 0x8003); (CI_TIMEOUT, Some 0x8004); (CI_ARS_START, Some 0x8005);
   (CI_ARS_STOP, Some 0x8006); (CI_SS7_CALL, Some 0x8007); (CI_SS7_HANGUP, Some 0x8008);
   (CI_SS7_ALERT, Some 0x8009); (CI_SS7_ANSWER, Some 0x800a); (CI_SS7_RECV, Some 0x800b);
   (CI_SS7_RELEASE, Some 0x800c); (CI_SS7_REJECT, Some 0x800d); (CI_TTS_REQUEST, Some 0x800e);
   (CI_TTS_REPLY, Some 0x800f); (CI_PLAY_DONE, Some 0x9001); (CI_RECORD_DONE, None);
   (CI_DTMF_SINGLE, None); (CI_DTMF_MULTI, None); (CI_NOINPUT, None); (CI_NOMATCH, None);
   (CI_NMS_EVENT, Some 0xf000); (CI_VXML_REQUEST, None); (CI_VXML_DONE, None);
   (CI_QUIT_THREAD, None); (CI_START_SIM, None); (CI_STOP_SIM, None); (CI_START_SIM_HELPER, None);
   (CI_GEN_DTMF, None); (CI_PLAY_FILE, None); (CI_VXML_RESPONSE, None); (CI_APP_REQUEST, None);
   (CI_SS7_REQUEST, None); (CI_SS7_OG_REQ, None); (CI_SS7_CH_STATUS, None);
   (CI_SS7_CH_STATUS_ACK, None); (CI_JUMP_DOC, None); (CI_USER_CERT, None);
   (CI_SS7_REL_COMPLETE, None); (CI_SS7_RESET, None); (CI_SS7_REATEMPT, None);
   (CI_OG_MESSAGE, None); (CI_OG_RELEASE, None); (CI_OG_CALL_RES, None); (CI_OG_CALL_RECV, None);
   (CI_OG_CALL_ACCEPT, None); (CI_MGR_MESSAGE, None); (CI_MGR_CALL, None);
   (CI_MGR_CALL_ACCEPT, None); (CI_MGR_RECALL, None); (CI_MGR_REL, None); (CI_MGR_FREECH, None);
   (CI_OG_REQUEST, None); (CI_CTRL_MESSAGE, None); (CI_SS7_G_DISTRIBUTE_RESET, None);
   (CI_START_VXML, None); (CI_DTMF_TONE, None); (CI_OG_STATUS_REQ, None); (CI_OG_STATUS_RES, None)]%Z.

(** The rule for enumerators. *)
Fixpoint number (next : Z) (l : list (EVENTTYPE * option Z)) : list (EVENTTYPE * Z) :=
  match l with
  | [] => []
  | (t, v) :: l => let n := default next v in (t, n) :: number (n + 1) l
  end.
Definition numbered : list (EVENTTYPE * Z) := Eval vm_compute in number 0 declared.

Definition code (t : EVENTTYPE) : Z :=
  match find (fun x => bool_decide (x.1 = t)) numbered with Some x => x.2 | None => 0%Z end.
End EventType.
Import EventType.

(** ** Lemmas *)
Lemma numbered_number : numbered = number 0 declared.
Proof. by vm_compute. Qed.

(** Every enumerator is declared once. *)
Lemma declared_all t : (t, code t) ∈ numbered.
Proof. apply (bool_decide_unpack _). destruct t; by vm_compute. Qed.

Lemma codes_nodup : NoDup (map snd numbered).
Proof. apply (bool_decide_unpack _). by vm_compute. Qed.

Lemma NoDup_fmap_inj {A B} (f : A -> B) (l : list A) x y :
  NoDup (map f l) -> x ∈ l -> y ∈ l -> f x = f y -> x = y.
Proof.
  intros Hnd Hx Hy Hf. apply list_elem_of_lookup in Hx as [i Hi], Hy as [j Hj].
  assert (i = j) as ->; [|congruence].
  apply (NoDup_lookup (map f l) i j (f x) Hnd); [by rewrite list_lookup_fmap, Hi|rewrite Hf; by rewrite list_lookup_fmap, Hj].
Qed.

Lemma code_inj t t' : code t = code t' -> t = t'.
Proof.
  intros Hc. pose proof (NoDup_fmap_inj snd numbered _ _ codes_nodup (declared_all t) (declared_all t') Hc) as He.
  by simplify_eq.
Qed.

(** The numbers fit the field, and none is the timer's. *)
Lemma code_range t : (0 <= code t < 65535)%Z.
Proof. destruct t; by vm_compute. Qed.

Lemma code_quit_thread : code CI_QUIT_THREAD = Event.CI_QUIT_THREAD.
Proof. by vm_compute. Qed.

(** An event made with a type of the enumeration is taken for that type, and no
    other, by every receiver that compares its type field, and never for the end of
    a timer. *)
Theorem event_type_recognised (t : EVENTTYPE) (stype : Z) (bs : list Z) :
  (length bs <= MAX_VALUE_SIZE)%nat ->
  exists e, make_event (code t) stype (Some bs) (Z.of_nat (length bs)) = Ok e /\
    (forall t', usType (h e) = code t' <-> t' = t) /\ usType (h e) <> CI_TIMER_DONE.
Proof.
  intros Hlen. pose proof (code_range t) as Hr.
  destruct (make_event_spec (code t) stype bs (Z.of_nat (length bs))) as (e & He & Hty & _); [lia|lia|].
  rewrite uwrap_small in Hty by (unfold in_uw; lia).
  exists e. split_and!; [done| |unfold CI_TIMER_DONE; lia]. intros t'. rewrite Hty. split; [|by intros ->].
  intros Hc. symmetry. by apply code_inj.
Qed.
