(* ===== verification/Files.v ===== *)
(** * Files and times (include/base.hpp, src/base.cpp, src/file.cpp)

    [File] is an RAII handle on a POSIX descriptor.  The kernel is outside
    the repository: [Posix] is the interface of the system calls the code
    makes, [PosixFds] and [PosixData] state the documented behaviour the
    theorems rely on, and [MemFs] is a small file system that satisfies it.
    [Time] and [TimeMs] are at the end. *)

From S2P Require Import Prelude.

(** ** System calls *)

(** [-1] (or [None]) is a call that failed. *)
Class Posix (OS : Type) := {
  os_open : str -> Z -> Z -> OS -> Z * OS;
  os_close : Z -> OS -> OS;
  os_lseek : Z -> Z -> Z -> OS -> Z * OS;
  os_fstat_size : Z -> OS -> option Z;
  os_read : Z -> nat -> OS -> option (list Z) * OS;
  os_write : Z -> list Z -> OS -> Z * OS;
  os_fsync : Z -> OS -> OS;
  os_rename : str -> str -> OS -> OS;
  os_unlink : str -> OS -> OS;
}.

(** The open descriptors: [open] returns a fresh one, [close] frees it and no
    other call changes the set. *)
Class PosixFds (OS : Type) `{Posix OS} := {
  fds : OS -> gset Z;
  fds_open_fail : forall p fl m os, (os_open p fl m os).1 = (-1)%Z ->
    fds (os_open p fl m os).2 = fds os;
  fds_open : forall p fl m os, (os_open p fl m os).1 <> (-1)%Z ->
    ((os_open p fl m os).1 ∉ fds os) /\
    fds (os_open p fl m os).2 = {[ (os_open p fl m os).1 ]} ∪ fds os;
  fds_close : forall fd os, fds (os_close fd os) = (fds os ∖ {[ fd ]});
  fds_lseek : forall fd o w os, fds (os_lseek fd o w os).2 = fds os;
  fds_read : forall fd n os, fds (os_read fd n os).2 = fds os;
  fds_write : forall fd bs os, fds (os_write fd bs os).2 = fds os;
  fds_fsync : forall fd os, fds (os_fsync fd os) = fds os;
}.

(** Regular files: a descriptor with [unread fd os] left from its offset on
    reads as much of it as is asked for (a read is cut short only by the end of
    the file), and never more.  A descriptor with [written fd os] before its offset
    takes a prefix of what is written and reports its length, or fails and takes
    nothing; it takes everything when [room fd os n] holds for that many bytes: the
    volume and the file size limit leave room for [n] more bytes and no signal
    handler interrupts the calls. *)
Class PosixData (OS : Type) `{Posix OS} := {
  unread : Z -> OS -> option (list Z);
  written : Z -> OS -> option (list Z);
  room : Z -> OS -> nat -> Prop;
  read_bound : forall fd n os bs, (os_read fd n os).1 = Some bs -> (length bs <= n)%nat;
  read_regular : forall fd n os rest, unread fd os = Some rest ->
    (os_read fd n os).1 = Some (take n rest) /\
    unread fd (os_read fd n os).2 = Some (drop n rest);
  write_prefix : forall fd bs os out, written fd os = Some out -> exists k, (k <= length bs)%nat /\
    written fd (os_write fd bs os).2 = Some (out ++ take k bs) /\
    ((os_write fd bs os).1 = Z.of_nat k \/ (os_write fd bs os).1 = (-1)%Z /\ k = 0%nat);
  write_room : forall fd bs os n, room fd os (length bs + n) ->
    (os_write fd bs os).1 = Z.of_nat (length bs) /\ room fd (os_write fd bs os).2 n;
}.

Lemma write_whole `{PosixData OS} fd bs (os : OS) out n : written fd os = Some out ->
  room fd os (length bs + n) ->
  written fd (os_write fd bs os).2 = Some (out ++ bs) /\ room fd (os_write fd bs os).2 n.
Proof.
  intros Hw Hr. destruct (write_room fd bs os n Hr) as [Hlen Hr']. split; [|done].
  destruct (write_prefix fd bs os out Hw) as (k & Hk & -> & [Hret|[Hret _] ]); [|lia].
  by rewrite take_ge by lia.
Qed.

(** ** [File] *)
Definition modeRead : Z := 0x0000.
Definition modeWrite : Z := 0x0001.
Definition modeReadWrite : Z := 0x0002.
Definition modeCreate : Z := 0x1000.
Definition modeNoTruncate : Z := 0x2000.
Definition hFileNull : Z := (-1)%Z.

(** The [fcntl.h] and [unistd.h] constants of the target. *)
Definition O_RDONLY : Z := 0.
Definition O_WRONLY : Z := 1.
Definition O_RDWR : Z := 2.
Definition O_CREAT : Z := 64.
Definition O_TRUNC : Z := 512.
Definition O_APPEND : Z := 1024.
Definition SEEK_SET : Z := 0.
Definition SEEK_CUR : Z := 1.
Definition SEEK_END : Z := 2.

Record file : Type := FileObj {
  fd_ : Z;
  close_on_delete_ : bool;
  filename_ : str;
}.

(** [nOpenFlags & m] as a condition. *)
Definition has (nOpenFlags m : Z) : bool := negb (Z.land nOpenFlags m =? 0)%Z.

(** The flags and mode [File::open] hands to [::open]. *)
Definition open_flags (nOpenFlags : Z) : Z :=
  let flags :=
    if (Z.land nOpenFlags modeReadWrite =? modeReadWrite)%Z then O_RDWR
    else if has nOpenFlags modeWrite then O_WRONLY
    else O_RDONLY in
  let flags := if has nOpenFlags modeCreate then Z.lor flags O_CREAT else flags in
  if has nOpenFlags modeWrite && has nOpenFlags modeNoTruncate then Z.lor flags O_APPEND
  else if has nOpenFlags modeWrite && negb (has nOpenFlags modeNoTruncate)
          && has nOpenFlags modeCreate then Z.lor flags O_TRUNC
  else flags.

Definition open_mode (rmode : Z) : Z := if (rmode =? 0)%Z then 438%Z else rmode.

Section file_ops.
Context `{Posix OS}.
Implicit Types (f : file) (os : OS).

Definition File_default : file := FileObj hFileNull true [].
Definition File_adopt (hFile : Z) : file := FileObj hFile false [].

Definition File_open (name : str) (nOpenFlags rmode : Z) f os : bool * file * OS :=
  let '(fd, os1) := os_open name (open_flags nOpenFlags) (open_mode rmode) os in
  if (fd =? -1)%Z then (false, f, os1)
  else
    let os2 := if negb (fd_ f =? hFileNull)%Z && close_on_delete_ f
               then os_close (fd_ f) os1 else os1 in
    (true, FileObj fd true name, os2).

(** The constructor that opens by name; the base state is the default one. *)
Definition File_new (name : str) (nOpenFlags rmode : Z) os : outcome file * OS :=
  match File_open name nOpenFlags rmode File_default os with
  | (true, f, os') => (Ok f, os')
  | (false, _, os') => (Exc "File: cannot open", os')
  end.

Definition File_dtor f os : OS :=
  if close_on_delete_ f && negb (fd_ f =? hFileNull)%Z then os_close (fd_ f) os else os.

Definition File_seek (lOff nFrom : Z) f os : Z * OS := os_lseek (fd_ f) lOff nFrom os.
Definition File_seek_to_end f os : Z * OS := File_seek 0 SEEK_END f os.
Definition File_seek_to_begin f os : OS := (File_seek 0 SEEK_SET f os).2.
Definition File_position f os : Z * OS := os_lseek (fd_ f) 0 SEEK_CUR os.
Definition File_length f os : Z :=
  match os_fstat_size (fd_ f) os with Some n => n | None => 0%Z end.

(** The bytes read into [lpBuf]; their number is the result. *)
Definition File_read (nCount : nat) f os : list Z * OS :=
  let '(r, os') := os_read (fd_ f) nCount os in
  (match r with Some bs => bs | None => [] end, os').

Definition File_write (bs : list Z) f os : Z * OS :=
  let '(n, os') := os_write (fd_ f) bs os in
  ((if n <? 0 then 0 else u32 n)%Z, os').

Definition File_flush f os : OS :=
  if negb (fd_ f =? hFileNull)%Z then os_fsync (fd_ f) os else os.

Definition File_close f os : file * OS :=
  if negb (fd_ f =? hFileNull)%Z && close_on_delete_ f
  then (FileObj hFileNull (close_on_delete_ f) (filename_ f), os_close (fd_ f) os)
  else (f, os).

Definition File_rename (old new : str) os : OS := os_rename old new os.
Definition File_remove (name : str) os : OS := os_unlink name os.

(** ** Sequences of calls on one object *)
Inductive fop : Type :=
| FOpen (name : str) (flags rmode : Z)
| FSeek (off from : Z)
| FPosition
| FLength
| FRead (n : nat)
| FWrite (bs : list Z)
| FFlush
| FClose.

Definition fop_exec (o : fop) (s : file * OS) : file * OS :=
  let '(f, os) := s in
  match o with
  | FOpen n fl m => let '(_, f', os') := File_open n fl m f os in (f', os')
  | FSeek off from => (f, (File_seek off from f os).2)
  | FPosition => (f, (File_position f os).2)
  | FLength => (f, os)
  | FRead n => (f, (File_read n f os).2)
  | FWrite bs => (f, (File_write bs f os).2)
  | FFlush => (f, File_flush f os)
  | FClose => File_close f os
  end.

Definition fop_run (ops : list fop) (s : file * OS) : file * OS :=
  foldl (fun s o => fop_exec o s) s ops.
End file_ops.
Arguments fop : clear implicits.

(** ** Descriptor ownership *)
Section ownership.
Context `{PF : PosixFds OS}.

(** The descriptors besides the one the object owns stay as they were. *)
Definition owns (base : gset Z) (s : file * OS) : Prop :=
  let '(f, os) := s in
  if close_on_delete_ f && negb (fd_ f =? hFileNull)%Z
  then (fd_ f ∉ base) /\ fds os = base ∪ {[ fd_ f ]}
  else fds os = base.

Lemma fop_owns base o s : owns base s -> owns base (fop_exec o s).
Proof.
  destruct s as [f os]. intros Ho. destruct o; simpl.
  - unfold File_open.
    pose proof (fds_open name (open_flags flags) (open_mode rmode) os) as Hok.
    pose proof (fds_open_fail name (open_flags flags) (open_mode rmode) os) as Hno.
    destruct (os_open _ _ _ os) as [fd os1]; simpl in *.
    destruct (Z.eqb_spec fd (-1)) as [->|Hfd]; simpl.
    + unfold owns in *. by rewrite Hno by done.
    + destruct (Hok Hfd) as [Hfresh Hfds].
      unfold hFileNull. rewrite (proj2 (Z.eqb_neq fd (-1)) Hfd). simpl.
      unfold owns in Ho. rewrite (andb_comm (close_on_delete_ f)) in Ho. unfold hFileNull in Ho.
      destruct (negb (fd_ f =? -1)%Z && close_on_delete_ f); [destruct Ho as [Hb Hf]|].
      * rewrite fds_close, Hfds. rewrite Hf in Hfresh |- *. split; set_solver.
      * rewrite Ho in Hfresh, Hfds. split; set_solver.
  - unfold owns, File_seek in *. by rewrite fds_lseek.
  - unfold owns, File_position in *. by rewrite fds_lseek.
  - done.
  - unfold owns, File_read in *. pose proof (fds_read (fd_ f) n os) as Hr.
    destruct (os_read _ _ _); simpl in *. by rewrite Hr.
  - unfold owns, File_write in *. pose proof (fds_write (fd_ f) bs os) as Hr.
    destruct (os_write _ _ _); simpl in *. by rewrite Hr.
  - unfold owns, File_flush in *. destruct (negb _); [by rewrite fds_fsync|done].
  - unfold File_close. rewrite (andb_comm (negb _)). destruct (_ && _) eqn:Hc; simpl in *;
      rewrite Hc in *; [|done]. rewrite andb_false_r. rewrite fds_close.
    destruct Ho as [Hb ->]. set_solver.
Qed.

Lemma run_owns base ops s : owns base s -> owns base (fop_run ops s).
Proof.
  unfold fop_run. revert s. induction ops as [|o ops IH]; intros s Hs; simpl; [done|].
  by apply IH, fop_owns.
Qed.

Lemma dtor_owns base f os : owns base (f, os) -> fds (File_dtor f os) = base.
Proof.
  unfold owns, File_dtor. destruct (_ && _); [|done]. intros [Hb Hf].
  rewrite fds_close, Hf. set_solver.
Qed.
End ownership.

(** ** An in-memory file system *)
Module MemFs.
(** File contents by name, and per descriptor its file and offset. *)
Record fs : Type := Fs { tree : gmap str (list Z); table : gmap Z (str * nat) }.

Definition contents (n : str) (s : fs) : list Z := default [] (tree s !! n).
Definition fresh_fd (s : fs) : Z :=
  Z.of_nat (fresh (set_map Z.to_nat (dom (table s)) : gset nat)).

Definition mopen (n : str) (fl _ : Z) (s : fs) : Z * fs :=
  let fd := fresh_fd s in
  match tree s !! n with
  | Some c =>
      let c' := if has fl O_TRUNC then [] else c in
      (fd, Fs (<[n := c']> (tree s))
             (<[fd := (n, if has fl O_APPEND then length c' else 0%nat)]> (table s)))
  | None =>
      if has fl O_CREAT then (fd, Fs (<[n := []]> (tree s)) (<[fd := (n, 0%nat)]> (table s)))
      else ((-1)%Z, s)
  end.

Definition mclose (fd : Z) (s : fs) : fs := Fs (tree s) (delete fd (table s)).

Definition mlseek (fd off w : Z) (s : fs) : Z * fs :=
  match table s !! fd with
  | Some (n, pos) =>
      let base := if (w =? SEEK_SET)%Z then 0%Z
                  else if (w =? SEEK_CUR)%Z then Z.of_nat pos
                  else Z.of_nat (length (contents n s)) in
      if (base + off <? 0)%Z then ((-1)%Z, s)
      else ((base + off)%Z, Fs (tree s) (<[fd := (n, Z.to_nat (base + off))]> (table s)))
  | None => ((-1)%Z, s)
  end.

Definition mread (fd : Z) (k : nat) (s : fs) : option (list Z) * fs :=
  match table s !! fd with
  | Some (n, pos) =>
      let bs := take k (drop pos (contents n s)) in
      (Some bs, Fs (tree s) (<[fd := (n, (pos + length bs)%nat)]> (table s)))
  | None => (None, s)
  end.

Definition mwrite (fd : Z) (bs : list Z) (s : fs) : Z * fs :=
  match table s !! fd with
  | Some (n, pos) =>
      let c := contents n s in
      let c' := take pos (c ++ replicate (pos - length c) 0%Z) ++ bs
                ++ drop (pos + length bs) c in
      (Z.of_nat (length bs),
       Fs (<[n := c']> (tree s)) (<[fd := (n, (pos + length bs)%nat)]> (table s)))
  | None => ((-1)%Z, s)
  end.

Definition mrename (a b : str) (s : fs) : fs :=
  match tree s !! a with
  | Some c => Fs (<[b := c]> (delete a (tree s))) (table s)
  | None => s
  end.

#[global] Instance posix : Posix fs := {|
  os_open := mopen;
  os_close := mclose;
  os_lseek := mlseek;
  os_fstat_size fd s :=
    match table s !! fd with
    | Some (n, _) => Some (Z.of_nat (length (contents n s)))
    | None => None
    end;
  os_read := mread;
  os_write := mwrite;
  os_fsync _ s := s;
  os_rename := mrename;
  os_unlink n s := Fs (delete n (tree s)) (table s);
|}.

Lemma fresh_fd_new s : fresh_fd s ∉ dom (table s).
Proof.
  unfold fresh_fd. intros Hin.
  apply (is_fresh (set_map Z.to_nat (dom (table s)) : gset nat)).
  apply elem_of_map. eexists; split; [|done]. lia.
Qed.

Lemma fresh_fd_ok s : fresh_fd s <> (-1)%Z.
Proof. unfold fresh_fd. lia. Qed.

#[global] Program Instance posix_fds : PosixFds fs := {| fds s := dom (table s) |}.
Next Obligation.
  intros n fl m s. simpl. unfold mopen. pose proof (fresh_fd_ok s).
  destruct (tree s !! n); [done|]. by destruct (has fl O_CREAT).
Qed.
Next Obligation.
  intros n fl m s. simpl. unfold mopen. pose proof (fresh_fd_new s).
  destruct (tree s !! n); [|destruct (has fl O_CREAT)]; simpl; try done;
    intros _; (split; [done|apply dom_insert_L]).
Qed.
Next Obligation. intros fd s. apply dom_delete_L. Qed.
Next Obligation.
  intros fd o w s. simpl. unfold mlseek. destruct (table s !! fd) as [[n p]|] eqn:Hf; [|done].
  destruct (_ + _ <? 0)%Z; [done|]. simpl. by apply dom_insert_lookup_L.
Qed.
Next Obligation.
  intros fd k s. simpl. unfold mread. destruct (table s !! fd) as [[n p]|] eqn:Hf; [|done].
  simpl. by apply dom_insert_lookup_L.
Qed.
Next Obligation.
  intros fd bs s. simpl. unfold mwrite. destruct (table s !! fd) as [[n p]|] eqn:Hf; [|done].
  simpl. by apply dom_insert_lookup_L.
Qed.
Next Obligation. done. Qed.

Lemma contents_insert n c t tb : contents n (Fs (<[n := c]> t) tb) = c.
Proof. unfold contents. simpl. by rewrite lookup_insert_eq. Qed.

#[global] Program Instance posix_data : PosixData fs := {|
  unread fd s := '(n, pos) ← table s !! fd; Some (drop pos (contents n s));
  written fd s := '(n, pos) ← table s !! fd;
    if bool_decide (pos <= length (contents n s))%nat
    then Some (take pos (contents n s)) else None;
  room fd s _ := is_Some (table s !! fd);
|}.
Next Obligation.
  intros fd k s bs. simpl. unfold mread. destruct (table s !! fd) as [[n p]|]; [|done].
  intros [= <-]. rewrite length_take. lia.
Qed.
Next Obligation.
  intros fd k s rest. simpl. unfold mread. destruct (table s !! fd) as [[n p]|]; [|done].
  simpl. intros [= <-]. split; [done|]. rewrite lookup_insert_eq. simpl. unfold contents.
  simpl. rewrite drop_drop. f_equal. rewrite length_take, length_drop.
  destruct (decide (k <= length (default [] (tree s !! n)) - p)%nat) as [Hk|Hk].
  - f_equal. lia.
  - rewrite !drop_ge by lia. done.
Qed.
Next Obligation.
  intros fd bs s out. simpl. unfold mwrite. destruct (table s !! fd) as [[n p]|]; [|done].
  simpl. destruct (bool_decide_reflect (p <= length (contents n s))%nat) as [Hp|]; [|done].
  intros [= <-]. exists (length bs). split_and!; [lia| |by left]. rewrite lookup_insert_eq. simpl.
  rewrite contents_insert. replace (p - length (contents n s))%nat with 0%nat by lia.
  rewrite app_nil_r. rewrite bool_decide_true.
  - f_equal. rewrite app_assoc, take_app_length'; [by rewrite (take_ge bs) by lia|]. autorewrite with pdk. lia.
  - autorewrite with pdk. lia.
Qed.
Next Obligation.
  intros fd bs s k [ [n p] Hf]. simpl. unfold mwrite. rewrite Hf. simpl. split; [done|]. rewrite lookup_insert_eq. by eexists.
Qed.

Definition empty : fs := Fs ∅ ∅.
End MemFs.

(** ** Flag bits *)
Lemma land_pow2 n k : (0 <= k)%Z ->
  Z.land n (2 ^ k) = (if Z.testbit n k then 2 ^ k else 0)%Z.
Proof.
  intros Hk. apply Z.bits_inj'. intros i Hi. rewrite Z.land_spec, Z.pow2_bits_eqb by done.
  destruct (Z.eqb_spec k i) as [->|Hne].
  - rewrite andb_true_r. destruct (Z.testbit n i) eqn:Hb.
    + symmetry. by apply Z.pow2_bits_true.
    + symmetry. apply Z.bits_0.
  - rewrite andb_false_r. destruct (Z.testbit n k).
    + symmetry. apply Z.pow2_bits_false. lia.
    + symmetry. apply Z.bits_0.
Qed.

Lemma has_pow2 n k : (0 <= k)%Z -> has n (2 ^ k) = Z.testbit n k.
Proof.
  intros Hk. unfold has. rewrite land_pow2 by done.
  destruct (Z.testbit n k); [|done].
  rewrite (proj2 (Z.eqb_neq (2 ^ k) 0)); [done|]. lia.
Qed.

(** ** [Time] and [TimeMs] *)

(** The members of [struct tm] the code reads or writes. *)
Record tm : Type := Tm {
  tm_sec : Z; tm_min : Z; tm_hour : Z; tm_mday : Z; tm_mon : Z; tm_year : Z;
  tm_wday : Z; tm_isdst : Z;
}.

(** The C library's calendar functions. *)
Class Calendar := { mktime : tm -> Z; localtime : Z -> tm }.

Section time.
Context `{Calendar}.

Definition Time : Type := Z.
Definition Time_civil (nYear nMonth nDay nHour nMin nSec nDST : Z) : outcome Time :=
  y ← chk32 (nYear - 1900); m ← chk32 (nMonth - 1);
  Ok (mktime (Tm nSec nMin nHour nDay m y 0 nDST)).
Definition GetLocalTm (t : Time) : tm := localtime t.
Definition GetYear (t : Time) : outcome Z := chk32 (tm_year (GetLocalTm t) + 1900).
Definition GetMonth (t : Time) : outcome Z := chk32 (tm_mon (GetLocalTm t) + 1).
Definition GetDay (t : Time) : Z := tm_mday (GetLocalTm t).
Definition GetHour (t : Time) : Z := tm_hour (GetLocalTm t).
Definition GetMinute (t : Time) : Z := tm_min (GetLocalTm t).
Definition GetSecond (t : Time) : Z := tm_sec (GetLocalTm t).
Definition GetDayOfWeek (t : Time) : outcome Z := chk32 (tm_wday (GetLocalTm t) + 1).

(** Assignment of a [time_t], and the comparisons. *)
Definition Time_assign (t : Z) (_ : Time) : Time := t.
Definition GetTime (t : Time) : Z := t.
Definition Time_eq (a o : Time) : bool := (a =? o)%Z.
Definition Time_ne (a o : Time) : bool := negb (a =? o)%Z.
Definition Time_lt (a o : Time) : bool := (a <? o)%Z.
Definition Time_gt (a o : Time) : bool := (o <? a)%Z.
Definition Time_le (a o : Time) : bool := (a <=? o)%Z.
Definition Time_ge (a o : Time) : bool := (o <=? a)%Z.

(** [Time::Format] into a buffer of 256 bytes, with the text [strftime] makes,
    which has no terminator in it; a text that does not fit leaves the buffer
    unspecified. *)
Definition Format (strftime : str -> tm -> str) (pFormat : str) (t : Time) : outcome str :=
  let text := strftime pFormat (GetLocalTm t) in
  if bool_decide (length text < 256)%nat then Ok text else Ub Uninitialised.

Record TimeMs : Type := MkTimeMs { tms_time : Time; usec_ : Z; msec_ : Z }.
(** The initialiser of [msec_] reads [usec_] before the body assigns it. *)
Definition TimeMs_new (tv_sec tv_usec : Z) : TimeMs :=
  let usec := 0%Z in
  let msec := s32 (Z.quot usec 1000) in
  MkTimeMs tv_sec tv_usec msec.
Definition TimeMs_Format (strftime : str -> tm -> str) (pFormat : str) (t : TimeMs) : outcome str :=
  Format strftime pFormat (tms_time t).
End time.

(** ** Properties *)

(** C32: [File] never leaks and never steals a descriptor.  After any
    sequence of calls on a [File] (default-constructed, or adopting the
    caller's descriptor) the descriptors that were open before are still
    open, at most one more is, and after the destructor exactly the
    descriptors that were open before are open. *)
Theorem file_descriptor_ownership {OS} `{PosixFds OS} (hFile : option Z) (ops : list fop)
    (os : OS) :
  let f0 := match hFile with Some fd => File_adopt fd | None => File_default end in
  let '(f, os') := fop_run ops (f0, os) in
  fds os ⊆ fds os' /\ fds os' ⊆ fds os ∪ {[ fd_ f ]} /\ fds (File_dtor f os') = fds os.
Proof.
  intros f0. assert (owns (fds os) (f0, os)) as Ho by by destruct hFile.
  apply (run_owns _ ops) in Ho. destruct (fop_run ops (f0, os)) as [f os'] eqn:Hr.
  split_and!; [| |by apply dtor_owns].
  all: unfold owns in Ho; destruct (_ && _); [destruct Ho as [_ ->]|rewrite Ho]; set_solver.
Qed.

(** Opening twice, reading and letting the object go out of scope. *)
Lemma file_descriptor_ownership_witness :
  let ops := [FOpen (chars "a") 0x1001 0; FWrite [1; 2]%Z;
              FOpen (chars "b") 0x1001 0; FRead 4] in
  let '(f, os') := fop_run ops (File_default, MemFs.empty) in
  fds MemFs.empty ⊆ fds os' /\ fds os' ⊆ fds MemFs.empty ∪ {[ fd_ f ]} /\
  fds (File_dtor f os') = fds MemFs.empty.
Proof.
  exact (file_descriptor_ownership None
    [FOpen (chars "a") 0x1001 0; FWrite [1; 2]%Z;
     FOpen (chars "b") 0x1001 0; FRead 4] MemFs.empty).
Defined.

(** The access mode and flags [File::open] passes to the kernel, for
    every flag word.  The read-write bit wins over the write bit; [O_CREAT]
    follows [modeCreate]; [O_APPEND] is set exactly for [modeWrite] with
    [modeNoTruncate], [O_TRUNC] exactly for [modeWrite] and [modeCreate]
    without it, so a file opened with [modeReadWrite] alone is neither
    truncated nor appended to; nothing else is set. *)
Theorem file_open_flags nOpenFlags :
  let w := Z.testbit nOpenFlags 0 in
  let rw := Z.testbit nOpenFlags 1 in
  let c := Z.testbit nOpenFlags 12 in
  let nt := Z.testbit nOpenFlags 13 in
  Z.land (open_flags nOpenFlags) 3 = (if rw then O_RDWR else if w then O_WRONLY else O_RDONLY) /\
  Z.testbit (open_flags nOpenFlags) 6 = c /\
  Z.testbit (open_flags nOpenFlags) 10 = w && nt /\
  Z.testbit (open_flags nOpenFlags) 9 = w && c && negb nt /\
  Z.land (open_flags nOpenFlags) (Z.lnot (3 + O_CREAT + O_TRUNC + O_APPEND)) = 0%Z.
Proof.
  intros w rw c nt. unfold open_flags.
  change modeReadWrite with (2 ^ 1)%Z. change modeWrite with (2 ^ 0)%Z.
  change modeCreate with (2 ^ 12)%Z. change modeNoTruncate with (2 ^ 13)%Z.
  rewrite !has_pow2, land_pow2 by done. fold w rw c nt.
  by destruct w, rw, c, nt.
Qed.

(** The civil fields of a [Time] are those it was built from, for a
    calendar whose [localtime] inverts [mktime] on the given fields (dates in
    range, no daylight-saving adjustment). *)
Theorem time_civil_roundtrip `{Calendar} nYear nMonth nDay nHour nMin nSec nDST wday dst :
  in_s32 nYear -> (1900 <= nYear)%Z -> (1 <= nMonth <= 12)%Z ->
  localtime (mktime (Tm nSec nMin nHour nDay (nMonth - 1) (nYear - 1900) 0 nDST))
    = Tm nSec nMin nHour nDay (nMonth - 1) (nYear - 1900) wday dst ->
  exists t, Time_civil nYear nMonth nDay nHour nMin nSec nDST = Ok t /\
    GetYear t = Ok nYear /\ GetMonth t = Ok nMonth /\ GetDay t = nDay /\
    GetHour t = nHour /\ GetMinute t = nMin /\ GetSecond t = nSec.
Proof.
  unfold in_s32. intros Hy Hy' Hm Hcal. unfold Time_civil, mbind, outcome_bind.
  rewrite !chk32_ok by (unfold in_s32, INT32_MIN, INT32_MAX in *; lia).
  eexists; split; [reflexivity|].
  unfold GetYear, GetMonth, GetDay, GetHour, GetMinute, GetSecond, GetLocalTm.
  rewrite Hcal. cbn [tm_year tm_mon tm_mday tm_hour tm_min tm_sec].
  rewrite !chk32_ok by (unfold in_s32, INT32_MIN, INT32_MAX in *; lia).
  split_and!; f_equal; lia.
Qed.

(** A calendar of months of 31 days, in UTC. *)
Definition flat_calendar : Calendar := {|
  mktime t := (tm_sec t + 60 * (tm_min t + 60 * (tm_hour t + 24 * ((tm_mday t - 1)
                + 31 * (tm_mon t + 12 * tm_year t)))))%Z;
  localtime z := Tm (z mod 60) (z / 60 mod 60) (z / 3600 mod 24) (z / 86400 mod 31 + 1)
                    (z / 2678400 mod 12) (z / 32140800) 0 0;
|}.

Lemma time_civil_roundtrip_witness :
  exists t, @Time_civil flat_calendar 2024 5 17 13 45 30 (-1) = Ok t /\
    @GetYear flat_calendar t = Ok 2024%Z /\ @GetMonth flat_calendar t = Ok 5%Z /\
    @GetDay flat_calendar t = 17%Z /\ @GetHour flat_calendar t = 13%Z /\
    @GetMinute flat_calendar t = 45%Z /\ @GetSecond flat_calendar t = 30%Z.
Proof.
  apply (@time_civil_roundtrip flat_calendar 2024 5 17 13 45 30 (-1) 0 0);
    unfold in_s32, INT32_MIN, INT32_MAX; lia || reflexivity.
Defined.
