(* ===== verification/Archive.v ===== *)
(** * Binary archives (include/base.hpp class [Archive], src/archive.cpp)

    A buffered binary writer and reader over a [File].  The methods run in
    the state monad of the prelude over the archive and the operating system;
    an exception drops the state it was thrown in.  Values are little-endian
    in memory; a [float] or [double] is its bit pattern. *)

From S2P Require Import Prelude Files.

Record archive : Type := Ar {
  mode_ : Z;
  m_pFile : option file;
  buf_ : list Z;
  buf_cur_ : nat;
  buf_fill_ : nat;
}.

Definition store : Z := 0.
Definition load : Z := 1.

Definition Archive_new (pFile : option file) (nMode nBufSize : Z) : archive :=
  Ar nMode pFile (replicate (Z.to_nat (if (128 <? nBufSize)%Z then nBufSize else 128)) 0%Z) 0 0.

Definition is_loading (a : archive) : bool := negb (Z.land (mode_ a) load =? 0)%Z.
Definition is_storing (a : archive) : bool := (Z.land (mode_ a) load =? 0)%Z.

Definition with_buf (b : list Z) (a : archive) : archive :=
  Ar (mode_ a) (m_pFile a) b (buf_cur_ a) (buf_fill_ a).
Definition with_cur (c : nat) (a : archive) : archive :=
  Ar (mode_ a) (m_pFile a) (buf_ a) c (buf_fill_ a).

Section archive.
Context `{Posix OS}.

Definition AM (A : Type) : Type := M (archive * OS) A.
#[global] Instance AM_ret : MRet AM := M_ret.
#[global] Instance AM_bind : MBind AM := M_bind.

(** [flush]: what [File::write] returns is not looked at. *)
Definition flush : AM unit := fun '(a, os) =>
  match m_pFile a with
  | Some f =>
      if is_storing a && (0 <? buf_cur_ a)%nat then
        match slice 0 (u32n (buf_cur_ a)) (buf_ a) with
        | Ok bs => let '(_, os') := File_write bs f os in Ok (tt, (with_cur 0 a, os'))
        | Exc e => Exc e
        | Ub k => Ub k
        end
      else Ok (tt, (a, os))
  | None => Ok (tt, (a, os))
  end.

Definition detach : AM unit := fun '(a, os) =>
  Ok (tt, (Ar (mode_ a) None (buf_ a) (buf_cur_ a) (buf_fill_ a), os)).
Definition close : AM unit := _ ← flush; detach.
(** The destructor swallows what [close] throws. *)
Definition Archive_dtor (s : archive * OS) : outcome OS :=
  match close s with
  | Ok (_, (_, os)) => Ok os
  | Exc _ => Ok s.2
  | Ub k => Ub k
  end.

(** [fill_buffer]: a [buf_cur_] beyond [buf_fill_] makes [remaining] wrap
    around and the [memmove] leave the buffer. *)
Definition fill_buffer : AM unit := fun '(a, os) =>
  match m_pFile a with
  | None => Ok (tt, (a, os))
  | Some f =>
      if (buf_fill_ a <? buf_cur_ a)%nat then Ub OutOfBounds else
      let remaining := (buf_fill_ a - buf_cur_ a)%nat in
      match slice (buf_cur_ a) remaining (buf_ a) with
      | Ok mv =>
          let b1 := splice 0 mv (buf_ a) in
          let toRead := (length b1 - remaining)%nat in
          let '(bs, os') := File_read (u32n toRead) f os in
          match blit remaining bs b1 with
          | Ok b2 =>
              Ok (tt, (Ar (mode_ a) (m_pFile a) b2 0 (remaining + length bs), os'))
          | Exc e => Exc e
          | Ub k => Ub k
          end
      | Exc e => Exc e
      | Ub k => Ub k
      end
  end.

(** [std::vector::resize] keeps the elements and adds zeros. *)
Definition resize (n : nat) (b : list Z) : list Z := take n b ++ replicate (n - length b) 0%Z.

Definition ensureWrite (n : nat) : AM unit := fun '(a, os) =>
  if (length (buf_ a) <? buf_cur_ a + n)%nat then
    match flush (a, os) with
    | Ok (_, (a1, os1)) =>
        if (length (buf_ a1) <? n)%nat then Ok (tt, (with_buf (resize (n * 2) (buf_ a1)) a1, os1))
        else Ok (tt, (a1, os1))
    | Exc e => Exc e
    | Ub k => Ub k
    end
  else Ok (tt, (a, os)).

Definition ensureRead (n : nat) : AM unit := fun '(a, os) =>
  match (if (buf_fill_ a <? buf_cur_ a + n)%nat then fill_buffer (a, os)
         else Ok (tt, (a, os))) with
  | Ok (_, (a1, os1)) =>
      if (buf_fill_ a1 <? buf_cur_ a1 + n)%nat then Exc "Archive: premature end of stream"
      else Ok (tt, (a1, os1))
  | Exc e => Exc e
  | Ub k => Ub k
  end.

(** [memcpy] at [buf_cur_] and the advance, in both directions. *)
Definition put_bytes (bs : list Z) : AM unit := fun '(a, os) =>
  match blit (buf_cur_ a) bs (buf_ a) with
  | Ok b => Ok (tt, (with_cur (buf_cur_ a + length bs) (with_buf b a), os))
  | Exc e => Exc e
  | Ub k => Ub k
  end.
Definition get_bytes (n : nat) : AM (list Z) := fun '(a, os) =>
  match slice (buf_cur_ a) n (buf_ a) with
  | Ok bs => Ok (bs, (with_cur (buf_cur_ a + n) a, os))
  | Exc e => Exc e
  | Ub k => Ub k
  end.

Definition read (nMax : nat) : AM (list Z) := _ ← ensureRead nMax; get_bytes nMax.
Definition write (bs : list Z) : AM unit := _ ← ensureWrite (length bs); put_bytes bs.

(** The operators: [_ensureWrite(sizeof)] and the copy of the object. *)
Definition store_u8 (by_ : Z) : AM unit := _ ← ensureWrite 1; put_bytes [u8 by_].
Definition store_u16 (w : Z) : AM unit := _ ← ensureWrite 2; put_bytes (le_enc 2 w).
Definition store_s32 (l : Z) : AM unit := _ ← ensureWrite 4; put_bytes (le_enc 4 (u32 l)).
Definition store_u32 (dw : Z) : AM unit := _ ← ensureWrite 4; put_bytes (le_enc 4 dw).
Definition store_float (bits : Z) : AM unit := _ ← ensureWrite 4; put_bytes (le_enc 4 bits).
Definition store_double (bits : Z) : AM unit := _ ← ensureWrite 8; put_bytes (le_enc 8 bits).
Definition store_char (c : Z) : AM unit := store_u8 (u8 c).
Definition store_bool (b : bool) : AM unit := store_s32 (if b then 1 else 0)%Z.

Definition load_u8 : AM Z := _ ← ensureRead 1; bs ← get_bytes 1; mret (le_dec bs).
Definition load_u16 : AM Z := _ ← ensureRead 2; bs ← get_bytes 2; mret (le_dec bs).
Definition load_s32 : AM Z := _ ← ensureRead 4; bs ← get_bytes 4; mret (s32 (le_dec bs)).
Definition load_u32 : AM Z := _ ← ensureRead 4; bs ← get_bytes 4; mret (le_dec bs).
Definition load_float : AM Z := _ ← ensureRead 4; bs ← get_bytes 4; mret (le_dec bs).
Definition load_double : AM Z := _ ← ensureRead 8; bs ← get_bytes 8; mret (le_dec bs).
Definition load_char : AM Z := z ← load_u8; mret (swrap 8 z).
Definition load_bool : AM bool := i ← load_s32; mret (negb (i =? 0)%Z).

Definition write_count (dwCount : Z) : AM unit := store_u32 dwCount.
Definition read_count : AM Z := load_u32.

(** [lpsz]: the memory from the pointer on, its last terminator left out; the
    length is that up to the first zero byte, cut to 32 bits. *)
Fixpoint strlen (lpsz : list Z) : nat :=
  match lpsz with [] => 0 | c :: s => if (c =? 0)%Z then 0 else S (strlen s) end.
Definition write_string (lpsz : list Z) : AM unit :=
  let len := u32n (strlen lpsz) in
  _ ← write_count (Z.of_nat len); write (take len lpsz).

(** The [char*] form: the characters stored in [lpsz], before the NUL. *)
Definition read_string_buf (nMax : Z) : AM (list Z) :=
  len0 ← read_count;
  let len := if (nMax <=? len0)%Z then u32 (nMax - 1) else len0 in
  read (Z.to_nat len).

Definition read_string : AM (list Z) :=
  len ← read_count;
  if (0 <? len)%Z then read (Z.to_nat len) else mret [].

(** ** Sequences of values *)
Inductive item : Type :=
| IU8 (z : Z) | IU16 (z : Z) | IS32 (z : Z) | IU32 (z : Z) | IFloat (bits : Z)
| IDouble (bits : Z) | IChar (z : Z) | IBool (b : bool) | IStr (s : list Z).

Definition store_item (i : item) : AM unit :=
  match i with
  | IU8 z => store_u8 z | IU16 z => store_u16 z | IS32 z => store_s32 z
  | IU32 z => store_u32 z | IFloat z => store_float z | IDouble z => store_double z
  | IChar z => store_char z | IBool b => store_bool b | IStr s => write_string s
  end.

(** Read a value of the same type as [i]. *)
Definition load_item (i : item) : AM item :=
  match i with
  | IU8 _ => z ← load_u8; mret (IU8 z)
  | IU16 _ => z ← load_u16; mret (IU16 z)
  | IS32 _ => z ← load_s32; mret (IS32 z)
  | IU32 _ => z ← load_u32; mret (IU32 z)
  | IFloat _ => z ← load_float; mret (IFloat z)
  | IDouble _ => z ← load_double; mret (IDouble z)
  | IChar _ => z ← load_char; mret (IChar z)
  | IBool _ => b ← load_bool; mret (IBool b)
  | IStr _ => s ← read_string; mret (IStr s)
  end.

Fixpoint store_items (l : list item) : AM unit :=
  match l with
  | [] => mret tt
  | i :: l => _ ← store_item i; store_items l
  end.

Fixpoint load_items (l : list item) : AM (list item) :=
  match l with
  | [] => mret []
  | i :: l => x ← load_item i; xs ← load_items l; mret (x :: xs)
  end.
End archive.

(** ** Byte form of the values *)
Definition item_ok (i : item) : Prop :=
  match i with
  | IU8 z => in_uw 8 z | IU16 z => in_uw 16 z | IS32 z => in_s32 z
  | IU32 z | IFloat z => in_uw 32 z | IDouble z => in_uw 64 z
  | IChar z => (-128 <= z < 128)%Z | IBool _ => True
  | IStr s => (Z.of_nat (length s) < 2 ^ 31)%Z /\ 0%Z ∉ s
  end.

(** The runs of bytes an item is copied in. *)
Definition item_chunks (i : item) : list (list Z) :=
  match i with
  | IU8 z => [[z]]
  | IU16 z => [le_enc 2 z]
  | IS32 z => [le_enc 4 (u32 z)]
  | IU32 z | IFloat z => [le_enc 4 z]
  | IDouble z => [le_enc 8 z]
  | IChar z => [[u8 z]]
  | IBool b => [le_enc 4 (if b then 1 else 0)%Z]
  | IStr s => [le_enc 4 (Z.of_nat (length s)); s]
  end.
Definition item_bytes (i : item) : list Z := concat (item_chunks i).
Definition items_bytes (l : list item) : list Z := concat (map item_bytes l).

(** ** Storing *)
Section storing.
Context `{PD : PosixData OS}.

(** [out] is what the file will hold once the buffer is flushed; there is room for
    that and for [m] bytes more. *)
Definition storing (f : file) (s : archive * OS) (out : list Z) (m : nat) : Prop :=
  let '(a, os) := s in
  is_storing a = true /\ m_pFile a = Some f /\
  (buf_cur_ a <= length (buf_ a))%nat /\ (Z.of_nat (length (buf_ a)) < 2 ^ 32)%Z /\
  room (fd_ f) os (buf_cur_ a + m) /\
  exists out0, written (fd_ f) os = Some out0 /\ out = out0 ++ take (buf_cur_ a) (buf_ a).

Lemma flush_spec f s out m : storing f s out m ->
  exists a' os', flush s = Ok (tt, (a', os')) /\ storing f (a', os') out m /\
    buf_cur_ a' = 0%nat /\ buf_ a' = buf_ s.1 /\ written (fd_ f) os' = Some out.
Proof.
  destruct s as [a os]. intros (Hs & Hf & Hc & Hb & Hr & out0 & Hw & ->).
  unfold flush. rewrite Hf, Hs. destruct (Nat.ltb_spec 0 (buf_cur_ a)) as [Hpos|Hz]; simpl.
  - rewrite u32n_small by lia. rewrite slice_ok by lia.
    unfold File_write. rewrite drop_0.
    destruct (write_whole (fd_ f) (take (buf_cur_ a) (buf_ a)) os out0 m Hw) as [Hw' Hr'];
      [by rewrite length_take_le by lia|].
    destruct (os_write _ _ _) as [n os']; simpl in *.
    do 2 eexists; split; [reflexivity|]. simpl. split_and!; try done; [lia|].
    eexists; split; [exact Hw'|]. by rewrite take_0, app_nil_r.
  - assert (buf_cur_ a = 0%nat) as Hz' by lia.
    do 2 eexists; split; [reflexivity|]. split.
    + unfold storing. split_and!; eauto.
    + rewrite Hz', take_0, app_nil_r. by split_and!.
Qed.

(** A short write goes unnoticed: the bytes the file did not take are gone. *)
Lemma flush_short f a os out k : is_storing a = true -> m_pFile a = Some f ->
  (0 < buf_cur_ a <= length (buf_ a))%nat -> (Z.of_nat (length (buf_ a)) < 2 ^ 32)%Z ->
  written (fd_ f) os = Some out ->
  (os_write (fd_ f) (take (buf_cur_ a) (buf_ a)) os).1 = Z.of_nat k ->
  exists os', flush (a, os) = Ok (tt, (with_cur 0 a, os')) /\
    written (fd_ f) os' = Some (out ++ take k (take (buf_cur_ a) (buf_ a))).
Proof.
  intros Hs Hf Hc Hb Hw Hk. unfold flush. rewrite Hf, Hs. rewrite (proj2 (Nat.ltb_lt _ _)) by lia. simpl.
  rewrite u32n_small by lia. rewrite slice_ok by lia. unfold File_write. rewrite drop_0.
  destruct (write_prefix (fd_ f) (take (buf_cur_ a) (buf_ a)) os out Hw) as (k' & _ & Hw' & [Hk'|[Hk' _] ]); [|lia].
  assert (k' = k) as -> by lia. destruct (os_write _ _ _) as [n os']. by exists os'.
Qed.

Lemma length_resize n b : length (resize n b) = n.
Proof. unfold resize. autorewrite with pdk. lia. Qed.

Lemma ensureWrite_spec f s out m n : storing f s out m -> (Z.of_nat n < 2 ^ 31)%Z ->
  exists a' os', ensureWrite n s = Ok (tt, (a', os')) /\ storing f (a', os') out m /\
    (buf_cur_ a' + n <= length (buf_ a'))%nat.
Proof.
  intros Hs Hn. destruct s as [a os]. unfold ensureWrite.
  destruct (Nat.ltb_spec (length (buf_ a)) (buf_cur_ a + n)) as [Hlt|Hge]; [|eauto].
  destruct (flush_spec f (a, os) out m Hs) as (a1 & os1 & -> & Hs1 & Hc1 & Hb1 & Hw1).
  destruct (Nat.ltb_spec (length (buf_ a1)) n) as [Hlt1|Hge1].
  - do 2 eexists; split; [reflexivity|]. destruct Hs1 as (Hst & Hf & _ & _ & Hr & _).
    simpl. rewrite Hc1 in Hr. rewrite length_resize, Hc1. split; [|lia].
    split_and!; try done; try lia. exists out. by rewrite take_0, app_nil_r.
  - do 2 eexists; split; [reflexivity|]. split; [done|]. rewrite Hc1. lia.
Qed.

Lemma write_spec f s out m bs : storing f s out (length bs + m) -> (Z.of_nat (length bs) < 2 ^ 31)%Z ->
  exists s', write bs s = Ok (tt, s') /\ storing f s' (out ++ bs) m.
Proof.
  intros Hs Hn. destruct (ensureWrite_spec f s out _ (length bs) Hs Hn) as (a & os & He & Hst & Hfit).
  unfold write, mbind, AM_bind, M_bind. rewrite He. unfold put_bytes.
  rewrite blit_ok by done. eexists; split; [reflexivity|].
  destruct Hst as (Hm & Hf & Hc & Hb & Hr & out0 & Hw & ->). simpl. split_and!; try done.
  - rewrite length_splice by done. lia.
  - by rewrite length_splice.
  - by rewrite <-Nat.add_assoc.
  - exists out0. split; [done|]. by rewrite take_splice, app_assoc.
Qed.

Lemma strlen_full l : 0%Z ∉ l -> strlen l = length l.
Proof.
  induction l as [|c l IH]; intros Hl; [done|]. simpl. apply not_elem_of_cons in Hl as [Hc Hl].
  rewrite (proj2 (Z.eqb_neq c 0)) by done. by rewrite IH.
Qed.

Lemma store_item_spec f s out m i : storing f s out (length (item_bytes i) + m) -> item_ok i ->
  exists s', store_item i s = Ok (tt, s') /\ storing f s' (out ++ item_bytes i) m.
Proof.
  intros Hs Hok. unfold item_bytes in *.
  destruct i as [z|z|z|z|z|z|z|b|bs]; cbn [item_chunks concat item_ok store_item] in *;
    rewrite ?app_nil_r in *.
  - unfold store_u8. rewrite uwrap_small by done. by apply (write_spec f s out m [z]).
  - by apply (write_spec f s out m (le_enc 2 z)).
  - by apply (write_spec f s out m (le_enc 4 (u32 z))).
  - by apply (write_spec f s out m (le_enc 4 z)).
  - by apply (write_spec f s out m (le_enc 4 z)).
  - by apply (write_spec f s out m (le_enc 8 z)).
  - unfold store_char, store_u8. rewrite uwrap_idem by done.
    by apply (write_spec f s out m [u8 z]).
  - destruct b.
    + by apply (write_spec f s out m (le_enc 4 1)).
    + by apply (write_spec f s out m (le_enc 4 0)).
  - destruct Hok as [Hok Hz]. unfold write_string. rewrite strlen_full by done. rewrite u32n_small by lia.
    rewrite take_ge by lia. rewrite length_app, <-Nat.add_assoc in Hs.
    destruct (write_spec f s out _ _ Hs) as (s1 & Hw1 & Hs1); [by rewrite length_le_enc|].
    destruct (write_spec f s1 _ m bs Hs1 Hok) as (s2 & Hw2 & Hs2).
    exists s2. rewrite app_assoc. split; [|done].
    change (write (le_enc 4 (Z.of_nat (length bs)))) with (write_count (OS:=OS) (Z.of_nat (length bs))) in Hw1.
    unfold mbind, AM_bind, M_bind. by rewrite Hw1.
Qed.

Lemma store_items_spec f l s out m : storing f s out (length (items_bytes l) + m) -> Forall item_ok l ->
  exists s', store_items l s = Ok (tt, s') /\ storing f s' (out ++ items_bytes l) m.
Proof.
  intros Hs Hok. revert s out Hs. induction Hok as [|i l Hi Hl IH]; intros s out Hs.
  - exists s. unfold items_bytes in *. simpl in *. by rewrite app_nil_r.
  - unfold items_bytes in Hs. simpl in Hs. rewrite length_app, <-Nat.add_assoc in Hs.
    destruct (store_item_spec f s out _ i Hs Hi) as (s1 & H1 & Hs1).
    destruct (IH s1 _ Hs1) as (s2 & H2 & Hs2). exists s2.
    unfold items_bytes in *. simpl. rewrite app_assoc. split; [|done].
    unfold mbind, AM_bind, M_bind. by rewrite H1.
Qed.

Lemma new_storing f nBufSize os out m : (nBufSize <= INT32_MAX)%Z ->
  written (fd_ f) os = Some out -> room (fd_ f) os m ->
  storing f (Archive_new (Some f) store nBufSize, os) out m.
Proof.
  intros Hn Hw Hr. split_and!; simpl; try done; [lia| |].
  - rewrite length_replicate. unfold INT32_MAX in Hn. destruct (Z.ltb_spec 128 nBufSize); lia.
  - exists out. by rewrite take_0, app_nil_r.
Qed.
End storing.

(** ** Loading *)
Section loading.
Context `{PD : PosixData OS}.

(** [pend]: the bytes not handed out yet; [n]: the size of the buffer. *)
Definition loading (f : file) (n : nat) (s : archive * OS) (pend : list Z) : Prop :=
  let '(a, os) := s in
  m_pFile a = Some f /\ length (buf_ a) = n /\ (Z.of_nat n < 2 ^ 32)%Z /\
  (buf_cur_ a <= buf_fill_ a <= n)%nat /\
  exists rest, unread (fd_ f) os = Some rest /\
    pend = take (buf_fill_ a - buf_cur_ a) (drop (buf_cur_ a) (buf_ a)) ++ rest.

Lemma fill_buffer_spec f n s pend : loading f n s pend ->
  exists a' os', fill_buffer s = Ok (tt, (a', os')) /\ loading f n (a', os') pend /\
    buf_cur_ a' = 0%nat /\ buf_fill_ a' = Nat.min n (length pend).
Proof.
  destruct s as [a os]. intros (Hf & Hl & Hn & [Hc Hfl] & rest & Hu & ->).
  unfold fill_buffer. rewrite Hf, (proj2 (Nat.ltb_ge _ _)) by lia.
  set (r := (buf_fill_ a - buf_cur_ a)%nat). rewrite slice_ok by lia.
  set (mv := take r (drop (buf_cur_ a) (buf_ a))).
  assert (length mv = r) as Hmv by (unfold mv; autorewrite with pdk; lia).
  rewrite length_splice by (rewrite Hmv; lia). rewrite u32n_small by lia.
  unfold File_read.
  destruct (read_regular (fd_ f) (length (buf_ a) - r) os rest Hu) as [Hr Hu'].
  destruct (os_read _ _ _) as [rd os']; simpl in *. rewrite Hr.
  rewrite blit_ok by (rewrite length_splice by (rewrite Hmv; lia); autorewrite with pdk; lia).
  do 2 eexists; split; [reflexivity|]. simpl. split_and!; try done.
  - rewrite length_splice; [by rewrite length_splice by (rewrite Hmv; lia)|].
    rewrite length_splice by (rewrite Hmv; lia). autorewrite with pdk. lia.
  - lia.
  - autorewrite with pdk. lia.
  - exists (drop (length (buf_ a) - r) rest). split; [done|].
    rewrite drop_0, Nat.sub_0_r. rewrite take_splice.
    + replace (take r (splice 0 mv (buf_ a))) with mv.
      * by rewrite <-app_assoc, take_drop.
      * rewrite <-Hmv. pose proof (take_splice 0 mv (buf_ a) ltac:(lia)) as Ht.
        simpl in Ht. by rewrite Ht.
    + rewrite length_splice by (rewrite Hmv; lia). lia.
  - rewrite length_app, Hmv. autorewrite with pdk. lia.
Qed.

Lemma pend_length f n a os pend : loading f n (a, os) pend ->
  (buf_fill_ a - buf_cur_ a <= length pend)%nat.
Proof.
  intros (_ & Hl & _ & Hc & rest & _ & ->). autorewrite with pdk. lia.
Qed.

(** A read of a chunk succeeds exactly when the chunk fits the buffer and
    the data is there. *)
Lemma read_spec f n s pend k : loading f n s pend ->
  if bool_decide (k <= n /\ k <= length pend)%nat
  then exists s', read k s = Ok (take k pend, s') /\ loading f n s' (drop k pend)
  else read k s = Exc "Archive: premature end of stream".
Proof.
  intros Hs. unfold read, mbind, AM_bind, M_bind.
  assert (exists a os, (if bool_decide (k <= n /\ k <= length pend)%nat
            then ensureRead k s = Ok (tt, (a, os)) /\ (buf_cur_ a + k <= buf_fill_ a)%nat
            else ensureRead k s = Exc "Archive: premature end of stream") /\
          loading f n (a, os) pend) as (a & os & He & Hs').
  { destruct s as [a os]. unfold ensureRead. pose proof (pend_length _ _ _ _ _ Hs) as Hpl.
    destruct (Nat.ltb_spec (buf_fill_ a) (buf_cur_ a + k)) as [Hlt|Hge].
    - destruct (fill_buffer_spec f n (a, os) pend Hs) as (a1 & os1 & -> & Hs1 & Hc1 & Hf1).
      exists a1, os1. split; [|done]. rewrite Hc1, Hf1; simpl.
      case_bool_decide; [rewrite (proj2 (Nat.ltb_ge _ _)) by lia; split; [done|lia]|].
      by rewrite (proj2 (Nat.ltb_lt _ _)) by lia.
    - exists a, os. split; [|done]. destruct Hs as (_ & _ & _ & Hcf & _).
      rewrite bool_decide_true by lia. by rewrite (proj2 (Nat.ltb_ge _ _)) by lia. }
  case_bool_decide; [|by rewrite He]. destruct He as [-> Hfit].
  destruct Hs' as (Hf & Hl & Hn & [Hc Hfl] & rest & Hu & ->).
  unfold get_bytes. rewrite slice_ok by lia. eexists; split.
  - do 2 f_equal. rewrite take_app_le, take_take by (autorewrite with pdk; lia).
    f_equal. lia.
  - simpl. split_and!; try done; try lia. exists rest. split; [done|].
    rewrite drop_app_le by (autorewrite with pdk; lia). f_equal.
    rewrite skipn_firstn_comm, drop_drop. f_equal. lia.
Qed.

Lemma read_chunk f n s bs rest : loading f n s (bs ++ rest) -> (length bs <= n)%nat ->
  exists s', read (length bs) s = Ok (bs, s') /\ loading f n s' rest.
Proof.
  intros Hs Hn. pose proof (read_spec f n s _ (length bs) Hs) as Hr.
  rewrite length_app, bool_decide_true in Hr by lia.
  by rewrite take_app_length, drop_app_length in Hr.
Qed.

(** The operators read their bytes and decode them. *)
Lemma load_read {A} (g : list Z -> A) k s :
  (_ ← ensureRead k; bs ← get_bytes k; mret (g bs)) s =
  (bs ← read k; mret (g bs)) s.
Proof.
  unfold read, mbind, AM_bind, M_bind. by destruct (ensureRead k s) as [[? ?]| |].
Qed.

Lemma load_scalar {A} (g : list Z -> A) f n s bs rest :
  loading f n s (bs ++ rest) -> (length bs <= n)%nat ->
  exists s', (_ ← ensureRead (length bs); b ← get_bytes (length bs); mret (g b)) s
               = Ok (g bs, s') /\ loading f n s' rest.
Proof.
  intros Hs Hn. destruct (read_chunk f n s bs rest Hs Hn) as (s' & Hr & Hs').
  exists s'. split; [|done]. rewrite load_read. unfold mbind, AM_bind, M_bind. by rewrite Hr.
Qed.

Lemma read_string_spec f n s bs rest :
  loading f n s (le_enc 4 (Z.of_nat (length bs)) ++ bs ++ rest) -> (8 <= n)%nat ->
  (Z.of_nat (length bs) < 2 ^ 31)%Z ->
  exists s', read_count s = Ok (Z.of_nat (length bs), s') /\ loading f n s' (bs ++ rest).
Proof.
  intros Hs Hn Hl.
  destruct (load_scalar le_dec f n s _ _ Hs) as (s1 & H1 & Hs1);
    [rewrite length_le_enc; lia|].
  rewrite length_le_enc, le_dec_enc_uw in H1 by (unfold in_uw; lia). eauto.
Qed.

Definition chunk_fits (n : nat) (i : item) : Prop :=
  match i with IStr s => (length s <= n)%nat | _ => True end.

Lemma load_item_spec f n s i rest : item_ok i -> (8 <= n)%nat -> chunk_fits n i ->
  loading f n s (item_bytes i ++ rest) ->
  exists s', load_item i s = Ok (i, s') /\ loading f n s' rest.
Proof.
  intros Hok Hn Hfit Hs. unfold item_bytes in Hs.
  assert (forall {A} (g : list Z -> A) (h : A -> item) m bs,
            m = (_ ← ensureRead (length bs); b ← get_bytes (length bs); mret (g b)) ->
            loading f n s (bs ++ rest) -> (length bs <= n)%nat -> h (g bs) = i ->
            exists s', (z ← m; mret (h z)) s = Ok (i, s') /\ loading f n s' rest) as Hsc.
  { intros A g hh m bs -> Hl Hb <-. destruct (load_scalar g f n s bs rest Hl Hb) as (s' & Hr & ?).
    exists s'. split; [|done]. unfold mbind, AM_bind, M_bind in *. by rewrite Hr. }
  destruct i as [z|z|z|z|z|z|z|b|bs]; cbn [item_chunks concat item_ok load_item] in *;
    rewrite ?app_nil_r in Hs.
  - apply (Hsc Z le_dec IU8 load_u8 [z]); [done|done|simpl; lia|]. f_equal. simpl. lia.
  - apply (Hsc Z le_dec IU16 load_u16 (le_enc 2 z)); [done|done|simpl; lia|].
    by rewrite le_dec_enc_uw.
  - apply (Hsc Z (fun b => s32 (le_dec b)) IS32 load_s32 (le_enc 4 (u32 z)));
      [done|done|simpl; lia|].
    rewrite le_dec_enc_uw by (apply uwrap_range; lia). by rewrite swrap_uwrap.
  - apply (Hsc Z le_dec IU32 load_u32 (le_enc 4 z)); [done|done|simpl; lia|].
    by rewrite le_dec_enc_uw.
  - apply (Hsc Z le_dec IFloat load_float (le_enc 4 z)); [done|done|simpl; lia|].
    by rewrite le_dec_enc_uw.
  - apply (Hsc Z le_dec IDouble load_double (le_enc 8 z)); [done|done|simpl; lia|].
    by rewrite le_dec_enc_uw.
  - destruct (Hsc Z le_dec (fun z => IChar (swrap 8 z)) load_u8 [u8 z]) as (s' & Hr & Hs');
      [done|done|simpl; lia| |].
    + f_equal. simpl. unfold swrap, uwrap in *.
      change (2 ^ 8)%Z with 256%Z. change (2 ^ (8 - 1))%Z with 128%Z.
      rewrite Z.add_0_r, Zplus_mod_idemp_l, Z.mod_small; lia.
    + exists s'. split; [|done]. revert Hr. unfold load_char, mbind, AM_bind, M_bind.
      by destruct (load_u8 s) as [[? ?]| |].
  - destruct (Hsc Z (fun b => s32 (le_dec b)) (fun z => IBool (negb (z =? 0)%Z)) load_s32
                (le_enc 4 (if b then 1 else 0)%Z)) as (s' & Hr & Hs');
      [done|done|simpl; lia|by destruct b|].
    exists s'. split; [|done]. revert Hr. unfold load_bool, mbind, AM_bind, M_bind.
    by destruct (load_s32 s) as [[? ?]| |].
  - destruct Hok as [Hok _]. rewrite <-app_assoc in Hs.
    destruct (read_string_spec f n s bs rest Hs Hn Hok) as (s1 & H1 & Hs1).
    unfold read_string, mbind, AM_bind, M_bind in *. rewrite H1.
    destruct (Z.ltb_spec 0 (Z.of_nat (length bs))) as [Hp|Hz].
    + rewrite Nat2Z.id. destruct (read_chunk f n s1 bs rest Hs1 Hfit) as (s2 & -> & Hs2).
      by exists s2.
    + destruct bs; [|simpl in Hz; lia]. by exists s1.
Qed.

Lemma load_items_spec f n l s rest : Forall item_ok l -> (8 <= n)%nat ->
  Forall (chunk_fits n) l -> loading f n s (items_bytes l ++ rest) ->
  exists s', load_items l s = Ok (l, s') /\ loading f n s' rest.
Proof.
  intros Hok Hn Hfit. revert s. induction l as [|i l IH]; intros s Hs.
  - by exists s.
  - inversion_clear Hok. inversion_clear Hfit. unfold items_bytes in Hs. simpl in Hs.
    rewrite <-app_assoc in Hs.
    destruct (load_item_spec f n s i _ H0 Hn H2 Hs) as (s1 & H4 & Hs1).
    destruct (IH H1 H3 s1 Hs1) as (s2 & H5 & Hs2). exists s2. split; [|done].
    simpl. unfold mbind, AM_bind, M_bind in *. by rewrite H4, H5.
Qed.

Definition load_size (nBufSize : Z) : nat := Z.to_nat (Z.max 128 nBufSize).

Lemma new_loading f nBufSize os pend : (nBufSize <= INT32_MAX)%Z ->
  unread (fd_ f) os = Some pend ->
  loading f (load_size nBufSize) (Archive_new (Some f) load nBufSize, os) pend.
Proof.
  unfold INT32_MAX, load_size. intros Hn Hu. split_and!; simpl; try done.
  - rewrite length_replicate. destruct (Z.ltb_spec 128 nBufSize); f_equal; lia.
  - lia.
  - lia.
  - eauto.
Qed.
End loading.

(** ** Properties *)

(** C7: what an archive stores it loads back.  Any sequence of values
    written through a storing [Archive] and closed is on the file, after what
    was there, in order; and a loading [Archive] on a file that continues
    with those bytes reads the same values and stops right behind them,
    whatever the two buffer sizes, as long as no string is longer than the
    loading buffer.  Assumed: values in the range of their types, strings shorter
    than 2^31 without zero bytes ([write_string] stops at the first one), a file
    that takes all of these bytes (room on the volume, no signal: a short write
    would go unnoticed, [flush_short]), and reads that only the end of the file
    cuts short. *)
Theorem archive_roundtrip {OS} `{PosixData OS} (f1 f2 : file) (nb1 nb2 : Z) (l : list item)
    (os1 : OS) (out0 : list Z) :
  (nb1 <= INT32_MAX)%Z -> (nb2 <= INT32_MAX)%Z ->
  Forall item_ok l -> Forall (chunk_fits (load_size nb2)) l ->
  written (fd_ f1) os1 = Some out0 -> room (fd_ f1) os1 (length (items_bytes l)) ->
  (exists a1 os1',
     (_ ← store_items l; close) (Archive_new (Some f1) store nb1, os1) = Ok (tt, (a1, os1')) /\
     written (fd_ f1) os1' = Some (out0 ++ items_bytes l)) /\
  (forall os2 rest, unread (fd_ f2) os2 = Some (items_bytes l ++ rest) ->
   exists s2, load_items l (Archive_new (Some f2) load nb2, os2) = Ok (l, s2) /\
     loading f2 (load_size nb2) s2 rest).
Proof.
  intros Hn1 Hn2 Hok Hfit Hw Hroom. rewrite <-(Nat.add_0_r (length _)) in Hroom. split.
  - destruct (store_items_spec f1 l _ out0 0 (new_storing f1 nb1 os1 out0 _ Hn1 Hw Hroom) Hok)
      as (s & Hst & Hs).
    destruct (flush_spec f1 s _ _ Hs) as (a & os & Hfl & _ & _ & _ & Hw').
    eexists _, os. split; [|exact Hw'].
    unfold close, mbind, AM_bind, M_bind in *. rewrite Hst, Hfl. reflexivity.
  - intros os2 rest Hu. apply load_items_spec; [done|unfold load_size; lia|done|].
    by apply new_loading.
Qed.

Definition demo_fs : MemFs.fs :=
  (os_open (chars "log") (Z.lor O_RDWR O_CREAT) 0 MemFs.empty).2.
Definition demo_items : list item :=
  [IU16 513; IStr [104; 105]; IBool true; IS32 (-2); IChar (-1)]%Z.

Lemma archive_roundtrip_witness :
  (exists a1 os1',
     (_ ← store_items demo_items; close)
       (Archive_new (Some (File_adopt 0)) store 4096, demo_fs) = Ok (tt, (a1, os1')) /\
     written 0 os1' = Some (items_bytes demo_items)) /\
  (forall os2 rest, unread 0 os2 = Some (items_bytes demo_items ++ rest) ->
   exists s2, load_items demo_items (Archive_new (Some (File_adopt 0)) load 16, os2)
                = Ok (demo_items, s2) /\
     loading (OS := MemFs.fs) (File_adopt 0) 128 s2 rest).
Proof.
  apply (archive_roundtrip (File_adopt 0) (File_adopt 0) 4096 16 demo_items demo_fs []).
  - unfold INT32_MAX; lia.
  - unfold INT32_MAX; lia.
  - repeat constructor; simpl; unfold in_s32, INT32_MIN, INT32_MAX; lia || set_solver.
  - repeat constructor; simpl; lia.
  - reflexivity.
  - vm_compute. by eexists.
Defined.

(** A string longer than the loading buffer cannot be loaded.  It is
    stored without error (the storing buffer grows), but every load of it
    throws "premature end of stream" although the bytes are there, because
    the loading buffer never grows. *)
Theorem archive_long_string_unloadable {OS} `{PosixData OS} (f1 f2 : file) (nb1 nb2 : Z)
    (s : list Z) (os1 : OS) (out0 : list Z) :
  (nb1 <= INT32_MAX)%Z -> (nb2 <= INT32_MAX)%Z ->
  (load_size nb2 < length s)%nat -> (Z.of_nat (length s) < 2 ^ 31)%Z -> 0%Z ∉ s ->
  written (fd_ f1) os1 = Some out0 -> room (fd_ f1) os1 (length (item_bytes (IStr s))) ->
  (exists a1 os1',
     (_ ← write_string s; close) (Archive_new (Some f1) store nb1, os1) = Ok (tt, (a1, os1')) /\
     written (fd_ f1) os1' = Some (out0 ++ item_bytes (IStr s))) /\
  (forall os2 rest, unread (fd_ f2) os2 = Some (item_bytes (IStr s) ++ rest) ->
   read_string (Archive_new (Some f2) load nb2, os2) = Exc "Archive: premature end of stream").
Proof.
  intros Hn1 Hn2 Hlong Hl Hz Hw Hroom. rewrite <-(Nat.add_0_r (length (item_bytes _))) in Hroom. split.
  - destruct (store_item_spec f1 _ out0 0 (IStr s) (new_storing f1 nb1 os1 out0 _ Hn1 Hw Hroom) (conj Hl Hz))
      as (st & Hst & Hs).
    destruct (flush_spec f1 st _ _ Hs) as (a & os & Hfl & _ & _ & _ & Hw').
    eexists _, os. split; [|exact Hw'].
    unfold close, mbind, AM_bind, M_bind in *. cbn [store_item] in Hst.
    rewrite Hst, Hfl. reflexivity.
  - intros os2 rest Hu. apply (new_loading f2 nb2) in Hu; [|done].
    cbn [item_bytes item_chunks concat] in Hu. unfold item_bytes in Hu.
    cbn [item_chunks concat] in Hu. rewrite app_nil_r, <-app_assoc in Hu.
    destruct (read_string_spec f2 _ _ s rest Hu) as (s1 & H1 & Hs1); [unfold load_size; lia|done|].
    unfold read_string, mbind, AM_bind, M_bind. rewrite H1.
    rewrite (proj2 (Z.ltb_lt _ _)) by lia. rewrite Nat2Z.id.
    pose proof (read_spec f2 _ s1 _ (length s) Hs1) as Hr.
    by rewrite bool_decide_false in Hr by lia.
Qed.

Lemma archive_long_string_unloadable_witness :
  (exists a1 os1',
     (_ ← write_string (replicate 200 65%Z); close)
       (Archive_new (Some (File_adopt 0)) store 128, demo_fs) = Ok (tt, (a1, os1')) /\
     written 0 os1' = Some (item_bytes (IStr (replicate 200 65%Z)))) /\
  (forall os2 rest, unread 0 os2 = Some (item_bytes (IStr (replicate 200 65%Z)) ++ rest) ->
   read_string (OS := MemFs.fs) (Archive_new (Some (File_adopt 0)) load 128, os2)
     = Exc "Archive: premature end of stream").
Proof.
  apply (archive_long_string_unloadable (File_adopt 0) (File_adopt 0) 128 128
           (replicate 200 65%Z) demo_fs []);
    try (unfold INT32_MAX; lia); try (rewrite length_replicate; vm_compute; reflexivity).
  - rewrite length_replicate. unfold load_size. lia.
  - intros [ ]%elem_of_replicate. done.
  - reflexivity.
  - vm_compute. by eexists.
Defined.

(** [read_string(char*, nMax)] on a stored string.  It yields the
    string when it is shorter than [nMax]; a longer one is cut to [nMax - 1]
    characters and the rest of it stays in the archive, where the next read
    takes it for the next value. *)
Theorem archive_read_string_buf {OS} `{PosixData OS} (f : file) n (st : archive * OS)
    (s rest : list Z) (nMax : Z) :
  loading f n st (item_bytes (IStr s) ++ rest) -> (8 <= n)%nat ->
  (Z.of_nat (length s) < 2 ^ 31)%Z -> (0 < nMax < 2 ^ 32)%Z ->
  ((Z.of_nat (length s) < nMax)%Z -> (length s <= n)%nat ->
   exists st', read_string_buf nMax st = Ok (s, st') /\ loading f n st' rest) /\
  ((nMax <= Z.of_nat (length s))%Z -> (Z.to_nat nMax <= n)%nat ->
   exists st', read_string_buf nMax st = Ok (take (Z.to_nat (nMax - 1)) s, st') /\
     loading f n st' (drop (Z.to_nat (nMax - 1)) s ++ rest)).
Proof.
  intros Hs Hn Hl Hm. unfold item_bytes in Hs. cbn [item_chunks concat] in Hs.
  rewrite app_nil_r, <-app_assoc in Hs.
  destruct (read_string_spec f n st s rest Hs Hn Hl) as (s1 & H1 & Hs1).
  unfold read_string_buf, mbind, AM_bind, M_bind. rewrite H1. split; intros Hcmp Hfit.
  - rewrite (proj2 (Z.leb_gt _ _)) by lia. rewrite Nat2Z.id.
    by apply (read_chunk f n s1 s rest).
  - rewrite (proj2 (Z.leb_le _ _)) by lia. rewrite uwrap_small by (unfold in_uw; lia).
    pose proof (read_spec f n s1 _ (Z.to_nat (nMax - 1)) Hs1) as Hr.
    rewrite length_app, bool_decide_true in Hr by lia.
    rewrite take_app_le, drop_app_le in Hr by lia. done.
Qed.

Definition demo_load_fs : MemFs.fs :=
  MemFs.Fs {[ chars "log" := item_bytes (IStr [104; 101; 108; 108; 111]%Z) ]}
    {[ 0%Z := (chars "log", 0%nat) ]}.

Lemma archive_read_string_buf_witness :
  exists st', read_string_buf 3 (Archive_new (Some (File_adopt 0)) load 128, demo_load_fs)
                = Ok ([104; 101]%Z, st') /\
    loading (File_adopt 0) 128 st' [108; 108; 111]%Z.
Proof.
  apply (archive_read_string_buf (File_adopt 0) 128 _ [104; 101; 108; 108; 111]%Z [] 3);
    try (simpl; lia).
  apply (new_loading (File_adopt 0) 128); [unfold INT32_MAX; lia|reflexivity].
Defined.

Lemma write_detached {OS} `{Posix OS} (a : archive) (os : OS) bs :
  m_pFile a = None -> (length bs <= length (buf_ a))%nat ->
  write bs (a, os) =
  if bool_decide (buf_cur_ a + length bs <= length (buf_ a))%nat
  then Ok (tt, (with_cur (buf_cur_ a + length bs)
                  (with_buf (splice (buf_cur_ a) bs (buf_ a)) a), os))
  else Ub OutOfBounds.
Proof.
  intros Hf Hl. unfold write, ensureWrite, mbind, AM_bind, M_bind, flush. rewrite Hf.
  rewrite (proj2 (Nat.ltb_ge (length (buf_ a)) (length bs))) by lia.
  unfold put_bytes, blit. destruct (_ <? _)%nat; by case_bool_decide.
Qed.

(** An archive must not be written after [close()].  With the file
    gone nothing flushes the buffer any more, so two writes of more than half
    a buffer each (which a live archive handles) overrun it. *)
Theorem archive_write_after_close_overruns {OS} `{PosixData OS} f (a : archive) (os : OS) out bs :
  storing f (a, os) out 0 -> (length bs <= length (buf_ a))%nat ->
  (length (buf_ a) < length bs + length bs)%nat ->
  (_ ← close; _ ← write bs; write bs) (a, os) = Ub OutOfBounds.
Proof.
  intros Hs Hl Hlt. destruct (flush_spec f (a, os) out 0 Hs) as (a1 & os1 & Hfl & _ & Hc & Hb & _).
  unfold close, mbind, AM_bind, M_bind. rewrite Hfl. simpl in Hb.
  cbn [detach]. rewrite write_detached by (simpl; rewrite ?Hb; done || lia). simpl.
  rewrite Hc, Hb, bool_decide_true by lia.
  rewrite write_detached; simpl; [|done|rewrite length_splice; lia].
  rewrite length_splice by lia. by rewrite bool_decide_false by lia.
Qed.

Lemma archive_write_after_close_overruns_witness :
  (_ ← close; _ ← write (replicate 100 0%Z); write (replicate 100 0%Z))
    (Archive_new (Some (File_adopt 0)) store 128, demo_fs) = Ub OutOfBounds.
Proof.
  apply (archive_write_after_close_overruns (File_adopt 0) _ _ [] (replicate 100 0%Z));
    [|rewrite !length_replicate; simpl; rewrite ?length_replicate; lia..].
  apply new_storing; [unfold INT32_MAX; lia|reflexivity|vm_compute; by eexists].
Defined.
