(* ===== verification/Text.v ===== *)
(** * C strings: the library functions the configuration code uses

    Searching, trimming, [fgets], [%d] and the integer parsers [atoi] and
    [std::stoi], over lists of characters.  A [char*] argument ends at its
    first NUL ([cstr]). *)

From S2P Require Import Prelude.

(** Character codes. *)
Definition code (c : ascii) : Z := Z.of_N (N_of_ascii c).
Definition NUL : ascii := "000"%char.
Definition LF : ascii := "010"%char.
Definition CR : ascii := "013"%char.
Definition HT : ascii := "009"%char.

Definition ceq (a b : ascii) : bool := bool_decide (a = b).

(** ** Searching *)

(** The index of the first character that satisfies [p]. *)
Fixpoint find_if (p : ascii -> bool) (s : str) : option nat :=
  match s with
  | [] => None
  | c :: s => if p c then Some 0%nat else S <$> find_if p s
  end.

Definition find_first_not_of (set : ascii -> bool) (s : str) : option nat :=
  find_if (fun c => negb (set c)) s.

Fixpoint find_last_not_of (set : ascii -> bool) (s : str) : option nat :=
  match s with
  | [] => None
  | c :: s =>
      match find_last_not_of set s with
      | Some i => Some (S i)
      | None => if set c then None else Some 0%nat
      end
  end.

Definition find_char (c : ascii) (s : str) : option nat := find_if (ceq c) s.

(** What a [char*] function sees of a string. *)
Fixpoint cstr (s : str) : str :=
  match s with
  | [] => []
  | c :: s => if ceq c NUL then [] else c :: cstr s
  end.

(** ** Input *)

(** [fgets] with a buffer of [S n] characters on the rest of a file: the
    characters read and what is left, [None] at the end of the file. *)
Fixpoint fgets_go (n : nat) (s : str) : str * str :=
  match n, s with
  | O, _ => ([], s)
  | _, [] => ([], [])
  | S n, c :: s =>
      if ceq c LF then ([c], s)
      else let '(l, r) := fgets_go n s in (c :: l, r)
  end.
Definition fgets (size : nat) (s : str) : option (str * str) :=
  match s with
  | [] => None
  | _ => Some (fgets_go (size - 1) s)
  end.

(** ** Numbers *)
Definition isspace (c : ascii) : bool :=
  (code c =? 32)%Z || ((9 <=? code c) && (code c <=? 13))%Z.
Definition isdigit (c : ascii) : bool := ((48 <=? code c) && (code c <=? 57))%Z.
Definition digit_val (c : ascii) : Z := (code c - 48)%Z.
Definition digit_chr (d : Z) : ascii := ascii_of_N (Z.to_N (48 + d)).

(** [::tolower] in the C locale. *)
Definition tolower (c : ascii) : ascii :=
  if ((65 <=? code c) && (code c <=? 90))%Z then ascii_of_N (Z.to_N (code c + 32)) else c.

(** Skip leading characters in a set; the longest prefix in a set. *)
Fixpoint skip (p : ascii -> bool) (s : str) : str :=
  match s with
  | [] => []
  | c :: s' => if p c then skip p s' else s
  end.
Fixpoint span (p : ascii -> bool) (s : str) : str :=
  match s with
  | [] => []
  | c :: s => if p c then c :: span p s else []
  end.

Definition horner (ds : str) : Z := foldl (fun a c => a * 10 + digit_val c)%Z 0%Z ds.

(** The sign and the digits [strtol] finds after the blanks. *)
Definition signed_digits (s : str) : Z * str :=
  match s with
  | c :: s' =>
      if (code c =? 45)%Z then ((-1)%Z, span isdigit s')
      else if (code c =? 43)%Z then (1%Z, span isdigit s')
      else (1%Z, span isdigit s)
  | [] => (1%Z, [])
  end.

(** [atoi]: zero when there is no number, undefined when it does not fit. *)
Definition atoi (s : str) : outcome Z :=
  let '(sg, ds) := signed_digits (skip isspace (cstr s)) in chk32 (sg * horner ds).

(** [std::stoi(s, &consumed)]; [None] when it throws. *)
Definition stoi (s : str) : option (Z * nat) :=
  let t := skip isspace (cstr s) in
  let '(sg, ds) := signed_digits t in
  let sign_len := match t with
                  | c :: _ => if (code c =? 45)%Z || (code c =? 43)%Z then 1%nat else 0%nat
                  | [] => 0%nat
                  end in
  match ds with
  | [] => None
  | _ =>
      let v := (sg * horner ds)%Z in
      if ((INT32_MIN <=? v) && (v <=? INT32_MAX))%Z
      then Some (v, (length (cstr s) - length t + sign_len + length ds)%nat)
      else None
  end.

(** [%d]: [fuel] digits are enough for ten to the [fuel]. *)
Fixpoint dec_digits (fuel : nat) (n : Z) : str :=
  match fuel with
  | O => []
  | S fuel =>
      if (n <? 10)%Z then [digit_chr n]
      else dec_digits fuel (n / 10) ++ [digit_chr (n mod 10)]
  end.
Definition print_int (z : Z) : str :=
  if (z <? 0)%Z then "-"%char :: dec_digits 10 (- z) else dec_digits 10 z.

(** ** Lemmas *)
Lemma ceq_true a b : ceq a b = true <-> a = b.
Proof. unfold ceq. apply bool_decide_eq_true. Qed.
Lemma ceq_false a b : ceq a b = false <-> a <> b.
Proof. unfold ceq. apply bool_decide_eq_false. Qed.
Lemma ceq_refl a : ceq a a = true.
Proof. by apply ceq_true. Qed.

Lemma code_digit_chr d : (0 <= d < 10)%Z -> code (digit_chr d) = (48 + d)%Z.
Proof.
  intros H. unfold code, digit_chr. rewrite N_ascii_embedding; lia.
Qed.

Lemma isdigit_chr d : (0 <= d < 10)%Z -> isdigit (digit_chr d) = true.
Proof.
  intros H. unfold isdigit. rewrite code_digit_chr by done.
  rewrite !(proj2 (Z.leb_le _ _)) by lia. done.
Qed.

Lemma digit_val_chr d : (0 <= d < 10)%Z -> digit_val (digit_chr d) = d.
Proof. intros H. unfold digit_val. rewrite code_digit_chr by done. lia. Qed.

Lemma horner_snoc ds c : horner (ds ++ [c]) = (horner ds * 10 + digit_val c)%Z.
Proof. unfold horner. by rewrite foldl_app. Qed.

(** The printed digits are digits, at least one, and read back. *)
Lemma dec_digits_spec fuel n : (0 <= n < 10 ^ Z.of_nat fuel)%Z -> fuel <> 0%nat ->
  Forall (fun c => isdigit c = true) (dec_digits fuel n) /\
  dec_digits fuel n <> [] /\ horner (dec_digits fuel n) = n.
Proof.
  revert n. induction fuel as [|fuel IH]; intros n Hn Hf; [done|].
  cbn [dec_digits]. destruct (Z.ltb_spec n 10) as [Hlt|Hge].
  - split_and!; [|done|].
    + apply Forall_singleton. apply isdigit_chr. lia.
    + change (horner [digit_chr n]) with (0 * 10 + digit_val (digit_chr n))%Z.
      rewrite digit_val_chr; lia.
  - assert (0 <= n mod 10 < 10)%Z as Hm by (apply Z.mod_pos_bound; lia).
    destruct (IH (n / 10)%Z) as (Hd & Hne & Hv).
    { rewrite Nat2Z.inj_succ, Z.pow_succ_r in Hn by lia.
      split; [apply Z.div_pos; lia|apply Z.div_lt_upper_bound; lia]. }
    { intros ->. simpl in Hn. lia. }
    split_and!.
    + apply Forall_app; split; [done|]. apply Forall_singleton. by apply isdigit_chr.
    + by destruct (dec_digits fuel (n / 10)).
    + rewrite horner_snoc, Hv, digit_val_chr by done.
      pose proof (Z.div_mod n 10). lia.
Qed.

Lemma span_all p s : Forall (fun c => p c = true) s -> span p s = s.
Proof. induction 1 as [|c s Hc _ IH]; simpl; [done|]. by rewrite Hc, IH. Qed.

Lemma skip_not p c s : p c = false -> skip p (c :: s) = c :: s.
Proof. intros H. simpl. by rewrite H. Qed.

Lemma cstr_id s : Forall (fun c => c <> NUL) s -> cstr s = s.
Proof.
  induction 1 as [|c s Hc _ IH]; simpl; [done|].
  apply ceq_false in Hc. by rewrite Hc, IH.
Qed.

Lemma isdigit_code c : isdigit c = true -> (48 <= code c <= 57)%Z.
Proof. unfold isdigit. intros H. bprop. lia. Qed.

Lemma digit_not_nul c : isdigit c = true -> c <> NUL.
Proof. intros H%isdigit_code ->. change (code NUL) with 0%Z in H. lia. Qed.

Lemma digit_not_space c : isdigit c = true -> isspace c = false.
Proof.
  intros H%isdigit_code. unfold isspace.
  rewrite (proj2 (Z.eqb_neq _ _)), (proj2 (Z.leb_gt (code c) 13)) by lia. by rewrite andb_false_r.
Qed.

(** What [print_int] writes, in the form the parsers look at. *)
Lemma print_int_shape z : in_s32 z ->
  exists sg ds, print_int z = (if (z <? 0)%Z then ["-"%char] else []) ++ ds /\
    Forall (fun c => isdigit c = true) ds /\ ds <> [] /\
    sg = (if (z <? 0)%Z then -1 else 1)%Z /\ (sg * horner ds)%Z = z.
Proof.
  unfold in_s32, INT32_MIN, INT32_MAX, print_int. intros Hz.
  assert (10 ^ Z.of_nat 10 = 10000000000)%Z as Hp by done.
  destruct (Z.ltb_spec z 0) as [Hneg|Hpos].
  - destruct (dec_digits_spec 10 (- z)) as (Hd & Hne & Hv); [lia|done|].
    exists (-1)%Z, (dec_digits 10 (- z)). split_and!; try done. lia.
  - destruct (dec_digits_spec 10 z) as (Hd & Hne & Hv); [lia|done|].
    exists 1%Z, (dec_digits 10 z). split_and!; try done. lia.
Qed.

Lemma print_int_chars z : in_s32 z ->
  Forall (fun c => isdigit c = true \/ c = "-"%char) (print_int z) /\ print_int z <> [].
Proof.
  intros Hz. destruct (print_int_shape z Hz) as (sg & ds & -> & Hd & Hne & _). split.
  - apply Forall_app; split; [destruct (z <? 0)%Z; [apply Forall_singleton; by right|done]|].
    eapply Forall_impl; [done|]. simpl. auto.
  - destruct (z <? 0)%Z; [done|]. by destruct ds.
Qed.

Lemma print_int_cstr z : in_s32 z -> cstr (print_int z) = print_int z.
Proof.
  intros Hz. apply cstr_id. eapply Forall_impl; [by apply print_int_chars|].
  intros c [Hc| ->]; [by apply digit_not_nul|done].
Qed.

Lemma signed_digits_print z : in_s32 z ->
  skip isspace (print_int z) = print_int z /\
  exists sg ds, signed_digits (print_int z) = (sg, ds) /\ ds <> [] /\
    Forall (fun c => isdigit c = true) ds /\ (sg * horner ds)%Z = z /\
    print_int z = (if (z <? 0)%Z then ["-"%char] else []) ++ ds.
Proof.
  intros Hz. destruct (print_int_shape z Hz) as (sg & ds & -> & Hd & Hne & Hsg & Hv).
  destruct (z <? 0)%Z; simpl.
  - split; [done|]. exists sg, ds. rewrite span_all by done. by subst sg.
  - destruct ds as [|c ds]; [done|]. inversion Hd as [|? ? Hc Hd']; subst.
    split; [by rewrite skip_not by by apply digit_not_space|].
    exists 1%Z, (c :: ds). pose proof (isdigit_code c Hc) as Hcode. simpl.
    rewrite !(proj2 (Z.eqb_neq _ _)) by lia. rewrite Hc, span_all by done. done.
Qed.

Lemma atoi_print z : in_s32 z -> atoi (print_int z) = Ok z.
Proof.
  intros Hz. unfold atoi. rewrite print_int_cstr by done.
  destruct (signed_digits_print z Hz) as (-> & sg & ds & -> & _ & _ & -> & _).
  by apply chk32_ok.
Qed.

Lemma stoi_print z : in_s32 z -> stoi (print_int z) = Some (z, length (print_int z)).
Proof.
  intros Hz. unfold stoi. rewrite print_int_cstr by done.
  destruct (signed_digits_print z Hz) as (-> & sg & ds & Hs & Hne & Hd & Hv & Hsh).
  rewrite Hs, Hv. destruct ds as [|c ds]; [done|].
  unfold in_s32 in Hz. rewrite !(proj2 (Z.leb_le _ _)) by lia. cbn [andb].
  do 2 f_equal. rewrite Hsh. destruct (z <? 0)%Z; simpl; [lia|].
  inversion_clear Hd as [|? ? Hc _]. apply isdigit_code in Hc.
  rewrite !(proj2 (Z.eqb_neq _ _)) by lia. simpl. lia.
Qed.
