(* ===== verification/Ini.v ===== *)
(** * Configuration files (include/inifile.hpp, src/inifile.cpp)

    [IniFile] keeps its sections in two parallel vectors, and the entries of
    a section in two more.  The methods run over the object in the state
    monad; indexing a vector out of range is undefined.  A file is its
    contents: [read_file] gets what [fopen] finds, [write_file] yields what
    it leaves. *)

From S2P Require Import Prelude Text.

Record Key : Type := MkKey { values : list str; names : list str }.

Record inifile : Type := Ini {
  m_path : str;
  keys_ : list Key;
  names_ : list str;
  error : str;
}.

Definition IniFile_new (inipath : str) : inifile := Ini inipath [] [] [].
Definition set_path (newpath : str) (i : inifile) : inifile :=
  Ini newpath (keys_ i) (names_ i) (error i).

(** ** Trimming *)
Definition TrimLeft (c : ascii) (s : str) : str :=
  match find_first_not_of (ceq c) s with
  | None => []
  | Some pos => drop pos s
  end.
Definition TrimRight (c : ascii) (s : str) : str :=
  match find_last_not_of (ceq c) s with
  | None => []
  | Some pos => take (pos + 1) s
  end.
Definition Trim (c : ascii) (s : str) : str := TrimRight c (TrimLeft c s).

(** The accessors' [trim] over blanks, tabs and line ends. *)
Definition ws (c : ascii) : bool := ceq c " " || ceq c HT || ceq c CR || ceq c LF.
Definition trim (s : str) : str :=
  match find_first_not_of ws s with
  | None => []
  | Some first =>
      match find_last_not_of ws s with
      | None => []
      | Some last => take (last - first + 1) (drop first s)
      end
  end.

(** ** Lookup *)

(** The loops of [find_key] and [find_value]: the first index of a name. *)
Fixpoint index_of (x : str) (l : list str) : option nat :=
  match l with
  | [] => None
  | y :: l => if bool_decide (y = x) then Some 0%nat else S <$> index_of x l
  end.
Definition to_int (o : option nat) : Z :=
  match o with Some n => Z.of_nat n | None => (-1)%Z end.

(** [v[i]] for an [int] index. *)
Definition at_ {A} (l : list A) (i : Z) : outcome A :=
  if (i <? 0)%Z then Ub OutOfBounds
  else match l !! Z.to_nat i with Some x => Ok x | None => Ub OutOfBounds end.

Definition find_key (keyname : str) (i : inifile) : Z := to_int (index_of keyname (names_ i)).

Definition find_value (keynum : Z) (valuename : str) (i : inifile) : outcome Z :=
  if (keynum <? 0)%Z then Ok (-1)%Z
  else k ← at_ (keys_ i) keynum; Ok (to_int (index_of valuename (names k))).

Definition set_error (e : string) (i : inifile) : inifile :=
  Ini (m_path i) (keys_ i) (names_ i) (chars e).

Definition get_value (keyname valuename : str) (i : inifile) : outcome (str * inifile) :=
  let keynum := find_key keyname i in
  valuenum ← find_value keynum valuename i;
  if (keynum =? -1)%Z then Ok ([], set_error "Key not found." i)
  else if (valuenum =? -1)%Z then Ok ([], set_error "Value not found." i)
  else k ← at_ (keys_ i) keynum; v ← at_ (values k) valuenum; Ok (v, i).

Definition get_value_i (keyname valuename : str) (i : inifile) : outcome (Z * inifile) :=
  '(s, i') ← get_value keyname valuename i; z ← atoi s; Ok (z, i').

(** The form by position; [None] is [false]. *)
Definition get_value_at (keyname : str) (valuenum : Z) (i : inifile)
  : outcome (option (str * str) * inifile) :=
  let keynum := find_key keyname i in
  if (keynum =? -1)%Z then Ok (None, i)
  else
    k ← at_ (keys_ i) keynum;
    if ((valuenum <? 0) || (Z.of_nat (length (names k)) <=? valuenum))%Z then Ok (None, i)
    else
      n ← at_ (names k) valuenum;
      '(v, i') ← get_value keyname n i;
      Ok (Some (n, v), i').

(** The loop of [get_values]: the map is filled in order. *)
Fixpoint get_values_loop (keyname : str) (ns : list str) (m : gmap str str) (i : inifile)
  : outcome (gmap str str * inifile) :=
  match ns with
  | [] => Ok (m, i)
  | n :: ns =>
      '(v, i') ← get_value keyname n i;
      get_values_loop keyname ns (<[n := v]> m) i'
  end.
Definition get_values (keyname : str) (i : inifile) : outcome (option (gmap str str) * inifile) :=
  let keynum := find_key keyname i in
  if (keynum =? -1)%Z then Ok (None, i)
  else
    k ← at_ (keys_ i) keynum;
    '(m, i') ← get_values_loop keyname (names k) ∅ i;
    Ok (Some m, i').

Definition try_get_string (section key : str) (i : inifile) : outcome (option str) :=
  let keynum := find_key section i in
  if (keynum <? 0)%Z then Ok None
  else
    valnum ← find_value keynum key i;
    if (valnum <? 0)%Z then Ok None
    else k ← at_ (keys_ i) keynum; v ← at_ (values k) valnum; Ok (Some v).

Definition num_keys (i : inifile) : Z := s32 (Z.of_nat (length (keys_ i))).
Definition num_values (keyname : str) (i : inifile) : outcome Z :=
  let keynum := find_key keyname i in
  if (keynum =? -1)%Z then Ok (-1)%Z
  else k ← at_ (keys_ i) keynum; Ok (s32 (Z.of_nat (length (names k)))).
Definition is_key (keyname : str) (i : inifile) : bool := negb (find_key keyname i =? -1)%Z.

(** ** Typed accessors *)
Definition parse_whole_int (s : str) : option Z :=
  match trim s with
  | [] => None
  | t =>
      match stoi t with
      | Some (v, consumed) => if bool_decide (consumed = length t) then Some v else None
      | None => None
      end
  end.
Definition try_get_int (section key : str) (i : inifile) : outcome (option Z) :=
  s ← try_get_string section key i; Ok (s ≫= parse_whole_int).

(** [get<std::string>] and [get<int>], and [get_or] on the result of [get]. *)
Definition get_string : str -> str -> inifile -> outcome (option str) := try_get_string.
Definition get_int : str -> str -> inifile -> outcome (option Z) := try_get_int.
Definition get_or {T} (get : str -> str -> inifile -> outcome (option T)) (section key : str)
    (default_value : T) (i : inifile) : outcome T :=
  v ← get section key i; Ok (default default_value v).

Definition lower (s : str) : str := map tolower s.
Definition parse_bool (v : str) : bool :=
  bool_decide (lower v ∈ map chars ["1"; "true"; "yes"; "on"; "y"]%string).
Definition is_truthy (trimmed : str) : bool := parse_bool trimmed.
Definition is_explicitly_false (trimmed : str) : bool :=
  bool_decide (lower trimmed ∈ map chars ["0"; "false"; "no"; "off"; "n"]%string).

Definition get_bool (section key : str) (i : inifile) : outcome (option bool) :=
  v ← try_get_string section key i;
  match v with
  | None => Ok None
  | Some v =>
      match trim v with
      | [] => Ok None
      | t => if is_truthy t then Ok (Some true)
             else if is_explicitly_false t then Ok (Some false) else Ok None
      end
  end.
Definition get_bool_or (section key : str) (default_value : bool) (i : inifile) : outcome bool :=
  v ← try_get_string section key i;
  match v with
  | None => Ok default_value
  | Some v =>
      match trim v with
      | [] => Ok default_value
      | t => if is_truthy t then Ok true
             else if is_explicitly_false t then Ok false else Ok default_value
      end
  end.
Definition get_string_or (section key default_value : str) (i : inifile) : outcome str :=
  v ← try_get_string section key i; Ok (default default_value v).
Definition get_int_or (section key : str) (default_value : Z) (i : inifile) : outcome Z :=
  v ← try_get_int section key i; Ok (default default_value v).

(** ** Updates *)
Definition set_value_at (keynum valuenum : Z) (value : str) (i : inifile) : outcome inifile :=
  k ← at_ (keys_ i) keynum;
  _ ← at_ (values k) valuenum;
  Ok (Ini (m_path i)
       (<[Z.to_nat keynum := MkKey (<[Z.to_nat valuenum := value]> (values k)) (names k)]> (keys_ i))
       (names_ i) (error i)).

Definition push_name (keynum : Z) (valuename : str) (i : inifile) : outcome inifile :=
  k ← at_ (keys_ i) keynum;
  Ok (Ini (m_path i)
       (<[Z.to_nat keynum := MkKey (values k ++ [[]]) (names k ++ [valuename])]> (keys_ i))
       (names_ i) (error i)).

(** [set_value] from the lookup of the value on. *)
Definition set_entry (keynum : Z) (valuename value : str) (create : bool) (i : inifile)
  : outcome (bool * inifile) :=
  valuenum ← find_value keynum valuename i;
  if (valuenum =? -1)%Z && negb create then Ok (false, i)
  else if (valuenum =? -1)%Z then
    i2 ← push_name keynum valuename i;
    k ← at_ (keys_ i2) keynum;
    i3 ← set_value_at keynum (Z.of_nat (length (names k)) - 1) value i2;
    Ok (true, i3)
  else i3 ← set_value_at keynum valuenum value i; Ok (true, i3).

Definition set_value (keyname valuename value : str) (create : bool) (i : inifile)
  : outcome (bool * inifile) :=
  let keynum := find_key keyname i in
  if (keynum =? -1)%Z then
    if negb create then Ok (false, i)
    else
      let i1 := Ini (m_path i) (keys_ i ++ [MkKey [] []]) (names_ i ++ [keyname]) (error i) in
      set_entry (Z.of_nat (length (names_ i1)) - 1) valuename value create i1
  else set_entry keynum valuename value create i.

Definition set_value_i (keyname valuename : str) (value : Z) (create : bool) (i : inifile)
  : outcome (bool * inifile) := set_value keyname valuename (print_int value) create i.

(** *** Doubles *)
Section doubles.
(** [double] with [atof], [std::stod] (the value and the number of characters it
    consumed, or an exception) and the text of ["%e"]. *)
Context {double : Type} (atof : str -> double) (stod : str -> option (double * nat)) (print_e : double -> str).

Definition get_value_f (keyname valuename : str) (i : inifile) : outcome (double * inifile) :=
  '(s, i') ← get_value keyname valuename i; Ok (atof (cstr s), i').

(** The buffer holds 64 characters. *)
Definition set_value_f (key valuename : str) (value : double) (create : bool) (i : inifile)
    : outcome (bool * inifile) :=
  set_value key valuename (take 63 (print_e value)) create i.

Definition parse_whole_double (s : str) : option double :=
  match trim s with
  | [] => None
  | t =>
      match stod t with
      | Some (v, consumed) => if bool_decide (consumed = length t) then Some v else None
      | None => None
      end
  end.
Definition try_get_double (section key : str) (i : inifile) : outcome (option double) :=
  s ← try_get_string section key i; Ok (s ≫= parse_whole_double).
Definition get_double : str -> str -> inifile -> outcome (option double) := try_get_double.
Definition get_double_or (section key : str) (default_value : double) (i : inifile) : outcome double :=
  v ← try_get_double section key i; Ok (default default_value v).
End doubles.

Definition delete_value (keyname valuename : str) (i : inifile) : outcome (bool * inifile) :=
  let keynum := find_key keyname i in
  valuenum ← find_value keynum valuename i;
  if (keynum =? -1)%Z || (valuenum =? -1)%Z then Ok (false, i)
  else
    k ← at_ (keys_ i) keynum;
    Ok (true, Ini (m_path i)
      (<[Z.to_nat keynum := MkKey (delete (Z.to_nat valuenum) (values k))
                                  (delete (Z.to_nat valuenum) (names k))]> (keys_ i))
      (names_ i) (error i)).

Definition delete_key (keyname : str) (i : inifile) : bool * inifile :=
  let keynum := find_key keyname i in
  if (keynum =? -1)%Z then (false, i)
  else (true, Ini (m_path i) (delete (Z.to_nat keynum) (keys_ i))
               (delete (Z.to_nat keynum) (names_ i)) (error i)).

Definition reset (i : inifile) : inifile := Ini (m_path i) [] [] (error i).

(** ** Files *)

(** One line of [read_file], with the current section. *)
Definition read_line (buf : str) (st : str * inifile) : outcome (str * inifile) :=
  let '(keyname, i) := st in
  let line := TrimRight CR (TrimRight LF (cstr buf)) in
  match line with
  | [] => Ok (keyname, i)
  | c :: _ =>
      if ceq c "#" then Ok (keyname, i)
      else if ceq c "[" && match last line with Some b => ceq b "]" | None => false end then
        Ok (Trim " " (take (length line - 2) (drop 1 line)), i)
      else
        let '(valuename, value) :=
          match find_char "=" line with
          | None => (line, [])
          | Some eq => (take eq line, drop (eq + 1) line)
          end in
        let valuename := Trim " " valuename in
        let value := match find_char "#" value with
                     | Some comment => take comment value
                     | None => value
                     end in
        let value := Trim " " value in
        match valuename with
        | [] => Ok (keyname, i)
        | _ => '(_, i') ← set_value keyname valuename value true i; Ok (keyname, i')
        end
  end.

(** The loop over [fgets]; every round consumes a character. *)
Fixpoint read_loop (fuel : nat) (content : str) (st : str * inifile) : outcome (str * inifile) :=
  match fuel with
  | O => Ok st
  | S fuel =>
      match fgets 2048 content with
      | None => Ok st
      | Some (buf, rest) => st' ← read_line buf st; read_loop fuel rest st'
      end
  end.

(** [file] is what is at [m_path], [None] when [fopen] fails. *)
Definition read_file (file : option str) (i : inifile) : outcome (bool * inifile) :=
  match file with
  | None => Ok (false, set_error "Unable to open ini file." i)
  | Some content => '(_, i') ← read_loop (S (length content)) content ([], i); Ok (true, i')
  end.

(** [fprintf] of [%-10s]. *)
Definition pad10 (s : str) : str := s ++ replicate (10 - length s) " "%char.

Definition entry_text (n v : str) : str :=
  pad10 (cstr n) ++ chars " = " ++ cstr v ++ [LF].
Fixpoint entries_text (ns vs : list str) : outcome str :=
  match ns, vs with
  | [], _ => Ok []
  | _ :: _, [] => Ub OutOfBounds
  | n :: ns, v :: vs => t ← entries_text ns vs; Ok (entry_text n v ++ t)
  end.
Fixpoint sections_text (ns : list str) (ks : list Key) : outcome str :=
  match ns, ks with
  | [], _ => Ok []
  | _ :: _, [] => Ub OutOfBounds
  | n :: ns, k :: ks =>
      here ← match names k with
             | [] => Ok []
             | _ => t ← entries_text (names k) (values k);
                    Ok (chars "[" ++ cstr n ++ chars "]" ++ [LF] ++ t ++ [LF])
             end;
      t ← sections_text ns ks; Ok (here ++ t)
  end.
(** The file's new contents; [None] when [fopen] fails. *)
Definition write_file (writable : bool) (i : inifile) : outcome (option str * inifile) :=
  if writable then t ← sections_text (names_ i) (keys_ i); Ok (Some t, i)
  else Ok (None, set_error "Unable to open ini file." i).
