(* ===== verification/IniMap.v ===== *)
(** * [IniFile] as a map of maps

    The parallel vectors of [IniFile] refine a finite map from section names
    to finite maps from value names to values, the contract a user of the
    class relies on. *)

From S2P Require Import Prelude Text Ini.

(** ** Parallel vectors as maps *)
Section zmap.
Context {V : Type}.
Implicit Types (ns : list str) (vs : list V) (x : str).

Definition zmap ns vs : gmap str V := list_to_map (zip ns vs).

Lemma zmap_lookup ns vs x : length ns = length vs ->
  zmap ns vs !! x = (i ← index_of x ns; vs !! i).
Proof.
  revert vs. induction ns as [|n ns IH]; intros [|v vs] Hl; simplify_eq/=; [done|].
  unfold zmap in *. simpl. case_bool_decide as Hn.
  - subst. by rewrite lookup_insert_eq.
  - rewrite lookup_insert_ne, IH by done. by destruct (index_of x ns).
Qed.

Lemma index_of_lookup ns x i : index_of x ns = Some i -> ns !! i = Some x.
Proof.
  revert i. induction ns as [|n ns IH]; intros i Hi; simplify_eq/=.
  case_bool_decide; [by simplify_eq/=|]. destruct (index_of x ns); simplify_eq/=. by apply IH.
Qed.

Lemma index_of_lt ns x i : index_of x ns = Some i -> (i < length ns)%nat.
Proof. intros H%index_of_lookup. by eapply lookup_lt_Some. Qed.

Lemma index_of_None ns x : index_of x ns = None <-> x ∉ ns.
Proof.
  induction ns as [|n ns IH]; simpl; [set_solver|].
  case_bool_decide; [set_solver|]. destruct (index_of x ns); simpl in *; set_solver.
Qed.

Lemma zmap_update ns vs x i v : length ns = length vs -> index_of x ns = Some i ->
  zmap ns (<[i := v]> vs) = <[x := v]> (zmap ns vs).
Proof.
  intros Hl Hi. apply map_eq. intros y. rewrite zmap_lookup by by rewrite length_insert.
  destruct (decide (y = x)) as [->|Hne].
  - rewrite lookup_insert_eq, Hi. simpl. apply list_lookup_insert_eq.
    rewrite <-Hl. by eapply index_of_lt.
  - rewrite lookup_insert_ne, zmap_lookup by done.
    destruct (index_of y ns) as [j|] eqn:Hj; simpl; [|done].
    rewrite list_lookup_insert_ne; [done|]. intros ->.
    apply index_of_lookup in Hi, Hj. congruence.
Qed.

Lemma index_of_snoc ns x y :
  index_of y (ns ++ [x]) =
  match index_of y ns with
  | Some i => Some i
  | None => if bool_decide (x = y) then Some (length ns) else None
  end.
Proof.
  induction ns as [|n ns IH]; simpl; [by case_bool_decide|].
  destruct (bool_decide (n = y)); [done|]. rewrite IH.
  destruct (index_of y ns); [done|]. by destruct (bool_decide (x = y)).
Qed.

Lemma zmap_snoc ns vs x v : length ns = length vs -> x ∉ ns ->
  zmap (ns ++ [x]) (vs ++ [v]) = <[x := v]> (zmap ns vs).
Proof.
  intros Hl Hx%index_of_None. apply map_eq. intros y.
  rewrite zmap_lookup by (rewrite !length_app; simpl; lia). rewrite index_of_snoc.
  destruct (decide (x = y)) as [->|Hne].
  - rewrite Hx, bool_decide_true, lookup_insert_eq by done. simpl.
    rewrite lookup_app_r by lia. by rewrite Hl, Nat.sub_diag.
  - rewrite lookup_insert_ne, zmap_lookup by done. rewrite bool_decide_false by done.
    destruct (index_of y ns) as [i|] eqn:Hi; [|done]. simpl.
    apply lookup_app_l. rewrite <-Hl. by eapply index_of_lt.
Qed.

Lemma zmap_delete ns vs x i : length ns = length vs -> NoDup ns -> index_of x ns = Some i ->
  zmap (delete i ns) (delete i vs) = delete x (zmap ns vs).
Proof.
  revert vs i. induction ns as [|n ns IH]; intros [|v vs] i Hl Hnd Hi; simplify_eq/=.
  apply NoDup_cons in Hnd as [Hn Hnd]. case_bool_decide as Hnx.
  - simplify_eq/=. unfold zmap. simpl. rewrite delete_insert_eq.
    symmetry. apply delete_id. change (zmap ns vs !! x = None).
    rewrite zmap_lookup by done. apply index_of_None in Hn. by rewrite Hn.
  - destruct (index_of x ns) as [j|] eqn:Hj; simplify_eq/=. unfold zmap in *. simpl.
    rewrite (IH vs j) by done. by rewrite delete_insert_ne by done.
Qed.

Lemma zmap_size ns vs : length ns = length vs -> NoDup ns -> size (zmap ns vs) = length ns.
Proof.
  revert vs. induction ns as [|n ns IH]; intros [|v vs] Hl Hnd; simplify_eq/=; [done|].
  apply NoDup_cons in Hnd as [Hn Hnd]. unfold zmap in *. simpl.
  rewrite map_size_insert_None; [by rewrite IH|].
  change (zmap ns vs !! n = None). rewrite zmap_lookup by done.
  apply index_of_None in Hn. by rewrite Hn.
Qed.

Lemma NoDup_delete ns i : NoDup ns -> NoDup (delete i ns).
Proof. intros H. eapply sublist_NoDup; [exact H|]. apply sublist_delete. Qed.
End zmap.

Lemma zmap_fmap {V W} (g : V -> W) ns vs : zmap ns (g <$> vs) = g <$> zmap ns vs.
Proof.
  unfold zmap. revert vs. induction ns as [|n ns IH]; intros [|v vs]; simpl;
    rewrite ?fmap_empty; try done. by rewrite IH, fmap_insert.
Qed.

(** ** The representation *)
Definition key_wf (k : Key) : Prop := length (names k) = length (values k) /\ NoDup (names k).

(** The vectors are parallel at both levels and names are unique. *)
Definition ini_wf (i : inifile) : Prop :=
  length (names_ i) = length (keys_ i) /\ NoDup (names_ i) /\ Forall key_wf (keys_ i).

Definition key_map (k : Key) : gmap str str := zmap (names k) (values k).
Definition ini_map (i : inifile) : gmap str (gmap str str) :=
  key_map <$> zmap (names_ i) (keys_ i).
(** The names of each section in the order they were added. *)
Definition ini_order (i : inifile) : gmap str (list str) := names <$> zmap (names_ i) (keys_ i).
Definition ini_abs (i : inifile) : gmap str (gmap str str) * gmap str (list str) := (ini_map i, ini_order i).

(** The abstract state. *)
Abbreviation cfg := (gmap str (gmap str str)).

Inductive iop : Type :=
| ISet (s n v : str) (create : bool)
| IGet (s n : str)
| IGetAt (s : str) (j : Z)
| ITry (s n : str)
| IGetValues (s : str)
| IIsKey (s : str)
| INumKeys
| INumValues (s : str)
| IDelValue (s n : str)
| IDelKey (s : str)
| IReset.

Inductive iret : Type :=
| RBool (b : bool) | RStr (s : str) | ROpt (o : option str)
| RPair (o : option (str * str)) | RMap (o : option (gmap str str)) | RInt (z : Z) | RDone.

Definition iexec (o : iop) (i : inifile) : outcome (iret * inifile) :=
  match o with
  | ISet s n v c => '(b, i') ← set_value s n v c i; Ok (RBool b, i')
  | IGet s n => '(v, i') ← get_value s n i; Ok (RStr v, i')
  | IGetAt s j => '(o, i') ← get_value_at s j i; Ok (RPair o, i')
  | ITry s n => v ← try_get_string s n i; Ok (ROpt v, i)
  | IGetValues s => '(m, i') ← get_values s i; Ok (RMap m, i')
  | IIsKey s => Ok (RBool (is_key s i), i)
  | INumKeys => Ok (RInt (num_keys i), i)
  | INumValues s => z ← num_values s i; Ok (RInt z, i)
  | IDelValue s n => '(b, i') ← delete_value s n i; Ok (RBool b, i')
  | IDelKey s => let '(b, i') := delete_key s i in Ok (RBool b, i')
  | IReset => Ok (RDone, reset i)
  end.

(** The same operations on the map, with the order of the names. *)
Definition cfg_get (m : cfg) (s n : str) : option str := sec ← m !! s; sec !! n.
Definition cfg_put (m : cfg) (s n v : str) : cfg := <[s := <[n := v]> (default ∅ (m !! s))]> m.
Definition order_add (n : str) (ns : list str) : list str :=
  if bool_decide (n ∈ ns) then ns else ns ++ [n].
Definition order_put (od : gmap str (list str)) (s n : str) : gmap str (list str) :=
  <[s := order_add n (default [] (od !! s))]> od.
Definition order_at (od : gmap str (list str)) (s : str) (j : Z) : option str :=
  ns ← od !! s; if (j <? 0)%Z then None else ns !! Z.to_nat j.

Definition sexec (o : iop) (st : cfg * gmap str (list str)) : iret * (cfg * gmap str (list str)) :=
  let '(m, od) := st in
  match o with
  | ISet s n v c =>
      if c || bool_decide (is_Some (cfg_get m s n))
      then (RBool true, (cfg_put m s n v, order_put od s n)) else (RBool false, st)
  | IGet s n => (RStr (default [] (cfg_get m s n)), st)
  | IGetAt s j => (RPair (n ← order_at od s j; v ← cfg_get m s n; Some (n, v)), st)
  | ITry s n => (ROpt (cfg_get m s n), st)
  | IGetValues s => (RMap (m !! s), st)
  | IIsKey s => (RBool (bool_decide (is_Some (m !! s))), st)
  | INumKeys => (RInt (s32 (Z.of_nat (size m))), st)
  | INumValues s =>
      (RInt (match m !! s with Some sec => s32 (Z.of_nat (size sec)) | None => (-1)%Z end), st)
  | IDelValue s n =>
      match cfg_get m s n with
      | Some _ => (RBool true, (<[s := delete n (default ∅ (m !! s))]> m,
          <[s := filter (.≠ n) (default [] (od !! s))]> od))
      | None => (RBool false, st)
      end
  | IDelKey s =>
      match m !! s with
      | Some _ => (RBool true, (delete s m, delete s od))
      | None => (RBool false, st)
      end
  | IReset => (RDone, (∅, ∅))
  end.

(** ** Access paths *)
Lemma at_of_nat {A} (l : list A) n x : l !! n = Some x -> at_ l (Z.of_nat n) = Ok x.
Proof.
  intros H. unfold at_. rewrite (proj2 (Z.ltb_ge _ _)) by lia. by rewrite Nat2Z.id, H.
Qed.

Lemma to_int_none o : (to_int o =? -1)%Z = bool_decide (o = None).
Proof.
  destruct o as [n|]; [|done]. rewrite bool_decide_false by done.
  apply Z.eqb_neq. simpl. lia.
Qed.
Lemma to_int_neg o : (to_int o <? 0)%Z = bool_decide (o = None).
Proof.
  destruct o as [n|]; [|done]. rewrite bool_decide_false by done.
  apply Z.ltb_ge. simpl. lia.
Qed.

(** Where a section is, and its entries. *)
Lemma find_key_wf i s : ini_wf i ->
  match index_of s (names_ i) with
  | Some n => exists k, keys_ i !! n = Some k /\ key_wf k /\ ini_map i !! s = Some (key_map k)
  | None => ini_map i !! s = None
  end.
Proof.
  intros (Hl & Hnd & Hf). unfold ini_map. rewrite lookup_fmap, zmap_lookup by done.
  destruct (index_of s (names_ i)) as [n|] eqn:Hi; simpl; [|done].
  apply index_of_lt in Hi. rewrite Hl in Hi.
  destruct (lookup_lt_is_Some_2 _ _ Hi) as [k Hk]. exists k. rewrite Hk.
  split_and!; [done| |done]. rewrite Forall_lookup in Hf. eauto.
Qed.

Lemma ini_order_lookup i s : ini_wf i ->
  ini_order i !! s = (a ← index_of s (names_ i); k ← keys_ i !! a; Some (names k)).
Proof.
  intros (Hl & _). unfold ini_order. rewrite lookup_fmap, zmap_lookup by done.
  destruct (index_of s (names_ i)) as [a|]; simpl; [|done]. by destruct (keys_ i !! a).
Qed.

Lemma find_val_wf k n : key_wf k ->
  match index_of n (names k) with
  | Some j => exists v, values k !! j = Some v /\ key_map k !! n = Some v
  | None => key_map k !! n = None
  end.
Proof.
  intros (Hl & Hnd). unfold key_map. rewrite zmap_lookup by done.
  destruct (index_of n (names k)) as [j|] eqn:Hj; simpl; [|done].
  apply index_of_lt in Hj. rewrite Hl in Hj.
  destruct (lookup_lt_is_Some_2 _ _ Hj) as [v Hv]. exists v. by rewrite Hv.
Qed.

Lemma ini_map_update i n s k k' : ini_wf i -> key_wf k' ->
  index_of s (names_ i) = Some n -> keys_ i !! n = Some k ->
  let i' := Ini (m_path i) (<[n := k']> (keys_ i)) (names_ i) (error i) in
  ini_wf i' /\ ini_map i' = <[s := key_map k']> (ini_map i) /\
  ini_order i' = <[s := names k']> (ini_order i).
Proof.
  intros (Hl & Hnd & Hf) Hk' Hn Hk i'. split.
  - split_and!; simpl; [by rewrite length_insert|done|by apply Forall_insert].
  - unfold ini_map, ini_order, i'. simpl. by rewrite (zmap_update _ _ s), !fmap_insert.
Qed.

Definition same_data (i i' : inifile) : Prop := keys_ i' = keys_ i /\ names_ i' = names_ i.

Lemma same_data_wf i i' : same_data i i' -> ini_wf i -> ini_wf i' /\ ini_abs i' = ini_abs i.
Proof. unfold ini_wf, ini_abs, ini_map, ini_order. by intros [-> ->]. Qed.

Lemma find_value_key i a k n : keys_ i !! a = Some k ->
  find_value (Z.of_nat a) n i = Ok (to_int (index_of n (names k))).
Proof.
  intros Hk. unfold find_value. rewrite (proj2 (Z.ltb_ge _ _)) by lia.
  by rewrite (at_of_nat _ _ k).
Qed.

Lemma try_get_string_spec i s n : ini_wf i ->
  try_get_string s n i = Ok (cfg_get (ini_map i) s n).
Proof.
  intros Hwf. unfold try_get_string, find_key, cfg_get. rewrite to_int_neg.
  pose proof (find_key_wf i s Hwf) as Hs.
  destruct (index_of s (names_ i)) as [a|]; [|by rewrite Hs].
  destruct Hs as (k & Hk & Hkwf & ->). simpl to_int.
  rewrite bool_decide_false, (find_value_key _ _ k) by done.
  unfold mbind at 1, outcome_bind at 1. rewrite to_int_neg.
  pose proof (find_val_wf k n Hkwf) as Hn.
  destruct (index_of n (names k)) as [j|]; simpl mbind; [|by rewrite Hn].
  destruct Hn as (v & Hv & ->). rewrite bool_decide_false by done. simpl to_int.
  rewrite (at_of_nat _ _ k) by done. unfold mbind, outcome_bind. by rewrite (at_of_nat _ _ v).
Qed.

Lemma get_value_spec i s n : ini_wf i ->
  exists i', get_value s n i = Ok (default [] (cfg_get (ini_map i) s n), i') /\
    same_data i i' /\ (is_Some (cfg_get (ini_map i) s n) -> i' = i).
Proof.
  intros Hwf. unfold get_value, find_key, cfg_get.
  pose proof (find_key_wf i s Hwf) as Hs.
  destruct (index_of s (names_ i)) as [a|].
  2:{ simpl. rewrite Hs. eexists. split_and!; [reflexivity|done|]. by intros [? ?]. }
  destruct Hs as (k & Hk & Hkwf & ->). simpl to_int.
  rewrite (find_value_key _ _ k) by done. unfold mbind at 1, outcome_bind at 1.
  rewrite (proj2 (Z.eqb_neq _ _)) by lia. rewrite to_int_none.
  pose proof (find_val_wf k n Hkwf) as Hn.
  destruct (index_of n (names k)) as [j|]; simpl mbind.
  - destruct Hn as (v & Hv & ->). rewrite bool_decide_false by done. simpl to_int.
    exists i. rewrite (at_of_nat _ _ k) by done. unfold mbind, outcome_bind.
    by rewrite (at_of_nat _ _ v).
  - rewrite Hn. eexists. split_and!; [reflexivity|done|]. by intros [? ?].
Qed.

Lemma get_values_loop_spec i s k ns m : ini_wf i -> ini_map i !! s = Some (key_map k) ->
  (forall n, n ∈ ns -> is_Some (key_map k !! n)) ->
  exists m', get_values_loop s ns m i = Ok (m', i) /\
    forall x, m' !! x = if bool_decide (x ∈ ns) then key_map k !! x else m !! x.
Proof.
  intros Hwf Hs. revert m. induction ns as [|n ns IH]; intros m Hns; simpl.
  { by exists m. }
  destruct (get_value_spec i s n Hwf) as (i' & Hg & _ & Hi').
  unfold cfg_get in Hg, Hi'. rewrite Hs in Hg, Hi'. simpl in Hg, Hi'.
  destruct (Hns n) as [v Hv]; [set_solver|]. rewrite Hv in Hg, Hi'.
  rewrite Hi' in Hg by eauto. simpl in Hg.
  destruct (IH (<[n := v]> m)) as (m' & Hl & Hm'); [set_solver|].
  exists m'. unfold mbind, outcome_bind. rewrite Hg. split; [done|]. intros x.
  rewrite Hm'. destruct (decide (x ∈ ns)) as [Hx|Hx].
  - rewrite !bool_decide_true; [done|set_solver..].
  - rewrite bool_decide_false by done. destruct (decide (x = n)) as [->|Hne].
    + rewrite lookup_insert_eq, bool_decide_true; [done|set_solver].
    + rewrite lookup_insert_ne, bool_decide_false; [done|set_solver|done].
Qed.

Lemma get_values_spec i s : ini_wf i -> get_values s i = Ok (ini_map i !! s, i).
Proof.
  intros Hwf. unfold get_values, find_key. rewrite to_int_none.
  pose proof (find_key_wf i s Hwf) as Hs.
  destruct (index_of s (names_ i)) as [a|]; [|by rewrite Hs].
  destruct Hs as (k & Hk & Hkwf & Hs). rewrite Hs, bool_decide_false by done. simpl to_int.
  rewrite (at_of_nat _ _ k) by done. unfold mbind, outcome_bind.
  destruct (get_values_loop_spec i s k (names k) ∅ Hwf Hs) as (m & -> & Hm).
  - intros n Hn. pose proof (find_val_wf k n Hkwf) as Hv.
    destruct (index_of n (names k)) eqn:Hi; [naive_solver|]. by apply index_of_None in Hi.
  - do 3 f_equal. apply map_eq. intros x. rewrite Hm. case_bool_decide as Hx; [done|].
    pose proof (find_val_wf k x Hkwf) as Hv. apply index_of_None in Hx. by rewrite Hx in Hv.
Qed.

(** ** Updates *)
Lemma key_wf_update k j n v : key_wf k -> index_of n (names k) = Some j ->
  let k' := MkKey (<[j := v]> (values k)) (names k) in
  key_wf k' /\ key_map k' = <[n := v]> (key_map k).
Proof.
  intros (Hl & Hnd) Hj k'. split; [split; simpl; [by rewrite length_insert|done]|].
  unfold key_map, k'. simpl. by rewrite (zmap_update _ _ n).
Qed.

Lemma key_wf_push k n v : key_wf k -> index_of n (names k) = None ->
  let k' := MkKey (values k ++ [v]) (names k ++ [n]) in
  key_wf k' /\ key_map k' = <[n := v]> (key_map k).
Proof.
  intros (Hl & Hnd) Hn%index_of_None k'. split.
  - split; simpl; [rewrite !length_app; simpl; lia|by apply NoDup_snoc].
  - unfold key_map, k'. simpl. by rewrite zmap_snoc.
Qed.

Lemma set_value_at_ok i a k j v : keys_ i !! a = Some k -> (j < length (values k))%nat ->
  set_value_at (Z.of_nat a) (Z.of_nat j) v i =
  Ok (Ini (m_path i) (<[a := MkKey (<[j := v]> (values k)) (names k)]> (keys_ i))
       (names_ i) (error i)).
Proof.
  intros Hk [w Hw]%lookup_lt_is_Some_2. unfold set_value_at.
  rewrite (at_of_nat _ _ k) by done. unfold mbind, outcome_bind.
  rewrite (at_of_nat _ _ w) by done. by rewrite !Nat2Z.id.
Qed.

Lemma set_entry_spec i s a k n v create : ini_wf i ->
  index_of s (names_ i) = Some a -> keys_ i !! a = Some k ->
  if bool_decide (key_map k !! n = None) && negb create
  then set_entry (Z.of_nat a) n v create i = Ok (false, i)
  else exists i', set_entry (Z.of_nat a) n v create i = Ok (true, i') /\ ini_wf i' /\
         ini_map i' = <[s := <[n := v]> (key_map k)]> (ini_map i) /\
         ini_order i' = <[s := order_add n (names k)]> (ini_order i).
Proof.
  intros Hwf Hs Hk. unfold set_entry. rewrite (find_value_key _ _ k) by done.
  unfold mbind, outcome_bind. rewrite !to_int_none.
  assert (key_wf k) as Hkwf by (destruct Hwf as (_ & _ & Hf); rewrite Forall_lookup in Hf; eauto).
  pose proof (find_val_wf k n Hkwf) as Hn. destruct (index_of n (names k)) as [j|] eqn:Hj.
  - destruct Hn as (w & Hw & Hm). rewrite Hm, !bool_decide_false by done. simpl to_int.
    cbn [andb].
    rewrite (set_value_at_ok i a k) by (done || by eapply lookup_lt_Some).
    destruct (key_wf_update k j n v Hkwf Hj) as [Hkwf' <-].
    unfold order_add. rewrite bool_decide_true by (by eapply list_elem_of_lookup_2, index_of_lookup).
    eexists. split; [reflexivity|]. by apply (ini_map_update i a s k (MkKey (<[j := v]> (values k)) (names k))).
  - rewrite Hn, !bool_decide_true by done. cbn [andb]. destruct create; [|done]. cbn [negb].
    unfold push_name, mbind, outcome_bind. rewrite (at_of_nat _ _ k), Nat2Z.id by done.
    assert (a < length (keys_ i))%nat as Ha by by eapply lookup_lt_Some.
    cbn [keys_]. rewrite (at_of_nat _ _ (MkKey (values k ++ [[]]) (names k ++ [n])))
      by by apply list_lookup_insert_eq.
    destruct Hkwf as [Hl Hnd]. cbn [names].
    replace (Z.of_nat (length (names k ++ [n])) - 1)%Z with (Z.of_nat (length (values k)))
      by (rewrite length_app; simpl; lia).
    rewrite (set_value_at_ok _ a (MkKey (values k ++ [[]]) (names k ++ [n])))
      by (simpl; try apply list_lookup_insert_eq; rewrite ?length_app; simpl; done || lia).
    cbn [m_path keys_ names_ error values names]. rewrite list_insert_insert_eq.
    replace (<[length (values k) := v]> (values k ++ [[]])) with (values k ++ [v])
      by (rewrite insert_app_r_alt, Nat.sub_diag by lia; done).
    destruct (key_wf_push k n v (conj Hl Hnd) Hj) as [Hkwf' <-].
    unfold order_add. rewrite bool_decide_false by (by apply index_of_None).
    eexists. split; [reflexivity|]. by apply (ini_map_update i a s k (MkKey (values k ++ [v]) (names k ++ [n]))).
Qed.

Lemma push_section_spec i s : ini_wf i -> index_of s (names_ i) = None ->
  let i1 := Ini (m_path i) (keys_ i ++ [MkKey [] []]) (names_ i ++ [s]) (error i) in
  ini_wf i1 /\ ini_map i1 = <[s := ∅]> (ini_map i) /\ ini_order i1 = <[s := []]> (ini_order i) /\
  index_of s (names_ i1) = Some (length (names_ i)) /\
  keys_ i1 !! length (names_ i) = Some (MkKey [] []).
Proof.
  intros (Hl & Hnd & Hf) Hs i1. split_and!; simpl.
  - split_and!; simpl; [rewrite !length_app; simpl; lia| |].
    + apply NoDup_snoc. by rewrite <-index_of_None.
    + apply Forall_app; split; [done|]. apply Forall_singleton. split; [done|apply NoDup_nil_2].
  - unfold ini_map, i1. simpl. apply index_of_None in Hs. by rewrite zmap_snoc, fmap_insert.
  - unfold ini_order, i1. simpl. apply index_of_None in Hs. by rewrite zmap_snoc, fmap_insert.
  - by rewrite index_of_snoc, Hs, bool_decide_true.
  - rewrite Hl, lookup_app_r, Nat.sub_diag by lia. done.
Qed.

Lemma set_value_spec i s n v create : ini_wf i ->
  exists i', set_value s n v create i =
      Ok (create || bool_decide (is_Some (cfg_get (ini_map i) s n)), i') /\ ini_wf i' /\
    ini_abs i' = if create || bool_decide (is_Some (cfg_get (ini_map i) s n))
                 then (cfg_put (ini_map i) s n v, order_put (ini_order i) s n) else ini_abs i.
Proof.
  intros Hwf. unfold set_value, find_key, cfg_get, cfg_put, order_put, ini_abs. rewrite to_int_none.
  pose proof (ini_order_lookup i s Hwf) as Hod.
  pose proof (find_key_wf i s Hwf) as Hs. destruct (index_of s (names_ i)) as [a|] eqn:Ha.
  - destruct Hs as (k & Hk & _ & Hm). rewrite Hm, bool_decide_false by done. simpl in *.
    rewrite Hk in Hod. rewrite Hod. simpl.
    pose proof (set_entry_spec i s a k n v create Hwf Ha Hk) as He.
    destruct (key_map k !! n) eqn:Hn; simpl in *.
    + destruct He as (i' & He & Hwf' & Hmap & Hord).
      exists i'. rewrite He, Hmap, Hord. by rewrite orb_true_r.
    + destruct create; simpl in *; [|exists i; by rewrite He].
      destruct He as (i' & He & Hwf' & Hmap & Hord). exists i'. by rewrite He, Hmap, Hord.
  - rewrite Hs, Hod. simpl. destruct create; simpl; [|by exists i].
    destruct (push_section_spec i s Hwf Ha) as (Hwf1 & Hm1 & Ho1 & Ha1 & Hk1).
    replace (Z.of_nat (length (names_ i ++ [s])) - 1)%Z with (Z.of_nat (length (names_ i)))
      by (rewrite length_app; simpl; lia).
    pose proof (set_entry_spec _ s _ _ n v true Hwf1 Ha1 Hk1) as He.
    rewrite andb_false_r in He. destruct He as (i' & He & Hwf' & Hmap & Hord).
    exists i'. rewrite He, Hmap, Hord, Hm1, Ho1, !insert_insert_eq. by split_and!.
Qed.

Lemma filter_absent (ns : list str) (n : str) : n ∉ ns -> filter (.≠ n) ns = ns.
Proof.
  induction ns as [|x ns IH]; intros Hn; [done|]. apply not_elem_of_cons in Hn as [Hx Hn].
  rewrite filter_cons_True by done. by rewrite IH.
Qed.

Lemma filter_index_of (ns : list str) n j : NoDup ns -> index_of n ns = Some j -> filter (.≠ n) ns = delete j ns.
Proof.
  revert j. induction ns as [|x ns IH]; intros j Hnd Hj; simpl in *; [done|].
  apply NoDup_cons in Hnd as [Hx Hnd]. rewrite filter_cons. case_bool_decide as Hxn; simplify_eq/=.
  - rewrite decide_False by (by intros []). by apply filter_absent.
  - rewrite decide_True by done. destruct (index_of n ns) as [j'|] eqn:Hj'; simplify_eq/=.
    f_equal. by apply IH.
Qed.

Lemma delete_value_spec i s n : ini_wf i ->
  exists b i', delete_value s n i = Ok (b, i') /\ ini_wf i' /\
    sexec (IDelValue s n) (ini_abs i) = (RBool b, ini_abs i').
Proof.
  intros Hwf. unfold delete_value, find_key. simpl. unfold cfg_get. rewrite to_int_none.
  pose proof (ini_order_lookup i s Hwf) as Hod.
  pose proof (find_key_wf i s Hwf) as Hs. destruct (index_of s (names_ i)) as [a|] eqn:Ha.
  2:{ rewrite Hs. simpl. by exists false, i. }
  destruct Hs as (k & Hk & Hkwf & Hm). rewrite Hm. simpl in Hod. rewrite Hk in Hod. simpl to_int.
  rewrite (find_value_key _ _ k) by done. unfold mbind, outcome_bind, option_bind.
  rewrite (bool_decide_false (Some a = None)) by done. cbn [orb]. rewrite to_int_none.
  pose proof (find_val_wf k n Hkwf) as Hn. destruct (index_of n (names k)) as [j|] eqn:Hj.
  - destruct Hn as (v & Hv & ->). rewrite bool_decide_false by done. simpl to_int.
    rewrite (at_of_nat _ _ k), !Nat2Z.id by done.
    destruct Hkwf as [Hl Hnd].
    destruct (ini_map_update i a s k (MkKey (delete j (values k)) (delete j (names k))) Hwf)
      as (Hwf' & Hmap & Hord); try done.
    { split; simpl; [|by apply NoDup_delete].
      rewrite !length_delete; [lia|by eexists|]. apply index_of_lookup in Hj. by eexists. }
    eexists _, _. split_and!; [reflexivity|done|]. unfold ini_abs. rewrite Hmap, Hord, Hod. simpl. do 3 f_equal.
    + unfold key_map. simpl. by rewrite (zmap_delete _ _ n).
    + by apply filter_index_of.
  - rewrite Hn. by exists false, i.
Qed.

Lemma delete_key_spec i s : ini_wf i ->
  ini_wf (delete_key s i).2 /\
  sexec (IDelKey s) (ini_abs i) = (RBool (delete_key s i).1, ini_abs (delete_key s i).2).
Proof.
  intros Hwf. unfold delete_key, find_key. simpl. rewrite to_int_none.
  pose proof (find_key_wf i s Hwf) as Hs. destruct (index_of s (names_ i)) as [a|] eqn:Ha.
  - destruct Hs as (k & Hk & _ & ->). rewrite bool_decide_false by done. simpl.
    rewrite Nat2Z.id. destruct Hwf as (Hl & Hnd & Hf). split.
    + split_and!; simpl; [|by apply NoDup_delete|by apply Forall_delete].
      rewrite !length_delete; [lia|by eexists|]. apply index_of_lookup in Ha. by eexists.
    + f_equal. unfold ini_abs, ini_map, ini_order. simpl. by rewrite (zmap_delete _ _ s), !fmap_delete.
  - by rewrite Hs.
Qed.

Lemma get_value_at_spec i s j : ini_wf i ->
  get_value_at s j i =
    Ok (n ← order_at (ini_order i) s j; v ← cfg_get (ini_map i) s n; Some (n, v), i).
Proof.
  intros Hwf. unfold get_value_at, find_key, order_at. rewrite to_int_none.
  pose proof (ini_order_lookup i s Hwf) as Hod. pose proof (find_key_wf i s Hwf) as Hs.
  destruct (index_of s (names_ i)) as [a|]; [|by rewrite Hod].
  destruct Hs as (k & Hk & Hkwf & Hm). simpl in Hod. rewrite Hk in Hod. rewrite Hod. simpl.
  rewrite (at_of_nat _ _ k) by done. unfold mbind, outcome_bind, option_bind.
  destruct (Z.ltb_spec j 0) as [Hneg|Hpos]; [done|]. simpl.
  destruct (Z.leb_spec (Z.of_nat (length (names k))) j) as [Hbig|Hsmall].
  { by rewrite lookup_ge_None_2 by lia. }
  destruct (lookup_lt_is_Some_2 (names k) (Z.to_nat j)) as [n Hn]; [lia|]. rewrite Hn.
  replace j with (Z.of_nat (Z.to_nat j)) at 1 by lia. rewrite (at_of_nat _ _ n) by done.
  destruct (get_value_spec i s n Hwf) as (i' & Hg & _ & Hi'). unfold cfg_get in *.
  pose proof (find_val_wf k n Hkwf) as Hv.
  destruct (index_of n (names k)) as [j'|] eqn:Hj.
  - destruct Hv as (v & _ & Hv). rewrite Hm in *. simpl in *. rewrite Hv in *. simpl in *.
    rewrite Hg. by rewrite (Hi' ltac:(eauto)).
  - apply index_of_None in Hj. destruct Hj. by eapply list_elem_of_lookup_2.
Qed.

Lemma iexec_refines o i : ini_wf i ->
  exists r i', iexec o i = Ok (r, i') /\ ini_wf i' /\ sexec o (ini_abs i) = (r, ini_abs i').
Proof.
  intros Hwf. destruct o as [s n v c|s n|s j|s n|s|s| |s|s n|s|]; simpl.
  - destruct (set_value_spec i s n v c Hwf) as (i' & He & Hwf' & Hm).
    eexists _, i'. unfold mbind, outcome_bind. rewrite He. split_and!; [done..|]. rewrite Hm.
    by destruct (c || _).
  - destruct (get_value_spec i s n Hwf) as (i' & He & Hd & _).
    destruct (same_data_wf i i' Hd Hwf) as [Hwf' Hm].
    eexists _, i'. unfold mbind, outcome_bind. rewrite He, Hm. done.
  - eexists _, i. rewrite get_value_at_spec by done. done.
  - eexists _, i. rewrite try_get_string_spec by done. done.
  - eexists _, i. rewrite get_values_spec by done. done.
  - eexists _, i. split_and!; [done..|]. unfold is_key, find_key. rewrite to_int_none.
    pose proof (find_key_wf i s Hwf) as Hs. destruct (index_of s (names_ i)); [|by rewrite Hs].
    by destruct Hs as (k & _ & _ & ->).
  - eexists _, i. split_and!; [done..|]. unfold num_keys, ini_map.
    destruct Hwf as (Hl & Hnd & _). by rewrite map_size_fmap, zmap_size, Hl.
  - unfold num_values, find_key. rewrite to_int_none.
    pose proof (find_key_wf i s Hwf) as Hs. destruct (index_of s (names_ i)) as [a|].
    + destruct Hs as (k & Hk & (Hl & Hnd) & ->). simpl to_int. eexists _, i.
      rewrite bool_decide_false, (at_of_nat _ _ k) by done. split_and!; [done..|].
      unfold key_map. by rewrite zmap_size.
    + rewrite Hs. by eexists _, i.
  - destruct (delete_value_spec i s n Hwf) as (b & i' & He & Hwf' & Hs).
    eexists _, i'. unfold mbind, outcome_bind. by rewrite He.
  - destruct (delete_key_spec i s Hwf) as [Hwf' Hs].
    destruct (delete_key s i) as [b i']. by eexists _, i'.
  - eexists _, _. split_and!; [done| |done].
    split_and!; simpl; [done|apply NoDup_nil_2|done].
Qed.

Fixpoint irun (ops : list iop) (i : inifile) : outcome (list iret * inifile) :=
  match ops with
  | [] => Ok ([], i)
  | o :: ops => '(r, i') ← iexec o i; '(rs, i'') ← irun ops i'; Ok (r :: rs, i'')
  end.
Fixpoint srun (ops : list iop) (m : cfg * gmap str (list str)) : list iret * (cfg * gmap str (list str)) :=
  match ops with
  | [] => ([], m)
  | o :: ops => let '(r, m') := sexec o m in let '(rs, m'') := srun ops m' in (r :: rs, m'')
  end.

Lemma new_wf p : ini_wf (IniFile_new p) /\ ini_abs (IniFile_new p) = (∅, ∅).
Proof. split; [|done]. split_and!; simpl; [done|apply NoDup_nil_2|done]. Qed.

(** ** Properties *)

(** C9: [IniFile] implements a map of maps.  Any sequence of calls on a new
    object ([set_value] with and without [create], [get_value] by name and by
    position, [try_get_string], [get_values], [is_key], the counts,
    [delete_value], [delete_key], [reset]) never indexes a vector out of range and
    returns exactly what the same operations return on a finite map of finite maps
    with, for each section, the names in the order they were first set; at the end
    the vectors are parallel, free of duplicates, and represent that map and order. *)
Theorem ini_refines_map (p : str) (ops : list iop) :
  exists i, irun ops (IniFile_new p) = Ok ((srun ops (∅, ∅)).1, i) /\
    ini_wf i /\ ini_abs i = (srun ops (∅, ∅)).2.
Proof.
  destruct (new_wf p) as [Hwf Hm]. rewrite <-Hm. clear Hm. revert Hwf.
  generalize (IniFile_new p). induction ops as [|o ops IH]; intros i Hwf; cbn [irun srun].
  { by exists i. }
  destruct (iexec_refines o i Hwf) as (r & i1 & He & Hwf1 & Hs).
  destruct (IH i1 Hwf1) as (i2 & He2 & Hwf2 & Hm2).
  exists i2. unfold mbind, outcome_bind. rewrite He, He2, Hs.
  by destruct (srun ops (ini_abs i1)).
Qed.

Lemma find_if_head p c s : p c = true -> find_if p (c :: s) = Some 0%nat.
Proof. simpl. by intros ->. Qed.

Lemma find_last_none q s : Forall (fun c => q c = true) s -> find_last_not_of q s = None.
Proof. induction 1 as [|c s Hc _ IH]; simpl; [done|]. by rewrite IH, Hc. Qed.

Lemma find_last_app q s c t : q c = false -> Forall (fun c => q c = true) t ->
  find_last_not_of q (s ++ c :: t) = Some (length s).
Proof.
  intros Hc Ht. induction s as [|d s IH]; simpl; [|by rewrite IH].
  by rewrite find_last_none, Hc.
Qed.

(** A string with no blanks at its ends is left alone. *)
Lemma trim_id s c d : head s = Some c -> last s = Some d -> ws c = false -> ws d = false ->
  trim s = s.
Proof.
  intros Hh Hd Hc Hw. apply last_Some in Hd as [l ->]. unfold trim.
  assert (find_first_not_of ws (l ++ [d]) = Some 0%nat) as ->.
  { destruct l; simplify_eq/=; unfold find_first_not_of; apply find_if_head; by rewrite Hc. }
  rewrite (find_last_app ws l d []) by done.
  rewrite drop_0, take_ge; [done|]. rewrite length_app. simpl. lia.
Qed.

Lemma ws_print c : isdigit c = true \/ c = "-"%char -> ws c = false.
Proof.
  intros [H| ->]; [|done]. apply isdigit_code in H. unfold ws.
  assert (forall d, code d < 48 -> ceq c d = false)%Z as Hd
    by (intros d Hd; apply ceq_false; intros ->; lia).
  by rewrite !Hd.
Qed.

Lemma trim_print z : in_s32 z -> trim (print_int z) = print_int z /\ print_int z <> [].
Proof.
  intros Hz. destruct (print_int_chars z Hz) as [Hf Hne]. split; [|done].
  destruct (print_int z) as [|c s] eqn:Hp; [done|].
  destruct (last (c :: s)) as [d|] eqn:Hl; [|by apply last_None in Hl].
  rewrite Forall_forall in Hf.
  apply (trim_id _ c d); [done|done|apply ws_print, Hf..].
  - set_solver.
  - apply last_Some in Hl as [l' ->]. set_solver.
Qed.

(** What [set_value] stores is in the map. *)
Lemma set_value_stored i s n v : ini_wf i -> exists i', set_value s n v true i = Ok (true, i') /\
  ini_wf i' /\ cfg_get (ini_map i') s n = Some v.
Proof.
  intros Hwf. destruct (set_value_spec i s n v true Hwf) as (i' & He & Hwf' & Hm).
  simpl in He, Hm. injection Hm as Hm _. exists i'. split_and!; [done|done|].
  rewrite Hm. unfold cfg_get, cfg_put. rewrite lookup_insert_eq. simpl. by rewrite lookup_insert_eq.
Qed.

Lemma get_value_stored i s n v : ini_wf i -> cfg_get (ini_map i) s n = Some v -> get_value s n i = Ok (v, i).
Proof.
  intros Hwf Hg. destruct (get_value_spec i s n Hwf) as (i' & Hv & _ & Hsame).
  rewrite Hg in Hv, Hsame. by rewrite (Hsame ltac:(eauto)) in Hv.
Qed.

(** Integers survive storing.  What [set_value_i] stores, [get_value_i],
    [try_get_int] and [get_int_or] read back, for every 32-bit integer. *)
Theorem ini_int_roundtrip i s n z d : ini_wf i -> in_s32 z ->
  exists i', set_value_i s n z true i = Ok (true, i') /\
    get_value_i s n i' = Ok (z, i') /\ try_get_int s n i' = Ok (Some z) /\
    get_int_or s n d i' = Ok z.
Proof.
  intros Hwf Hz. destruct (set_value_stored i s n (print_int z) Hwf) as (i' & He & Hwf' & Hg).
  assert (try_get_int s n i' = Ok (Some z)) as Ht.
  { unfold try_get_int. rewrite try_get_string_spec, Hg by done. simpl.
    unfold parse_whole_int. destruct (trim_print z Hz) as [-> Hne].
    destruct (print_int z) as [|c t] eqn:Hp; [done|]. rewrite <-Hp.
    by rewrite stoi_print, bool_decide_true. }
  exists i'. split_and!; [done| |done|].
  - unfold get_value_i, mbind, outcome_bind. rewrite (get_value_stored i' s n (print_int z)) by done.
    by rewrite atoi_print.
  - unfold get_int_or, mbind, outcome_bind. by rewrite Ht.
Qed.

Lemma ini_int_roundtrip_witness :
  exists i', set_value_i (chars "server") (chars "port") (-2147483648) true
                (IniFile_new (chars "a.ini")) = Ok (true, i') /\
    get_value_i (chars "server") (chars "port") i' = Ok ((-2147483648)%Z, i') /\
    try_get_int (chars "server") (chars "port") i' = Ok (Some (-2147483648)%Z) /\
    get_int_or (chars "server") (chars "port") 9100 i' = Ok (-2147483648)%Z.
Proof.
  apply (ini_int_roundtrip (IniFile_new (chars "a.ini")) (chars "server") (chars "port")
           (-2147483648) 9100).
  - apply new_wf.
  - unfold in_s32, INT32_MIN, INT32_MAX. lia.
Defined.

(** A double comes back as the one its text denotes: [stod] reads the whole of
    ["%e"], as the value [rd d], and so does [atof]. *)
Lemma ini_double_roundtrip {double} atof stod (print_e : double -> str) (rd : double -> double) i s n z d :
  ini_wf i -> (length (print_e z) <= 63)%nat -> Forall (fun c => c <> NUL) (print_e z) ->
  trim (print_e z) = print_e z -> print_e z <> [] ->
  stod (print_e z) = Some (rd z, length (print_e z)) -> atof (print_e z) = rd z ->
  exists i', set_value_f print_e s n z true i = Ok (true, i') /\
    get_value_f atof s n i' = Ok (rd z, i') /\ try_get_double stod s n i' = Ok (Some (rd z)) /\
    get_double_or stod s n d i' = Ok (rd z).
Proof.
  intros Hwf Hlen Hnul Htrim Hne Hstod Hatof.
  destruct (set_value_stored i s n (print_e z) Hwf) as (i' & He & Hwf' & Hg).
  assert (try_get_double stod s n i' = Ok (Some (rd z))) as Ht.
  { unfold try_get_double. rewrite try_get_string_spec, Hg by done. simpl.
    unfold parse_whole_double. rewrite Htrim. destruct (print_e z) as [|c t] eqn:Hp; [done|].
    by rewrite Hstod, bool_decide_true. }
  exists i'. split_and!; [| |done|].
  - unfold set_value_f. by rewrite take_ge.
  - unfold get_value_f, mbind, outcome_bind. rewrite (get_value_stored i' s n (print_e z)) by done.
    by rewrite cstr_id, Hatof.
  - unfold get_double_or, mbind, outcome_bind. by rewrite Ht.
Qed.

(** The boolean accessors.  [get<bool>] and [get_bool_or] agree (the
    default stands for the missing, empty or unknown literal), and a literal
    counts as true or false exactly when its lower-case form is in one of two
    fixed lists, which are disjoint and include ["y"] and ["n"]. *)
Theorem ini_bool_accessors i s n d : ini_wf i ->
  let t := trim (default [] (cfg_get (ini_map i) s n)) in
  let yes := map chars ["1"; "true"; "yes"; "on"; "y"]%string in
  let no := map chars ["0"; "false"; "no"; "off"; "n"]%string in
  exists b, get_bool s n i = Ok b /\ get_bool_or s n d i = Ok (default d b) /\
    (b = Some true <-> lower t ∈ yes) /\ (b = Some false <-> lower t ∈ no).
Proof.
  intros Hwf t yes no. unfold get_bool, get_bool_or. rewrite try_get_string_spec by done.
  unfold mbind, outcome_bind.
  assert (forall l, l ∈ yes -> l ∉ no) as Hdisj by (unfold yes, no; simpl; set_solver).
  assert ([] ∉ yes /\ [] ∉ no) as [Hny Hnn] by (unfold yes, no; simpl; set_solver).
  subst t. destruct (cfg_get (ini_map i) s n) as [v|]; simpl.
  2:{ exists None. split_and!; [done|done|split; done..]. }
  unfold is_truthy, is_explicitly_false, parse_bool. fold yes no.
  destruct (trim v) as [|c t] eqn:Ht.
  { exists None. split_and!; [done|done|split; done..]. }
  rewrite <-Ht. destruct (bool_decide_reflect (lower (trim v) ∈ yes)) as [Hy|Hy].
  { exists (Some true). split_and!; [done|done|done|]. split; [done|].
    intros Hn. by destruct (Hdisj _ Hy). }
  destruct (bool_decide_reflect (lower (trim v) ∈ no)) as [Hn|Hn].
  - by exists (Some false).
  - exists None. by split_and!.
Qed.

Definition demo_ini : inifile :=
  Ini [] [MkKey [chars "Yes"] [chars "n"]] [chars "s"] [].

Lemma demo_ini_wf : ini_wf demo_ini.
Proof.
  split_and!; simpl; [done|apply NoDup_singleton|].
  apply Forall_singleton. split; [done|apply NoDup_singleton].
Qed.

Lemma ini_bool_accessors_witness :
  exists b, get_bool (chars "s") (chars "n") demo_ini = Ok b /\
    get_bool_or (chars "s") (chars "n") false demo_ini = Ok (default false b) /\
    (b = Some true <-> lower (trim (chars "Yes")) ∈ map chars ["1"; "true"; "yes"; "on"; "y"]%string) /\
    (b = Some false <-> lower (trim (chars "Yes")) ∈ map chars ["0"; "false"; "no"; "off"; "n"]%string).
Proof.
  apply (ini_bool_accessors demo_ini (chars "s") (chars "n") false). apply demo_ini_wf.
Defined.
