(* ===== verification/IniText.v ===== *)
(** * [IniFile::write_file] and [read_file] are inverse on clean configurations

    A configuration is clean when its names and values contain none of the
    characters the text format gives a meaning and fit a line of the
    reader's 2048-byte buffer. *)

From S2P Require Import Prelude Text Ini IniMap.

(** ** Clean names and values *)
Definition no_chars (l : list ascii) (s : str) : Prop := Forall (fun c => c ∉ l) s.
Definition bare (c : ascii) (s : str) : Prop := head s <> Some c /\ last s <> Some c.

Definition clean_section (s : str) : Prop :=
  no_chars [NUL; LF] s /\ bare " " s /\ (length s <= 2044)%nat.
Definition clean_entry (n v : str) : Prop :=
  n <> [] /\ no_chars [NUL; LF; "="%char] n /\ bare " " n /\
  head n <> Some "#"%char /\ head n <> Some "["%char /\
  no_chars [NUL; LF; "#"%char] v /\ bare " " v /\ last v <> Some CR /\
  (Nat.max 10 (length n) + length v <= 2043)%nat.
Definition clean_key (k : Key) : Prop := Forall2 clean_entry (names k) (values k).
Definition clean (i : inifile) : Prop :=
  Forall clean_section (names_ i) /\ Forall clean_key (keys_ i).

(** The sections [write_file] writes: those with entries. *)
Fixpoint kept (ns : list str) (ks : list Key) : list str * list Key :=
  match ns, ks with
  | n :: ns, k :: ks =>
      let '(ns', ks') := kept ns ks in
      match names k with [] => (ns', ks') | _ => (n :: ns', k :: ks') end
  | _, _ => ([], [])
  end.

(** ** String lemmas *)
Lemma find_if_none p s : Forall (fun c => p c = false) s -> find_if p s = None.
Proof. induction 1 as [|c s Hc _ IH]; simpl; [done|]. by rewrite Hc, IH. Qed.

Lemma find_if_app p s c t : Forall (fun c => p c = false) s -> p c = true ->
  find_if p (s ++ c :: t) = Some (length s).
Proof.
  intros Hs Hc. induction Hs as [|d s Hd _ IH]; simpl; [by rewrite Hc|]. by rewrite Hd, IH.
Qed.

Lemma TrimRight_pad c s k : last s <> Some c -> TrimRight c (s ++ replicate k c) = s.
Proof.
  intros Hl. unfold TrimRight.
  assert (Forall (fun d => ceq c d = true) (replicate k c)) as Hr
    by (apply Forall_replicate; apply ceq_refl).
  destruct (last s) as [d|] eqn:Hd.
  - apply last_Some in Hd as [s' ->]. rewrite <-app_assoc. simpl.
    rewrite find_last_app by (try (apply ceq_false; congruence); done).
    change (s' ++ d :: replicate k c) with (s' ++ [d] ++ replicate k c).
    rewrite app_assoc, take_app_length'; [done|]. rewrite length_app. done.
  - apply last_None in Hd as ->. by rewrite find_last_none.
Qed.

Lemma TrimRight_id c s : last s <> Some c -> TrimRight c s = s.
Proof. intros H. rewrite <-(app_nil_r s) at 1. by apply (TrimRight_pad c s 0). Qed.

Lemma TrimLeft_pad c s k : head s <> Some c -> TrimLeft c (replicate k c ++ s) = s.
Proof.
  intros Hh. unfold TrimLeft, find_first_not_of.
  assert (Forall (fun d => negb (ceq c d) = false) (replicate k c)) as Hr
    by (apply Forall_replicate; by rewrite ceq_refl).
  destruct s as [|d s].
  - rewrite app_nil_r. by rewrite find_if_none.
  - rewrite find_if_app; [|done|].
    + by rewrite drop_app_length.
    + apply negb_true_iff, ceq_false. intros ->. by apply Hh.
Qed.

(** Padding on both sides is trimmed away. *)
Lemma Trim_pad c s j k : bare c s -> Trim c (replicate j c ++ s ++ replicate k c) = s.
Proof.
  intros [Hh Hl]. unfold Trim. destruct s as [|d s].
  - simpl. rewrite <-replicate_add. unfold TrimLeft, find_first_not_of.
    rewrite find_if_none; [done|]. apply Forall_replicate. by rewrite ceq_refl.
  - rewrite TrimLeft_pad by done. by apply TrimRight_pad.
Qed.

Lemma no_chars_neq l s c : no_chars l s -> c ∈ l -> Forall (fun d => ceq c d = false) s.
Proof.
  intros H Hc. eapply Forall_impl; [exact H|]. simpl. intros d Hd. apply ceq_false. congruence.
Qed.

Lemma no_chars_cstr l s : no_chars l s -> NUL ∈ l -> cstr s = s.
Proof.
  intros H Hn. apply cstr_id. eapply Forall_impl; [exact H|]. simpl. intros d Hd ->. done.
Qed.

Lemma no_chars_app l s t : no_chars l (s ++ t) <-> no_chars l s /\ no_chars l t.
Proof. apply Forall_app. Qed.

Lemma no_chars_weaken l l' s : no_chars l s -> l' ⊆ l -> no_chars l' s.
Proof. intros H Hl. eapply Forall_impl; [exact H|]. simpl. set_solver. Qed.

(** ** Lines *)
Lemma fgets_line l rest n : Forall (fun c => ceq c LF = false) l -> (length l < n)%nat ->
  fgets_go n (l ++ LF :: rest) = (l ++ [LF], rest).
Proof.
  revert n. induction l as [|c l IH]; intros [|n] Hl Hn; simpl in *; try lia; [done|].
  inversion_clear Hl as [|? ? Hc Hl']. rewrite Hc, IH by (done || lia). done.
Qed.

(** Reading a text takes the parser from one state to another. *)
Definition reads (text : str) (st st' : str * inifile) : Prop :=
  forall fuel, (length text < fuel)%nat -> read_loop fuel text st = Ok st'.

Lemma reads_nil st : reads [] st st.
Proof. intros [|fuel] Hf; [simpl in Hf; lia|]. done. Qed.

Lemma reads_line l rest st st1 st2 : no_chars [LF] l -> (length l <= 2046)%nat ->
  read_line (l ++ [LF]) st = Ok st1 -> reads rest st1 st2 ->
  reads (l ++ LF :: rest) st st2.
Proof.
  intros Hl Hlen Hr Hrest [|fuel] Hf; [lia|]. rewrite length_app in Hf. simpl in Hf.
  cbn [read_loop]. unfold fgets.
  replace (fgets_go (2048 - 1) (l ++ LF :: rest)) with (l ++ [LF], rest).
  - destruct (l ++ LF :: rest) eqn:He; [by destruct l|].
    unfold mbind, outcome_bind. rewrite Hr. apply Hrest. lia.
  - symmetry. apply fgets_line; [|lia]. eapply Forall_impl; [exact Hl|].
    simpl. intros c Hc. apply ceq_false. set_solver.
Qed.

(** What [read_line] makes of its buffer. *)
Lemma line_of l : no_chars [NUL; LF] l -> last l <> Some CR ->
  TrimRight CR (TrimRight LF (cstr (l ++ [LF]))) = l.
Proof.
  intros Hl Hcr. rewrite (no_chars_cstr [NUL]).
  - change [LF] with (replicate 1 LF). rewrite TrimRight_pad; [by apply TrimRight_id|].
    intros Hlast. apply last_Some in Hlast as [l' ->].
    apply no_chars_app in Hl as [_ Hl]. inversion_clear Hl. set_solver.
  - apply no_chars_app. split; [by eapply no_chars_weaken; [exact Hl|set_solver]|].
    apply Forall_singleton. unfold NUL, LF. set_solver.
  - set_solver.
Qed.

Lemma read_blank st : read_line [LF] st = Ok st.
Proof. by destruct st. Qed.

Lemma read_header s st : clean_section s ->
  read_line ((chars "[" ++ s ++ chars "]") ++ [LF]) st = Ok (s, st.2).
Proof.
  intros (Hs & Hb & _). destruct st as [kn i]. unfold read_line.
  rewrite line_of.
  - simpl. rewrite app_comm_cons, last_snoc. simpl. rewrite drop_0.
    rewrite length_app. simpl. replace (length s + 1 - 1)%nat with (length s) by lia.
    rewrite take_app_length.
    pose proof (Trim_pad " " s 0 0 Hb) as Ht. simpl in Ht. rewrite app_nil_r in Ht.
    by rewrite Ht.
  - simpl. apply Forall_cons. split; [unfold NUL, LF; set_solver|].
    apply no_chars_app. split; [done|]. apply Forall_singleton. unfold NUL, LF. set_solver.
  - simpl. rewrite app_comm_cons, last_snoc. done.
Qed.

Lemma pad10_spaces n : exists k, pad10 n = n ++ replicate k " "%char /\
  length (pad10 n) = Nat.max 10 (length n).
Proof.
  unfold pad10. eexists. split; [reflexivity|]. rewrite length_app, length_replicate. lia.
Qed.

Lemma last_app_ne {A} (l1 l2 : list A) : l2 <> [] -> last (l1 ++ l2) = last l2.
Proof. intros H. rewrite last_app. by destruct (last l2) eqn:Hl; [|apply last_None in Hl]. Qed.

(** The line of an entry, without its end. *)
Definition entry_line (n v : str) : str := pad10 n ++ chars " = " ++ v.

Lemma entry_text_line n v : clean_entry n v -> entry_text n v = entry_line n v ++ [LF].
Proof.
  intros (_ & Hn & _ & _ & _ & Hv & _). unfold entry_text, entry_line.
  rewrite (no_chars_cstr _ n Hn), (no_chars_cstr _ v Hv) by set_solver.
  by rewrite <-!app_assoc.
Qed.

Lemma entry_line_ok n v : clean_entry n v ->
  no_chars [NUL; LF] (entry_line n v) /\ last (entry_line n v) <> Some CR /\
  (length (entry_line n v) <= 2046)%nat.
Proof.
  intros (_ & Hn & _ & _ & _ & Hv & _ & Hcr & Hlen). unfold entry_line.
  destruct (pad10_spaces n) as (k & -> & Hk). split_and!.
  - rewrite !no_chars_app. split_and!.
    + eapply no_chars_weaken; [exact Hn|set_solver].
    + apply Forall_replicate. unfold NUL, LF. set_solver.
    + repeat constructor; unfold NUL, LF; set_solver.
    + eapply no_chars_weaken; [exact Hv|set_solver].
  - rewrite last_app_ne by done. destruct v as [|c v]; [done|].
    by rewrite last_app_ne.
  - rewrite !length_app in *. rewrite length_replicate in *. simpl. lia.
Qed.

(** The text before the equals sign is the padded name, behind it the value. *)
Lemma entry_split n v : clean_entry n v ->
  find_char "=" (entry_line n v) = Some (length (pad10 n) + 1)%nat /\
  Trim " " (take (length (pad10 n) + 1) (entry_line n v)) = n /\
  drop (length (pad10 n) + 1 + 1) (entry_line n v) = " "%char :: v.
Proof.
  intros (_ & Hn & Hbn & _ & _ & Hv & Hbv & _). unfold entry_line.
  replace (pad10 n ++ chars " = " ++ v) with ((pad10 n ++ [" "%char]) ++ "="%char :: " "%char :: v)
    by by rewrite <-app_assoc.
  replace (length (pad10 n) + 1)%nat with (length (pad10 n ++ [" "%char]))
    by (rewrite length_app; done).
  split_and!.
  - apply find_if_app; [|apply ceq_refl]. destruct (pad10_spaces n) as (k & -> & _).
    rewrite !Forall_app. split_and!.
    + eapply no_chars_neq; [exact Hn|set_solver].
    + by apply Forall_replicate.
    + by apply Forall_singleton.
  - rewrite take_app_length. destruct (pad10_spaces n) as (k & -> & _).
    rewrite <-app_assoc. change [" "%char] with (replicate 1 " "%char).
    rewrite <-replicate_add. by apply (Trim_pad " " n 0).
  - change (("="%char :: " "%char :: v)) with (["="%char] ++ " "%char :: v).
    rewrite app_assoc, drop_app_length'; [done|]. rewrite !length_app. done.
Qed.

Lemma read_entry n v kn i i' : clean_entry n v -> set_value kn n v true i = Ok (true, i') ->
  read_line (entry_line n v ++ [LF]) (kn, i) = Ok (kn, i').
Proof.
  intros Hc Hset. destruct (entry_line_ok n v Hc) as (Hl & Hcr & _).
  destruct (entry_split n v Hc) as (Hf & Hname & Hval).
  destruct Hc as (Hne & _ & _ & Hhash & Hbr & Hv & Hbv & _).
  unfold read_line. rewrite line_of by done.
  assert (exists c t, entry_line n v = c :: t /\ ceq c "#" = false /\ ceq c "[" = false)
    as (c & t & Hline & H1 & H2).
  { destruct n as [|c n]; [done|]. eexists c, _. split; [reflexivity|]. simpl in *.
    split; apply ceq_false; congruence. }
  rewrite Hline. rewrite H1, H2. cbn [andb]. rewrite <-Hline, Hf.
  rewrite Hname, Hval.
  assert (find_char "#" (" "%char :: v) = None) as ->.
  { apply find_if_none. constructor; [done|]. eapply no_chars_neq; [exact Hv|set_solver]. }
  pose proof (Trim_pad " " v 1 0 Hbv) as Ht. simpl in Ht. rewrite app_nil_r in Ht. rewrite Ht.
  destruct n; [done|]. unfold mbind, outcome_bind. by rewrite Hset.
Qed.

(** ** The object along the way *)
Lemma set_value_new p ks ns e s n v : length ns = length ks -> s ∉ ns ->
  set_value s n v true (Ini p ks ns e) =
  Ok (true, Ini p (ks ++ [MkKey [v] [n]]) (ns ++ [s]) e).
Proof.
  intros Hl Hs%index_of_None. unfold set_value, find_key. cbn [names_ keys_ m_path error].
  rewrite Hs. cbn [to_int Z.eqb negb]. rewrite length_app.
  replace (Z.of_nat (length ns + length [s]) - 1)%Z with (Z.of_nat (length ks))
    by (simpl; lia).
  unfold set_entry.
  rewrite (find_value_key _ _ (MkKey [] [])) by by apply list_lookup_middle.
  unfold mbind, outcome_bind, push_name. cbn [names index_of to_int Z.eqb andb negb].
  cbn [keys_ m_path names_ error].
  rewrite (at_of_nat _ _ (MkKey [] [])) by by apply list_lookup_middle.
  unfold mbind, outcome_bind. rewrite Nat2Z.id, insert_app_r_alt, Nat.sub_diag by lia.
  cbn [list_insert insert keys_ values names app].
  rewrite (at_of_nat _ _ (MkKey [[]] [n])) by by apply list_lookup_middle.
  change (Z.of_nat (length (names (MkKey [[]] [n]))) - 1)%Z with (Z.of_nat 0).
  rewrite (set_value_at_ok _ (length ks) (MkKey [[]] [n]))
    by (simpl; try (by apply list_lookup_middle); lia).
  cbn [m_path keys_ names_ error values names].
  by rewrite insert_app_r_alt, Nat.sub_diag by lia.
Qed.

Lemma set_value_last p ks ns e s k n v : length ns = length ks -> s ∉ ns -> key_wf k ->
  n ∉ names k ->
  set_value s n v true (Ini p (ks ++ [k]) (ns ++ [s]) e) =
  Ok (true, Ini p (ks ++ [MkKey (values k ++ [v]) (names k ++ [n])]) (ns ++ [s]) e).
Proof.
  intros Hl Hs%index_of_None [Hkl _] Hn%index_of_None. unfold set_value, find_key.
  cbn [names_ keys_ m_path error]. rewrite index_of_snoc, Hs, bool_decide_true by done.
  rewrite to_int_none, bool_decide_false by done. simpl to_int. rewrite Hl. unfold set_entry.
  rewrite (find_value_key _ _ k) by by apply list_lookup_middle. rewrite Hn.
  unfold mbind, outcome_bind, push_name. cbn [to_int Z.eqb andb negb keys_ m_path names_ error].
  rewrite (at_of_nat _ _ k) by by apply list_lookup_middle.
  unfold mbind, outcome_bind. rewrite Nat2Z.id, insert_app_r_alt, Nat.sub_diag by lia.
  cbn [list_insert insert]. cbn [keys_].
  rewrite (at_of_nat _ _ (MkKey (values k ++ [[]]) (names k ++ [n])))
    by by apply list_lookup_middle.
  cbn [names]. replace (Z.of_nat (length (names k ++ [n])) - 1)%Z with (Z.of_nat (length (values k)))
    by (rewrite length_app; simpl; lia).
  rewrite (set_value_at_ok _ (length ks) (MkKey (values k ++ [[]]) (names k ++ [n])))
    by (simpl; try (by apply list_lookup_middle); rewrite length_app; simpl; lia).
  cbn [m_path keys_ names_ error values names].
  by rewrite !insert_app_r_alt, !Nat.sub_diag by lia.
Qed.

Lemma entries_text_reads p ks ns e s ns2 vs2 : length ns = length ks -> s ∉ ns ->
  Forall2 clean_entry ns2 vs2 ->
  exists t, entries_text ns2 vs2 = Ok t /\
  forall k rest st', key_wf k -> NoDup (names k ++ ns2) ->
    reads rest (s, Ini p (ks ++ [MkKey (values k ++ vs2) (names k ++ ns2)]) (ns ++ [s]) e) st' ->
    reads (t ++ rest) (s, Ini p (ks ++ [k]) (ns ++ [s]) e) st'.
Proof.
  intros Hl Hs Hc. induction Hc as [|n v ns2 vs2 Hnv _ IH].
  - exists []. split; [done|]. intros [vs0 ns0] rest st' _ _. simpl. by rewrite !app_nil_r.
  - destruct IH as (t & Ht & IH). exists (entry_text n v ++ t). cbn [entries_text].
    unfold mbind, outcome_bind. rewrite Ht. split; [done|].
    intros k rest st' Hk Hnd Hr. rewrite entry_text_line by done. rewrite <-!app_assoc.
    destruct (entry_line_ok n v Hnv) as (Hlf & _ & Hlen).
    assert (n ∉ names k) as Hn.
    { apply NoDup_app in Hnd as (_ & Hd & _). intros Hin. apply (Hd n Hin). set_solver. }
    eapply reads_line; [|done| |].
    + eapply no_chars_weaken; [exact Hlf|set_solver].
    + apply read_entry; [done|]. by apply set_value_last.
    + destruct (key_wf_push k n v Hk) as [Hk' _]; [by apply index_of_None|].
      apply IH; [done|cbn [names]; by rewrite <-app_assoc|]. cbn [values names]. by rewrite <-!app_assoc.
Qed.

Lemma clean_key_wf k : clean_key k -> NoDup (names k) -> key_wf k.
Proof. intros Hc Hnd. split; [by apply Forall2_length in Hc|done]. Qed.

Lemma section_reads p ks ns e s k : length ns = length ks -> s ∉ ns ->
  clean_section s -> clean_key k -> NoDup (names k) -> names k <> [] ->
  exists t, entries_text (names k) (values k) = Ok t /\
  forall kn rest st', reads rest (s, Ini p (ks ++ [k]) (ns ++ [s]) e) st' ->
    reads (chars "[" ++ cstr s ++ chars "]" ++ [LF] ++ t ++ [LF] ++ rest)
          (kn, Ini p ks ns e) st'.
Proof.
  intros Hl Hs Hcs Hck Hnd Hne. destruct k as [vs0 ns0]. unfold clean_key in Hck.
  cbn [names values] in *. inversion Hck as [|n v ns2 vs2 Hnv Hrest]; subst; [done|].
  destruct (entries_text_reads p ks ns e s ns2 vs2 Hl Hs Hrest) as (t & Ht & Hreads).
  exists (entry_text n v ++ t). cbn [entries_text]. unfold mbind, outcome_bind. rewrite Ht.
  split; [done|]. intros kn rest st' Hr.
  destruct Hcs as (Hsc & Hsb & Hsl). rewrite (no_chars_cstr _ s Hsc) by set_solver.
  replace (chars "[" ++ s ++ chars "]" ++ [LF] ++ (entry_text n v ++ t) ++ [LF] ++ rest)
    with ((chars "[" ++ s ++ chars "]") ++ LF :: (entry_text n v ++ t ++ LF :: rest))
    by by rewrite <-!app_assoc.
  eapply reads_line; [| |by apply (read_header s (kn, Ini p ks ns e))|].
  { repeat (apply no_chars_app; split); [|eapply no_chars_weaken; [exact Hsc|set_solver]|];
      apply Forall_singleton; unfold LF; set_solver. }
  { rewrite !length_app. simpl. lia. }
  cbn [snd]. rewrite entry_text_line by done. rewrite <-app_assoc.
  destruct (entry_line_ok n v Hnv) as (Hlf & _ & Hlen).
  apply NoDup_cons in Hnd as [Hn Hnd].
  eapply reads_line; [|done| |].
  - eapply no_chars_weaken; [exact Hlf|set_solver].
  - apply read_entry; [done|]. by apply set_value_new.
  - apply Hreads.
    + split; [done|]. apply NoDup_singleton.
    + simpl. by apply NoDup_cons.
    + cbn [values names app].
      eapply (reads_line []); [constructor|simpl; lia|apply read_blank|done].
Qed.

Lemma sections_reads p e ns2 ks2 : length ns2 = length ks2 ->
  Forall clean_section ns2 -> Forall clean_key ks2 -> Forall key_wf ks2 ->
  exists t, sections_text ns2 ks2 = Ok t /\
  forall kn ns ks, length ns = length ks -> NoDup (ns ++ ns2) ->
    exists kn', reads t (kn, Ini p ks ns e)
      (kn', Ini p (ks ++ (kept ns2 ks2).2) (ns ++ (kept ns2 ks2).1) e).
Proof.
  revert ks2. induction ns2 as [|s ns2 IH]; intros [|k ks2] Hl Hcs Hck Hkw; simplify_eq/=.
  { exists []. split; [done|]. intros kn ns ks _ _. exists kn. rewrite !app_nil_r.
    apply reads_nil. }
  inversion_clear Hcs as [|? ? Hs Hcs']. inversion_clear Hck as [|? ? Hk Hck'].
  inversion_clear Hkw as [|? ? Hw Hkw'].
  destruct (IH ks2 Hl Hcs' Hck' Hkw') as (t & Ht & Hreads).
  destruct (kept ns2 ks2) as [ns' ks'] eqn:Hkept. cbn [fst snd] in Hreads.
  destruct (names k) as [|n0 nl] eqn:Hnames.
  - exists t. unfold mbind, outcome_bind. rewrite Ht. split; [done|].
    intros kn ns ks Hlen Hnd. apply Hreads; [done|].
    apply NoDup_app in Hnd as (H1 & H2 & H3). apply NoDup_cons in H3 as [H4 H5].
    apply NoDup_app. split_and!; [done| |done]. set_solver.
  - destruct (section_reads p [] [] e s k) as (te & Hte & _);
      [done|set_solver|done|done|apply Hw|by rewrite Hnames|].
    eexists. unfold mbind, outcome_bind. rewrite <-Hnames, Hte, Ht. split; [reflexivity|].
    intros kn ns ks Hlen Hnd. rewrite (cons_middle s), app_assoc in Hnd.
    destruct (Hreads s (ns ++ [s]) (ks ++ [k])) as (kn' & Hr);
      [rewrite !length_app; simpl; lia|done|].
    exists kn'. cbn [fst snd].
    destruct (section_reads p ks ns e s k) as (te' & Hte' & Hsec); try done.
    { apply NoDup_app in Hnd as (Hnd & _). by apply NoDup_snoc in Hnd as [_ ?]. }
    { apply Hw. }
    { by rewrite Hnames. }
    rewrite Hte in Hte'. simplify_eq. rewrite <-!app_assoc in Hr.
    specialize (Hsec kn t _ Hr). simpl in Hsec. simpl.
    rewrite <-app_assoc. simpl. rewrite <-app_assoc. done.
Qed.

(** C8: [write_file] followed by [read_file] gives the configuration back.
    For a clean configuration the writer never fails, and a new object that
    reads the text it leaves holds the same sections, entries and values in
    the same order; only sections without entries are dropped. *)
Theorem ini_file_roundtrip i p2 : ini_wf i -> clean i ->
  exists text,
    write_file true i = Ok (Some text, i) /\
    read_file (Some text) (IniFile_new p2) =
      Ok (true, Ini p2 (kept (names_ i) (keys_ i)).2 (kept (names_ i) (keys_ i)).1 []).
Proof.
  intros (Hl & Hnd & Hkw) [Hcs Hck].
  destruct (sections_reads p2 [] (names_ i) (keys_ i) Hl Hcs Hck Hkw) as (t & Ht & Hr).
  destruct (Hr [] [] []) as (kn & Hr'); [done|done|].
  exists t. unfold write_file, read_file, mbind, outcome_bind. rewrite Ht. split; [done|].
  unfold IniFile_new. rewrite Hr' by lia. done.
Qed.

Definition demo_cfg : inifile :=
  Ini (chars "a.ini")
    [MkKey [chars "10.0.0.1"; chars "9100"] [chars "host"; chars "port"]; MkKey [] [];
     MkKey [chars "x = [y] z"] [chars "a long name"]]
    [chars "server"; chars "empty"; chars "user"] [].

Lemma ini_file_roundtrip_witness :
  exists text,
    write_file true demo_cfg = Ok (Some text, demo_cfg) /\
    read_file (Some text) (IniFile_new (chars "b.ini")) =
      Ok (true, Ini (chars "b.ini")
        [MkKey [chars "10.0.0.1"; chars "9100"] [chars "host"; chars "port"];
         MkKey [chars "x = [y] z"] [chars "a long name"]]
        [chars "server"; chars "user"] []).
Proof.
  apply (ini_file_roundtrip demo_cfg (chars "b.ini")).
  - split_and!; [reflexivity| |].
    + apply (bool_decide_unpack _). vm_compute. exact I.
    + repeat constructor; apply (bool_decide_unpack _); vm_compute; exact I.
  - split; repeat constructor; apply (bool_decide_unpack _); vm_compute; exact I.
Defined.

Definition long_cfg : inifile :=
  Ini [] [MkKey [replicate 2100 "x"%char] [chars "k"]] [chars "s"] [].

Definition long_text : str :=
  match write_file true long_cfg with Ok (Some t, _) => t | _ => [] end.
Definition long_read : inifile :=
  match read_file (Some long_text) (IniFile_new []) with
  | Ok (_, i) => i
  | _ => IniFile_new []
  end.

(** A line longer than the reader's buffer does not survive.  A value
    of 2100 characters is written in full; read back it is cut to the 2034
    that fit the first 2047 bytes of the line, and the rest of the line turns
    up as a separate entry of the section. *)
Theorem ini_long_line_splits :
  exists text i2,
    write_file true long_cfg = Ok (Some text, long_cfg) /\
    read_file (Some text) (IniFile_new []) = Ok (true, i2) /\
    try_get_string (chars "s") (chars "k") i2 = Ok (Some (replicate 2034 "x"%char)) /\
    try_get_string (chars "s") (replicate 66 "x"%char) i2 = Ok (Some []).
Proof.
  exists long_text, long_read. repeat split; vm_compute; reflexivity.
Qed.
