(* ===== verification/PgPool.v ===== *)
(** * PostgreSQL connection pool (include/pgpool.hpp, src/pgpool.cpp)

    [PgResult], [PgConnection], [PgGuard] and [PgConnectionPool] over the
    client library libpq, which is outside the repository ([Libpq]).  The
    pool hands out pointers; [heap] holds the connection objects they refer
    to.  [acquire] and [release] are split where other threads can run:
    between the semaphore and the list, which is locked separately. *)

From S2P Require Import Prelude Monitor Sync.
Import Semaphore.

Inductive ExecStatusType : Type :=
| PGRES_EMPTY_QUERY | PGRES_COMMAND_OK | PGRES_TUPLES_OK | PGRES_FATAL_ERROR | PGRES_OTHER.

#[export] Instance ExecStatusType_eq_dec : EqDecision ExecStatusType.
Proof. solve_decision. Defined.

(** [PGconn*] and [PGresult*] are handles; [W] is the library's state and the
    servers behind it. *)
Class Libpq (W : Type) := {
  PQconnectdb : str -> W -> option nat * W;
  PQstatus_ok : nat -> W -> bool;
  PQerrorMessage : nat -> W -> str;
  PQreset : nat -> W -> W;
  PQfinish : nat -> W -> W;
  PQexec : option nat -> str -> W -> option nat * W;
  PQexecParams : option nat -> str -> list str -> W -> option nat * W;
  PQresultStatus : nat -> W -> ExecStatusType;
  PQntuples : nat -> W -> Z;
  PQnfields : nat -> W -> Z;
  PQgetvalue : nat -> Z -> Z -> W -> str;
  PQclear : nat -> W -> W;
}.

(** Addresses of connection objects. *)
Abbreviation ptr := nat.

Section pg.
Context `{Libpq W}.

(** ** [PgResult] *)
Record PgResult : Type := MkResult { res_ : option nat }.
Definition PgResult_dtor (r : PgResult) (w : W) : W :=
  match res_ r with Some h => PQclear h w | None => w end.
(** Move construction: the new object and the emptied source. *)
Definition PgResult_move (o : PgResult) : PgResult * PgResult := (MkResult (res_ o), MkResult None).
(** Move assignment from another object. *)
Definition PgResult_assign (r o : PgResult) (w : W) : PgResult * PgResult * W :=
  let w' := match res_ r with Some h => PQclear h w | None => w end in
  (MkResult (res_ o), MkResult None, w').
Definition status (r : PgResult) (w : W) : ExecStatusType :=
  match res_ r with Some h => PQresultStatus h w | None => PGRES_FATAL_ERROR end.
Definition ok (r : PgResult) (w : W) : bool :=
  let s := status r w in
  bool_decide (s = PGRES_TUPLES_OK) || bool_decide (s = PGRES_COMMAND_OK).
Definition command_ok (r : PgResult) (w : W) : bool := bool_decide (status r w = PGRES_COMMAND_OK).
Definition ntuples (r : PgResult) (w : W) : Z :=
  match res_ r with Some h => PQntuples h w | None => 0%Z end.
Definition nfields (r : PgResult) (w : W) : Z :=
  match res_ r with Some h => PQnfields h w | None => 0%Z end.
Definition value (row col : Z) (r : PgResult) (w : W) : str :=
  match res_ r with Some h => PQgetvalue h row col w | None => [] end.

(** ** [PgConnection] *)
Record PgConnection : Type := MkConn { c_connstr : str; conn_ : option nat }.

Definition is_valid (c : PgConnection) (w : W) : bool :=
  match conn_ c with Some h => PQstatus_ok h w | None => false end.

Definition PgConnection_new (connstr : str) (w : W) : outcome PgConnection * W :=
  let '(h, w1) := PQconnectdb connstr w in
  let c := MkConn connstr h in
  if negb (is_valid c w1) then
    (Exc "PgConnection: connect failed",
     match h with Some h => PQfinish h w1 | None => w1 end)
  else (Ok c, w1).

Definition PgConnection_dtor (c : PgConnection) (w : W) : W :=
  match conn_ c with Some h => PQfinish h w | None => w end.
Definition conn_reset (c : PgConnection) (w : W) : W :=
  match conn_ c with Some h => PQreset h w | None => w end.
Definition exec (sql : str) (c : PgConnection) (w : W) : PgResult * W :=
  let '(h, w') := PQexec (conn_ c) sql w in (MkResult h, w').
Definition exec_params (sql : str) (params : list str) (c : PgConnection) (w : W)
  : PgResult * W :=
  let '(h, w') := PQexecParams (conn_ c) sql params w in (MkResult h, w').

(** ** [PgConnectionPool] *)
Record pool : Type := MkPool {
  connstr_ : str;
  pool_size_ : Z;
  available_slots_ : semaphore;
  all_connections_ : list ptr;
  available_pool_ : list ptr;
  heap : gmap ptr PgConnection;
  next_ptr : ptr;
  world : W;
}.

Definition with_slots (x : semaphore) (p : pool) : pool :=
  MkPool (connstr_ p) (pool_size_ p) x (all_connections_ p) (available_pool_ p)
    (heap p) (next_ptr p) (world p).
Definition with_avail (x : list ptr) (p : pool) : pool :=
  MkPool (connstr_ p) (pool_size_ p) (available_slots_ p) (all_connections_ p) x
    (heap p) (next_ptr p) (world p).
Definition with_world (x : W) (p : pool) : pool :=
  MkPool (connstr_ p) (pool_size_ p) (available_slots_ p) (all_connections_ p)
    (available_pool_ p) (heap p) (next_ptr p) x.

(** One round of the constructor's loop; a failed connection throws. *)
Fixpoint connect_all (n : nat) (p : pool) : outcome pool :=
  match n with
  | O => Ok p
  | S n =>
      match PgConnection_new (connstr_ p) (world p) with
      | (Ok c, w') =>
          let a := next_ptr p in
          connect_all n
            (MkPool (connstr_ p) (pool_size_ p) (available_slots_ p)
               (all_connections_ p ++ [a]) (available_pool_ p ++ [a])
               (<[a := c]> (heap p)) (S a) w')
      | (Exc e, _) => Exc e
      | (Ub k, _) => Ub k
      end
  end.

Definition PgConnectionPool_new (connstr : str) (pool_size : Z) (w : W) : outcome pool :=
  if (pool_size <? 0)%Z then Exc "vector::reserve"
  else connect_all (Z.to_nat pool_size)
         (MkPool connstr pool_size (Semaphore.new (Z.to_N (u32 pool_size))) [] [] ∅ 0 w).

(** [acquire]: the wait on the semaphore ([None]: still waiting; the
    timeout throws), then the locked pop. *)
Definition acquire_wait (expired : bool) (p : pool) : option (outcome pool) :=
  match wait_ms expired (available_slots_ p) with
  | None => None
  | Some (r, s) =>
      if (r =? 0)%Z then Some (Exc "PgConnectionPool::acquire: timed out")
      else Some (Ok (with_slots s p))
  end.
Definition acquire_pop (p : pool) : outcome (ptr * pool) :=
  match available_pool_ p with
  | [] => Ub OutOfBounds
  | c :: rest => Ok (c, with_avail rest p)
  end.
(** [try_acquire]: the same with a timeout of zero, [None] for [nullopt]. *)
Definition try_acquire_wait (p : pool) : option pool :=
  match wait_ms true (available_slots_ p) with
  | Some (r, s) => if (r =? 0)%Z then None else Some (with_slots s p)
  | None => None
  end.

(** [release] up to the lock runs without [pool_lock_], so it is a sequence of
    steps.  The points of a call: about to test the connection, to reset it, to
    test it again, to look at element [i] of [all_connections_], to build a new
    connection for that element, to move the new object [a] into it, to read the
    element back, and to push the connection under the lock. *)
Inductive rel : Type :=
| RCheck (conn : ptr) | RReset (conn : ptr) | RRecheck (conn : ptr) | RScan (conn : ptr) (i : nat)
| RBuild (conn : ptr) (i : nat) | RInstall (conn : ptr) (i : nat) (a : ptr) | RGet (conn : ptr) (i : nat)
| RPush (conn : ptr).

Definition with_heap (h : gmap ptr PgConnection) (a : ptr) (w : W) (p : pool) : pool :=
  MkPool (connstr_ p) (pool_size_ p) (available_slots_ p) (all_connections_ p) (available_pool_ p) h a w.
Definition with_all (l : list ptr) (p : pool) : pool :=
  MkPool (connstr_ p) (pool_size_ p) (available_slots_ p) l (available_pool_ p) (heap p) (next_ptr p) (world p).

Definition deref (a : ptr) (p : pool) : outcome PgConnection :=
  match heap p !! a with Some c => Ok c | None => Ub UseAfterFree end.
Definition element (i : nat) (p : pool) : outcome ptr :=
  match all_connections_ p !! i with Some x => Ok x | None => Ub OutOfBounds end.

(** [delete] of a connection object. *)
Definition destroy (a : ptr) (p : pool) : outcome pool :=
  c ← deref a p; Ok (with_heap (delete a (heap p)) (next_ptr p) (PgConnection_dtor c (world p)) p).

Definition release_step (r : rel) (p : pool) : outcome (rel * pool) :=
  match r with
  | RCheck conn => c ← deref conn p; Ok (if is_valid c (world p) then RPush conn else RReset conn, p)
  | RReset conn => c ← deref conn p; Ok (RRecheck conn, with_world (conn_reset c (world p)) p)
  | RRecheck conn => c ← deref conn p; Ok (if is_valid c (world p) then RPush conn else RScan conn 0, p)
  | RScan conn i =>
      match all_connections_ p !! i with
      | None => Ok (RPush conn, p)
      | Some x => Ok (if bool_decide (x = conn) then RBuild conn i else RScan conn (S i), p)
      end
  | RBuild conn i =>
      match PgConnection_new (connstr_ p) (world p) with
      | (Ok c', w) => let a := next_ptr p in
          Ok (RInstall conn i a, with_heap (<[a := c']> (heap p)) (S a) w p)
      | (Exc _, w) => Ok (RGet conn i, with_world w p)
      | (Ub k, _) => Ub k
      end
  | RInstall conn i a =>
      old ← element i p; p1 ← destroy old (with_all (<[i := a]> (all_connections_ p)) p); Ok (RGet a i, p1)
  | RGet conn i => x ← element i p; Ok (RPush x, p)
  | RPush conn => Ok (RPush conn, p)
  end.

Definition release_push (conn : ptr) (p : pool) : pool :=
  with_avail (available_pool_ p ++ [conn]) p.
Definition release_signal (p : pool) : pool := with_slots (signal (available_slots_ p)) p.

(** The steps of one call in a row; [length all_connections_ + 7] are enough. *)
Fixpoint release_run (fuel : nat) (r : rel) (p : pool) : outcome (ptr * pool) :=
  match r, fuel with
  | RPush c, _ => Ok (c, p)
  | _, O => Ub OutOfBounds
  | _, S fuel => '(r', p') ← release_step r p; release_run fuel r' p'
  end.
Definition release (conn : ptr) (p : pool) : outcome pool :=
  '(c, p1) ← release_run (length (all_connections_ p) + 7) (RCheck conn) p;
  Ok (release_signal (release_push c p1)).

(** ** [PgGuard] *)
Record PgGuard : Type := MkGuard { g_conn : option ptr; g_pool : bool }.
Definition guard (c : ptr) : PgGuard := MkGuard (Some c) true.
(** [PgGuard::release], also the destructor. *)
Definition guard_release (g : PgGuard) (p : pool) : outcome (PgGuard * pool) :=
  match g with
  | MkGuard (Some c) true => p' ← release c p; Ok (MkGuard None false, p')
  | _ => Ok (g, p)
  end.
Definition guard_move (o : PgGuard) : PgGuard * PgGuard :=
  (MkGuard (g_conn o) (g_pool o), MkGuard None false).
Definition guard_assign (g o : PgGuard) (p : pool) : outcome (PgGuard * PgGuard * pool) :=
  '(_, p') ← guard_release g p; Ok (o, MkGuard None false, p').

Definition guard_bool (g : PgGuard) : bool := bool_decide (g_conn g <> None).
Definition guard_arrow (g : PgGuard) : option ptr := g_conn g.
Definition guard_deref (g : PgGuard) : outcome ptr :=
  match g_conn g with Some c => Ok c | None => Ub NullDeref end.

(** A whole [try_acquire]. *)
Definition try_acquire (p : pool) : outcome (option PgGuard * pool) :=
  match try_acquire_wait p with
  | None => Ok (None, p)
  | Some p1 => '(c, p2) ← acquire_pop p1; Ok (Some (guard c), p2)
  end.

(** ** Clients in parallel *)

(** The pool, the clients past the semaphore, the connections held by guards, the
    calls of [release] before their push, and those that have yet to signal. *)
Record psys : Type := PSys {
  p_pool : pool;
  ticketed : nat;
  held : list ptr;
  returning : list rel;
  signalling : nat;
}.

(** The steps of clients that have a place: to take their connection, to begin
    and to carry on returning it. *)
Inductive pserve : psys -> psys -> Prop :=
| s_pop p c p' t hs rs sg :
    acquire_pop p = Ok (c, p') -> pserve (PSys p (S t) hs rs sg) (PSys p' t (c :: hs) rs sg)
| s_release p c t hs1 hs2 rs sg :
    pserve (PSys p t (hs1 ++ c :: hs2) rs sg) (PSys p t (hs1 ++ hs2) (RCheck c :: rs) sg)
| s_step p r r' p' t hs rs1 rs2 sg :
    release_step r p = Ok (r', p') ->
    pserve (PSys p t hs (rs1 ++ r :: rs2) sg) (PSys p' t hs (rs1 ++ r' :: rs2) sg)
| s_push p c t hs rs1 rs2 sg :
    pserve (PSys p t hs (rs1 ++ RPush c :: rs2) sg) (PSys (release_push c p) t hs (rs1 ++ rs2) (S sg))
| s_signal p t hs rs sg :
    pserve (PSys p t hs rs (S sg)) (PSys (release_signal p) t hs rs sg).

(** Those, the entry of clients, and changes at the servers. *)
Inductive pstep : psys -> psys -> Prop :=
| p_serve s s' : pserve s s' -> pstep s s'
| p_wait e p p' t hs rs sg :
    acquire_wait e p = Some (Ok p') ->
    pstep (PSys p t hs rs sg) (PSys p' (S t) hs rs sg)
| p_try p p' t hs rs sg :
    try_acquire_wait p = Some p' ->
    pstep (PSys p t hs rs sg) (PSys p' (S t) hs rs sg)
| p_world p w' t hs rs sg :
    pstep (PSys p t hs rs sg) (PSys (with_world w' p) t hs rs sg).

Definition psys_init (p : pool) : psys := PSys p 0 [] [] 0.
End pg.
Arguments pool : clear implicits.
Arguments psys : clear implicits.

(** ** The invariant *)
Section pool_invariant.
Context `{Libpq W}.

(** The connection a returning call is about, and the new object it holds. *)
Definition rel_conn (r : rel) : ptr :=
  match r with
  | RCheck c | RReset c | RRecheck c | RScan c _ | RBuild c _ | RInstall c _ _ | RGet c _ | RPush c => c
  end.
Definition rel_new (r : rel) : list ptr := match r with RInstall _ _ a => [a] | _ => [] end.
(** The element a call has found is its own. *)
Definition rel_at (l : list ptr) (r : rel) : Prop :=
  match r with RBuild c i | RInstall c i _ | RGet c i => l !! i = Some c | _ => True end.

(** The places a connection can be in. *)
Definition places (s : psys W) : list ptr :=
  available_pool_ (p_pool s) ++ held s ++ (rel_conn <$> returning s).

(** Every connection is in exactly one place, every pointer is live, a call that
    rebuilds has its own element and its own new object, and the semaphore counts
    the listed connections nobody is after yet. *)
Record pinv (n : nat) (s : psys W) : Prop := {
  pi_places : places s ≡ₚ all_connections_ (p_pool s);
  pi_nodup : NoDup (all_connections_ (p_pool s) ++ (returning s ≫= rel_new));
  pi_size : length (all_connections_ (p_pool s)) = n;
  pi_live : forall c, c ∈ all_connections_ (p_pool s) ++ (returning s ≫= rel_new) ->
    is_Some (heap (p_pool s) !! c) /\ (c < next_ptr (p_pool s))%nat;
  pi_at : Forall (rel_at (all_connections_ (p_pool s))) (returning s);
  pi_count : length (available_pool_ (p_pool s)) =
    (N.to_nat (count (available_slots_ (p_pool s))) + ticketed s + signalling s)%nat;
}.

Lemma pinv_pop n p t hs rs sg : pinv n (PSys p (S t) hs rs sg) -> available_pool_ p <> [].
Proof. intros Hi Hn. pose proof (pi_count _ _ Hi) as Hc. simpl in Hc. rewrite Hn in Hc. simpl in Hc. lia. Qed.

Lemma insert_perm (l : list ptr) i (c a : ptr) : l !! i = Some c ->
  exists rest, l ≡ₚ c :: rest /\ <[i := a]> l ≡ₚ a :: rest.
Proof.
  intros Hi. exists (take i l ++ drop (S i) l). split.
  - rewrite <-(take_drop_middle l i c Hi) at 1. solve_Permutation.
  - rewrite insert_take_drop by (by eapply lookup_lt_Some). solve_Permutation.
Qed.

Lemma wait_ms_count e s r s' : wait_ms e s = Some (r, s') -> r <> 0%Z ->
  (0 < count s)%N /\ count s' = (count s - 1)%N.
Proof.
  unfold wait_ms. intros Hw Hr. destruct (N.ltb_spec 0 (count s)); simplify_eq/=; [done|].
  by destruct e; simplify_eq.
Qed.

(** A step that keeps the lists, the objects and the connection it is about. *)
Lemma pinv_same n p p' r r' t hs rs1 rs2 sg :
  pinv n (PSys p t hs (rs1 ++ r :: rs2) sg) ->
  all_connections_ p' = all_connections_ p -> available_pool_ p' = available_pool_ p ->
  available_slots_ p' = available_slots_ p -> heap p' = heap p -> next_ptr p' = next_ptr p ->
  rel_conn r' = rel_conn r -> rel_new r' = rel_new r -> rel_at (all_connections_ p) r' ->
  pinv n (PSys p' t hs (rs1 ++ r' :: rs2) sg).
Proof.
  intros [H1 H2 H3 H4 H5 H6] Ha Hv Hs Hh Hn Hc Hw Hat. unfold places in *. simpl in *.
  rewrite fmap_app, fmap_cons in H1. rewrite bind_app, bind_cons in H2, H4.
  apply Forall_app in H5 as [H51 H52]. apply Forall_cons in H52 as [_ H52].
  split; simpl; rewrite ?Ha, ?Hs, ?Hh, ?Hn, ?bind_app, ?bind_cons, ?Hw; try done.
  - unfold places. simpl. by rewrite Hv, fmap_app, fmap_cons, Hc.
  - by apply Forall_app; split; [|apply Forall_cons].
  - by rewrite Hv.
Qed.

Lemma pinv_build n p c i o w t hs rs1 rs2 sg :
  pinv n (PSys p t hs (rs1 ++ RBuild c i :: rs2) sg) ->
  pinv n (PSys (with_heap (<[next_ptr p := o]> (heap p)) (S (next_ptr p)) w p) t hs
            (rs1 ++ RInstall c i (next_ptr p) :: rs2) sg).
Proof.
  intros [H1 H2 H3 H4 H5 H6]. unfold places in *. simpl in *. set (a := next_ptr p) in *.
  rewrite bind_app, bind_cons in H2, H4. simpl in H2, H4.
  assert (a ∉ all_connections_ p ++ (rs1 ≫= rel_new) ++ (rs2 ≫= rel_new)) as Hfresh.
  { intros Hx. apply H4 in Hx as [_ ?]. lia. }
  assert (all_connections_ p ++ (rs1 ≫= rel_new) ++ a :: (rs2 ≫= rel_new) ≡ₚ
          a :: (all_connections_ p ++ (rs1 ≫= rel_new) ++ (rs2 ≫= rel_new))) as Hperm by solve_Permutation.
  split; simpl; rewrite ?bind_app, ?bind_cons; simpl; try done.
  - unfold places. simpl. by rewrite fmap_app in *.
  - rewrite Hperm. by apply NoDup_cons.
  - intros x Hx. rewrite Hperm in Hx. apply elem_of_cons in Hx as [->|Hx].
    + rewrite lookup_insert_eq. split; [eauto|lia].
    + destruct (H4 x Hx) as [Hl Hlt]. rewrite lookup_insert_ne by lia. split; [done|lia].
  - apply Forall_app in H5 as [? [??]%Forall_cons]. by apply Forall_app; split; [|apply Forall_cons].
Qed.

Lemma pinv_install n p c i a o t hs rs1 rs2 sg :
  pinv n (PSys p t hs (rs1 ++ RInstall c i a :: rs2) sg) ->
  pinv n (PSys (with_heap (delete c (heap p)) (next_ptr p) o (with_all (<[i := a]> (all_connections_ p)) p)) t hs
            (rs1 ++ RGet a i :: rs2) sg).
Proof.
  intros [H1 H2 H3 H4 H5 H6]. unfold places in *. simpl in *.
  apply Forall_app in H5 as [Hat1 [Hi Hat2]%Forall_cons]. simpl in Hi.
  destruct (insert_perm _ i c a Hi) as (rest & Hall & Hall').
  rewrite bind_app, bind_cons in H2, H4. simpl in H2, H4. rewrite fmap_app, fmap_cons in H1. simpl in H1.
  assert (available_pool_ p ++ hs ++ (rel_conn <$> rs1) ++ (rel_conn <$> rs2) ≡ₚ rest) as Hrest.
  { apply (Permutation_cons_inv (a := c)). rewrite <-Hall, <-H1. solve_Permutation. }
  assert (all_connections_ p ++ (rs1 ≫= rel_new) ++ a :: (rs2 ≫= rel_new) ≡ₚ
          c :: (a :: rest) ++ (rs1 ≫= rel_new) ++ (rs2 ≫= rel_new)) as Hperm.
  { rewrite Hall. solve_Permutation. }
  rewrite Hperm in H2. apply NoDup_cons in H2 as [Hc Hnd].
  assert (forall r, r ∈ rs1 ++ rs2 -> rel_at (all_connections_ p) r -> rel_at (<[i := a]> (all_connections_ p)) r) as Hoth.
  { intros r Hr Hat. assert (rel_conn r <> c) as Hne.
    { intros Heq. apply Hc. apply elem_of_app. left. right. rewrite <-Hrest, <-Heq, !elem_of_app, <-elem_of_app.
      do 2 right. rewrite <-fmap_app. by apply list_elem_of_fmap_2. }
    destruct r; simpl in *; try done; (rewrite list_lookup_insert_ne; [done|intros ->; congruence]). }
  split; simpl; rewrite ?bind_app, ?bind_cons; simpl.
  - unfold places. simpl. rewrite fmap_app, fmap_cons. simpl. rewrite Hall', <-Hrest. solve_Permutation.
  - by rewrite Hall'.
  - by rewrite length_insert.
  - intros x Hx. rewrite Hall' in Hx. destruct (H4 x) as [Hl Hlt]; [rewrite Hperm; by right|].
    rewrite lookup_delete_ne by (intros ->; done). done.
  - rewrite Forall_forall in Hat1, Hat2. apply Forall_app. split; [|apply Forall_cons; split].
    + apply Forall_forall. intros r Hr. apply Hoth; [set_solver|by apply Hat1].
    + simpl. apply list_lookup_insert_eq. by eapply lookup_lt_Some.
    + apply Forall_forall. intros r Hr. apply Hoth; [set_solver|by apply Hat2].
  - done.
Qed.

Lemma pinv_step n p r r' p' t hs rs1 rs2 sg :
  pinv n (PSys p t hs (rs1 ++ r :: rs2) sg) -> release_step r p = Ok (r', p') ->
  pinv n (PSys p' t hs (rs1 ++ r' :: rs2) sg).
Proof.
  intros Hinv Hst. pose proof (pi_at _ _ Hinv) as Hat. simpl in Hat.
  apply Forall_app in Hat as [_ [Hat _]%Forall_cons].
  destruct r as [c|c|c|c i|c i|c i a|c i|c]; simpl in *; unfold mbind, outcome_bind, deref, destroy, element in Hst.
  1-3: destruct (heap p !! c) as [o|]; [|done]; simplify_eq;
    eapply pinv_same; try exact Hinv; by try case_match.
  - destruct (all_connections_ p !! i) as [x|] eqn:Hx; simplify_eq; eapply pinv_same; try exact Hinv; try done;
      case_bool_decide; subst; done.
  - destruct (PgConnection_new _ _) as [ [o| |] w]; simplify_eq; [by apply pinv_build|by eapply pinv_same].
  - rewrite Hat in Hst. simpl in Hst. unfold mbind, outcome_bind, deref in Hst. simpl in Hst.
    destruct (heap p !! c) as [o|]; [|done]. simplify_eq. by apply pinv_install.
  - rewrite Hat in Hst. simplify_eq. by eapply pinv_same.
  - by simplify_eq.
Qed.

Lemma pserve_inv n s s' : (Z.of_nat n <= INT32_MAX)%Z -> pinv n s -> pserve s s' -> pinv n s'.
Proof.
  intros Hn Hinv Hst. destruct Hst as
    [p c p' t hs rs sg Hpop|p c t hs1 hs2 rs sg|p r r' p' t hs rs1 rs2 sg Hf|p c t hs rs1 rs2 sg|p t hs rs sg].
  - destruct Hinv as [H1 H2 H3 H4 H5 H6]. unfold places in *. simpl in *. unfold acquire_pop in Hpop.
    destruct (available_pool_ p) as [|c0 rest] eqn:Hav; simplify_eq/=.
    split; simpl in *; try done; [unfold places; simpl; rewrite <-H1; solve_Permutation|lia].
  - destruct Hinv as [H1 H2 H3 H4 H5 H6]. unfold places in *. simpl in *. split; simpl; try done.
    + unfold places. simpl. rewrite <-H1. solve_Permutation.
    + by apply Forall_cons.
  - by eapply pinv_step.
  - destruct Hinv as [H1 H2 H3 H4 H5 H6]. unfold places in *. simpl in *.
    rewrite bind_app, bind_cons in H2, H4. simpl in H2, H4. rewrite <-bind_app in H2, H4.
    rewrite fmap_app, fmap_cons in H1. apply Forall_app in H5 as [? [_ ?]%Forall_cons].
    split; simpl in *; try done; [|by apply Forall_app|rewrite length_app; simpl; lia].
    unfold places. simpl. rewrite fmap_app, <-H1. solve_Permutation.
  - destruct Hinv as [H1 H2 H3 H4 H5 H6]. unfold places in *. simpl in *. split; simpl; try done.
    rewrite uint_small; [lia|]. assert (length (available_pool_ p) <= n)%nat.
    { rewrite <-H3. apply Permutation_length in H1. rewrite !length_app in H1. lia. }
    unfold INT32_MAX in Hn. lia.
Qed.

Lemma pstep_inv n s s' : (Z.of_nat n <= INT32_MAX)%Z -> pinv n s -> pstep s s' -> pinv n s'.
Proof.
  intros Hn Hinv Hst. destruct Hst as [s s' Hst|e p p' t hs rs sg Hw|p p' t hs rs sg Hw|p w' t hs rs sg].
  - by eapply pserve_inv.
  - unfold acquire_wait in Hw. destruct (wait_ms _ _) as [ [r sm]|] eqn:Hwm; [|done].
    destruct (Z.eqb_spec r 0); simplify_eq/=. destruct (wait_ms_count _ _ _ _ Hwm) as [Hpos Hcnt]; [done|].
    destruct Hinv as [H1 H2 H3 H4 H5 H6]. simpl in *. split; simpl; try done. lia.
  - unfold try_acquire_wait in Hw. destruct (wait_ms _ _) as [ [r sm]|] eqn:Hwm; [|done].
    destruct (Z.eqb_spec r 0); simplify_eq/=. destruct (wait_ms_count _ _ _ _ Hwm) as [Hpos Hcnt]; [done|].
    destruct Hinv as [H1 H2 H3 H4 H5 H6]. simpl in *. split; simpl; try done. lia.
  - destruct Hinv. by split.
Qed.

Lemma reach_inv n s s' : (Z.of_nat n <= INT32_MAX)%Z -> pinv n s -> rtc pstep s s' -> pinv n s'.
Proof.
  intros Hn Hs Hr. revert Hs. induction Hr as [|x y z Hst _ IH]; [done|].
  intros Hx. apply IH. by eapply pstep_inv.
Qed.

(** ** Serving *)

(** No step of a returning call touches freed memory or leaves the vector. *)
Lemma release_step_ok n p r t hs rs1 rs2 sg : pinv n (PSys p t hs (rs1 ++ r :: rs2) sg) ->
  exists r' p', release_step r p = Ok (r', p').
Proof.
  intros Hinv. pose proof (pi_at _ _ Hinv) as Hat. simpl in Hat. apply Forall_app in Hat as [_ [Hat _]%Forall_cons].
  assert (is_Some (heap p !! rel_conn r)) as [o Ho].
  { apply (pi_live _ _ Hinv). simpl. apply elem_of_app. left. rewrite <-(pi_places _ _ Hinv).
    unfold places. simpl. rewrite fmap_app, fmap_cons. set_solver. }
  destruct r as [c|c|c|c i|c i|c i a|c i|c]; simpl in *; unfold mbind, outcome_bind, deref, destroy, element;
    rewrite ?Ho, ?Hat; eauto.
  - destruct (all_connections_ p !! i); eauto.
  - unfold PgConnection_new. destruct (PQconnectdb _ _). destruct (negb _); eauto.
  - simpl. unfold mbind, outcome_bind, deref. simpl. rewrite Ho. eauto.
Qed.

(** The steps left to the clients that have a place, for a pool of [n]. *)
Definition rel_left (n : nat) (r : rel) : nat :=
  match r with
  | RCheck _ => n + 9 | RReset _ => n + 8 | RRecheck _ => n + 7 | RScan _ i => 6 + (n - i)
  | RBuild _ _ => 5 | RInstall _ _ _ => 4 | RGet _ _ => 3 | RPush _ => 2
  end.
Definition pwork (n : nat) (s : psys W) : nat :=
  (n + 11) * ticketed s + (n + 10) * length (held s) + sum_list_with (rel_left n) (returning s) + signalling s.

Lemma release_step_left n r r' p p' : length (all_connections_ p) = n -> release_step r p = Ok (r', p') ->
  (forall c, r <> RPush c) -> (rel_left n r' < rel_left n r)%nat.
Proof.
  intros Hlen Hst Hnp. destruct r as [c|c|c|c i|c i|c i a|c i|c]; simpl in *;
    unfold mbind, outcome_bind, deref, destroy, element in Hst.
  1-3: destruct (heap p !! c); [|done]; simplify_eq; repeat case_match; simplify_eq; simpl; lia.
  - destruct (all_connections_ p !! i) eqn:Hx; simplify_eq; [|simpl; lia].
    apply lookup_lt_Some in Hx. case_bool_decide; simpl; lia.
  - repeat case_match; simplify_eq; simpl; lia.
  - repeat case_match; simplify_eq; simpl; lia.
  - repeat case_match; simplify_eq; simpl; lia.
  - by destruct (Hnp c).
Qed.

Lemma pserve_progress n s : pinv n s -> pwork n s <> 0%nat ->
  exists s', pserve s s' /\ (pwork n s' < pwork n s)%nat.
Proof.
  destruct s as [p t hs rs sg]. intros Hinv Hw.
  destruct sg as [|sg]; [|eexists; split; [by apply s_signal|unfold pwork; cbn; lia] ].
  destruct rs as [|r rs].
  - destruct hs as [|c hs].
    + destruct t as [|t]; [unfold pwork in Hw; simpl in Hw; lia|]. pose proof (pinv_pop n p t [] [] 0 Hinv) as Hne.
      destruct (available_pool_ p) as [|c rest] eqn:Hav; [done|].
      eexists. split; [apply s_pop; unfold acquire_pop; by rewrite Hav|unfold pwork; cbn; lia].
    + eexists. split; [apply (s_release p c t [] hs [] 0)|unfold pwork; cbn; lia].
  - assert ((exists c, r = RPush c) \/ forall c, r <> RPush c) as [ [c ->]|Hnp] by (destruct r; eauto).
    + eexists. split; [apply (s_push p c t hs [] rs 0)|unfold pwork; cbn; lia].
    + destruct (release_step_ok n p r t hs [] rs 0 Hinv) as (r' & p' & Hst).
      eexists. split; [by apply (s_step p r r' p' t hs [] rs 0)|].
      pose proof (release_step_left n r r' p p' (pi_size _ _ Hinv) Hst) as Hlt. unfold pwork. cbn.
      specialize (Hlt Hnp). lia.
Qed.

Lemma pserve_drains n s : (Z.of_nat n <= INT32_MAX)%Z -> pinv n s ->
  exists s', rtc pserve s s' /\ pinv n s' /\ pwork n s' = 0%nat.
Proof.
  intros Hn. remember (pwork n s) as k eqn:Hk. revert s Hk.
  induction (lt_wf k) as [k _ IH]. intros s -> Hinv.
  destruct (decide (pwork n s = 0%nat)) as [H0|H0]; [by exists s|].
  destruct (pserve_progress n s Hinv H0) as (s1 & Hst & Hlt).
  destruct (IH (pwork n s1) Hlt s1 eq_refl) as (s2 & Hr & Hrest).
  { by eapply pserve_inv. }
  exists s2. split; [by eapply rtc_l|done].
Qed.

(** ** The constructor *)
Lemma connect_all_spec n p p' : connect_all n p = Ok p' ->
  available_pool_ p = all_connections_ p -> NoDup (all_connections_ p) ->
  (forall c, c ∈ all_connections_ p -> is_Some (heap p !! c) /\ (c < next_ptr p)%nat) ->
  available_pool_ p' = all_connections_ p' /\ NoDup (all_connections_ p') /\
  (forall c, c ∈ all_connections_ p' -> is_Some (heap p' !! c) /\ (c < next_ptr p')%nat) /\
  length (all_connections_ p') = (length (all_connections_ p) + n)%nat /\
  available_slots_ p' = available_slots_ p /\ pool_size_ p' = pool_size_ p.
Proof.
  revert p. induction n as [|n IH]; intros p Hr Hav Hnd Hlive; simpl in Hr.
  { simplify_eq. split_and!; done || lia. }
  destruct (PgConnection_new _ _) as [[c| |] w']; [|done..].
  destruct (IH _ Hr) as (H1 & H2 & H3 & H4 & H5 & H6); simpl.
  - by rewrite Hav.
  - apply NoDup_snoc. split; [done|]. intros Hx%Hlive. lia.
  - intros x [Hx|Hx%list_elem_of_singleton]%elem_of_app.
    + destruct (Hlive x Hx) as [Hs Hlt]. rewrite lookup_insert_ne by lia. split; [done|lia].
    + subst. rewrite lookup_insert_eq. split; [eauto|lia].
  - split_and!; try done. rewrite H4. simpl. rewrite length_app. simpl. lia.
Qed.

Lemma new_pinv cs n w p : (0 <= n <= INT32_MAX)%Z ->
  PgConnectionPool_new cs n w = Ok p -> pinv (Z.to_nat n) (psys_init p).
Proof.
  intros Hn. unfold PgConnectionPool_new. rewrite (proj2 (Z.ltb_ge _ _)) by lia. intros Hr.
  destruct (connect_all_spec _ _ _ Hr) as (H1 & H2 & H3 & H4 & H5 & H6);
    [done|apply NoDup_nil_2|simpl; set_solver|].
  simpl in H4. unfold psys_init. split; simpl; unfold places; simpl; rewrite ?app_nil_r; try done; [by rewrite H1|].
  rewrite H5, H1. simpl.
  rewrite uwrap_small by (unfold in_uw, INT32_MAX in *; lia).
  rewrite uint_small by (unfold INT32_MAX in *; lia).
  simpl in H4. rewrite H4. lia.
Qed.

(** ** One call of [release] on its own *)

(** Its steps are steps of the system. *)
Lemma release_run_steps fuel r p c' p' t hs rs1 rs2 sg : release_run fuel r p = Ok (c', p') ->
  rtc pserve (PSys p t hs (rs1 ++ r :: rs2) sg) (PSys p' t hs (rs1 ++ RPush c' :: rs2) sg).
Proof.
  revert r p. induction fuel as [|fuel IH]; intros r p Hr; simpl in Hr.
  - destruct r; simplify_eq. apply rtc_refl.
  - destruct r; simplify_eq; try apply rtc_refl; unfold mbind, outcome_bind in Hr;
      destruct (release_step _ p) as [ [r' p1]| |] eqn:Hst; try done; (eapply rtc_l; [by apply s_step|by apply IH]).
Qed.

(** The scan finds the element of the connection. *)
Lemma release_scan fuel conn p k : conn ∈ drop k (all_connections_ p) ->
  exists i, all_connections_ p !! i = Some conn /\ (i < length (all_connections_ p))%nat /\
    release_run (length (all_connections_ p) - k + fuel) (RScan conn k) p =
    release_run (length (all_connections_ p) - S i + fuel) (RBuild conn i) p.
Proof.
  remember (length (all_connections_ p) - k)%nat as d eqn:Hd. revert k Hd.
  induction d as [|d IH]; intros k Hd Hin.
  { rewrite drop_ge in Hin by lia. set_solver. }
  destruct (lookup_lt_is_Some_2 (all_connections_ p) k) as [x Hx]; [lia|].
  simpl. rewrite Hx. destruct (decide (x = conn)) as [->|Hne].
  - rewrite bool_decide_true by done. exists k. split_and!; [done|lia|].
    by replace (length (all_connections_ p) - S k)%nat with d by lia.
  - rewrite bool_decide_false by done. apply (IH (S k)); [lia|].
    rewrite (drop_S _ _ _ Hx) in Hin. set_solver.
Qed.

(** What a call does: a valid connection, or one that [PQreset] repairs, goes back;
    otherwise a new object takes its element and the old one is destroyed, or, if
    the server refuses, the broken one goes back. *)
Lemma release_run_spec c o p : heap p !! c = Some o -> c ∈ all_connections_ p -> (c < next_ptr p)%nat ->
  let w1 := conn_reset o (world p) in
  exists i, all_connections_ p !! i = Some c /\
  release_run (length (all_connections_ p) + 7) (RCheck c) p =
    if is_valid o (world p) then Ok (c, p) else if is_valid o w1 then Ok (c, with_world w1 p)
    else match PgConnection_new (connstr_ p) w1 with
         | (Ok o', w2) => let a := next_ptr p in
             Ok (a, with_heap (delete c (<[a := o']> (heap p))) (S a) (PgConnection_dtor o w2)
                      (with_all (<[i := a]> (all_connections_ p)) p))
         | (Exc _, w2) => Ok (c, with_world w2 p)
         | (Ub k, _) => Ub k
         end.
Proof.
  intros Ho Hin Hlt w1. pose proof (release_scan 4 c (with_world w1 p) 0) as Hscan.
  rewrite drop_0 in Hscan. destruct (Hscan Hin) as (i & Hi & Hil & Hrun). clear Hscan. simpl in Hi, Hil, Hrun.
  exists i. split; [done|]. rewrite Nat.sub_0_r in Hrun. replace (length (all_connections_ p) + 7)%nat with
    (S (S (S (length (all_connections_ p) + 4))))%nat by lia.
  cbn [release_run release_step]. unfold mbind, outcome_bind, deref. rewrite Ho.
  destruct (is_valid o (world p)); [done|]. cbn [release_run release_step]. unfold mbind, outcome_bind, deref.
  rewrite Ho. cbn [release_run release_step]. unfold mbind, outcome_bind, deref. cbn [heap with_world].
  rewrite Ho. cbn [world with_world]. fold w1. destruct (is_valid o w1); [by destruct (_ + 4)%nat|].
  rewrite Hrun. replace (length (all_connections_ p) - S i + 4)%nat with (S (S (S (S (length (all_connections_ p) - S i))))) by lia.
  cbn [release_run release_step connstr_ world with_world]. unfold mbind, outcome_bind.
  destruct (PgConnection_new (connstr_ p) w1) as [ [o'| |] w2]; [| |done].
  - cbn [release_run release_step]. unfold mbind, outcome_bind, element, destroy, deref. cbn. rewrite Hi.
    unfold mbind, outcome_bind. cbn. rewrite lookup_insert_ne by lia. rewrite Ho. cbn.
    unfold mbind, outcome_bind, element. cbn. by rewrite list_lookup_insert_eq by done.
  - cbn [release_run release_step]. unfold mbind, outcome_bind, element. cbn. by rewrite Hi.
Qed.
End pool_invariant.

(** ** A server for the examples *)

(** Handles are numbers; [down] says whether the server accepts connections
    and [broken] lists the handles it has dropped. *)
Record demo_server : Type := Srv { srv_next : nat; srv_down : bool; srv_broken : list nat }.

#[export] Instance demo_libpq : Libpq demo_server := {|
  PQconnectdb _ s := (Some (srv_next s),
    Srv (S (srv_next s)) (srv_down s)
      (if srv_down s then srv_next s :: srv_broken s else srv_broken s));
  PQstatus_ok h s := negb (bool_decide (h ∈ srv_broken s));
  PQerrorMessage _ _ := chars "could not connect";
  PQreset h s := if srv_down s then s
    else Srv (srv_next s) (srv_down s) (filter (fun x => x <> h) (srv_broken s));
  PQfinish _ s := s;
  PQexec _ _ s := (None, s);
  PQexecParams _ _ _ s := (None, s);
  PQresultStatus _ _ := PGRES_COMMAND_OK;
  PQntuples _ _ := 0%Z;
  PQnfields _ _ := 0%Z;
  PQgetvalue _ _ _ _ := [];
  PQclear _ s := s;
|}.

Definition demo_pool : pool demo_server :=
  MkPool (chars "db") 2 (Sem 2) [0; 1]%nat [0; 1]%nat
    {[ 0%nat := MkConn (chars "db") (Some 0%nat); 1%nat := MkConn (chars "db") (Some 1%nat) ]} 2
    (Srv 2 false []).

Lemma demo_pool_new : PgConnectionPool_new (chars "db") 2 (Srv 0 false []) = Ok demo_pool.
Proof. vm_compute. reflexivity. Qed.

(** ** Properties *)

(** C10: the pool hands a connection to one client at a time.  Whatever the
    interleaving of [acquire], [try_acquire] and [release] calls and however
    connections break, at every moment the listed connections, the held ones and
    those of the [release] calls under way are together exactly the [pool_size]
    owned ones, all different and all live objects; no step of [release] touches
    freed memory or leaves the vector; a client that got through the semaphore
    finds a connection to take; and when no call is in progress the semaphore
    counts exactly the connections not held.  [release] is interleaved at each
    call into libpq and at each read or write of an element of
    [all_connections_], which happen outside [pool_lock_] and are taken to be
    indivisible (two rebuilds that meet are a data race, [pg_rebuild_race]). *)
Theorem pg_pool_exclusive {W} `{Libpq W} cs n (w : W) p s :
  (0 <= n <= INT32_MAX)%Z -> PgConnectionPool_new cs n w = Ok p ->
  rtc pstep (psys_init p) s ->
  let q := p_pool s in
  places s ≡ₚ all_connections_ q /\ NoDup (places s) /\ length (all_connections_ q) = Z.to_nat n /\
  (forall c, c ∈ all_connections_ q -> is_Some (heap q !! c)) /\
  (forall r, r ∈ returning s -> exists r' q', release_step r q = Ok (r', q')) /\
  ((0 < ticketed s)%nat -> exists c q', acquire_pop q = Ok (c, q')) /\
  (ticketed s = 0%nat -> returning s = [] -> signalling s = 0%nat ->
   (N.to_nat (count (available_slots_ q)) + length (held s) = Z.to_nat n)%nat).
Proof.
  intros Hn Hnew Hr q.
  pose proof (reach_inv (Z.to_nat n) _ _ ltac:(lia) (new_pinv cs n w p Hn Hnew) Hr) as Hinv.
  pose proof Hinv as [H1 H2 H3 H4 H5 H6]. fold q in H1, H2, H3, H4, H5, H6. split_and!.
  - done.
  - rewrite H1. by apply NoDup_app in H2 as [? _].
  - done.
  - intros c Hc. apply H4. set_solver.
  - intros r (rs1 & rs2 & Hrs)%list_elem_of_split. destruct s as [p0 t hs rs sg]. simpl in *. subst rs.
    by eapply release_step_ok.
  - intros Ht. unfold acquire_pop. destruct (available_pool_ q); [simpl in H6; lia|eauto].
  - intros Ht Hrs Hsg. rewrite Ht, Hsg in H6. unfold places in H1. rewrite Hrs in H1. simpl in H1.
    apply Permutation_length in H1. rewrite app_nil_r, length_app in H1. fold q in H1. lia.
Qed.

(** One client holds connection 0 while another is past the semaphore. *)
Definition demo_psys : psys demo_server :=
  PSys (MkPool (chars "db") 2 (Sem 0) [0; 1]%nat [1]%nat (heap demo_pool) 2 (Srv 2 false []))
    1 [0]%nat [] 0.

Lemma demo_reach : rtc pstep (psys_init demo_pool) demo_psys.
Proof.
  eapply rtc_l; [by apply (p_wait false)|]. eapply rtc_l; [by apply p_serve, s_pop|].
  eapply rtc_l; [by apply p_try|]. apply rtc_refl.
Qed.

Lemma pg_pool_exclusive_witness :
  places demo_psys ≡ₚ [0; 1]%nat /\ (exists c q', acquire_pop (p_pool demo_psys) = Ok (c, q')).
Proof.
  destruct (pg_pool_exclusive (chars "db") 2 (Srv 0 false []) demo_pool demo_psys)
    as (H1 & _ & _ & _ & _ & H2 & _).
  - unfold INT32_MAX. lia.
  - apply demo_pool_new.
  - apply demo_reach.
  - split; [exact H1|]. apply H2. simpl. lia.
Defined.

(** Two calls of [release] can meet in [all_connections_]: one is about to write the
    element the other is about to read. *)
Lemma pg_rebuild_race : exists s c1 c2 a, rtc pstep (psys_init demo_pool) s /\
  returning s = [RScan c1 0; RInstall c2 0 a].
Proof.
  eexists _, 1%nat, 0%nat, 2%nat. split.
  { eapply rtc_l; [by apply (p_wait false)|]. eapply rtc_l; [by apply (p_wait false)|].
  eapply rtc_l; [by eapply p_serve, s_pop|]. eapply rtc_l; [by apply p_serve, s_pop|].
  eapply rtc_l; [by eapply (p_world _ (Srv 2 true [0; 1]%nat))|].
  eapply rtc_l; [by eapply p_serve, (s_release _ 0%nat _ [1]%nat [])|].
  do 3 (eapply rtc_l; [by eapply p_serve, (s_step _ _ _ _ _ _ [] [])|]).
  eapply rtc_l; [by eapply p_serve, (s_step _ _ _ _ _ _ [] [])|].
  eapply rtc_l; [by eapply (p_world _ (Srv 2 false [0; 1]%nat))|].
  eapply rtc_l; [by eapply p_serve, (s_step _ _ _ _ _ _ [] [])|].
  eapply rtc_l; [by eapply (p_world _ (Srv 3 true [0; 1]%nat))|].
  eapply rtc_l; [by eapply p_serve, (s_release _ 1%nat _ [] [])|].
  do 3 (eapply rtc_l; [by eapply p_serve, (s_step _ _ _ _ _ _ [] [_])|]).
  apply rtc_refl. }
  reflexivity.
Qed.

(** C11: no client waits for ever.  In every reachable state of a pool with at least
    one connection, however many connections are broken and whatever the calls of
    libpq return (they are assumed to return), the clients that are past the
    semaphore or hold a connection can finish and return what they hold by steps of
    their own; then a client that waits in [acquire] gets through the semaphore, and
    finds a connection.  [release] is taken in the same steps as in
    [pg_pool_exclusive]. *)
Theorem pg_pool_serves {W} `{Libpq W} cs n (w : W) p s :
  (0 < n <= INT32_MAX)%Z -> PgConnectionPool_new cs n w = Ok p ->
  rtc pstep (psys_init p) s ->
  exists s' q c q', rtc pserve s s' /\ held s' = [] /\ returning s' = [] /\
    acquire_wait false (p_pool s') = Some (Ok q) /\ acquire_pop q = Ok (c, q').
Proof.
  intros Hn Hnew Hr.
  pose proof (reach_inv (Z.to_nat n) _ _ ltac:(lia) (new_pinv cs n w p ltac:(lia) Hnew) Hr) as Hinv.
  destruct (pserve_drains (Z.to_nat n) s ltac:(lia) Hinv) as ([q t hs rs sg] & Hr' & Hinv' & Hw).
  destruct Hinv' as [Hp _ Hlen _ _ Hc]. unfold pwork in Hw. unfold places in Hp. cbn in *.
  destruct hs as [|? ?]; [|cbn in Hw; nia]. apply Nat.eq_add_0 in Hw as [ [Ht Hrs]%Nat.eq_add_0 Hsg].
  destruct rs as [|r rs]; [|destruct r; cbn in Hrs; lia].
  assert (t = 0%nat) as Ht' by nia.
  cbn in *. rewrite app_nil_r in Hp. apply Permutation_length in Hp. exists (PSys q t [] [] sg).
  assert (0 < count (available_slots_ q))%N as Hpos by lia.
  unfold acquire_wait, wait_ms. cbn [p_pool held]. rewrite (proj2 (N.ltb_lt _ _) Hpos). cbn.
  destruct (available_pool_ q) as [|c rest] eqn:Hav; [cbn in Hp; lia|].
  do 3 eexists. split_and!; [exact Hr'|done|done|reflexivity|]. unfold acquire_pop. cbn. by rewrite Hav.
Qed.

(** Both connections are handed out and a client waits. *)
Lemma pg_pool_serves_witness :
  exists s' q c q', rtc pserve demo_psys s' /\ held s' = [] /\ acquire_wait false (p_pool s') = Some (Ok q) /\
    acquire_pop q = Ok (c, q') /\ acquire_wait false (p_pool demo_psys) = None.
Proof.
  destruct (pg_pool_serves (chars "db") 2 (Srv 0 false []) demo_pool demo_psys)
    as (s' & q & c & q' & H1 & H2 & _ & H3 & H4).
  - unfold INT32_MAX. lia.
  - apply demo_pool_new.
  - apply demo_reach.
  - exists s', q, c, q'. split_and!; [done..|reflexivity].
Defined.

(** [release] and the guard.  Returning a held connection never touches
    freed memory and gives its place back to the pool: a valid connection, or
    one that [PQreset] repairs, goes back itself; a broken one is replaced by
    a fresh object when the server accepts a new connection and goes back
    broken when it does not.  Whatever comes back is owned, live, and at the
    end of the list, with one more free slot; releasing the emptied guard
    again does nothing. *)
Theorem pg_release_returns {W} `{Libpq W} (p : pool W) hs1 c hs2 n :
  (Z.of_nat n <= INT32_MAX)%Z -> pinv n (PSys p 0 (hs1 ++ c :: hs2) [] 0) ->
  exists c' p',
    guard_release (guard c) p = Ok (MkGuard None false, p') /\
    guard_release (MkGuard None false) p' = Ok (MkGuard None false, p') /\
    available_pool_ p' = available_pool_ p ++ [c'] /\
    count (available_slots_ p') = (count (available_slots_ p) + 1)%N /\
    pinv n (PSys p' 0 (hs1 ++ hs2) [] 0) /\
    (exists o w1, heap p !! c = Some o /\ w1 = conn_reset o (world p) /\
       if is_valid o (world p) || is_valid o w1 then c' = c
       else match (PgConnection_new (connstr_ p) w1).1 with
            | Ok o' => c' = next_ptr p /\ heap p' !! c' = Some o' /\ heap p' !! c = None
            | _ => c' = c /\ heap p' !! c' = Some o
            end).
Proof.
  intros Hn Hinv. pose proof Hinv as [Hp Hnd Hlen Hlive _ Hc]. unfold places in Hp. simpl in *.
  assert (c ∈ all_connections_ p) as Hin by (rewrite <-Hp; set_solver).
  destruct (Hlive c ltac:(set_solver)) as [ [o Ho] Hlt].
  destruct (release_run_spec c o p Ho Hin Hlt) as (i & Hi & Hrun).
  assert (exists c' p1, release_run (length (all_connections_ p) + 7) (RCheck c) p = Ok (c', p1) /\
    available_pool_ p1 = available_pool_ p /\ available_slots_ p1 = available_slots_ p /\
    (if is_valid o (world p) || is_valid o (conn_reset o (world p)) then c' = c
     else match (PgConnection_new (connstr_ p) (conn_reset o (world p))).1 with
          | Ok o' => c' = next_ptr p /\ heap p1 !! c' = Some o' /\ heap p1 !! c = None
          | _ => c' = c /\ heap p1 !! c' = Some o
          end)) as (c' & p1 & Hfix & Hav & Hsl & Hwhat).
  { rewrite Hrun. destruct (is_valid o (world p)); [by exists c, p|]. simpl.
    destruct (is_valid o (conn_reset o (world p))); [by eexists c, _|]. unfold PgConnection_new.
    destruct (PQconnectdb _ _) as [h w2]. destruct (negb _); simpl; [by eexists c, _|].
    do 2 eexists. split; [reflexivity|]. simpl. split_and!; [done..| |apply lookup_delete_eq].
    rewrite lookup_delete_ne by lia. apply lookup_insert_eq. }
  assert (pinv n (PSys (release_signal (release_push c' p1)) 0 (hs1 ++ hs2) [] 0)) as Hinv2.
  { apply (pserve_inv n (PSys (release_push c' p1) 0 (hs1 ++ hs2) [] 1)); [done| |constructor].
    apply (pserve_inv n (PSys p1 0 (hs1 ++ hs2) [RPush c'] 0)); [done| |apply (s_push p1 c' 0 (hs1 ++ hs2) [] [] 0)].
    apply (reach_inv n (PSys p 0 (hs1 ++ c :: hs2) [] 0)); [done|done|].
    eapply rtc_l; [apply p_serve, s_release|]. eapply (rtc_congruence id); [|exact (release_run_steps _ _ _ _ _ 0 (hs1 ++ hs2) [] [] 0 Hfix)].
    intros x y. apply p_serve. }
  exists c', (release_signal (release_push c' p1)). split_and!.
  - simpl. unfold release, mbind, outcome_bind. by rewrite Hfix.
  - done.
  - simpl. by rewrite Hav.
  - pose proof (pi_count _ _ Hinv2) as H5. simpl in *. rewrite Hsl in *.
    rewrite length_app, Hav in H5. simpl in H5. lia.
  - done.
  - exists o, (conn_reset o (world p)). split_and!; [done|done|].
    destruct (_ || _); [done|]. by destruct (PgConnection_new _ _).1.
Qed.

(** Client 0's connection broke and the server is down. *)
Definition demo_broken : pool demo_server :=
  with_world (Srv 2 true [0]%nat)
    (with_avail [1]%nat (with_slots (Sem 1) demo_pool)).

Lemma demo_broken_inv : pinv 2 (PSys demo_broken 0 [0]%nat [] 0).
Proof.
  split; simpl; unfold places; simpl; try done; [solve_Permutation| |].
  - apply (bool_decide_unpack _). vm_compute. exact I.
  - intros c Hc. assert (c = 0 \/ c = 1)%nat as [-> | ->] by set_solver;
      (split; [vm_compute; eauto|lia]).
Qed.

Lemma pg_release_returns_witness :
  exists c' p',
    guard_release (guard 0%nat) demo_broken = Ok (MkGuard None false, p') /\
    guard_release (MkGuard None false) p' = Ok (MkGuard None false, p') /\
    available_pool_ p' = [1]%nat ++ [c'] /\
    count (available_slots_ p') = 2%N /\
    pinv 2 (PSys p' 0 [] [] 0) /\
    (exists o w1, heap demo_broken !! 0%nat = Some o /\ w1 = conn_reset o (world demo_broken) /\
       if is_valid o (world demo_broken) || is_valid o w1 then c' = 0%nat
       else match (PgConnection_new (connstr_ demo_broken) w1).1 with
            | Ok o' => c' = next_ptr demo_broken /\ heap p' !! c' = Some o' /\
                       heap p' !! 0%nat = None
            | _ => c' = 0%nat /\ heap p' !! c' = Some o
            end).
Proof.
  apply (pg_release_returns demo_broken [] 0 [] 2); [unfold INT32_MAX; lia|].
  apply demo_broken_inv.
Defined.

(** A broken connection is handed out again as it is.  When the rebuild
    in [release] fails, the connection goes to the list; [try_acquire] does
    not look at it: if it is next, the client gets it although it is not
    valid (a comment in [release] expects the next acquire to try again). *)
Theorem pg_broken_connection_reissued {W} `{Libpq W} (p : pool W) c o e w2 :
  available_pool_ p = [] -> count (available_slots_ p) = 0%N -> heap p !! c = Some o ->
  c ∈ all_connections_ p -> (c < next_ptr p)%nat -> is_valid o (world p) = false ->
  is_valid o (conn_reset o (world p)) = false ->
  PgConnection_new (connstr_ p) (conn_reset o (world p)) = (Exc e, w2) ->
  is_valid o w2 = false ->
  exists p1 p2,
    release c p = Ok p1 /\ try_acquire p1 = Ok (Some (guard c), p2) /\
    heap p2 !! c = Some o /\ is_valid o (world p2) = false.
Proof.
  intros Hav Hcnt Ho Hin Hlt Hv1 Hv2 Hnew Hv3. destruct (release_run_spec c o p Ho Hin Hlt) as (i & _ & Hrun).
  unfold release, mbind, outcome_bind. rewrite Hrun, Hv1, Hv2, Hnew. do 2 eexists. split; [reflexivity|].
  unfold release_signal, release_push, try_acquire, try_acquire_wait, wait_ms, signal. simpl.
  rewrite Hav, Hcnt. simpl. split; [reflexivity|]. done.
Qed.

Lemma pg_broken_connection_reissued_witness :
  let p := with_avail [] (with_slots (Sem 0) demo_broken) in
  exists p1 p2,
    release 0%nat p = Ok p1 /\ try_acquire p1 = Ok (Some (guard 0%nat), p2) /\
    heap p2 !! 0%nat = Some (MkConn (chars "db") (Some 0%nat)) /\
    is_valid (MkConn (chars "db") (Some 0%nat)) (world p2) = false.
Proof.
  eapply (pg_broken_connection_reissued (with_avail [] (with_slots (Sem 0) demo_broken)) 0
            (MkConn (chars "db") (Some 0%nat))); try reflexivity.
  - apply (bool_decide_unpack _). vm_compute. exact I.
  - simpl. lia.
Defined.
