(* ===== verification/Sock.v ===== *)
(** * Sockets (include/sock.hpp, src/sock.cpp)

    [Socket] and its subclasses [TcpSocket], [UnixUdp] and [InetUdpSocket]:
    wrappers that own one socket descriptor and, for Unix sockets, the file
    the descriptor is bound to.  The socket system calls are outside the
    repository: [SockOs] is their interface, [SockFds] states which of them
    open and close descriptors, and [Net] is a small network that satisfies
    it.  The log messages are left out. *)

From S2P Require Import Prelude Wp Text.

(** ** System calls *)

(** [-1] is a call that failed; [errno] goes with it where the code reads it.
    An address is the 32 bits of [s_addr], a [sockaddr] 16 bytes. *)
Class SockOs (OS : Type) := {
  sys_socket : Z -> Z -> Z -> OS -> Z * OS;
  sys_close : Z -> OS -> OS;
  sys_shutdown : Z -> OS -> OS;
  sys_setsockopt : Z -> Z -> Z -> OS -> Z * OS;
  sys_so_error : Z -> OS -> (Z * Z) * OS;
  sys_getfl : Z -> OS -> Z;
  sys_setfl : Z -> Z -> OS -> OS;
  sys_unlink : str -> OS -> OS;
  sys_bind_un : Z -> str -> OS -> Z * OS;
  sys_bind_in : Z -> Z -> Z -> OS -> Z * OS;
  sys_listen : Z -> Z -> OS -> Z * OS;
  sys_connect : Z -> Z -> Z -> OS -> (Z * Z) * OS;
  sys_accept : Z -> OS -> Z * OS;
  sys_select_r : Z -> option (Z * Z) -> OS -> (Z * bool) * OS;
  sys_select_rw : Z -> Z -> OS -> (Z * bool) * OS;
  sys_recv : Z -> nat -> Z -> OS -> option (list Z) * OS;
  sys_recvfrom : Z -> nat -> Z -> OS -> option (list Z * list Z) * OS;
  sys_send : Z -> list Z -> Z -> OS -> Z * OS;
  sys_sendto_un : Z -> list Z -> Z -> str -> OS -> Z * OS;
  sys_sendto_in : Z -> list Z -> Z -> Z -> Z -> OS -> Z * OS;
  sys_getname : bool -> Z -> OS -> option (list Z);
  inet_addr : str -> Z;
  gethostbyname : str -> OS -> option Z;
}.

(** Error numbers of the target. *)
Definition EBADF : Z := 9.
Definition EINPROGRESS : Z := 115.

(** The open descriptors: [socket] and [accept] return a fresh one, [close]
    frees it and no other call changes the set.  There is nothing to connect
    without a descriptor. *)
Class SockFds (OS : Type) `{SockOs OS} := {
  sfds : OS -> gset Z;
  socket_fail : forall f t p os, (sys_socket f t p os).1 = (-1)%Z ->
    sfds (sys_socket f t p os).2 = sfds os;
  socket_fresh : forall f t p os, (sys_socket f t p os).1 <> (-1)%Z ->
    ((sys_socket f t p os).1 ∉ sfds os) /\
    sfds (sys_socket f t p os).2 = {[ (sys_socket f t p os).1 ]} ∪ sfds os;
  accept_fail : forall fd os, (sys_accept fd os).1 = (-1)%Z ->
    sfds (sys_accept fd os).2 = sfds os;
  accept_fresh : forall fd os, (sys_accept fd os).1 <> (-1)%Z ->
    ((sys_accept fd os).1 ∉ sfds os) /\
    sfds (sys_accept fd os).2 = {[ (sys_accept fd os).1 ]} ∪ sfds os;
  close_frees : forall fd os, sfds (sys_close fd os) = (sfds os ∖ {[ fd ]});
  shutdown_fds : forall fd os, sfds (sys_shutdown fd os) = sfds os;
  setsockopt_fds : forall fd o v os, sfds (sys_setsockopt fd o v os).2 = sfds os;
  so_error_fds : forall fd os, sfds (sys_so_error fd os).2 = sfds os;
  setfl_fds : forall fd v os, sfds (sys_setfl fd v os) = sfds os;
  unlink_fds : forall p os, sfds (sys_unlink p os) = sfds os;
  bind_un_fds : forall fd p os, sfds (sys_bind_un fd p os).2 = sfds os;
  bind_in_fds : forall fd a p os, sfds (sys_bind_in fd a p os).2 = sfds os;
  listen_fds : forall fd n os, sfds (sys_listen fd n os).2 = sfds os;
  connect_badf : forall a p os, (sys_connect (-1) a p os).1 = ((-1)%Z, EBADF);
  connect_fds : forall fd a p os, sfds (sys_connect fd a p os).2 = sfds os;
  select_r_fds : forall fd t os, sfds (sys_select_r fd t os).2 = sfds os;
  select_rw_fds : forall fd t os, sfds (sys_select_rw fd t os).2 = sfds os;
  recv_fds : forall fd n fl os, sfds (sys_recv fd n fl os).2 = sfds os;
  recvfrom_fds : forall fd n fl os, sfds (sys_recvfrom fd n fl os).2 = sfds os;
  send_fds : forall fd b fl os, sfds (sys_send fd b fl os).2 = sfds os;
  sendto_un_fds : forall fd b fl p os, sfds (sys_sendto_un fd b fl p os).2 = sfds os;
  sendto_in_fds : forall fd b fl a p os, sfds (sys_sendto_in fd b fl a p os).2 = sfds os;
}.

(** ** Data *)
Definition INVALID_SOCKET : Z := (-1)%Z.
Definition SOCKET_ERROR : Z := (-1)%Z.
Definition INADDR_NONE : Z := 0xffffffff.
Definition INADDR_ANY : Z := 0.
Definition INADDR_BROADCAST : Z := 0xffffffff.
Definition RETRY_COUNT : nat := 1.
Definition SOCKET_SND_RCV_BUFFER : Z := 16384.

(** Constants of the target. *)
Definition AF_UNIX : Z := 1.
Definition AF_INET : Z := 2.
Definition SOCK_STREAM : Z := 1.
Definition SOCK_DGRAM : Z := 2.
Definition SO_REUSEADDR : Z := 2.
Definition SO_SNDBUF : Z := 7.
Definition SO_RCVBUF : Z := 8.
Definition SO_LINGER : Z := 13.
Definition O_NONBLOCK : Z := 2048.
Definition FD_SETSIZE : Z := 1024.
Definition SUN_PATH_MAX : nat := 107.

(** The members of [TcpSocket]; nothing ever sets [exit_]. *)
Record tcp_members : Type := TcpM {
  port_ : Z; addr_buf_ : str; reconnect_interval_ : Z; reconnect_retry_count_ : Z;
}.

Record socket : Type := Sk {
  socket_fd_ : Z; m_path : str; addr_type_ : Z; tcp : tcp_members;
}.

Definition Socket_new : socket := Sk INVALID_SOCKET [] AF_INET (TcpM 0 [] 5 0).

Definition with_fd (fd : Z) (s : socket) : socket := Sk fd (m_path s) (addr_type_ s) (tcp s).
Definition with_path (p : str) (s : socket) : socket := Sk (socket_fd_ s) p (addr_type_ s) (tcp s).
Definition with_type (t : Z) (s : socket) : socket := Sk (socket_fd_ s) (m_path s) t (tcp s).
Definition with_tcp (t : tcp_members) (s : socket) : socket :=
  Sk (socket_fd_ s) (m_path s) (addr_type_ s) t.

(** [strncpy] into a zeroed buffer that keeps [n] characters. *)
Definition strncpy (n : nat) (s : str) : str := take n (cstr s).

(** [htons] of a cast to 16 bits: what goes on the wire is the port. *)
Definition wire_port (nPort : Z) : Z := u16 nPort.

(** [ntohs] and [inet_ntoa] of a [sockaddr_in] held in 16 bytes. *)
Definition sin_port (sa : list Z) : Z :=
  (256 * nth 2 sa 0 + nth 3 sa 0)%Z.
Definition inet_ntoa (sa : list Z) : str :=
  print_int (nth 4 sa 0%Z) ++ chars "." ++ print_int (nth 5 sa 0%Z) ++ chars "."
  ++ print_int (nth 6 sa 0%Z) ++ chars "." ++ print_int (nth 7 sa 0%Z).

(** ["%s"] of the [sun_path] of a [sockaddr]: 14 bytes, read up to a NUL. *)
Fixpoint c_string (bs : list Z) : outcome (list Z) :=
  match bs with
  | [] => Ub OutOfBounds
  | b :: bs => if (b =? 0)%Z then Ok [] else s ← c_string bs; Ok (b :: s)
  end.
Definition sun_path (sa : list Z) : outcome (list Z) := c_string (drop 2 sa).

Section sockets.
Context `{SockOs OS}.

Definition SM (A : Type) : Type := M (socket * OS) A.
#[global] Instance SM_ret : MRet SM := M_ret.
#[global] Instance SM_bind : MBind SM := M_bind.

Definition self : SM socket := fun '(s, os) => Ok (s, (s, os)).
Definition upd (f : socket -> socket) : SM unit := fun '(s, os) => Ok (tt, (f s, os)).
Definition sys {A} (f : OS -> A * OS) : SM A :=
  fun '(s, os) => let '(a, os') := f os in Ok (a, (s, os')).
Definition sys_ (f : OS -> OS) : SM unit := fun '(s, os) => Ok (tt, (s, f os)).
Definition env {A} (f : OS -> A) : SM A := fun '(s, os) => Ok (f os, (s, os)).
Definition ub {A} (k : ub_kind) : SM A := fun _ => Ub k.

(** ** [Socket] *)
Definition close : SM unit :=
  s ← self;
  let fd := socket_fd_ s in
  _ ← upd (with_fd INVALID_SOCKET);
  _ ← (if negb (fd =? INVALID_SOCKET)%Z
       then _ ← sys (sys_setsockopt fd SO_LINGER 1);
            _ ← sys_ (sys_shutdown fd);
            sys_ (sys_close fd)
       else mret tt);
  match m_path s with
  | [] => mret tt
  | p => _ ← sys_ (sys_unlink p); upd (with_path [])
  end.

Definition assign_socket (hSocket nAddrType : Z) : SM bool :=
  _ ← upd (fun s => with_type nAddrType (with_fd hSocket s)); mret true.

Definition create_socket (nAddrFormat nSocketType nProtocolType : Z) : SM bool :=
  s ← self;
  if negb (socket_fd_ s =? INVALID_SOCKET)%Z then mret false
  else
    _ ← upd (with_type nAddrFormat);
    fd ← sys (sys_socket nAddrFormat nSocketType nProtocolType);
    _ ← upd (with_fd fd);
    if (fd =? INVALID_SOCKET)%Z then mret false
    else if (nAddrFormat =? AF_INET)%Z then
      r ← sys (sys_setsockopt fd SO_REUSEADDR 1);
      if negb (r =? 0)%Z
      then _ ← sys_ (sys_close fd); _ ← upd (with_fd INVALID_SOCKET); mret false
      else mret true
    else mret true.

(** The [bind] of a path; a null path is dereferenced by [strncpy]. *)
Definition bind_path (pszPath : option str) : SM bool :=
  match pszPath with
  | None => ub NullDeref
  | Some p =>
      s ← self;
      _ ← sys_ (sys_unlink (cstr p));
      ret ← sys (sys_bind_un (socket_fd_ s) (strncpy SUN_PATH_MAX p));
      mret (negb (ret =? SOCKET_ERROR)%Z)
  end.

(** The buffer sizes set after a bind; the results are only logged. *)
Definition set_buffers (fd : Z) : SM unit :=
  _ ← sys (sys_setsockopt fd SO_RCVBUF SOCKET_SND_RCV_BUFFER);
  _ ← sys (sys_setsockopt fd SO_SNDBUF SOCKET_SND_RCV_BUFFER);
  mret tt.

(** [long lResult = inet_addr(pszAddr)] keeps the 32 unsigned bits. *)
Definition bind_port (nPort : Z) (pszAddr : option str) : SM bool :=
  s ← self;
  let addr := match pszAddr with
              | None => Some INADDR_ANY
              | Some a =>
                  let lResult := inet_addr a in
                  if (lResult =? -1)%Z then None else Some lResult
              end in
  match addr with
  | None => mret false
  | Some a =>
      ret ← sys (sys_bind_in (socket_fd_ s) a (wire_port nPort));
      if negb (ret =? SOCKET_ERROR)%Z
      then _ ← set_buffers (socket_fd_ s); mret true
      else mret false
  end.

Definition open_path (pszPath : option str) : SM bool :=
  _ ← upd (with_path (cstr (default [] pszPath)));
  ok ← create_socket AF_UNIX SOCK_DGRAM 0;
  if negb ok then mret false
  else
    ok ← bind_path pszPath;
    if negb ok then _ ← close; mret false
    else s ← self; _ ← set_buffers (socket_fd_ s); mret true.

(** [FD_SET] of a descriptor beyond the set writes outside of it. *)
Definition fd_set_ok (fd : Z) : SM unit :=
  if ((0 <=? fd) && (fd <? FD_SETSIZE))%Z then mret tt else ub OutOfBounds.

Definition select_on (tmo : option (Z * Z)) : SM Z :=
  s ← self;
  let fd := socket_fd_ s in
  if (fd =? INVALID_SOCKET)%Z then mret (-1)%Z
  else
    _ ← fd_set_ok fd;
    r ← sys (sys_select_r fd tmo);
    mret (if (r.1 =? -1)%Z then (-1)%Z
          else if (r.1 =? 0)%Z || negb r.2 then 0%Z else 1%Z).

(** Milliseconds to seconds and microseconds, truncating as C does. *)
Definition select_ms (timeout : Z) : SM Z :=
  select_on (Some (Z.quot timeout 1000, (Z.rem timeout 1000 * 1000)%Z)).
Definition select_forever : SM Z := select_on None.

(** [-1], or the number of bytes, and the bytes. *)
Definition recv (nBufLen : nat) (nFlags : Z) : SM (Z * list Z) :=
  s ← self;
  r ← sys (sys_recv (socket_fd_ s) nBufLen nFlags);
  mret (match r with None => ((-1)%Z, []) | Some bs => (Z.of_nat (length bs), bs) end).

(** The sender's name as bytes and its port (untouched for Unix sockets). *)
Definition name_of (sa : list Z) (rPort : Z) : SM (list Z * Z) :=
  s ← self;
  if (addr_type_ s =? AF_UNIX)%Z
  then match sun_path sa with
       | Ok p => mret (p, rPort)
       | Exc e => throw e
       | Ub k => ub k
       end
  else mret (map code (inet_ntoa sa), sin_port sa).

Definition recv_from (nBufLen : nat) (rPort nFlags : Z) : SM (Z * list Z * list Z * Z) :=
  s ← self;
  r ← sys (sys_recvfrom (socket_fd_ s) nBufLen nFlags);
  match r with
  | None => mret ((-1)%Z, [], [], rPort)
  | Some (bs, sa) =>
      np ← name_of sa rPort;
      mret (Z.of_nat (length bs), bs, np.1, np.2)
  end.

Definition send (bs : list Z) (nFlags : Z) : SM Z :=
  s ← self; sys (sys_send (socket_fd_ s) bs nFlags).

(** The retry loop for Unix sockets, [tries] to go; the sleep between
    tries is left out. *)
Fixpoint send_un_loop (tries : nat) (bs : list Z) (nFlags : Z) (to_ : str) : SM Z :=
  match tries with
  | O => mret 0%Z
  | S tries =>
      s ← self;
      len ← sys (sys_sendto_un (socket_fd_ s) bs nFlags to_);
      if (len =? Z.of_nat (length bs))%Z then mret len
      else match tries with
           | O => mret 0%Z
           | _ => match m_path s with [] => mret 0%Z | _ => send_un_loop tries bs nFlags to_ end
           end
  end.

(** A name that is not a dotted quad is looked up. *)
Definition resolve (a : str) : SM (option Z) :=
  if (inet_addr a =? INADDR_NONE)%Z then env (gethostbyname a) else mret (Some (inet_addr a)).

Definition send_to (bs : list Z) (nHostPort : Z) (lpszHostAddress : option str) (nFlags : Z)
    : SM Z :=
  s ← self;
  if (addr_type_ s =? AF_UNIX)%Z then
    match lpszHostAddress with
    | None => mret 0%Z
    | Some a => send_un_loop RETRY_COUNT bs nFlags (strncpy SUN_PATH_MAX a)
    end
  else if (socket_fd_ s =? INVALID_SOCKET)%Z then mret (-1)%Z
  else
    a ← match lpszHostAddress with
        | None => mret (Some INADDR_BROADCAST)
        | Some h => resolve h
        end;
    match a with
    | None => mret SOCKET_ERROR
    | Some a => sys (sys_sendto_in (socket_fd_ s) bs nFlags a (wire_port nHostPort))
    end.

(** [sock_name] ([peer] false) and [peer_name]; [None] is [false]. *)
Definition name_query (peer : bool) (rPort : Z) : SM (option (list Z * Z)) :=
  s ← self;
  r ← env (sys_getname peer (socket_fd_ s));
  match r with
  | None => mret None
  | Some sa => np ← name_of sa rPort; mret (Some np)
  end.

(** ** [TcpSocket] *)
Definition tcp_open (nPort : Z) (pszAddr : option str) : SM bool :=
  ok ← create_socket AF_INET SOCK_STREAM 0;
  if ok : bool then
    b ← bind_port nPort pszAddr;
    if b : bool then mret true else _ ← close; mret false
  else mret false.

Definition listen (nConnectionBacklog : Z) : SM bool :=
  s ← self;
  r ← sys (sys_listen (socket_fd_ s) nConnectionBacklog);
  mret (negb (r =? SOCKET_ERROR)%Z).

Definition prepare_to_server (nPort : Z) (pszAddr : option str) (backlog : Z) : SM bool :=
  ok ← tcp_open nPort pszAddr;
  if ok : bool then listen backlog else mret false.

Definition connect_plain (a port : Z) : SM bool :=
  s ← self;
  r ← sys (sys_connect (socket_fd_ s) a port);
  mret (negb (r.1 =? SOCKET_ERROR)%Z).

(** The non-blocking connect with a time limit: wait for the result of a
    connect in progress, [nFlags] being the flags to restore. *)
Definition connect_wait (fd nFlags nSec : Z) : SM bool :=
  _ ← fd_set_ok fd;
  sel ← sys (sys_select_rw fd nSec);
  if (sel.1 =? 0)%Z then _ ← close; mret false
  else if sel.2 : bool then
    e ← sys (sys_so_error fd);
    if (e.1 =? SOCKET_ERROR)%Z then mret false
    else
      _ ← sys_ (sys_setfl fd nFlags);
      if negb (e.2 =? 0)%Z then _ ← close; mret false else mret true
  else mret false.

Definition connect_timed (a port nSec : Z) : SM bool :=
  s ← self;
  let fd := socket_fd_ s in
  nFlags ← env (sys_getfl fd);
  _ ← sys_ (sys_setfl fd (Z.lor nFlags O_NONBLOCK));
  r ← sys (sys_connect fd a port);
  if (r.1 =? SOCKET_ERROR)%Z && negb (r.2 =? EINPROGRESS)%Z then mret false
  else if negb (r.1 =? SOCKET_ERROR)%Z then _ ← sys_ (sys_setfl fd nFlags); mret true
  else connect_wait fd nFlags nSec.

Definition connect (nPort : Z) (lpszAddr : option str) (bBlock : bool) (nSec : Z) : SM bool :=
  match lpszAddr with
  | None => mret false
  | Some h =>
      a ← resolve h;
      match a with
      | None => mret false
      | Some a => if bBlock then connect_timed a (wire_port nPort) nSec
                  else connect_plain a (wire_port nPort)
      end
  end.

(** [port_] and the [strncpy] into [addr_buf_], which keeps 15 characters of the
    address; [own] says that the address is [addr_buf_] itself, and copying a
    buffer onto itself with [strncpy] is undefined. *)
Definition store_address (own : bool) (nPort : Z) (a : str) : SM unit :=
  if own then ub Overlap
  else upd (fun s => with_tcp (TcpM nPort (strncpy 15 a) (reconnect_interval_ (tcp s))
                                   (reconnect_retry_count_ (tcp s))) s).

Definition prepare_to_client_from (own : bool) (nPort : Z) (pszAddr : option str) (bBlock : bool)
    (nSec : Z) : SM bool :=
  _ ← store_address own nPort (default [] pszAddr);
  ok ← create_socket AF_INET SOCK_STREAM 0;
  if ok : bool then
    c ← connect nPort pszAddr bBlock nSec;
    if c : bool then mret true else _ ← close; mret false
  else mret false.
(** With an address of the caller's. *)
Definition prepare_to_client : Z -> option str -> bool -> Z -> SM bool := prepare_to_client_from false.

Definition set_env_params (nInterval nRetryCount : Z) : SM unit :=
  upd (fun s => with_tcp (TcpM (port_ (tcp s)) (addr_buf_ (tcp s)) nInterval nRetryCount) s).

(** One round of [reconnect]: close, and try the stored address again. *)
Definition reconnect_round : SM bool :=
  _ ← close;
  s ← self;
  prepare_to_client_from true (port_ (tcp s)) (Some (addr_buf_ (tcp s))) true 5.

(** [reconnect] with [nCount] failures so far; [None] is a loop that has not
    ended within [fuel] rounds.  [exit_] is never set.  The sleeps are left out. *)
Fixpoint reconnect_loop (fuel : nat) (nCount : Z) : SM (option bool) :=
  match fuel with
  | O => mret None
  | S fuel =>
      bRet ← reconnect_round;
      if bRet : bool then mret (Some true)
      else
        s ← self;
        match chk32 (nCount + 1) with
        | Ok n =>
            if negb (reconnect_retry_count_ (tcp s) =? 0)%Z
               && (reconnect_retry_count_ (tcp s) <? n)%Z
            then mret (Some false) else reconnect_loop fuel n
        | Exc e => throw e
        | Ub k => ub k
        end
  end.
Definition reconnect (fuel : nat) : SM (option bool) := reconnect_loop fuel 0.

(** The [accept] of an address puts the connection in the place of the
    listening socket; [accept()] returns a new object. *)
Definition accept_in_place : SM bool :=
  s ← self;
  if (socket_fd_ s =? INVALID_SOCKET)%Z then mret false
  else
    fd ← sys (sys_accept (socket_fd_ s));
    if (fd =? INVALID_SOCKET)%Z then mret false
    else _ ← upd (with_fd fd); mret true.
Definition accept_new : SM (option socket) :=
  s ← self;
  fd ← sys (sys_accept (socket_fd_ s));
  mret (if (fd =? INVALID_SOCKET)%Z then None
        else Some (with_type AF_INET (with_fd fd Socket_new))).

(** ** [UnixUdp] and [InetUdpSocket] *)
Definition unix_send_to (bs : list Z) (pszTo : option str) : SM Z := send_to bs 0 pszTo 0.

(** The [send_to] of a [sockaddr_un]: 1 for sent. *)
Fixpoint unix_send_addr_loop (tries : nat) (bs : list Z) (to_ : str) : SM Z :=
  match tries with
  | O => mret 0%Z
  | S tries =>
      s ← self;
      len ← sys (sys_sendto_un (socket_fd_ s) bs 0 to_);
      if (len =? Z.of_nat (length bs))%Z then mret 1%Z
      else match tries with
           | O => mret 0%Z
           | _ => match m_path s with [] => mret 0%Z | _ => unix_send_addr_loop tries bs to_ end
           end
  end.
Definition unix_send_to_addr (bs : list Z) (to_ : str) : SM Z :=
  unix_send_addr_loop RETRY_COUNT bs to_.

Fixpoint unix_recv_loop (tries : nat) (buflen : nat) : SM (Z * list Z) :=
  match tries with
  | O => mret (0%Z, [])
  | S tries =>
      s ← self;
      r ← sys (sys_recvfrom (socket_fd_ s) buflen 0);
      match r with
      | Some (b :: bs, _) => mret (Z.of_nat (length (b :: bs)), b :: bs)
      | _ => match tries with
             | O => mret (0%Z, [])
             | _ => match m_path s with
                    | [] => mret (0%Z, [])
                    | _ => unix_recv_loop tries buflen
                    end
             end
      end
  end.
Definition unix_recv_from (buflen : nat) : SM (Z * list Z) := unix_recv_loop RETRY_COUNT buflen.

Definition inet_udp_open (nPort : Z) (pszAddr : option str) : SM bool :=
  ok ← create_socket AF_INET SOCK_DGRAM 0;
  if ok : bool then
    b ← bind_port nPort pszAddr;
    if b : bool then mret true else _ ← close; mret false
  else mret false.

(** *** Overrides *)
Definition socket_open_port (nPort : Z) (pszAddr : option str) : SM bool := mret true.
Definition tcp_open_path (pszPath : option str) : SM bool := mret false.
Definition tcp_close : SM unit := close.
Definition unix_open_path : option str -> SM bool := open_path.
Definition unix_open_port (nPort : Z) (pszAddr : option str) : SM bool := mret false.
Definition inet_open_path (pszPath : option str) : SM bool := mret false.
Definition unix_recv (nBufLen : nat) (nFlags : Z) : SM (Z * list Z) := unix_recv_from nBufLen.
Definition unix_recv_from_named (nBufLen : nat) (rPort nFlags : Z) : SM (Z * list Z * list Z * Z) :=
  mret (0%Z, [], [], rPort).
Definition unix_send (bs : list Z) (nFlags : Z) : SM Z := mret 0%Z.
Definition unix_send_to_port (bs : list Z) (nHostPort : Z) (lpszHostAddress : option str) (nFlags : Z) : SM Z :=
  send_to bs nHostPort lpszHostAddress nFlags.
End sockets.

(** ** Descriptor ownership *)
Create HintDb sfds discriminated.
#[export] Hint Resolve shutdown_fds setsockopt_fds so_error_fds setfl_fds unlink_fds bind_un_fds
  bind_in_fds listen_fds connect_fds select_r_fds select_rw_fds recv_fds recvfrom_fds send_fds
  sendto_un_fds sendto_in_fds : sfds.

(** No descriptor is beyond the capacity of an [fd_set]: the limit of the
    process is at most [FD_SETSIZE]. *)
Class FdLimit (OS : Type) `{SockOs OS} := {
  socket_limit : forall f t p os, (sys_socket f t p os).1 <> (-1)%Z ->
    (0 <= (sys_socket f t p os).1 < FD_SETSIZE)%Z;
  accept_limit : forall fd os, (sys_accept fd os).1 <> (-1)%Z ->
    (0 <= (sys_accept fd os).1 < FD_SETSIZE)%Z;
}.

Definition fd_range (s : socket) : Prop :=
  socket_fd_ s = INVALID_SOCKET \/ (0 <= socket_fd_ s < FD_SETSIZE)%Z.

(** The descriptors open besides those of [base] are exactly the socket's. *)
Definition sk_owns `{SockFds OS} (base : gset Z) (st : socket * OS) : Prop :=
  fd_range st.1 /\
  if (socket_fd_ st.1 =? INVALID_SOCKET)%Z then sfds st.2 = base
  else (socket_fd_ st.1 ∉ base) /\ sfds st.2 = {[ socket_fd_ st.1 ]} ∪ base.

(** The calls of one client, each on the same object. *)
Inductive sock_op : Type :=
| OpenPath (p : option str) | OpenTcp (port : Z) (a : option str)
| OpenUdp (port : Z) (a : option str) | Close
| Client (port : Z) (a : option str) (timed : bool) (sec : Z)
| Server (port : Z) (a : option str) (backlog : Z)
| Listen (backlog : Z) | Connect (port : Z) (a : option str) (timed : bool) (sec : Z)
| Params (interval retry : Z)
| Select (tmo : Z) | Select0 | Recv (n : nat) | Send (bs : list Z)
| SendTo (bs : list Z) (port : Z) (a : option str)
| UnixSendTo (bs : list Z) (a : option str) | UnixSendAddr (bs : list Z) (a : str)
| UnixRecvFrom (n : nat) | RecvFrom (n : nat) (port : Z).

Section runs.
Context `{SockOs OS}.

Definition run_op (o : sock_op) : SM unit :=
  let ign {A} (m : SM A) : SM unit := (_ ← m; mret tt) in
  match o with
  | OpenPath p => ign (open_path p)
  | OpenTcp port a => ign (tcp_open port a)
  | OpenUdp port a => ign (inet_udp_open port a)
  | Close => close
  | Client port a t sec => ign (prepare_to_client port a t sec)
  | Server port a n => ign (prepare_to_server port a n)
  | Listen n => ign (listen n)
  | Connect port a t sec => ign (connect port a t sec)
  | Params i r => set_env_params i r
  | Select t => ign (select_ms t)
  | Select0 => ign select_forever
  | Recv n => ign (recv n 0)
  | Send bs => ign (send bs 0)
  | SendTo bs port a => ign (send_to bs port a 0)
  | UnixSendTo bs a => ign (unix_send_to bs a)
  | UnixSendAddr bs a => ign (unix_send_to_addr bs a)
  | UnixRecvFrom n => ign (unix_recv_from n)
  | RecvFrom n port => ign (recv_from n port 0)
  end.

Fixpoint run_ops (os : list sock_op) : SM unit :=
  match os with
  | [] => mret tt
  | o :: os => _ ← run_op o; run_ops os
  end.
End runs.

(** The call the class does not guard against: a null path is dereferenced. *)
Definition op_ok (o : sock_op) : bool := match o with OpenPath None => false | _ => true end.

(** The sender's address [recvfrom] reports has a zero byte in its last 14: always so
    for internet addresses, and for Unix peers whose path is shorter than that. *)
Class ShortNames (OS : Type) `{SockOs OS} :=
  recvfrom_name : forall fd n fl os bs sa, (sys_recvfrom fd n fl os).1 = Some (bs, sa) ->
    exists p, sun_path sa = Ok p.

Section rules.
Context `{SockOs OS}.
Implicit Types (s : socket) (os : OS).

Lemma wp_self (Q : socket -> socket * OS -> Prop) s os : Q s (s, os) -> wp self Q (s, os).
Proof. done. Qed.

Lemma wp_upd f (Q : unit -> socket * OS -> Prop) s os : Q tt (f s, os) -> wp (upd f) Q (s, os).
Proof. done. Qed.

Lemma wp_sys {A} (f : OS -> A * OS) (Q : A -> socket * OS -> Prop) s os :
  Q (f os).1 (s, (f os).2) -> wp (sys f) Q (s, os).
Proof. unfold wp, sys. by destruct (f os). Qed.

Lemma wp_sys_ f (Q : unit -> socket * OS -> Prop) s os : Q tt (s, f os) -> wp (sys_ f) Q (s, os).
Proof. done. Qed.

Lemma wp_env {A} (f : OS -> A) (Q : A -> socket * OS -> Prop) s os :
  Q (f os) (s, os) -> wp (env f) Q (s, os).
Proof. done. Qed.
End rules.

(** Run a method to its next call of the system or its next test. *)
Ltac wp_step :=
  lazymatch goal with
  | |- wp (mbind _ _) _ _ => apply wp_bind
  | |- wp self _ _ => apply wp_self
  | |- wp (upd _) _ _ => apply wp_upd
  | |- wp (sys _) _ _ => apply wp_sys
  | |- wp (sys_ _) _ _ => apply wp_sys_
  | |- wp (env _) _ _ => apply wp_env
  | |- wp (mret _) _ _ => apply wp_ret
  end.
Ltac wp_go :=
  repeat (wp_step; cbv beta);
  cbn [socket_fd_ m_path addr_type_ tcp with_fd with_path with_type with_tcp fst snd].

Section ownership.
Context `{SockFds OS, !FdLimit OS}.
Context (base : gset Z).
Implicit Types (s : socket) (os : OS).

Abbreviation I := (sk_owns base).

Lemma keeps_upd f : (forall s, socket_fd_ (f s) = socket_fd_ s) -> keeps I (upd f).
Proof. intros Hf [s os] Hs. apply wp_upd. unfold sk_owns, fd_range in *. simpl in *. by rewrite Hf. Qed.

Lemma keeps_sys {A} (f : OS -> A * OS) :
  (forall os, sfds (f os).2 = sfds os) -> keeps I (sys f).
Proof. intros Hf [s os] Hs. apply wp_sys. unfold sk_owns in *. simpl in *. by rewrite Hf. Qed.

Lemma keeps_sys_ f : (forall os, sfds (f os) = sfds os) -> keeps I (sys_ f).
Proof. intros Hf [s os] Hs. apply wp_sys_. unfold sk_owns in *. simpl in *. by rewrite Hf. Qed.

Lemma keeps_env {A} (f : OS -> A) : keeps I (env f).
Proof. by intros [s os] Hs. Qed.

(** What a method reads of its object it may rely on. *)
Lemma keeps_self {A} (k : socket -> SM A) :
  (forall s, fd_range s -> keeps I (k s)) -> keeps I (s ← self; k s).
Proof. intros Hk [s os] Hs. apply wp_bind, wp_self, Hk; [|done]. apply Hs. Qed.

Lemma keeps_fd_set_ok fd : (0 <= fd < FD_SETSIZE)%Z -> keeps I (fd_set_ok fd).
Proof.
  intros Hfd st Hs. unfold fd_set_ok.
  by rewrite (proj2 (Z.leb_le _ _)), (proj2 (Z.ltb_lt _ _)) by lia.
Qed.

(** [close] gives the descriptor back and forgets the path. *)
Lemma wp_close s os :
  I (s, os) ->
  wp close (fun _ st => socket_fd_ st.1 = INVALID_SOCKET /\ m_path st.1 = []
                        /\ tcp st.1 = tcp s /\ sfds st.2 = base) (s, os).
Proof.
  intros [_ Hs]. cbn [fst snd] in Hs.
  assert (Hu : forall os', sfds os' = base ->
    wp (match m_path s with [] => mret tt | p => _ ← sys_ (sys_unlink p); upd (with_path []) end)
      (fun _ st => socket_fd_ st.1 = INVALID_SOCKET /\ m_path st.1 = []
                   /\ tcp st.1 = tcp s /\ sfds st.2 = base) (with_fd INVALID_SOCKET s, os')).
  { intros os' Hos. destruct (m_path s) eqn:E; wp_go; [done|].
    split_and!; try done. cbn [snd]. by rewrite unlink_fds. }
  unfold close. wp_go. destruct (_ =? _)%Z eqn:E; cbn [negb]; wp_go.
  - by apply Hu.
  - apply Hu. rewrite close_frees, shutdown_fds, setsockopt_fds. destruct Hs. set_solver.
Qed.

Lemma closed_owned st : socket_fd_ st.1 = INVALID_SOCKET -> sfds st.2 = base -> I st.
Proof. intros Hf Hb. split; [by left|]. by rewrite Hf. Qed.

Lemma keeps_close : keeps I close.
Proof.
  intros [s os] Hs. eapply wp_mono; [|by apply wp_close].
  intros _ st (Hf & _ & _ & Hb). by apply closed_owned.
Qed.

(** A socket is only created where there was none. *)
Lemma keeps_create_socket f t p : keeps I (create_socket f t p).
Proof.
  intros [s os] Hs. unfold create_socket. wp_go.
  destruct (_ =? _)%Z eqn:E in |- *; cbn [negb]; [|by wp_go]. wp_go.
  destruct Hs as [_ Hs]. cbn [fst snd] in Hs. rewrite E in Hs.
  destruct (_ =? _)%Z eqn:E2 in |- *; wp_go.
  - apply closed_owned; simpl; [by apply Z.eqb_eq|]. rewrite socket_fail; [done|].
    by apply Z.eqb_eq.
  - pose proof E2 as Hfd%Z.eqb_neq. destruct (socket_fresh f t p os Hfd) as [Hn Hset].
    assert (Hopen : forall os', sfds os' = sfds (sys_socket f t p os).2 ->
      I (Sk (sys_socket f t p os).1 (m_path s) f (tcp s), os')).
    { intros os' Hos. split; [right; by apply socket_limit|]. cbn [fst snd socket_fd_].
      rewrite E2, Hos, Hset, <-Hs. done. }
    destruct (f =? AF_INET)%Z; wp_go; [|by apply Hopen].
    destruct (_ =? 0)%Z; cbn [negb]; wp_go; [by apply Hopen; rewrite setsockopt_fds|].
    apply closed_owned; [done|]. cbn [snd]. rewrite close_frees, setsockopt_fds, Hset, <-Hs.
    set_solver.
Qed.

(** What every method keeps, by its structure. *)
Ltac keep :=
  lazymatch goal with
  | |- forall st, _ -> wp (mbind _ self) _ st => apply keeps_self; intros ? ?; keep
  | |- forall st, _ -> wp (mbind _ _) _ st => apply keeps_bind; [keep|intros ?; keep]
  | |- forall st, _ -> wp (mret _) _ st => apply keeps_ret
  | |- forall st, _ -> wp (upd _) _ st => apply keeps_upd; intros; reflexivity
  | |- forall st, _ -> wp (sys _) _ st => apply keeps_sys; intros; auto with sfds
  | |- forall st, _ -> wp (sys_ _) _ st => apply keeps_sys_; intros; auto with sfds
  | |- forall st, _ -> wp (env _) _ st => apply keeps_env
  | |- forall st, _ -> wp (match ?x with _ => _ end) _ st =>
      lazymatch type of x with
      | bool => apply keeps_if; intros ?; keep
      | _ => destruct x eqn:?; keep
      end
  | |- _ => solve [eauto with keeps]
  end.

#[local] Hint Resolve keeps_close keeps_create_socket : keeps.

Lemma keeps_set_buffers fd : keeps I (set_buffers fd).
Proof. unfold set_buffers. keep. Qed.
#[local] Hint Resolve keeps_set_buffers : keeps.

Lemma keeps_bind_port port a : keeps I (bind_port port a).
Proof. unfold bind_port. keep. Qed.
#[local] Hint Resolve keeps_bind_port : keeps.

Lemma keeps_open_path p : keeps I (open_path (Some p)).
Proof. unfold open_path, bind_path. keep. Qed.

Lemma keeps_stream_open port a : keeps I (tcp_open port a).
Proof. unfold tcp_open. keep. Qed.
Lemma keeps_udp_open port a : keeps I (inet_udp_open port a).
Proof. unfold inet_udp_open. keep. Qed.

Lemma keeps_select tmo : keeps I (select_on tmo).
Proof.
  unfold select_on. apply keeps_self. intros s Hs. apply keeps_if; intros Hfd; [keep|].
  apply keeps_bind; [|intros ?; keep]. apply keeps_fd_set_ok.
  destruct Hs as [Hs|Hs]; [by rewrite Hs in Hfd|exact Hs].
Qed.

Lemma keeps_resolve a : keeps I (resolve a).
Proof. unfold resolve. keep. Qed.
#[local] Hint Resolve keeps_resolve keeps_stream_open : keeps.

Lemma keeps_send_un_loop n bs fl a : keeps I (send_un_loop n bs fl a).
Proof. induction n as [|n IH]; cbn [send_un_loop]; keep. Qed.
Lemma keeps_unix_send_addr_loop n bs a : keeps I (unix_send_addr_loop n bs a).
Proof. induction n as [|n IH]; cbn [unix_send_addr_loop]; keep. Qed.
Lemma keeps_unix_recv_loop n len : keeps I (unix_recv_loop n len).
Proof. induction n as [|n IH]; cbn [unix_recv_loop]; keep. Qed.
#[local] Hint Resolve keeps_send_un_loop keeps_unix_send_addr_loop keeps_unix_recv_loop : keeps.

Lemma keeps_send_to bs port a fl : keeps I (send_to bs port a fl).
Proof. unfold send_to. keep. Qed.

Lemma keeps_connect_timed a port sec : keeps I (connect_timed a port sec).
Proof.
  unfold connect_timed, connect_wait. apply keeps_self. intros s [Hs|Hs].
  - rewrite Hs. intros [s' os] Hs'. wp_go. rewrite connect_badf. cbn. unfold sk_owns in *.
    cbn [fst snd] in *. by rewrite connect_fds, setfl_fds.
  - pose proof (keeps_fd_set_ok _ Hs) as Hok. keep.
Qed.
#[local] Hint Resolve keeps_connect_timed : keeps.

Lemma keeps_connect port a t sec : keeps I (connect port a t sec).
Proof. unfold connect, connect_plain. keep. Qed.
#[local] Hint Resolve keeps_connect : keeps.

Lemma keeps_prepare_to_client port a t sec : keeps I (prepare_to_client port a t sec).
Proof. unfold prepare_to_client, prepare_to_client_from, store_address. keep. Qed.
Lemma keeps_prepare_to_server port a n : keeps I (prepare_to_server port a n).
Proof. unfold prepare_to_server, listen. keep. Qed.
#[local] Hint Resolve keeps_prepare_to_client : keeps.

Lemma keeps_recv_from `{!ShortNames OS} n port fl : keeps I (recv_from n port fl).
Proof.
  intros [s os] HI. unfold recv_from. apply wp_bind, wp_self, wp_bind, wp_sys.
  assert (I (s, (sys_recvfrom (socket_fd_ s) n fl os).2)) as HI' by (unfold sk_owns in *; cbn [fst snd] in *; by rewrite recvfrom_fds).
  pose proof (recvfrom_name (socket_fd_ s) n fl os) as Hn.
  destruct (sys_recvfrom (socket_fd_ s) n fl os) as [ [ [bs sa]|] os1]; cbn [fst snd] in *; [|by apply wp_ret].
  destruct (Hn bs sa eq_refl) as [p Hp]. apply wp_bind. unfold name_of. apply wp_bind, wp_self.
  rewrite Hp. by destruct (_ =? _)%Z; repeat apply wp_ret.
Qed.

#[local] Hint Resolve keeps_open_path keeps_udp_open keeps_prepare_to_server keeps_select
  keeps_send_to : keeps.

Lemma keeps_op `{!ShortNames OS} o : op_ok o = true -> keeps I (run_op o).
Proof.
  intros Hok. destruct o; cbn [run_op op_ok] in *; bprop;
    unfold listen, recv, send, select_ms, select_forever, unix_send_to, unix_send_to_addr,
      unix_recv_from, set_env_params; try keep.
  - destruct p; [keep|done].
  - apply keeps_bind; [by apply keeps_recv_from|intros ?; keep].
Qed.

Lemma keeps_ops `{!ShortNames OS} ops : forallb op_ok ops = true -> keeps I (run_ops ops).
Proof.
  induction ops as [|o ops IH]; cbn [run_ops forallb]; [intros; keep|].
  intros [Ho Hops]%andb_true_iff. pose proof (keeps_op o Ho). specialize (IH Hops). keep.
Qed.
End ownership.

(** ** Connecting *)

Definition O_RDWR : Z := 2.

(** The status flags of a descriptor: a new socket is blocking, [F_SETFL]
    stores flags of the same access mode, and the calls [connect] makes in
    between leave them alone. *)
Class SockFlags (OS : Type) `{SockOs OS} := {
  socket_blocking : forall f t p os, (sys_socket f t p os).1 <> (-1)%Z ->
    sys_getfl (sys_socket f t p os).1 (sys_socket f t p os).2 = O_RDWR;
  setsockopt_getfl : forall fd o v os,
    sys_getfl fd (sys_setsockopt fd o v os).2 = sys_getfl fd os;
  getfl_setfl : forall fd v os, Z.land v 3 = Z.land (sys_getfl fd os) 3 ->
    sys_getfl fd (sys_setfl fd v os) = v;
  connect_getfl : forall fd a p os, sys_getfl fd (sys_connect fd a p os).2 = sys_getfl fd os;
  select_rw_getfl : forall fd t os, sys_getfl fd (sys_select_rw fd t os).2 = sys_getfl fd os;
  so_error_getfl : forall fd os, sys_getfl fd (sys_so_error fd os).2 = sys_getfl fd os;
}.

Lemma nonblock_mode v : Z.land (Z.lor v O_NONBLOCK) 3 = Z.land v 3.
Proof. rewrite Z.land_lor_distr_l. change (Z.land O_NONBLOCK 3) with 0%Z. by rewrite Z.lor_0_r. Qed.

Section client.
Context `{SockFds OS, !FdLimit OS, !SockFlags OS}.
Context (base : gset Z).
Implicit Types (s : socket) (os : OS).

(** A connected client: an open descriptor of its own in blocking mode. *)
Definition online (st : socket * OS) : Prop :=
  sk_owns base st /\ socket_fd_ st.1 <> INVALID_SOCKET /\
  sys_getfl (socket_fd_ st.1) st.2 = O_RDWR.
Definition offline (st : socket * OS) : Prop :=
  socket_fd_ st.1 = INVALID_SOCKET /\ sfds st.2 = base.

Lemma offline_owned st : offline st -> sk_owns base st.
Proof. intros [Hf Hb]. by apply closed_owned. Qed.

(** Moving [sfds] and the flags through calls that do not change them. *)
Lemma online_sys s os os' :
  sfds os' = sfds os -> sys_getfl (socket_fd_ s) os' = sys_getfl (socket_fd_ s) os ->
  online (s, os) -> online (s, os').
Proof.
  intros Hf Hg ([Hr Ho] & Hfd & Hfl). unfold online, sk_owns in *. cbn [fst snd] in *.
  by rewrite Hf, Hg.
Qed.

Lemma wp_create_socket t s os :
  offline (s, os) ->
  wp (create_socket AF_INET t 0)
     (fun ok st => tcp st.1 = tcp s /\ if ok : bool then online st else offline st) (s, os).
Proof.
  intros Hoff. pose proof (keeps_create_socket base AF_INET t 0 _ (offline_owned _ Hoff)) as Hk.
  destruct Hoff as [Hf Hb]. cbn [fst snd] in *. revert Hk. unfold create_socket, wp, self, upd,
    sys, sys_, mbind, SM_bind, M_bind, mret, SM_ret, M_ret. rewrite Hf. cbn.
  destruct (sys_socket AF_INET t 0 os) as [fd os1] eqn:E. cbn.
  pose proof (socket_fail AF_INET t 0 os) as Hfail.
  pose proof (socket_blocking AF_INET t 0 os) as Hbl. rewrite E in Hfail, Hbl. cbn in Hfail, Hbl.
  destruct (fd =? INVALID_SOCKET)%Z eqn:Ef; bprop.
  - intros _. split; [done|]. split; [done|]. cbn. by rewrite Hfail.
  - destruct (sys_setsockopt fd SO_REUSEADDR 1 os1) as [r os2] eqn:E2.
    pose proof (setsockopt_getfl fd SO_REUSEADDR 1 os1) as Hg. rewrite E2 in Hg. cbn in Hg.
    destruct (r =? 0)%Z; cbn.
    + intros Hk. split; [done|]. split; [done|]. split; [done|]. cbn. rewrite Hg. by apply Hbl.
    + intros [_ Hk]. split; [done|]. split; [done|]. exact Hk.
Qed.

(** The mode is restored after the calls made in non-blocking mode. *)
Lemma online_again s os os' :
  online (s, os) -> sfds os' = sfds os ->
  Z.land (sys_getfl (socket_fd_ s) os') 3 = Z.land (sys_getfl (socket_fd_ s) os) 3 ->
  online (s, sys_setfl (socket_fd_ s) (sys_getfl (socket_fd_ s) os) os').
Proof.
  intros Hon Hs Hg. eapply (online_sys s os); [by rewrite setfl_fds| |done].
  by apply getfl_setfl.
Qed.

Lemma owned_sys s os os' : sk_owns base (s, os) -> sfds os' = sfds os -> sk_owns base (s, os').
Proof. intros [Hr Ho] Hs. split; [done|]. cbn [fst snd] in *. by rewrite Hs. Qed.

Lemma wp_close_owned s os :
  sk_owns base (s, os) ->
  wp (_ ← close; mret false)
     (fun ok st => tcp st.1 = tcp s /\ if ok : bool then st.1 = s /\ online st
                                       else sk_owns base st) (s, os).
Proof.
  intros Ho. apply wp_bind. eapply wp_mono; [|apply (wp_close base), Ho].
  intros _ st (Hf & _ & Ht & Hb). split; [done|]. by apply closed_owned.
Qed.

Lemma wp_connect_wait sec s os os' :
  online (s, os) -> sfds os' = sfds os ->
  Z.land (sys_getfl (socket_fd_ s) os') 3 = Z.land (sys_getfl (socket_fd_ s) os) 3 ->
  wp (connect_wait (socket_fd_ s) (sys_getfl (socket_fd_ s) os) sec)
     (fun ok st => tcp st.1 = tcp s /\ if ok : bool then st.1 = s /\ online st
                                       else sk_owns base st) (s, os').
Proof.
  intros Hon Hs Hg. pose proof Hon as ([[Hr|Hr] _] & Hn & _); [done|]. pose proof (proj1 Hon) as Ho.
  unfold connect_wait, fd_set_ok.
  rewrite (proj2 (Z.leb_le _ _)), (proj2 (Z.ltb_lt _ _)) by apply Hr. cbn [andb]. wp_go.
  pose proof (select_rw_fds (socket_fd_ s) sec os') as Hse.
  pose proof (select_rw_getfl (socket_fd_ s) sec os') as Hsg.
  destruct (sys_select_rw (socket_fd_ s) sec os') as [[n ready] os3]. cbn [fst snd] in *.
  assert (Hs3 : sfds os3 = sfds os) by congruence.
  destruct (n =? 0)%Z; [by eapply wp_close_owned, owned_sys|].
  destruct ready; [|by wp_go; split; [|by eapply owned_sys]]. wp_go.
  pose proof (so_error_fds (socket_fd_ s) os3) as Hee.
  pose proof (so_error_getfl (socket_fd_ s) os3) as Heg.
  destruct (sys_so_error (socket_fd_ s) os3) as [[r2 err] os4]. cbn [fst snd] in *.
  destruct (r2 =? _)%Z; wp_go; [by split; [|eapply owned_sys; [done|congruence]]|].
  destruct (negb _).
  - eapply wp_close_owned, owned_sys; [done|]. rewrite setfl_fds. congruence.
  - wp_go. split; [done|]. split; [done|]. apply online_again; [done|congruence..].
Qed.

Lemma wp_connect_timed a port sec s os :
  online (s, os) ->
  wp (connect_timed a port sec)
     (fun ok st => tcp st.1 = tcp s /\ if ok : bool then st.1 = s /\ online st
                                       else sk_owns base st) (s, os).
Proof.
  intros Hon. pose proof (proj1 Hon) as Ho.
  unfold connect_timed. wp_go.
  set (os1 := sys_setfl (socket_fd_ s) _ os).
  assert (Hg1 : Z.land (sys_getfl (socket_fd_ s) os1) 3 = Z.land (sys_getfl (socket_fd_ s) os) 3).
  { subst os1. rewrite getfl_setfl; apply nonblock_mode. }
  assert (Hs1 : sfds os1 = sfds os) by apply setfl_fds. clearbody os1.
  pose proof (connect_fds (socket_fd_ s) a port os1) as Hc.
  pose proof (connect_getfl (socket_fd_ s) a port os1) as Hcg.
  destruct (sys_connect (socket_fd_ s) a port os1) as [[r e] os2]. cbn [fst snd] in *.
  rewrite <-Hcg in Hg1. rewrite <-Hc in Hs1.
  destruct (_ && _); [by wp_go; split; [|by eapply owned_sys]|].
  destruct (negb _); [wp_go|by apply wp_connect_wait].
  split; [done|]. split; [done|]. by apply online_again.
Qed.

Lemma wp_connect port a t sec s os :
  online (s, os) ->
  wp (connect port a t sec)
     (fun ok st => tcp st.1 = tcp s /\ if ok : bool then st.1 = s /\ online st
                                       else sk_owns base st) (s, os).
Proof.
  intros Hon. pose proof (proj1 Hon) as Ho. destruct a as [h|]; cbn [connect]; [|by wp_go].
  assert (Hcont : forall r, wp (match r with
      | None => mret false
      | Some a => if t then connect_timed a (wire_port port) sec
                  else connect_plain a (wire_port port) end)
     (fun ok st => tcp st.1 = tcp s /\ if ok : bool then st.1 = s /\ online st
                                       else sk_owns base st) (s, os)).
  { intros [b|]; [|by wp_go]. destruct t; [by apply wp_connect_timed|].
    unfold connect_plain. wp_go. split; [done|]. destruct (negb _).
    - split; [done|]. eapply online_sys; [apply connect_fds|apply connect_getfl|done].
    - eapply owned_sys; [done|]. apply connect_fds. }
  unfold resolve. apply wp_bind. destruct (_ =? _)%Z; wp_go; [apply Hcont|].
  apply (Hcont (Some (inet_addr h))).
Qed.

(** What [prepare_to_client] leaves behind. *)
Lemma wp_prepare_to_client port a t sec s os :
  offline (s, os) ->
  wp (prepare_to_client port a t sec)
     (fun ok st => tcp st.1 = TcpM port (strncpy 15 (default [] a)) (reconnect_interval_ (tcp s))
                                   (reconnect_retry_count_ (tcp s))
                   /\ if ok : bool then online st else offline st) (s, os).
Proof.
  intros Hoff. unfold prepare_to_client, prepare_to_client_from, store_address. wp_go.
  eapply wp_mono; [|by apply wp_create_socket]. intros ok [s1 os1]. cbn [fst snd tcp].
  destruct ok; intros [Ht Hst]; [|by wp_go]. apply wp_bind.
  eapply wp_mono; [|by apply wp_connect]. intros ok [s2 os2]. cbn [fst snd].
  destruct ok; intros [Ht2 Hst2]; [wp_go; split; [by rewrite Ht2, Ht|apply Hst2]|].
  apply wp_bind. eapply wp_mono; [|by apply (wp_close base)].
  intros _ st (Hf & _ & Ht3 & Hb). wp_go. split; [by rewrite Ht3, Ht2, Ht|done].
Qed.

(** [reconnect] hands [addr_buf_] to [prepare_to_client]: the first round that gets
    there is undefined. *)
Lemma tcp_reconnect_undefined fuel s os : sk_owns base (s, os) -> reconnect (S fuel) (s, os) = Ub Overlap.
Proof.
  intros Ho. pose proof (wp_close base s os Ho) as ([] & [s1 os1] & Hc & _)%wp_ok.
  unfold reconnect. cbn [reconnect_loop]. unfold reconnect_round, mbind, SM_bind, M_bind. by rewrite Hc.
Qed.
End client.

(** ** Whether a socket is open after an [open] *)
Section opening.
Context `{SockOs OS}.
Implicit Types (s : socket) (os : OS).

(** The descriptor is valid exactly when the call returned [true]. *)
Definition opened (ok : bool) (st : socket * OS) : Prop :=
  ok = true <-> socket_fd_ st.1 <> INVALID_SOCKET.

Lemma opened_true st : socket_fd_ st.1 <> INVALID_SOCKET -> opened true st.
Proof. by split. Qed.
Lemma opened_false st : socket_fd_ st.1 = INVALID_SOCKET -> opened false st.
Proof. intros Hf. split; [done|]. by rewrite Hf. Qed.

Lemma wp_close_fd s os : wp close (fun _ st => socket_fd_ st.1 = INVALID_SOCKET) (s, os).
Proof.
  unfold close. wp_go. destruct (negb _); wp_go; destruct (m_path s); by wp_go.
Qed.

Lemma wp_close_false s os : wp (_ ← close; mret false) opened (s, os).
Proof.
  apply wp_bind. eapply wp_mono; [|apply wp_close_fd]. intros ? st Hf. wp_go.
  by apply opened_false.
Qed.

Lemma wp_create_opened f t p s os : socket_fd_ s = INVALID_SOCKET ->
  wp (create_socket f t p) opened (s, os).
Proof.
  intros Hs. unfold create_socket. wp_go. rewrite Hs, Z.eqb_refl. cbn [negb]. wp_go.
  destruct (Z.eqb_spec (sys_socket f t p os).1 INVALID_SOCKET) as [E|E]; wp_go; [by apply opened_false|].
  destruct (f =? AF_INET)%Z; wp_go; [|by apply opened_true].
  destruct (_ =? 0)%Z; cbn [negb]; wp_go; [by apply opened_true|by apply opened_false].
Qed.

Lemma wp_bind_port_fd port a s os :
  wp (bind_port port a) (fun _ st => socket_fd_ st.1 = socket_fd_ s) (s, os).
Proof.
  unfold bind_port. wp_go. destruct (match a with None => _ | Some _ => _ end); wp_go; [|done].
  destruct (negb _); [|by wp_go]. unfold set_buffers. by wp_go.
Qed.

Lemma wp_inet_opened t port a s os : socket_fd_ s = INVALID_SOCKET ->
  wp (ok ← create_socket AF_INET t 0;
      if ok : bool then
        b ← bind_port port a;
        if b : bool then mret true else _ ← close; mret false
      else mret false) opened (s, os).
Proof.
  intros Hs. apply wp_bind. eapply wp_mono; [|by apply wp_create_opened].
  intros ok [s1 os1] Hok. destruct ok; [|by wp_go].
  apply wp_bind. eapply wp_mono; [|apply wp_bind_port_fd]. intros b [s2 os2] Hfd.
  destruct b; [|apply wp_close_false]. wp_go. unfold opened in *. cbn [fst] in *. by rewrite Hfd.
Qed.

Lemma wp_path_opened p s os : socket_fd_ s = INVALID_SOCKET ->
  wp (open_path (Some p)) opened (s, os).
Proof.
  intros Hs. unfold open_path. wp_go. eapply wp_mono; [|by apply wp_create_opened].
  intros ok [s1 os1] Hok. destruct ok; cbn [negb]; [|by wp_go].
  unfold bind_path. wp_go. destruct (_ =? SOCKET_ERROR)%Z; cbn [negb]; [apply wp_close_false|].
  unfold set_buffers. by wp_go.
Qed.
End opening.

(** ** What the guards leave out *)

(** The [accept] that stores the connection in the listening object loses the
    listening descriptor: after the [close] it is still open. *)
Lemma accept_in_place_leaks `{SockFds OS} (base : gset Z) (s : socket) (os : OS) :
  sk_owns base (s, os) -> socket_fd_ s <> INVALID_SOCKET ->
  (sys_accept (socket_fd_ s) os).1 <> (-1)%Z ->
  wp (_ ← accept_in_place; close)
     (fun _ st => sfds st.2 = {[ socket_fd_ s ]} ∪ base) (s, os).
Proof.
  intros [_ Ho] Hfd Hacc. cbn [fst snd] in Ho. destruct (accept_fresh _ _ Hacc) as [Hn Hset].
  rewrite (proj2 (Z.eqb_neq _ _)) in Ho by done. destruct Ho as [Hb Ho].
  unfold accept_in_place. wp_go. rewrite (proj2 (Z.eqb_neq _ _)) by done. wp_go.
  rewrite (proj2 (Z.eqb_neq _ _)) by done. wp_go. unfold close. wp_go.
  rewrite (proj2 (Z.eqb_neq _ _)) by done. cbn [negb]. wp_go.
  destruct (m_path s); wp_go; rewrite ?unlink_fds, close_frees, shutdown_fds, setsockopt_fds, Hset;
    set_solver.
Qed.

(** A Unix peer whose path fills the 14 bytes of the [sockaddr] is read past
    its end; a shorter path is returned. *)
Lemma c_string_unterminated bs : Forall (fun b => b <> 0%Z) bs -> c_string bs = Ub OutOfBounds.
Proof.
  induction 1 as [|b bs Hb Hbs IH]; [done|]. cbn [c_string].
  rewrite (proj2 (Z.eqb_neq _ _)) by done. by rewrite IH.
Qed.

Lemma c_string_terminated p bs : Forall (fun b => b <> 0%Z) p -> c_string (p ++ 0%Z :: bs) = Ok p.
Proof.
  induction 1 as [|b p Hb Hp IH]; [done|]. cbn [c_string app].
  rewrite (proj2 (Z.eqb_neq _ _)) by done. by rewrite IH.
Qed.

Lemma recv_from_unix `{SockOs OS} (s : socket) (os : OS) n port fl bs sa :
  addr_type_ s = AF_UNIX -> (sys_recvfrom (socket_fd_ s) n fl os).1 = Some (bs, sa) ->
  recv_from n port fl (s, os) =
  match sun_path sa with
  | Ok p => Ok (Z.of_nat (length bs), bs, p, port, (s, (sys_recvfrom (socket_fd_ s) n fl os).2))
  | Exc e => Exc e
  | Ub k => Ub k
  end.
Proof.
  intros Ht Hr. unfold recv_from, name_of, self, sys, mbind, SM_bind, M_bind, mret, SM_ret, M_ret.
  destruct (sys_recvfrom _ _ _ _) as [r os1]. cbn in Hr |- *. subst r. cbn. rewrite Ht. cbn.
  unfold throw, ub. by destruct (sun_path sa).
Qed.

(** ** A network *)
Module Net.
(** The descriptors with their flags, the bound paths, and how many connects
    the peer still refuses; a connect is in progress first and its result
    comes with [SO_ERROR]. *)
Record net : Type := Mk { n_open : gset Z; n_flags : gmap Z Z; n_paths : gset str; refuse : nat }.

Definition ECONNREFUSED : Z := 111.
Definition fresh_fd (os : net) : Z :=
  default (-1)%Z (head (filter (fun z => z ∉ n_open os) (seqZ 3 1021))).
Definition open_fd (os : net) : Z * net :=
  let fd := fresh_fd os in
  if (fd =? -1)%Z then (fd, os)
  else (fd, Mk ({[ fd ]} ∪ n_open os) (<[fd := O_RDWR]> (n_flags os)) (n_paths os) (refuse os)).

#[global] Instance net_os : SockOs net := {
  sys_socket _ _ _ os := open_fd os;
  sys_close fd os := Mk (n_open os ∖ {[ fd ]}) (n_flags os) (n_paths os) (refuse os);
  sys_shutdown _ os := os;
  sys_setsockopt _ _ _ os := (0%Z, os);
  sys_so_error _ os :=
    match refuse os with
    | O => ((0, 0)%Z, os)
    | S n => ((0%Z, ECONNREFUSED), Mk (n_open os) (n_flags os) (n_paths os) n)
    end;
  sys_getfl fd os := default O_RDWR (n_flags os !! fd);
  sys_setfl fd v os := Mk (n_open os) (<[fd := v]> (n_flags os)) (n_paths os) (refuse os);
  sys_unlink p os := Mk (n_open os) (n_flags os) (n_paths os ∖ {[ p ]}) (refuse os);
  sys_bind_un _ p os := (0%Z, Mk (n_open os) (n_flags os) ({[ p ]} ∪ n_paths os) (refuse os));
  sys_bind_in _ _ _ os := (0%Z, os);
  sys_listen _ _ os := (0%Z, os);
  sys_connect fd _ _ os := (((-1)%Z, if (fd =? -1)%Z then EBADF else EINPROGRESS), os);
  sys_accept _ os := open_fd os;
  sys_select_r _ _ os := ((1%Z, true), os);
  sys_select_rw _ _ os := ((1%Z, true), os);
  sys_recv _ _ _ os := (Some [], os);
  sys_recvfrom _ _ _ os := (Some ([], replicate 16 0%Z), os);
  sys_send _ bs _ os := (Z.of_nat (length bs), os);
  sys_sendto_un _ bs _ _ os := (Z.of_nat (length bs), os);
  sys_sendto_in _ bs _ _ _ os := (Z.of_nat (length bs), os);
  sys_getname _ _ _ := Some (replicate 16 0%Z);
  inet_addr a := if bool_decide (a = chars "127.0.0.1") then 0x0100007f%Z else INADDR_NONE;
  gethostbyname _ _ := None;
}.

Lemma fresh_fd_spec os : fresh_fd os <> (-1)%Z ->
  fresh_fd os ∉ n_open os /\ (3 <= fresh_fd os < FD_SETSIZE)%Z.
Proof.
  unfold fresh_fd. destruct (filter _ _) as [|z l] eqn:E; [done|]. intros _. cbn.
  assert (Hz : z ∈ filter (fun z => z ∉ n_open os) (seqZ 3 1021)) by (rewrite E; left).
  apply list_elem_of_filter in Hz as [? Hz%elem_of_seqZ]. unfold FD_SETSIZE. split; [done|lia].
Qed.

Lemma open_fd_fail os : (open_fd os).1 = (-1)%Z -> (open_fd os).2 = os.
Proof. unfold open_fd. destruct (_ =? _)%Z eqn:E; [done|]. cbn. by apply Z.eqb_neq in E. Qed.

Lemma open_fd_fresh os : (open_fd os).1 <> (-1)%Z ->
  (open_fd os).1 = fresh_fd os /\
  (open_fd os).2 = Mk ({[ fresh_fd os ]} ∪ n_open os) (<[fresh_fd os := O_RDWR]> (n_flags os))
                      (n_paths os) (refuse os).
Proof. unfold open_fd. by destruct (_ =? _)%Z eqn:E; [apply Z.eqb_eq in E|]. Qed.

#[global] Instance net_fds : SockFds net.
Proof.
  refine {| sfds := n_open |}; cbn; try done.
  - intros _ _ _ os Hf. by rewrite open_fd_fail.
  - intros _ _ _ os Hf. pose proof (open_fd_fresh os Hf) as [E1 ->]. rewrite E1 in *.
    split; [by apply fresh_fd_spec|done].
  - intros _ os Hf. by rewrite open_fd_fail.
  - intros _ os Hf. pose proof (open_fd_fresh os Hf) as [E1 ->]. rewrite E1 in *.
    split; [by apply fresh_fd_spec|done].
  - intros _ os. by destruct (refuse os).
Defined.

#[global] Instance net_limit : FdLimit net.
Proof.
  assert (forall os, (open_fd os).1 <> (-1)%Z -> (0 <= (open_fd os).1 < FD_SETSIZE)%Z) as Hl.
  { intros os Hf. pose proof (open_fd_fresh os Hf) as [E1 _]. rewrite E1 in *.
    pose proof (fresh_fd_spec os Hf). lia. }
  split; cbn; intros; by apply Hl.
Qed.

#[global] Instance net_names : ShortNames net.
Proof. intros fd n fl os bs sa. cbn. intros [= _ <-]. by eexists. Qed.

#[global] Instance net_flags : SockFlags net.
Proof.
  split; cbn; try done.
  - intros _ _ _ os Hf. pose proof (open_fd_fresh os Hf) as [-> ->]. cbn. by rewrite lookup_insert_eq.
  - intros fd v os _. by rewrite lookup_insert_eq.
  - intros fd os. by destruct (refuse os).
Qed.

Definition idle (n : nat) : net := Mk {[ 0; 1; 2 ]}%Z ∅ ∅ n.
End Net.

(** ** Properties *)

(** C21: descriptor ownership.  Whatever sequence of opens (Unix, TCP or UDP),
    connects, listens, selects, sends, receives ([recv], both [recv_from]) and
    closes is made on one [Socket] object, failing system calls included, every call
    that the system lets return returns normally, and at each point the descriptors
    of the process are those it had before plus the one the object holds: none is
    leaked, none that belongs to somebody else is closed.  A final [close] (the
    destructor) gives back exactly the initial set.  Assumed: paths given to [open]
    are not null, no descriptor is beyond [FD_SETSIZE], and the names of Unix peers
    are shorter than 14 characters ([recv_from] reads longer ones past the end of its
    buffer).  Not among the calls: the [accept] of an address, which leaks
    ([accept_in_place_leaks]), and [reconnect], which is undefined
    ([tcp_reconnect_undefined]). *)
Theorem socket_descriptor_ownership `{SockFds OS, !FdLimit OS, !ShortNames OS} (os : OS) (ops : list sock_op) :
  forallb op_ok ops = true ->
  exists s1 os1, run_ops ops (Socket_new, os) = Ok (tt, (s1, os1)) /\
    sk_owns (sfds os) (s1, os1) /\
    exists s2 os2, close (s1, os1) = Ok (tt, (s2, os2)) /\
      socket_fd_ s2 = INVALID_SOCKET /\ m_path s2 = [] /\ sfds os2 = sfds os.
Proof.
  intros Hok.
  assert (H1 : wp (run_ops ops) (fun _ st => sk_owns (sfds os) st) (Socket_new, os)).
  { apply keeps_ops; [apply _|done|]. by apply closed_owned. }
  apply wp_ok in H1 as ([] & [s1 os1] & Hrun & Ho). exists s1, os1. split_and!; [done|done|].
  pose proof (wp_close _ _ _ Ho) as ([] & [s2 os2] & Hc & Hf & Hp & _ & Hs)%wp_ok.
  by exists s2, os2.
Qed.

Lemma socket_descriptor_ownership_witness :
  let ops := [OpenPath (Some (chars "/tmp/s")); Close; Client 80 (Some (chars "127.0.0.1")) true 5;
              Select 10; RecvFrom 100 0; Server 80 None 5] in
  forallb op_ok ops = true /\
  exists s1 os1, run_ops ops (Socket_new, Net.idle 2) = Ok (tt, (s1, os1)) /\
    sk_owns (sfds (Net.idle 2)) (s1, os1) /\
    exists s2 os2, close (s1, os1) = Ok (tt, (s2, os2)) /\
      socket_fd_ s2 = INVALID_SOCKET /\ m_path s2 = [] /\ sfds os2 = sfds (Net.idle 2).
Proof. split; [reflexivity|]. apply socket_descriptor_ownership. reflexivity. Defined.

(** C24: client connection.  [prepare_to_client] on a closed socket returns
    normally for every address, time limit and behaviour of the system calls: [true]
    means that the object holds a descriptor of its own, back in blocking mode
    after the timed connect switched it; [false] (no socket, unknown host,
    refused, timed out, [SO_ERROR] set) that the descriptor was given back and
    the object can be used again.  In both cases the port and the first 15
    characters of the address are stored for [reconnect].  Assumed: no descriptor is
    beyond [FD_SETSIZE] (the timed connect would overflow its [fd_set]), new sockets
    are blocking and only [F_SETFL] changes that.  [true] is not always a connection:
    after a failed [select] it can still be in progress. *)
Theorem tcp_client_connection `{SockFds OS, !FdLimit OS, !SockFlags OS} (s : socket) (os : OS)
    (port : Z) (a : option str) (timed : bool) (sec : Z) :
  socket_fd_ s = INVALID_SOCKET ->
  exists ok s1 os1, prepare_to_client port a timed sec (s, os) = Ok (ok, (s1, os1)) /\
    tcp s1 = TcpM port (strncpy 15 (default [] a)) (reconnect_interval_ (tcp s))
                  (reconnect_retry_count_ (tcp s)) /\
    if ok : bool
    then socket_fd_ s1 <> INVALID_SOCKET /\ (socket_fd_ s1 ∉ sfds os) /\
         sfds os1 = {[ socket_fd_ s1 ]} ∪ sfds os /\ sys_getfl (socket_fd_ s1) os1 = O_RDWR
    else socket_fd_ s1 = INVALID_SOCKET /\ sfds os1 = sfds os.
Proof.
  intros Hf.
  pose proof (wp_prepare_to_client (sfds os) port a timed sec s os) as Hw.
  apply wp_ok in Hw as (ok & [s1 os1] & Hr & Ht & Hst); [|done].
  exists ok, s1, os1. split_and!; [done|done|]. destruct ok; [|exact Hst].
  destruct Hst as ([_ Ho] & Hn & Hg). cbn [fst snd] in *.
  rewrite (proj2 (Z.eqb_neq _ _)) in Ho by done. by destruct Ho.
Qed.

Lemma tcp_client_connection_witness :
  let os := Net.idle 1 in
  socket_fd_ Socket_new = INVALID_SOCKET /\
  exists ok s1 os1, prepare_to_client 80 (Some (chars "127.0.0.1")) true 5 (Socket_new, os)
                    = Ok (ok, (s1, os1)) /\
    tcp s1 = TcpM 80 (strncpy 15 (chars "127.0.0.1")) 5 0 /\
    if ok : bool
    then socket_fd_ s1 <> INVALID_SOCKET /\ (socket_fd_ s1 ∉ sfds os) /\
         sfds os1 = {[ socket_fd_ s1 ]} ∪ sfds os /\ sys_getfl (socket_fd_ s1) os1 = O_RDWR
    else socket_fd_ s1 = INVALID_SOCKET /\ sfds os1 = sfds os.
Proof.
  split; [reflexivity|].
  apply (tcp_client_connection Socket_new (Net.idle 1) 80 (Some (chars "127.0.0.1")) true 5).
  reflexivity.
Defined.
