(* ===== verification/Teardown.v ===== *)
(** * Tearing down a thread blocked on a socket

    [TcpChannel], [TcpServer], [UUdpReceiver] and [IUdpReceiver] own a worker
    that waits in a system call on their socket.  Their destructors (and
    [TcpServer::close]) all run the same sequence: [close_pre], the close of
    the socket ([Socket::close]: the descriptor is swapped out, shut down and
    closed), and [close_post], which joins.  This file runs that sequence
    against the worker's loop, one atomic step at a time. *)

From S2P Require Import Prelude ThreadLife Sock.

(** ** The two threads *)

(** A loop around [recv]/[recv_from], or the accept loop, which selects with a
    time-out and then accepts. *)
Inductive kind : Type := Receiver | Acceptor.

(** Where the worker is: testing [do_exit], loading [socket_fd_], about to call
    receive or select on what it loaded, inside that call, loading again, about to
    call [accept], inside it, in the callbacks, or returned. *)
Inductive wloc : Type :=
| WCheck | WLoad | WCall (fd : Z) | WIn | WLoad2 | WAccept (fd : Z) | WInAccept | WHandle | WDone.

(** The entry of the descriptor table; [FReused]: the number was given to another
    file. *)
Inductive fdstate : Type := FOpen | FClosed | FReused.

(** The steps of the closing thread. *)
Inductive cinstr : Type := CPre | CXchg | CShut | CCloseFd | CPostBegin | CJoin | CPostEnd.

(** The order of the destructors, and the order they avoid. *)
Definition teardown : list cinstr :=
  [CPre; CXchg; CShut; CCloseFd; CPostBegin; CJoin; CPostEnd].
Definition join_first : list cinstr :=
  [CPre; CPostBegin; CJoin; CPostEnd; CXchg; CShut; CCloseFd].
(** The same without the [::shutdown]. *)
Definition close_only : list cinstr := [CPre; CXchg; CCloseFd; CPostBegin; CJoin; CPostEnd].

(** [fdst] is the descriptor, [shut] whether the socket behind it was shut down; a
    call that is inside the kernel holds on to the socket. *)
Record tds : Type := TD {
  thr : thread;
  sfd : Z;
  local_fd : Z;
  fdst : fdstate;
  shut : bool;
  pending : nat;
  wl : wloc;
  todo : list cinstr;
}.

Definition at_w (w : wloc) (s : tds) : tds :=
  TD (thr s) (sfd s) (local_fd s) (fdst s) (shut s) (pending s) w (todo s).
Definition with_pending (n : nat) (s : tds) : tds :=
  TD (thr s) (sfd s) (local_fd s) (fdst s) (shut s) n (wl s) (todo s).
Definition with_fdst (f : fdstate) (s : tds) : tds :=
  TD (thr s) (sfd s) (local_fd s) f (shut s) (pending s) (wl s) (todo s).
Definition with_shut (s : tds) : tds :=
  TD (thr s) (sfd s) (local_fd s) (fdst s) true (pending s) (wl s) (todo s).
Definition with_todo (l : list cinstr) (s : tds) : tds :=
  TD (thr s) (sfd s) (local_fd s) (fdst s) (shut s) (pending s) (wl s) l.
Definition with_thr (t : thread) (s : tds) : tds :=
  TD t (sfd s) (local_fd s) (fdst s) (shut s) (pending s) (wl s) (todo s).

(** The closer's next instruction; [None] when it has to wait. *)
Definition closer_exec (i : cinstr) (rest : list cinstr) (s : tds) : option tds :=
  match i with
  | CPre => Some (with_todo rest (with_thr (close_pre (thr s)) s))
  | CXchg => Some (TD (thr s) INVALID_SOCKET (sfd s) (fdst s) (shut s) (pending s) (wl s) rest)
  | CShut => Some (with_todo rest
               (if (local_fd s =? INVALID_SOCKET)%Z then s else with_shut s))
  | CCloseFd => Some (with_todo rest
                  (if (local_fd s =? INVALID_SOCKET)%Z then s else with_fdst FClosed s))
  | CPostBegin =>
      match close_post_begin (thr s) with
      | None => Some (with_todo [] s)
      | Some (_, t) => Some (with_todo rest (with_thr t s))
      end
  | CJoin => match wl s with WDone => Some (with_todo rest s) | _ => None end
  | CPostEnd => Some (with_todo rest (with_thr (close_post_end (thr s)) s))
  end.

Inductive lab : Type := LWorker | LCloser | LArrive | LAbort | LReuse.

Definition own (l : lab) : bool := match l with LWorker | LCloser => true | _ => false end.

Section system.
Context (k : kind) (F : Z).

(** What a call on [fd] finds in the table when it begins: the socket, or nothing.
    (Nothing is promised once the number is reused.) *)
Definition usable (fd : Z) (s : tds) : Prop := fd = F /\ fdst s = FOpen.
Definition dead (fd : Z) (s : tds) : Prop := fd <> F \/ fdst s = FClosed.

(** Inside the kernel a reader waits while nothing is pending; a shutdown wakes it,
    the close of the descriptor does not.  [select] also returns at its time-out. *)
Inductive td_step : tds -> lab -> tds -> Prop :=
| w_exit s : wl s = WCheck -> do_exit (thr s) = true -> td_step s LWorker (at_w WDone s)
| w_loop s : wl s = WCheck -> do_exit (thr s) = false -> td_step s LWorker (at_w WLoad s)
| w_load s : wl s = WLoad -> td_step s LWorker (at_w (WCall (sfd s)) s)
| w_enter fd s : wl s = WCall fd -> usable fd s -> td_step s LWorker (at_w WIn s)
| w_badf fd s : wl s = WCall fd -> dead fd s -> td_step s LWorker (at_w WDone s)
| w_data n s :
    k = Receiver -> wl s = WIn -> pending s = S n ->
    td_step s LWorker (at_w WHandle (with_pending n s))
| w_eof s : k = Receiver -> wl s = WIn -> shut s = true -> td_step s LWorker (at_w WDone s)
| w_ready s :
    k = Acceptor -> wl s = WIn -> pending s <> 0%nat \/ shut s = true ->
    td_step s LWorker (at_w WLoad2 s)
| w_timeout s : k = Acceptor -> wl s = WIn -> td_step s LWorker (at_w WCheck s)
| w_load2 s : wl s = WLoad2 -> td_step s LWorker (at_w (WAccept (sfd s)) s)
| w_accept_enter fd s : wl s = WAccept fd -> usable fd s -> td_step s LWorker (at_w WInAccept s)
| w_accept_badf fd s : wl s = WAccept fd -> dead fd s -> td_step s LWorker (at_w WCheck s)
| w_accept n s :
    wl s = WInAccept -> shut s = false -> pending s = S n ->
    td_step s LWorker (at_w WHandle (with_pending n s))
| w_accept_fails s : wl s = WInAccept -> shut s = true -> td_step s LWorker (at_w WCheck s)
| w_handled s : wl s = WHandle -> td_step s LWorker (at_w WCheck s)
| c_step i rest s s' :
    todo s = i :: rest -> closer_exec i rest s = Some s' -> td_step s LCloser s'
| e_arrive s : td_step s LArrive (with_pending (S (pending s)) s)
| e_abort n s : pending s = S n -> td_step s LAbort (with_pending n s)
| e_reuse s : fdst s = FClosed -> td_step s LReuse (with_fdst FReused s).

Inductive td_run : tds -> list lab -> tds -> Prop :=
| td_nil s : td_run s [] s
| td_snoc s tr s1 l s2 : td_run s tr s1 -> td_step s1 l s2 -> td_run s (tr ++ [l]) s2.

(** A started object: its worker runs, its socket is open, and the closing
    thread is about to run [prog]. *)
Definition started (prog : list cinstr) : tds :=
  TD (Thr (Some (Joinable 0)) false false) F INVALID_SOCKET FOpen false 0 WCheck prog.

(** ** The invariant of the teardown, by the number of instructions done *)
Definition td_inv (n : nat) (s : tds) : Prop :=
  todo s = drop n teardown /\ (n <= 7)%nat /\
  ((1 <= n)%nat -> do_exit (thr s) = true) /\
  ((n <= 1)%nat -> sfd s = F) /\ ((2 <= n)%nat -> sfd s = INVALID_SOCKET /\ local_fd s = F) /\
  ((n <= 3)%nat -> fdst s = FOpen) /\ ((3 <= n)%nat -> shut s = true) /\
  ((4 <= n)%nat -> fdst s = FClosed) /\
  ((n <= 4)%nat -> thread_ (thr s) = Some (Joinable 0) /\ closing_ (thr s) = false) /\
  ((6 <= n)%nat -> wl s = WDone) /\
  (n = 7%nat -> thread_ (thr s) = None /\ closing_ (thr s) = false).



Lemma td_inv_pending n s p : td_inv n s -> td_inv n (with_pending p s).
Proof. done. Qed.


Lemma with_pending_at p s : with_pending p s = at_w (wl s) (with_pending p s).
Proof. by destruct s. Qed.











End system.

(** ** Properties *)


(** A receiver blocked in [recv], by three steps of its own. *)
Definition blocked (prog : list cinstr) : tds := at_w WIn (started 7 prog).

Lemma blocked_run prog : td_run Receiver 7 (started 7 prog) [LWorker; LWorker; LWorker] (blocked prog).
Proof.
  apply (td_snoc _ _ _ [LWorker; LWorker] (at_w (WCall 7) (started 7 prog)));
    [|by apply (w_enter _ _ 7 (at_w (WCall 7) (started 7 prog)))].
  apply (td_snoc _ _ _ [LWorker] (at_w WLoad (started 7 prog)));
    [|exact (w_load _ _ (at_w WLoad (started 7 prog)) eq_refl)].
  apply (td_snoc _ _ _ [] (started 7 prog)); [apply td_nil|by apply w_loop].
Qed.




(** No step of a receiver inside [recv], of a socket that is not shut down and has
    nothing pending, nor of a closer that waits for it. *)
Lemma blocked_stays s rest : wl s = WIn -> pending s = 0%nat -> shut s = false -> todo s = CJoin :: rest ->
  forall l s', own l = true -> ~ td_step Receiver 7 s l s'.
Proof.
  intros Hw Hp Hs Ht l s' Hl Hst. inversion Hst; subst; try congruence; try done.
  rewrite Ht in *. simplify_eq. match goal with H : closer_exec _ _ _ = _ |- _ => cbn in H; by rewrite Hw in H end.
Qed.

(** With the join first (what [Thread::close] alone would do) the same
    receiver is never woken: neither thread can move. *)
Lemma join_first_hangs :
  exists tr s, td_run Receiver 7 (started 7 join_first) tr s /\ todo s <> [] /\
    LReuse ∉ tr /\ forall l s', own l = true -> ~ td_step Receiver 7 s l s'.
Proof.
  set (s2 := blocked join_first).
  set (s3 := with_todo (drop 1 join_first) (with_thr (close_pre (thr s2)) s2)).
  set (s4 := with_todo (drop 2 join_first) (with_thr (Thr (Some MovedFrom) true true) s3)).
  exists ([LWorker; LWorker; LWorker] ++ [LCloser] ++ [LCloser]), s4.
  split_and!; [|done|set_solver|by eapply blocked_stays].
  rewrite app_assoc. apply (td_snoc _ _ _ _ s3); [|by eapply c_step].
  apply (td_snoc _ _ _ _ s2); [apply blocked_run|by eapply c_step].
Qed.

(** Nor is it by the close of the descriptor without the shutdown. *)
Lemma close_only_hangs :
  exists tr s, td_run Receiver 7 (started 7 close_only) tr s /\ todo s = [CJoin; CPostEnd] /\
    LReuse ∉ tr /\ forall l s', own l = true -> ~ td_step Receiver 7 s l s'.
Proof.
  set (s2 := blocked close_only).
  set (s3 := with_todo (drop 1 close_only) (with_thr (close_pre (thr s2)) s2)).
  set (s4 := TD (thr s3) INVALID_SOCKET 7 FOpen false 0 WIn (drop 2 close_only)).
  set (s5 := with_todo (drop 3 close_only) (with_fdst FClosed s4)).
  set (s6 := with_todo (drop 4 close_only) (with_thr (Thr (Some MovedFrom) true true) s5)).
  exists ([LWorker; LWorker; LWorker] ++ [LCloser] ++ [LCloser] ++ [LCloser] ++ [LCloser]), s6.
  split_and!; [|done|set_solver|by eapply blocked_stays].
  rewrite !app_assoc. apply (td_snoc _ _ _ _ s5); [|by eapply c_step].
  apply (td_snoc _ _ _ _ s4); [|by eapply c_step]. apply (td_snoc _ _ _ _ s3); [|by eapply c_step].
  apply (td_snoc _ _ _ _ s2); [apply blocked_run|by eapply c_step].
Qed.

(** The snapshot of the descriptor does not protect a worker between its load
    and its call: when the number is reused in between, the join may wait for
    a packet on somebody else's socket. *)
Lemma reused_descriptor_hangs :
  exists tr s, td_run Receiver 7 (started 7 teardown) tr s /\ todo s = [CJoin; CPostEnd] /\
    forall l s', own l = true -> ~ td_step Receiver 7 s l s'.
Proof.
  set (t0 := started 7 teardown). set (sc := at_w (WCall 7) t0).
  set (s0 := with_todo (drop 1 teardown) (with_thr (close_pre (thr sc)) sc)).
  set (s1 := TD (thr s0) INVALID_SOCKET 7 FOpen false 0 (WCall 7) (drop 2 teardown)).
  set (s2 := with_todo (drop 3 teardown) (with_shut s1)).
  set (s3 := with_todo (drop 4 teardown) (with_fdst FClosed s2)).
  set (s4 := with_fdst FReused s3).
  set (s5 := with_todo (drop 5 teardown) (with_thr (Thr (Some MovedFrom) true true) s4)).
  exists ([LWorker; LWorker] ++ [LCloser] ++ [LCloser] ++ [LCloser] ++ [LCloser] ++ [LReuse] ++ [LCloser]),
    s5.
  split_and!; [|done|].
  - rewrite !app_assoc. apply (td_snoc _ _ _ _ s4); [|by eapply c_step].
    apply (td_snoc _ _ _ _ s3); [|exact (e_reuse _ _ s3 eq_refl)].
    apply (td_snoc _ _ _ _ s2); [|by eapply c_step].
    apply (td_snoc _ _ _ _ s1); [|by eapply c_step].
    apply (td_snoc _ _ _ _ s0); [|by eapply c_step].
    apply (td_snoc _ _ _ _ sc); [|by eapply c_step].
    apply (td_snoc _ _ _ [LWorker] (at_w WLoad t0)); [|exact (w_load _ _ (at_w WLoad t0) eq_refl)].
    apply (td_snoc _ _ _ [] t0); [apply td_nil|by apply w_loop].
  - intros l s' Hl Hst. inversion Hst; subst; simplify_eq/=;
      repeat match goal with
      | H : usable _ _ _ |- _ => destruct H as [? ?]; simplify_eq/=
      | H : dead _ _ _ |- _ => destruct H; simplify_eq/=
      end.
Qed.
