(* ===== verification/Tcp.v ===== *)
(** * TCP server (include/tcpserver.hpp, src/tcpserver.cpp)

    [TcpChannel::thread_proc] cuts the byte stream of a connection into
    packets over a [MemoryStream]; [TcpServer] keeps the channels and admits
    connections up to a limit.  The sockets are outside the repository: a
    connection is the sequence of blocks [recv] returns. *)

From S2P Require Import Prelude Stream.

Definition TCP_MASK : Z := 0xefef.
Definition TCP_CONN : Z := 0xe1e1.
Definition TCP_PING : Z := 0xe3e3.
Definition TCP_PONG : Z := 0xe7e7.
Definition TCP_DISC : Z := 0x1010.

(** ** [TcpChannel] *)

(** The stream, whether [sock_] is still there, the blocks passed to
    [OnAfterReceive], and the status. *)
Record channel : Type := Chan {
  m_Stream : mstream;
  sock_ : bool;
  received : list (list Z);
  status_ : Z;
}.

Definition TcpChannel_new : channel := Chan MemoryStream_new true [] TCP_CONN.

(** [memcpy(p, p + src, n)] inside one buffer: undefined when the ranges overlap. *)
Definition memcpy (b : list Z) (src n : nat) : outcome (list Z) :=
  if bool_decide (src < n)%nat then Ub Overlap else bs ← slice src n b; blit 0 bs b.

(** One round of the inner loop: [false] when it breaks. *)
Definition packet_step (c : channel) : outcome (bool * channel) :=
  match ms_data (m_Stream c) with
  | None => Ok (false, c)
  | Some b =>
      hdr ← slice 4 4 b;
      let nPkLen := s32 (le_dec hdr) in
      if (nPkLen <? 1)%Z then
        Ok (false, Chan (m_Stream c) false (received c) (status_ c))
      else
        '(size, s0) ← GetSize (m_Stream c);
        if (size <? nPkLen)%Z then Ok (false, Chan s0 (sock_ c) (received c) (status_ c))
        else
          let nSize := (size - nPkLen)%Z in
          pkt ← slice 0 (Z.to_nat nPkLen) b;
          b' ← (if (0 <? nSize)%Z then memcpy b (Z.to_nat nPkLen) (Z.to_nat nSize) else Ok b);
          '(_, s') ← ms_SetSize nSize (MStream b' (ms_pos s0));
          Ok (true, Chan s' (sock_ c) (received c ++ [pkt]) (status_ c))
  end.

(** The inner loop; every round removes at least one byte. *)
Fixpoint packet_loop (fuel : nat) (c : channel) : outcome channel :=
  match fuel with
  | O => Ok c
  | S fuel =>
      match packet_step c with
      | Ok (true, c') => packet_loop fuel c'
      | Ok (false, c') => Ok c'
      | Exc e => Exc e
      | Ub k => Ub k
      end
  end.

(** A block from [recv]. *)
Definition on_block (use_event : bool) (block : list Z) (c : channel) : outcome channel :=
  if negb use_event then
    Ok (Chan (m_Stream c) (sock_ c) (received c ++ [block]) (status_ c))
  else
    '(_, s) ← ms_write block (Z.of_nat (length block)) (m_Stream c);
    packet_loop (S (length (ms_buf s))) (Chan s (sock_ c) (received c) (status_ c)).

(** [thread_proc] on the blocks of a connection; it ends when [recv] fails,
    when the thread is told to exit, or when [sock_] is gone. *)
Fixpoint thread_proc (use_event : bool) (blocks : list (list Z)) (c : channel)
  : outcome channel :=
  match blocks with
  | [] => Ok (Chan (m_Stream c) (sock_ c) (received c) TCP_DISC)
  | b :: bs =>
      if negb (sock_ c) then Ok (Chan (m_Stream c) (sock_ c) (received c) TCP_DISC)
      else c' ← on_block use_event b c; thread_proc use_event bs c'
  end.

(** ** [TcpServer] *)

(** A channel as the server sees it. *)
Record tchan : Type := TC { ch_id : nat; ch_status : Z; ch_type_ : Z }.

Record server : Type := Srv {
  channels_ : list tchan;
  limit_ : Z;
  use_event_ : bool;
  has_OnBeforeSend : bool;
}.

Definition with_channels (l : list tchan) (s : server) : server :=
  Srv l (limit_ s) (use_event_ s) (has_OnBeforeSend s).

Definition TcpServer_new : server := Srv [] 1 true false.
Definition set_limit (n : Z) (s : server) : server :=
  Srv (channels_ s) n (use_event_ s) (has_OnBeforeSend s).
Definition server_count (s : server) : Z := limit_ s.

Definition disc (c : tchan) : bool := negb (Z.land (ch_status c) TCP_DISC =? 0)%Z.

(** The erasing loop. *)
Fixpoint check_channels_loop (l : list tchan) : list tchan :=
  match l with
  | [] => []
  | c :: l => if disc c then check_channels_loop l else c :: check_channels_loop l
  end.
Definition check_channels (s : server) : server :=
  with_channels (check_channels_loop (channels_ s)) s.

Fixpoint remove_first (id : nat) (l : list tchan) : list tchan :=
  match l with
  | [] => []
  | c :: l => if bool_decide (ch_id c = id) then l else c :: remove_first id l
  end.
Definition close_channel (id : nat) (s : server) : server :=
  with_channels (remove_first id (channels_ s)) s.

(** The channels [OnBeforeSend] is called for, in order. *)
Definition send_all (s : server) : list nat :=
  if has_OnBeforeSend s then map ch_id (channels_ s) else [].
Definition broadcast (chType : Z) (s : server) : list nat :=
  if has_OnBeforeSend s then
    map ch_id (filter (fun c => negb (Z.land (ch_status c) TCP_CONN =? 0)%Z
                                && (ch_type_ c =? chType)%Z = true) (channels_ s))
  else [].

(** One round of the accept loop.  [select] says whether a connection is
    pending, [accept] may fail or give no socket. *)
Inductive accept_result : Type := AcceptThrows | AcceptNull | AcceptOk (id type_ : Z).

Inductive round_result : Type := Rejected | Accepted | Idle | Stop.

Definition accept_round (nResult : Z) (r : accept_result) (s : server)
  : round_result * server :=
  if (nResult =? -1)%Z then (Stop, s)
  else
    let s1 := check_channels s in
    if (nResult =? 0)%Z then (Idle, s1)
    else match r with
         | AcceptThrows => (Stop, s1)
         | AcceptNull => (Idle, s1)
         | AcceptOk id ty =>
             if (s32 (Z.of_nat (length (channels_ s1))) =? limit_ s1)%Z then (Rejected, s1)
             else (Accepted,
                   with_channels (channels_ s1 ++ [TC (Z.to_nat id) TCP_CONN ty]) s1)
         end.

(** Rounds of the accept loop, calls of [close_channel], channels that end,
    and callers that change the limit. *)
Inductive sev : Type := EvRound (r : round_result) | EvClose | EvStatus | EvLimit (n : Z).

Inductive sstep : server -> sev -> server -> Prop :=
| s_round n r res s s' : accept_round n r s = (res, s') -> sstep s (EvRound res) s'
| s_close id s : sstep s EvClose (close_channel id s)
| s_status l1 c l2 st s :
    channels_ s = l1 ++ c :: l2 ->
    sstep s EvStatus (with_channels (l1 ++ TC (ch_id c) st (ch_type_ c) :: l2) s)
| s_limit n s : sstep s (EvLimit n) (set_limit n s).

Inductive srun : server -> list sev -> server -> Prop :=
| srun_nil s : srun s [] s
| srun_snoc s tr s1 e s2 : srun s tr s1 -> sstep s1 e s2 -> srun s (tr ++ [e]) s2.

(** ** Framing *)

(** A packet: the length field at offset four is its length. *)
Definition packet (p : list Z) : Prop :=
  (8 <= length p)%nat /\ (Z.of_nat (length p) <= INT32_MAX)%Z /\
  le_dec (take 4 (drop 4 p)) = Z.of_nat (length p).

(** The packets of lengths [lens] that [n] bytes complete: the bytes left over
    and the packets still to come. *)
Fixpoint complete (n : nat) (lens : list nat) : nat * list nat :=
  match lens with
  | [] => (n, [])
  | l :: ls => if (l <=? n)%nat then complete (n - l) ls else (n, lens)
  end.

(** What is behind each of these packets in the buffer is no longer than it. *)
Fixpoint apart (n : nat) (lens : list nat) : bool :=
  match lens with
  | [] => true
  | l :: ls => if (l <=? n)%nat then (n - l <=? l)%nat && apart (n - l) ls else true
  end.

(** After every block the unfinished packet has no byte or a whole header, and the
    packets it completes are moved without overlap. *)
Fixpoint cuts_ok (n : nat) (blocks lens : list nat) : bool :=
  match blocks with
  | [] => true
  | k :: ks =>
      let '(n', lens') := complete (n + k) lens in
      apart (n + k) lens && ((n' =? 0)%nat || (8 <=? n')%nat) && cuts_ok n' ks lens'
  end.

Definition at_end (b : list Z) : mstream := MStream b (Z.of_nat (length b)).

Lemma at_end_wf b : (Z.of_nat (length b) <= INT32_MAX)%Z -> ms_wf (at_end b).
Proof. intros H. split; simpl; lia. Qed.

Lemma ms_append b bs : bs <> [] -> (Z.of_nat (length b + length bs) <= INT32_MAX)%Z ->
  ms_write bs (Z.of_nat (length bs)) (at_end b) = Ok (Z.of_nat (length bs), at_end (b ++ bs)).
Proof.
  intros Hne Hl. rewrite ms_write_spec; [|apply at_end_wf; lia|done|simpl; lia].
  unfold at_end. cbn [ms_pos ms_buf]. rewrite Nat2Z.id, length_app. do 3 f_equal; [|lia].
  unfold ms_grown. simpl. rewrite Nat2Z.id, Nat.max_l by lia.
  unfold splice. rewrite take_resize_le, resize_all by lia.
  rewrite drop_ge by (rewrite length_resize; lia). by rewrite app_nil_r.
Qed.

Lemma complete_spec ps B rest n' lens' : Forall packet ps -> B ++ rest = concat ps ->
  complete (length B) (map length ps) = (n', lens') ->
  exists ps1 ps2 r, ps = ps1 ++ ps2 /\ B = concat ps1 ++ r /\ length r = n' /\
    lens' = map length ps2 /\ r ++ rest = concat ps2 /\
    (r = [] \/ exists p, p ∈ ps2 /\ r `prefix_of` p /\ (length r < length p)%nat).
Proof.
  intros Hps. revert B. induction Hps as [|p ps Hp Hps IH]; intros B HB Hc; simpl in *.
  { simplify_eq. apply app_eq_nil in HB as [-> ->]. exists [], [], []. naive_solver. }
  destruct (Nat.leb_spec (length p) (length B)) as [Hle|Hlt].
  - assert (B = p ++ drop (length p) B) as HBp.
    { rewrite <-(take_drop (length p) B) at 1. f_equal.
      apply (f_equal (take (length p))) in HB.
      by rewrite take_app_le, take_app_length in HB by lia. }
    set (B' := drop (length p) B) in *.
    assert (length B - length p = length B')%nat as Hl by (unfold B'; by rewrite length_drop).
    rewrite Hl in Hc. rewrite HBp, <-app_assoc in HB. apply app_inv_head in HB.
    destruct (IH B' HB Hc) as (ps1 & ps2 & r & -> & HB' & Hn & Hlens & Hrest & Hr).
    exists (p :: ps1), ps2, r. split_and!; try done. simpl. rewrite HBp, HB', app_assoc. done.
  - simplify_eq. exists [], (p :: ps), B. split_and!; try done.
    right. exists p. split_and!; [set_solver| |done].
    exists (drop (length B) p).
    apply (f_equal (take (length p))) in HB. rewrite take_app_length in HB.
    rewrite take_app_ge in HB by lia. rewrite <-HB. by rewrite drop_app_length.
Qed.
Lemma concat_nil_packets ps : Forall packet ps -> concat ps = [] -> ps = [].
Proof.
  intros Hps Hc. destruct Hps as [|p ps [H8 _] _]; [done|].
  apply app_eq_nil in Hc as [-> _]. simpl in H8. lia.
Qed.

Lemma length_in_concat (p : list Z) ps : p ∈ ps -> (length p <= length (concat ps))%nat.
Proof.
  induction ps as [|q ps IH]; [set_solver|]. simpl. rewrite length_app.
  intros [->|Hp]%elem_of_cons; [lia|]. specialize (IH Hp). lia.
Qed.

Lemma length_concat_packets ps : Forall packet ps -> (length ps <= length (concat ps))%nat.
Proof.
  induction 1 as [|p ps (H8 & _) _ IH]; simpl; [done|]. rewrite length_app. lia.
Qed.

Lemma header_of p rest : packet p ->
  slice 4 4 (p ++ rest) = Ok (take 4 (drop 4 p)) /\
  s32 (le_dec (take 4 (drop 4 p))) = Z.of_nat (length p).
Proof.
  intros (H8 & Hmax & Hlen). rewrite slice_ok by (rewrite length_app; lia).
  rewrite drop_app_le, take_app_le by (rewrite ?length_drop; lia).
  split; [done|]. rewrite Hlen. apply swrap_small. unfold in_s32, INT32_MIN. lia.
Qed.

Lemma memcpy_ok b src n : (n <= src)%nat -> (src + n <= length b)%nat ->
  memcpy b src n = Ok (splice 0 (take n (drop src b)) b).
Proof.
  intros Hd H. unfold memcpy. rewrite bool_decide_false by lia. rewrite slice_ok by done.
  unfold mbind, outcome_bind. rewrite blit_ok; [done|]. autorewrite with pdk. lia.
Qed.

Lemma step_full p rest ds st : packet p -> (length rest <= length p)%nat ->
  (Z.of_nat (length (p ++ rest)) <= INT32_MAX)%Z ->
  packet_step (Chan (at_end (p ++ rest)) true ds st) =
  Ok (true, Chan (at_end rest) true (ds ++ [p]) st).
Proof.
  intros Hp Hdj Hmax. destruct (header_of p rest Hp) as [Hh Hs]. destruct Hp as (H8 & _ & _).
  unfold packet_step, ms_data. cbn [m_Stream].
  assert (ms_buf (at_end (p ++ rest)) = p ++ rest) as -> by done.
  destruct (p ++ rest) as [|z l] eqn:Hpr; [destruct p; simpl in *; done || lia|].
  rewrite <-Hpr in *. unfold mbind, outcome_bind. rewrite Hh, Hs.
  rewrite (proj2 (Z.ltb_ge _ _)) by lia.
  rewrite ms_GetSize by by apply at_end_wf. cbn [ms_buf at_end].
  rewrite (proj2 (Z.ltb_ge _ _)) by (rewrite length_app; lia).
  rewrite Nat2Z.id, slice_ok, drop_0, take_app_length by (rewrite length_app; lia).
  replace (Z.of_nat (length (p ++ rest)) - Z.of_nat (length p))%Z
    with (Z.of_nat (length rest)) by (rewrite length_app; lia).
  rewrite Nat2Z.id.
  assert ((if (0 <? Z.of_nat (length rest))%Z then memcpy (p ++ rest) (length p) (length rest)
           else Ok (p ++ rest)) =
          Ok (splice 0 rest (p ++ rest))) as ->.
  { destruct (Z.ltb_spec 0 (Z.of_nat (length rest))).
    - rewrite memcpy_ok by (rewrite ?length_app; lia).
      rewrite drop_app_length, take_ge by lia. done.
    - destruct rest; [done|simpl in *; lia]. }
  unfold ms_SetSize. cbn [ms_buf ms_pos sock_ received status_]. unfold at_end. do 5 f_equal.
  - destruct (Z.ltb_spec 0 (Z.of_nat (length rest))).
    + rewrite Nat2Z.id. unfold splice. rewrite take_0. simpl app.
      rewrite resize_le by (rewrite length_app; lia). by rewrite take_app_length.
    + destruct rest; [apply resize_0|simpl in *; lia].
  - cbn [ms_pos]. rewrite length_app.
    destruct (Z.ltb_spec (Z.of_nat (length rest)) (Z.of_nat (length p + length rest))); lia.
Qed.

Lemma step_partial p r ds st : packet p -> r `prefix_of` p -> (8 <= length r)%nat ->
  (length r < length p)%nat ->
  packet_step (Chan (at_end r) true ds st) = Ok (false, Chan (at_end r) true ds st).
Proof.
  intros Hp [x Hx] H8 Hlt. destruct (Hp) as (_ & Hmax & Hlen).
  unfold packet_step, ms_data. cbn [m_Stream].
  assert (ms_buf (at_end r) = r) as -> by done. destruct r as [|z l] eqn:Hr; [simpl in *; lia|].
  rewrite <-Hr in *. unfold mbind, outcome_bind. rewrite slice_ok by lia.
  assert (take 4 (drop 4 r) = take 4 (drop 4 p)) as ->.
  { rewrite Hx. rewrite drop_app_le, take_app_le by (rewrite ?length_drop; lia). done. }
  rewrite Hlen, swrap_small by (unfold in_s32, INT32_MIN; lia).
  rewrite (proj2 (Z.ltb_ge _ _)) by lia.
  rewrite ms_GetSize by (apply at_end_wf; lia). cbn [ms_buf at_end].
  by rewrite (proj2 (Z.ltb_lt _ _)) by lia.
Qed.

Lemma loop_drains fuel ps r ds st more : Forall packet ps ->
  (Z.of_nat (length (concat ps ++ r)) <= INT32_MAX)%Z -> (length ps < fuel)%nat ->
  apart (length (concat ps ++ r)) (map length ps ++ more) = true ->
  (r = [] \/ exists p, packet p /\ r `prefix_of` p /\ (8 <= length r < length p)%nat) ->
  packet_loop fuel (Chan (at_end (concat ps ++ r)) true ds st) =
  Ok (Chan (at_end r) true (ds ++ ps) st).
Proof.
  intros Hps Hmax Hf Hdj Hr. revert fuel ds Hf. induction Hps as [|p ps Hp _ IH]; intros fuel ds Hf;
    (destruct fuel as [|fuel]; [simpl in Hf; lia|]); cbn [packet_loop concat].
  - cbn [app]. rewrite app_nil_r. destruct Hr as [->|(p & Hp & Hpre & ? & ?)]; [done|].
    by rewrite (step_partial p).
  - simpl in Hmax, Hdj. rewrite <-app_assoc in *. rewrite (length_app p) in Hdj.
    rewrite (proj2 (Nat.leb_le _ _)) in Hdj by lia.
    replace (length p + length (concat ps ++ r) - length p)%nat with (length (concat ps ++ r)) in Hdj by lia.
    apply andb_true_iff in Hdj as [Hle%Nat.leb_le Hdj]. rewrite step_full by done.
    rewrite IH.
    + by rewrite <-app_assoc.
    + rewrite length_app in Hmax. lia.
    + done.
    + simpl in Hf. lia.
Qed.

Lemma blocks_framed blocks : forall ps b ds,
  Forall packet ps -> Forall (fun k => k <> []) blocks -> b ++ concat blocks = concat ps ->
  (Z.of_nat (length (concat ps)) <= INT32_MAX)%Z ->
  cuts_ok (length b) (map length blocks) (map length ps) = true ->
  (b = [] \/ exists p, p ∈ ps /\ (length b < length p)%nat) ->
  thread_proc true blocks (Chan (at_end b) true ds TCP_CONN) =
  Ok (Chan (at_end []) true (ds ++ ps) TCP_DISC).
Proof.
  induction blocks as [|k ks IH]; intros ps b ds Hps Hne Hcat Hmax Hcuts Hb.
  { simpl in Hcat. rewrite app_nil_r in Hcat.
    destruct Hb as [->|(p & Hp%length_in_concat & Hlt)]; [|rewrite Hcat in Hlt; lia].
    rewrite (concat_nil_packets ps) by done. by rewrite app_nil_r. }
  inversion_clear Hne as [|? ? Hk Hks]. cbn [map cuts_ok concat] in *.
  rewrite app_assoc in Hcat.
  destruct (complete (length b + length k) (map length ps)) as [n' lens'] eqn:Hc.
  apply andb_true_iff in Hcuts as [ [Hdj Hn']%andb_true_iff Hcuts].
  rewrite <-length_app in Hc, Hdj.
  destruct (complete_spec ps (b ++ k) (concat ks) n' lens' Hps Hcat Hc)
    as (ps1 & ps2 & r & -> & HB & Hlr & -> & Hrest & Hr).
  apply Forall_app in Hps as [Hps1 Hps2].
  assert (Z.of_nat (length (b ++ k)) <= INT32_MAX)%Z as Hbk.
  { rewrite <-Hcat, length_app in Hmax. lia. }
  cbn [thread_proc sock_ negb]. unfold on_block. cbn [negb m_Stream].
  unfold mbind, outcome_bind. rewrite ms_append by (done || by rewrite <-length_app).
  cbn [sock_ received status_]. rewrite HB.
  rewrite map_app, HB in Hdj. rewrite (loop_drains _ _ _ _ _ (map length ps2)); [|done|by rewrite <-HB| |done|].
  - rewrite (IH ps2 r (ds ++ ps1)); try done.
    + by rewrite app_assoc.
    + rewrite concat_app, length_app in Hmax. lia.
    + by rewrite Hlr.
    + naive_solver.
  - cbn [ms_buf at_end]. pose proof (length_concat_packets ps1 Hps1). rewrite length_app. lia.
  - destruct Hr as [->|(p & Hp & Hpre & Hlt)]; [by left|].
    apply orb_true_iff in Hn' as [Hn'|Hn']; bprop.
    + left. by destruct r; [|simpl in *; lia].
    + right. exists p. rewrite Forall_forall in Hps2.
      split_and!; [by apply Hps2|done|lia|done].
Qed.

Lemma check_loop_filter l : check_channels_loop l = filter (fun c => disc c = false) l.
Proof.
  induction l as [|c l IH]; simpl; [done|]. destruct (disc c) eqn:Hd.
  - rewrite filter_cons_False by congruence. done.
  - rewrite filter_cons_True by done. by rewrite IH.
Qed.

Lemma length_remove_first id l : (length (remove_first id l) <= length l)%nat.
Proof. induction l as [|c l IH]; simpl; [done|]. case_bool_decide; simpl; lia. Qed.

Lemma length_check_loop l : (length (check_channels_loop l) <= length l)%nat.
Proof. rewrite check_loop_filter. apply length_filter. Qed.

(** ** Properties *)

(** C12: packet framing does not depend on how TCP cuts the stream.  If the
    blocks [recv] returns make up a sequence of packets (at least eight bytes,
    their length at offset four) of at most [INT32_MAX] bytes in all, no block ends
    inside the first eight bytes of a packet, and whenever a packet is complete no
    more bytes than its own length are behind it in the buffer (so that the
    [memcpy] that moves them does not overlap, which would be undefined,
    [tcp_receive_hazards]), then the channel passes exactly those packets to
    [OnAfterReceive], in order, keeps nothing and does not close the socket. *)
Theorem tcp_framing (ps blocks : list (list Z)) :
  Forall packet ps -> Forall (fun k => k <> []) blocks ->
  concat blocks = concat ps -> (Z.of_nat (length (concat ps)) <= INT32_MAX)%Z ->
  cuts_ok 0 (map length blocks) (map length ps) = true ->
  thread_proc true blocks TcpChannel_new = Ok (Chan MemoryStream_new true ps TCP_DISC).
Proof.
  intros Hps Hne Hcat Hmax Hcuts.
  apply (blocks_framed blocks ps [] []); try done. by left.
Qed.

(** Packets of ten and nine bytes, in blocks of eight and eleven. *)
Definition demo_packets : list (list Z) :=
  [[1; 2; 3; 4; 10; 0; 0; 0; 5; 6]; [7; 7; 7; 7; 9; 0; 0; 0; 8]]%Z.
Definition demo_blocks : list (list Z) :=
  [take 8 (concat demo_packets); drop 8 (concat demo_packets)].

Lemma tcp_framing_witness :
  thread_proc true demo_blocks TcpChannel_new =
    Ok (Chan MemoryStream_new true demo_packets TCP_DISC).
Proof.
  apply (tcp_framing demo_packets demo_blocks).
  - repeat constructor; simpl; unfold INT32_MAX; lia.
  - repeat constructor; done.
  - reflexivity.
  - simpl. unfold INT32_MAX. lia.
  - reflexivity.
Defined.

(** Two ways the receive loop leaves defined behaviour on ordinary
    input.  A block that ends inside the first eight bytes of a packet makes
    it read the length field beyond the buffer; and a block with a packet and
    more than its length behind it makes it call [memcpy] on overlapping
    ranges. *)
Theorem tcp_receive_hazards (p rest b : list Z) :
  packet p -> (length p < length rest)%nat ->
  (Z.of_nat (length (p ++ rest)) <= INT32_MAX)%Z -> (0 < length b < 8)%nat ->
  on_block true b TcpChannel_new = Ub OutOfBounds /\
  on_block true (p ++ rest) TcpChannel_new = Ub Overlap.
Proof.
  intros Hp Hlt Hmax Hb. split.
  - change TcpChannel_new with (Chan (at_end []) true [] TCP_CONN).
    unfold on_block, mbind, outcome_bind. cbn [negb m_Stream].
    rewrite ms_append by (try (destruct b; simpl in *; done || lia); unfold INT32_MAX; simpl; lia).
    cbn [app packet_loop]. unfold packet_step, ms_data. cbn [m_Stream at_end ms_buf].
    destruct b as [|z b]; [simpl in Hb; lia|]. unfold slice, mbind, outcome_bind.
    by rewrite bool_decide_false by lia.
  - change TcpChannel_new with (Chan (at_end []) true [] TCP_CONN).
    destruct (header_of p rest Hp) as [Hh Hs]. destruct Hp as (H8 & _ & _).
    unfold on_block, mbind, outcome_bind. cbn [negb m_Stream].
    rewrite ms_append by (try (destruct p; simpl in *; done || lia); done).
    cbn [app packet_loop]. unfold packet_step, ms_data. cbn [m_Stream at_end ms_buf].
    destruct (p ++ rest) as [|z l] eqn:Hpr; [destruct p; simpl in *; done || lia|].
    rewrite <-Hpr in *. unfold mbind, outcome_bind. rewrite Hh, Hs.
    rewrite (proj2 (Z.ltb_ge _ _)) by lia.
    change (MStream (p ++ rest) (Z.of_nat (length (p ++ rest)))) with (at_end (p ++ rest)).
    rewrite ms_GetSize by by apply at_end_wf. cbn [ms_buf at_end].
    rewrite (proj2 (Z.ltb_ge _ _)) by (rewrite length_app; lia).
    rewrite Nat2Z.id, slice_ok by (rewrite length_app; lia).
    rewrite (proj2 (Z.ltb_lt _ _)) by (rewrite length_app; lia).
    unfold memcpy.
    by rewrite bool_decide_true by (rewrite length_app; lia).
Qed.

Lemma tcp_receive_hazards_witness :
  on_block true [1; 2; 3]%Z TcpChannel_new = Ub OutOfBounds /\
  on_block true (concat demo_packets ++ [0; 0]%Z) TcpChannel_new = Ub Overlap.
Proof.
  apply (tcp_receive_hazards [1; 2; 3; 4; 10; 0; 0; 0; 5; 6]%Z
           [7; 7; 7; 7; 9; 0; 0; 0; 8; 0; 0]%Z [1; 2; 3]%Z);
    try (simpl; unfold INT32_MAX; lia).
  repeat split; simpl; unfold INT32_MAX; lia.
Defined.

(** [check_channels] drops exactly the channels whose thread has ended
    and keeps the others in order; and for the statuses of the enumeration
    [broadcast] reaches exactly the channels that survive it and have the
    packet's type. *)
Theorem tcp_broadcast_reaches_live s ty :
  has_OnBeforeSend s = true ->
  Forall (fun c => ch_status c ∈ [TCP_CONN; TCP_PING; TCP_PONG; TCP_DISC]) (channels_ s) ->
  channels_ (check_channels s) = filter (fun c => ch_status c <> TCP_DISC) (channels_ s) /\
  broadcast ty s =
    map ch_id (filter (fun c => ch_type_ c = ty) (channels_ (check_channels s))).
Proof.
  intros Hcb Hst. unfold check_channels, broadcast. rewrite Hcb. cbn [with_channels channels_].
  rewrite check_loop_filter.
  assert (forall c, c ∈ channels_ s ->
            disc c = bool_decide (ch_status c = TCP_DISC) /\
            negb (Z.land (ch_status c) TCP_CONN =? 0)%Z = bool_decide (ch_status c <> TCP_DISC)) as Hb.
  { intros c Hc. rewrite Forall_forall in Hst. specialize (Hst c Hc). unfold disc.
    repeat (apply elem_of_cons in Hst as [->|Hst]; [done|]). set_solver. }
  clear Hst Hcb. induction (channels_ s) as [|c l IH]; [done|].
  destruct (Hb c) as [H1 H2]; [set_solver|]. destruct IH as [IH1 IH2]; [set_solver|].
  rewrite !filter_cons, H1, H2.
  destruct (decide (ch_status c = TCP_DISC)) as [Hd|Hd].
  - rewrite !bool_decide_true, bool_decide_false by naive_solver.
    rewrite !decide_False by (simpl; naive_solver). done.
  - rewrite (bool_decide_false (ch_status c = TCP_DISC)), bool_decide_true by done.
    rewrite decide_True by done. rewrite decide_True by done. rewrite filter_cons.
    split; [by f_equal|]. cbn [andb].
    destruct (decide (ch_type_ c = ty)) as [Ht|Ht].
    + rewrite decide_True by by apply Z.eqb_eq. cbn [map]. by f_equal.
    + rewrite decide_False by (rewrite Z.eqb_eq; done). done.
Qed.

Definition demo_server : server :=
  Srv [TC 0 TCP_CONN 7; TC 1 TCP_DISC 7; TC 2 TCP_PING 7; TC 3 TCP_CONN 8] 4 true true.

Lemma tcp_broadcast_reaches_live_witness :
  channels_ (check_channels demo_server)
    = filter (fun c => ch_status c <> TCP_DISC) (channels_ demo_server) /\
  broadcast 7 demo_server =
    map ch_id (filter (fun c => ch_type_ c = 7%Z) (channels_ (check_channels demo_server))).
Proof.
  apply (tcp_broadcast_reaches_live demo_server 7); [reflexivity|].
  repeat constructor; set_solver.
Defined.

(** C40: admission.  In a server whose limit nobody changes, the channels
    never outnumber a non-negative limit, and a pending connection is
    rejected exactly when the limit is reached after the ended channels are
    dropped.  The test compares with [==]: when the limit is then lowered below
    the number of channels in use, the next pending connection is admitted
    although the limit is exceeded. *)
Theorem tcp_server_limit (n : Z) tr s :
  (0 <= n <= INT32_MAX)%Z ->
  srun (set_limit n TcpServer_new) tr s -> (forall m, EvLimit m ∉ tr) ->
  (Z.of_nat (length (channels_ s)) <= n)%Z /\
  (forall id ty, (accept_round 1 (AcceptOk id ty) s).1 = Rejected <->
     Z.of_nat (length (channels_ (check_channels s))) = n) /\
  (forall m id ty, (m < Z.of_nat (length (channels_ (check_channels s))))%Z ->
     (accept_round 1 (AcceptOk id ty) (set_limit m s)).1 = Accepted).
Proof.
  intros Hn Hrun Htr.
  assert (limit_ s = n /\ (Z.of_nat (length (channels_ s)) <= n)%Z) as [Hl Hle].
  { remember (set_limit n TcpServer_new) as s0 eqn:Hs0.
    induction Hrun as [s|s tr s1 e s2 Hrun IH Hst]; subst; [simpl; lia|].
    destruct IH as [Hl Hle]; [done|set_solver|].
    destruct Hst as [k r res s s' Hr|id s|l1 c l2 st s Hc|m s]; simpl.
    - pose proof (length_check_loop (channels_ s)) as Hcl.
      unfold accept_round, check_channels in Hr. cbn [channels_ with_channels limit_] in Hr.
      destruct (k =? -1)%Z; simplify_eq/=; [done|].
      destruct (k =? 0)%Z; simplify_eq/=; [lia|]. destruct r; simplify_eq/=; [lia|lia|].
      rewrite swrap_small in Hr by (unfold in_s32, INT32_MIN; lia).
      destruct (Z.eqb_spec (Z.of_nat (length (check_channels_loop (channels_ s)))) (limit_ s));
        simplify_eq/=; [lia|]. rewrite length_app. simpl. lia.
    - pose proof (length_remove_first id (channels_ s)). lia.
    - rewrite Hc, !length_app in *. simpl in *. lia.
    - exfalso. apply (Htr m). set_solver. }
  pose proof (length_check_loop (channels_ s)) as Hcl.
  split_and!; [done| |]; intros; unfold accept_round;
    cbn [Z.eqb check_channels with_channels channels_ limit_ set_limit];
    rewrite swrap_small by (unfold in_s32, INT32_MIN; lia).
  - rewrite Hl. destruct (Z.eqb_spec (Z.of_nat (length (check_channels_loop (channels_ s)))) n);
      naive_solver.
  - by rewrite (proj2 (Z.eqb_neq _ _)) by (simpl in *; lia).
Qed.

Lemma tcp_server_limit_witness :
  let s := Srv [TC 5 TCP_CONN 0] 1 true false in
  (Z.of_nat (length (channels_ s)) <= 1)%Z /\
  (forall id ty, (accept_round 1 (AcceptOk id ty) s).1 = Rejected <->
     Z.of_nat (length (channels_ (check_channels s))) = 1%Z) /\
  (forall m id ty, (m < Z.of_nat (length (channels_ (check_channels s))))%Z ->
     (accept_round 1 (AcceptOk id ty) (set_limit m s)).1 = Accepted).
Proof.
  apply (tcp_server_limit 1 [EvRound Accepted]).
  - unfold INT32_MAX. lia.
  - apply (srun_snoc _ [] TcpServer_new); [apply srun_nil|].
    by apply (s_round 1 (AcceptOk 5 0)).
  - intros m. set_solver.
Defined.
