(* ===== verification/Servers.v ===== *)
(** * Servers on their sockets (tcpserver.cpp, udpserver.cpp)

    The parts of [TcpServer], [TcpChannel] and the UDP servers that open,
    accept and close sockets, composed from the methods of Sock and the thread
    life cycle of ThreadLife: [start], the accept loop, [close] and the
    destructors.  A [pool] is a set of socket objects of which each holds its
    own descriptor; every method of one of them keeps it. *)

From S2P Require Import Prelude Wp Text ThreadLife Event Sock Tcp.

(** ** Pools of sockets *)
Definition held (ss : list socket) : list Z :=
  filter (fun fd => fd <> INVALID_SOCKET) (map socket_fd_ ss).

Definition pool `{SockFds OS} (base : gset Z) (ss : list socket) (os : OS) : Prop :=
  NoDup (held ss) /\ (forall fd, fd ∈ held ss -> fd ∉ base) /\
  sfds os = list_to_set (held ss) ∪ base /\ Forall fd_range ss.

Lemma held_cons s ss : held (s :: ss) =
  if (socket_fd_ s =? INVALID_SOCKET)%Z then held ss else socket_fd_ s :: held ss.
Proof.
  unfold held. cbn [map]. rewrite filter_cons. destruct (Z.eqb_spec (socket_fd_ s) INVALID_SOCKET).
  - by rewrite decide_False by naive_solver.
  - by rewrite decide_True.
Qed.

Lemma held_perm ss1 ss2 : ss1 ≡ₚ ss2 -> held ss1 ≡ₚ held ss2.
Proof. intros Hp. unfold held. by rewrite Hp. Qed.

Section pools.
Context `{SockFds OS, !FdLimit OS}.
Implicit Types (os : OS) (ss : list socket).

#[global] Instance pool_proper base : Proper ((≡ₚ) ==> (=) ==> iff) (pool (OS:=OS) base).
Proof.
  intros ss1 ss2 Hp os ? <-. unfold pool. pose proof (held_perm _ _ Hp) as Hh.
  rewrite Hh, Hp. split; intros (?&Hb&->&?); split_and!; try done;
    try (intros fd Hfd; apply Hb; by rewrite Hh in * || rewrite <-Hh in * );
    by rewrite Hh.
Qed.

(** Seen from one of its sockets, the others belong to everybody else. *)
Lemma pool_cons base s ss os :
  pool base (s :: ss) os <->
  sk_owns (list_to_set (held ss) ∪ base) (s, os) /\
  NoDup (held ss) /\ (forall fd, fd ∈ held ss -> fd ∉ base) /\ Forall fd_range ss.
Proof.
  unfold pool, sk_owns. rewrite held_cons, Forall_cons. cbn [fst snd].
  destruct (socket_fd_ s =? INVALID_SOCKET)%Z; [naive_solver|].
  rewrite NoDup_cons. split.
  - intros ((Hn & Hd) & Hb & Hs & Hr & Hrs). split_and!; try done; [| |set_solver].
    + rewrite not_elem_of_union, elem_of_list_to_set. set_solver.
    + rewrite Hs. set_solver.
  - intros ((Hr & Hn & Hs) & Hd & Hb & Hrs).
    rewrite not_elem_of_union, elem_of_list_to_set in Hn. split_and!; try done; [set_solver| |].
    + intros fd [->|Hfd]%elem_of_cons; [by apply Hn|by apply Hb].
    + rewrite Hs. set_solver.
Qed.

(** A method that keeps its own descriptor keeps the pool. *)
Lemma pool_run base s ss os {A} (m : SM A) :
  (forall b, keeps (sk_owns b) m) -> pool base (s :: ss) os ->
  exists a s' os', m (s, os) = Ok (a, (s', os')) /\ pool base (s' :: ss) os'.
Proof.
  intros Hm Hp. apply pool_cons in Hp as (Ho & Hrest).
  pose proof (Hm _ _ Ho) as (a & [s' os'] & Hr & Ho')%wp_ok.
  exists a, s', os'. split; [done|]. by apply pool_cons.
Qed.

(** A closed socket can be dropped. *)
Lemma pool_close base s ss os : pool base (s :: ss) os ->
  exists s' os', close (s, os) = Ok (tt, (s', os')) /\ pool base ss os' /\
    socket_fd_ s' = INVALID_SOCKET.
Proof.
  intros Hp. apply pool_cons in Hp as (Ho & Hn & Hb & Hr).
  pose proof (wp_close _ _ _ Ho) as Hw. apply wp_ok in Hw as ([] & [s' os'] & Hc & Hf & _ & _ & Hs).
  exists s', os'. by split_and!.
Qed.

Lemma pool_nil base os : pool base [] os <-> sfds os = base.
Proof.
  unfold pool. cbn. split.
  - intros (_ & _ & -> & _). set_solver.
  - intros ->. split_and!; [constructor|set_solver|set_solver|constructor].
Qed.
End pools.

(** ** [TcpServer] and [TcpChannel] *)

(** A channel with the socket it owns, and the server with its listening
    socket. *)
Record tsrv : Type := TSrv {
  ts_sock : socket;
  ts_thread : thread;
  ts_addr : str;
  ts_port : Z;
  ts_limit : Z;
  ts_chans : list (tchan * socket);
}.

Definition with_ts_sock (k : socket) (s : tsrv) : tsrv :=
  TSrv k (ts_thread s) (ts_addr s) (ts_port s) (ts_limit s) (ts_chans s).
Definition with_ts_thread (t : thread) (s : tsrv) : tsrv :=
  TSrv (ts_sock s) t (ts_addr s) (ts_port s) (ts_limit s) (ts_chans s).
Definition with_ts_chans (l : list (tchan * socket)) (s : tsrv) : tsrv :=
  TSrv (ts_sock s) (ts_thread s) (ts_addr s) (ts_port s) (ts_limit s) l.
Definition with_ts_addr (a : str) (p : Z) (s : tsrv) : tsrv :=
  TSrv (ts_sock s) (ts_thread s) a p (ts_limit s) (ts_chans s).

Definition tsrv_new : tsrv := TSrv Socket_new Thread_new [] 0 1 [].

(** [close_post] once the worker has returned. *)
Definition close_post (t : thread) : thread :=
  match close_post_begin t with None => t | Some (_, t') => close_post_end t' end.

Section tcp.
Context `{SockOs OS}.

Definition TM (A : Type) : Type := M (tsrv * OS) A.
#[global] Instance TM_ret : MRet TM := M_ret.
#[global] Instance TM_bind : MBind TM := M_bind.

Definition obj : TM tsrv := fun '(s, os) => Ok (s, (s, os)).
Definition mod_obj (f : tsrv -> tsrv) : TM unit := fun '(s, os) => Ok (tt, (f s, os)).

(** A method of the listening socket. *)
Definition on_sock {A} (m : SM A) : TM A := fun '(s, os) =>
  match m (ts_sock s, os) with
  | Ok (a, (k, os')) => Ok (a, (with_ts_sock k s, os'))
  | Exc e => Exc e
  | Ub u => Ub u
  end.
(** The destructor of a socket nobody else holds: it is closed. *)
Definition drop_sock (k : socket) : TM unit := fun '(s, os) =>
  match close (k, os) with
  | Ok (_, (_, os')) => Ok (tt, (s, os'))
  | Exc e => Exc e
  | Ub u => Ub u
  end.

(** [~TcpChannel] after its worker is joined, and the erasure of several. *)
Fixpoint drop_chans (l : list (tchan * socket)) : TM unit :=
  match l with
  | [] => mret tt
  | (_, k) :: l => _ ← drop_sock k; drop_chans l
  end.

(** [start]: bind, listen and create the accept thread [w]; [None] is a caller
    that waits for a shutdown in progress. *)
Definition tcp_start (w : wid) (pszAddr : option str) (nPort : Z) : TM (option bool) :=
  _ ← mod_obj (fun s => with_ts_addr (default (ts_addr s) pszAddr) nPort s);
  s ← obj;
  let addr := match ts_addr s with [] => None | a => Some a end in
  ok ← on_sock (prepare_to_server (u32 (ts_port s)) addr 1);
  if negb ok then mret (Some false)
  else
    s ← obj;
    match create w (ts_thread s) with
    | None => mret None
    | Some (r, _, t) => _ ← mod_obj (with_ts_thread t); mret (Some (r =? 1)%Z)
    end.

(** [check_channels]: the channels that ended are destroyed. *)
Definition full_check : TM unit :=
  s ← obj;
  _ ← mod_obj (with_ts_chans (filter (fun c => disc c.1 = false) (ts_chans s)));
  drop_chans (filter (fun c => disc c.1 = true) (ts_chans s)).

Fixpoint extract (id : nat) (l : list (tchan * socket))
    : list (tchan * socket) * list (tchan * socket) :=
  match l with
  | [] => ([], [])
  | c :: l =>
      if bool_decide (ch_id c.1 = id) then ([c], l)
      else let '(d, r) := extract id l in (d, c :: r)
  end.
Definition full_close_channel (id : nat) : TM unit :=
  s ← obj;
  let '(d, r) := extract id (ts_chans s) in
  _ ← mod_obj (with_ts_chans r); drop_chans d.

(** The connection [k] is rejected at the limit, otherwise it gets a channel;
    [id] and [ty] are the channel's address and what [OnConnected] makes of its
    type. *)
Definition full_admit (id : nat) (ty : Z) (k : socket) : TM round_result :=
  s ← obj;
  if (s32 (Z.of_nat (length (ts_chans s))) =? ts_limit s)%Z
  then _ ← drop_sock k; mret Rejected
  else
    _ ← mod_obj (with_ts_chans (ts_chans s ++ [(TC id TCP_CONN ty, k)]));
    mret Accepted.

(** One round of [thread_proc]. *)
Definition full_round (id : nat) (ty : Z) : TM round_result :=
  nResult ← on_sock (select_ms 100);
  if (nResult =? -1)%Z then mret Stop
  else
    _ ← full_check;
    if (nResult =? 0)%Z then mret Idle
    else
      client ← on_sock accept_new;
      match client with
      | None => mret Idle
      | Some k => full_admit id ty k
      end.

(** What [select] and [accept] report to that round. *)
Definition round_reports (id : nat) (ty : Z) : TM (Z * accept_result) :=
  nResult ← on_sock (select_ms 100);
  if (nResult =? -1)%Z || (nResult =? 0)%Z then mret (nResult, AcceptNull)
  else
    _ ← full_check;
    client ← on_sock accept_new;
    mret (nResult, match client with None => AcceptNull | Some _ => AcceptOk (Z.of_nat id) ty end).

Definition tcp_close : TM unit :=
  _ ← mod_obj (fun s => with_ts_thread (close_pre (ts_thread s)) s);
  _ ← on_sock close;
  mod_obj (fun s => with_ts_thread (close_post (ts_thread s)) s).

Definition tcp_dtor : TM unit :=
  _ ← tcp_close;
  s ← obj;
  _ ← mod_obj (with_ts_chans []);
  _ ← drop_chans (ts_chans s);
  on_sock close.

(** The [sock_.reset()] of a channel's thread on an illegal packet: its socket is
    closed and gone (kept here as a closed one, which holds nothing). *)
Definition reset_sock (k : socket) : TM socket := fun '(s, os) =>
  match close (k, os) with
  | Ok (_, (k', os')) => Ok (k', (s, os'))
  | Exc e => Exc e
  | Ub u => Ub u
  end.
Fixpoint reset_chans (id : nat) (l : list (tchan * socket)) : TM (list (tchan * socket)) :=
  match l with
  | [] => mret []
  | (c, k) :: l =>
      k' ← (if bool_decide (ch_id c = id) then reset_sock k else mret k);
      r ← reset_chans id l; mret ((c, k') :: r)
  end.

(** [TcpChannel::send] on the channel's socket (null once dropped): an error
    closes the thread, which a worker cannot do to itself. *)
Definition channel_send (by_worker : bool) (sock_ : option socket) (bs : list Z) (t : thread)
    (os : OS) : outcome (Z * thread * option socket * OS) :=
  match sock_ with
  | None => Ok ((-1)%Z, t, None, os)
  | Some k =>
      '(nCount, (k', os')) ← send bs 0 (k, os);
      if (nCount =? -1)%Z then
        if by_worker && is_joinable (thread_ t) then Exc "Resource deadlock avoided"%string
        else Ok (nCount, close_post (close_pre t), Some k', os')
      else Ok (nCount, t, Some k', os')
  end.
End tcp.

(** The calls made on a server, the rounds of its thread and the channels
    whose thread ends included. *)
Inductive srv_op : Type :=
| SStart (w : wid) (a : option str) (port : Z) | SRound (id : nat) (ty : Z)
| SCloseChannel (id : nat) | SEnds (id : nat) | SIllegal (id : nat) | SLimit (n : Z) | SClose.

(** The thread of a channel returns. *)
Definition ends (id : nat) (c : tchan * socket) : tchan * socket :=
  if bool_decide (ch_id c.1 = id) then (TC id TCP_DISC (ch_type_ c.1), c.2) else c.

Section runs.
Context `{SockOs OS}.

Definition run_srv_op (o : srv_op) : TM unit :=
  match o with
  | SStart w a port => _ ← tcp_start w a port; mret tt
  | SRound id ty => _ ← full_round id ty; mret tt
  | SCloseChannel id => full_close_channel id
  | SEnds id => mod_obj (fun s => with_ts_chans (map (ends id) (ts_chans s)) s)
  | SIllegal id =>
      s ← obj; l ← reset_chans id (ts_chans s); mod_obj (with_ts_chans (map (ends id) l))
  | SLimit n => mod_obj (fun s => TSrv (ts_sock s) (ts_thread s) (ts_addr s) (ts_port s) n (ts_chans s))
  | SClose => tcp_close
  end.

Fixpoint run_srv_ops (os : list srv_op) : TM unit :=
  match os with
  | [] => mret tt
  | o :: os => _ ← run_srv_op o; run_srv_ops os
  end.
End runs.

(** The server without its sockets, as Tcp has it. *)
Definition to_server (ue cb : bool) (s : tsrv) : server :=
  Srv (map fst (ts_chans s)) (ts_limit s) ue cb.

Lemma map_fst_live (l : list (tchan * socket)) :
  map fst (filter (fun c => disc c.1 = false) l) = check_channels_loop (map fst l).
Proof.
  rewrite check_loop_filter. induction l as [|c l IH]; [done|]. cbn [map]. rewrite !filter_cons.
  case_decide; cbn [map]; by rewrite IH.
Qed.

Section server_pool.
Context `{SockFds OS, !FdLimit OS}.
Context (base : gset Z).
Implicit Types (s : tsrv) (os : OS).

(** The listening socket and those of the channels hold what is open. *)
Definition srv_pool (st : tsrv * OS) : Prop :=
  pool base (ts_sock st.1 :: map snd (ts_chans st.1)) st.2.

Lemma keeps_on_sock {A} (m : SM A) : (forall b, keeps (sk_owns b) m) -> keeps srv_pool (on_sock m).
Proof.
  intros Hm [s os] Hs. destruct (pool_run base _ _ os m Hm Hs) as (a & k & os' & Hr & Hp).
  unfold wp, on_sock. cbn [fst] in Hr. by rewrite Hr.
Qed.

Lemma keeps_mod_obj f : (forall s, ts_sock (f s) = ts_sock s) ->
  (forall s, map snd (ts_chans (f s)) = map snd (ts_chans s)) -> keeps srv_pool (mod_obj f).
Proof. intros H1 H2 [s os] Hs. unfold wp, mod_obj, srv_pool in *. cbn in *. by rewrite H1, H2. Qed.

Lemma keeps_obj : keeps srv_pool obj.
Proof. by intros [s os]. Qed.

(** Dropping sockets that are in the pool besides the server's. *)
Lemma wp_drop_chans l s os :
  pool base (map snd l ++ ts_sock s :: map snd (ts_chans s)) os ->
  wp (drop_chans l) (fun _ st => st.1 = s /\ srv_pool st) (s, os).
Proof.
  revert os. induction l as [|[c k] l IH]; intros os Hp; cbn [drop_chans]; [done|].
  apply wp_bind. destruct (pool_close base k _ os Hp) as (k' & os' & Hc & Hp' & _).
  unfold wp at 1, drop_sock. rewrite Hc. by apply IH.
Qed.

Lemma wp_drop_split l r s os :
  srv_pool (s, os) -> ts_chans s ≡ₚ l ++ r ->
  wp (_ ← mod_obj (with_ts_chans r); drop_chans l)
     (fun _ st => st.1 = with_ts_chans r s /\ srv_pool st) (s, os).
Proof.
  intros Hs Hlr. apply wp_bind. unfold wp at 1, mod_obj. apply wp_drop_chans.
  unfold srv_pool in Hs. cbn [fst snd ts_sock ts_chans with_ts_chans] in *.
  rewrite Hlr, map_app in Hs. by rewrite <-Permutation_middle.
Qed.

Lemma wp_full_check s os : srv_pool (s, os) ->
  wp full_check (fun _ st =>
    st.1 = with_ts_chans (filter (fun c => disc c.1 = false) (ts_chans s)) s /\ srv_pool st) (s, os).
Proof.
  intros Hs. apply wp_bind. unfold wp at 1, obj. apply wp_drop_split; [done|].
  clear Hs. induction (ts_chans s) as [|c l IH]; [done|]. rewrite !filter_cons.
  destruct (disc c.1).
  - rewrite decide_True, decide_False by done. cbn. by rewrite <-IH.
  - rewrite decide_False, decide_True by done. rewrite <-Permutation_middle. by rewrite <-IH.
Qed.

Lemma extract_perm id l : l ≡ₚ (extract id l).1 ++ (extract id l).2.
Proof.
  induction l as [|c l IH]; cbn [extract]; [done|]. case_bool_decide; [done|].
  destruct (extract id l) as [d r]. cbn in *. rewrite <-Permutation_middle. by rewrite <-IH.
Qed.

Lemma keeps_full_close_channel id : keeps srv_pool (full_close_channel id).
Proof.
  intros [s os] Hs. apply wp_bind. unfold wp at 1, obj.
  pose proof (extract_perm id (ts_chans s)) as Hx. destruct (extract id (ts_chans s)) as [d r].
  eapply wp_mono; [|by apply wp_drop_split]. by intros _ st [_ ?].
Qed.

(** An accepted socket comes with a descriptor of its own. *)
Lemma wp_accept s os : srv_pool (s, os) ->
  wp (on_sock accept_new)
     (fun r st => st.1 = s /\
        match r with
        | None => srv_pool st
        | Some k => pool base (k :: ts_sock s :: map snd (ts_chans s)) st.2
        end) (s, os).
Proof.
  intros Hp. unfold wp, on_sock, accept_new, self, sys, mbind, SM_bind, M_bind, mret, SM_ret, M_ret.
  pose proof (accept_fail (socket_fd_ (ts_sock s)) os) as Hf.
  pose proof (accept_fresh (socket_fd_ (ts_sock s)) os) as Hn.
  pose proof (accept_limit (socket_fd_ (ts_sock s)) os) as Hl.
  destruct (sys_accept (socket_fd_ (ts_sock s)) os) as [fd os1]. cbn in *.
  assert (with_ts_sock (ts_sock s) s = s) as -> by by destruct s. split; [done|].
  destruct (Z.eqb_spec fd INVALID_SOCKET) as [->|Hfd].
  - unfold srv_pool, pool in *. cbn [fst snd] in *. by rewrite Hf.
  - destruct (Hn Hfd) as [Hfresh Hset]. destruct Hp as (Hd & Hb & Hs & Hr). cbn [fst snd] in *.
    apply pool_cons. split_and!; try done. split; [right; by apply Hl|].
    cbn [fst snd with_type with_fd socket_fd_].
    rewrite (proj2 (Z.eqb_neq _ _)), <-Hs by done. done.
Qed.

Lemma wp_full_admit id ty k s os :
  pool base (k :: ts_sock s :: map snd (ts_chans s)) os ->
  wp (full_admit id ty k)
     (fun r st => srv_pool st /\ (r, st.1) =
        if (s32 (Z.of_nat (length (ts_chans s))) =? ts_limit s)%Z then (Rejected, s)
        else (Accepted, with_ts_chans (ts_chans s ++ [(TC id TCP_CONN ty, k)]) s)) (s, os).
Proof.
  intros Hp. apply wp_bind. unfold wp at 1, obj. destruct (_ =? _)%Z; apply wp_bind.
  - pose proof (wp_drop_chans [(TC 0 0 0, k)] s os Hp) as Hw. cbn [drop_chans] in Hw.
    unfold wp, mbind, TM_bind, M_bind in *.
    destruct (drop_sock k (s, os)) as [[[] [s2 os2]]| |]; [|done|done].
    destruct Hw as [E ?]. cbn in E. by subst.
  - unfold wp, mod_obj, mret, TM_ret, M_ret, srv_pool.
    cbn [fst snd ts_sock ts_chans with_ts_chans]. rewrite map_app. cbn [map snd].
    split; [|done]. by rewrite <-Permutation_cons_append, Permutation_swap.
Qed.

Lemma wp_on_sock {A} (m : SM A) s os : (forall b, keeps (sk_owns b) m) -> srv_pool (s, os) ->
  wp (on_sock m) (fun _ st => (exists k, st.1 = with_ts_sock k s) /\ srv_pool st) (s, os).
Proof.
  intros Hm Hs. pose proof (keeps_on_sock m Hm _ Hs) as Hk. unfold wp, on_sock in *.
  destruct (m (ts_sock s, os)) as [[a [k os1]]| |]; [|done|done]. eauto.
Qed.

(** A round keeps the pool and does what the abstract round does with the same
    reports. *)
Lemma full_round_spec ue cb id ty s os : srv_pool (s, os) ->
  exists r st n acc st', full_round id ty (s, os) = Ok (r, st) /\ srv_pool st /\
    round_reports id ty (s, os) = Ok ((n, acc), st') /\
    accept_round n acc (to_server ue cb s) = (r, to_server ue cb st.1).
Proof.
  intros Hp. unfold full_round, round_reports, mbind, TM_bind, M_bind.
  pose proof (wp_on_sock (select_ms 100) s os (fun b => keeps_select b _) Hp)
    as (n & [s1 os1] & Hsel & [k E] & Hp1)%wp_ok. cbn [fst] in E. subst s1. rewrite Hsel.
  destruct (Z.eqb_spec n (-1)) as [->|Hn1].
  { exists Stop, (with_ts_sock k s, os1), (-1)%Z, AcceptNull, (with_ts_sock k s, os1). by split_and!. }
  pose proof (wp_full_check _ _ Hp1) as ([] & [s2 os2] & Hchk & E & Hp2)%wp_ok. cbn [fst] in E.
  assert (to_server ue cb s2 = check_channels (to_server ue cb s)) as Hc.
  { subst s2. unfold check_channels, to_server, with_channels. cbn. by rewrite map_fst_live. }
  rewrite Hchk. destruct (Z.eqb_spec n 0) as [->|Hn0]; cbn [orb].
  { eexists Idle, (s2, os2), 0%Z, AcceptNull, _. split_and!; [done|done|reflexivity|].
    unfold accept_round. cbn. by rewrite Hc. }
  rewrite Hchk. pose proof (wp_accept s2 os2 Hp2) as (c & [s3 os3] & Hacc & E3 & Hr)%wp_ok.
  cbn [fst] in E3. subst s3. rewrite Hacc.
  assert (forall acc x, accept_round n acc x = accept_round 1 acc x) as Hone.
  { intros. unfold accept_round. by rewrite (proj2 (Z.eqb_neq n (-1))), (proj2 (Z.eqb_neq n 0)) by done. }
  destruct c as [c|].
  - pose proof (wp_full_admit id ty c s2 os3 Hr) as (r & [s4 os4] & Had & Hp4 & Hres)%wp_ok. rewrite Had.
    eexists r, (s4, os4), n, (AcceptOk (Z.of_nat id) ty), _. split_and!; [done|done|reflexivity|].
    rewrite Hone. unfold accept_round. cbn [Z.eqb]. rewrite <-Hc.
    cbn [to_server channels_ limit_ fst snd] in *. rewrite length_map. destruct (_ =? ts_limit s2)%Z; simplify_eq; [done|].
    unfold to_server, with_channels. cbn. by rewrite map_app, Nat2Z.id.
  - eexists Idle, (s2, os3), n, AcceptNull, _. split_and!; [done|done|reflexivity|].
    rewrite Hone. cbn. by rewrite Hc.
Qed.

Lemma keeps_full_round id ty : keeps srv_pool (full_round id ty).
Proof.
  intros [s os] Hs. destruct (full_round_spec true true id ty s os Hs) as (r & st & _ & _ & _ & Hr & Hp & _).
  unfold wp. by rewrite Hr.
Qed.

Lemma wp_reset_chans id l s : forall rest os, pool base (map snd l ++ rest) os ->
  wp (reset_chans id l) (fun l' st => st.1 = s /\ pool base (map snd l' ++ rest) st.2) (s, os).
Proof.
  induction l as [|[c k] l IH]; intros rest os Hp; cbn [reset_chans]; [done|]. apply wp_bind.
  assert (forall k' os', pool base (k' :: map snd l ++ rest) os' ->
    wp (r ← reset_chans id l; mret ((c, k') :: r))
       (fun l' st => st.1 = s /\ pool base (map snd l' ++ rest) st.2) (s, os')) as Hrest.
  { intros k' os' Hp'. apply wp_bind. eapply wp_mono; [|apply (IH (k' :: rest) os')].
    - intros l' st [E Hl]. apply wp_ret. split; [done|]. cbn. by rewrite Permutation_middle.
    - by rewrite <-Permutation_middle. }
  case_bool_decide; [|by apply wp_ret, Hrest].
  destruct (pool_run base k _ os close (fun b => keeps_close b) Hp) as ([] & k' & os' & Hc & Hp').
  unfold wp at 1, reset_sock. rewrite Hc. by apply Hrest.
Qed.

Lemma map_snd_ends id (l : list (tchan * socket)) : map snd (map (ends id) l) = map snd l.
Proof. rewrite map_map. apply map_ext. intros [c k]. unfold ends. by case_bool_decide. Qed.

Lemma keeps_illegal id :
  keeps srv_pool (s ← obj; l ← reset_chans id (ts_chans s); mod_obj (with_ts_chans (map (ends id) l))).
Proof.
  intros [s os] Hs. apply wp_bind. unfold wp at 1, obj. apply wp_bind. unfold srv_pool in Hs. cbn [fst snd] in Hs.
  eapply wp_mono; [|apply (wp_reset_chans id (ts_chans s) s [ts_sock s])].
  - intros l [s1 os1] [E Hl]. cbn in E. subst s1. unfold wp, mod_obj, srv_pool. cbn [fst snd ts_sock ts_chans with_ts_chans].
    rewrite map_snd_ends. cbn [snd] in Hl. by rewrite Permutation_cons_append.
  - by rewrite <-Permutation_cons_append.
Qed.

Lemma keeps_tcp_start w a port : keeps srv_pool (tcp_start w a port).
Proof.
  apply keeps_bind; [by apply keeps_mod_obj|]. intros _.
  apply keeps_bind; [apply keeps_obj|]. intros s.
  apply keeps_bind; [apply keeps_on_sock; intros b; apply keeps_prepare_to_server|]. intros ok.
  apply keeps_if; intros _; [apply keeps_ret|].
  apply keeps_bind; [apply keeps_obj|]. intros s1.
  destruct (create w (ts_thread s1)) as [[[r l] t]|]; [|apply keeps_ret].
  apply keeps_bind; [by apply keeps_mod_obj|]. intros _. apply keeps_ret.
Qed.

Lemma keeps_tcp_close : keeps srv_pool tcp_close.
Proof.
  apply keeps_bind; [by apply keeps_mod_obj|]. intros _.
  apply keeps_bind; [apply keeps_on_sock; intros b; apply keeps_close|]. intros _.
  by apply keeps_mod_obj.
Qed.

Lemma keeps_srv_ops ops : keeps srv_pool (run_srv_ops ops).
Proof.
  induction ops as [|o ops IH]; cbn [run_srv_ops]; [apply keeps_ret|].
  apply keeps_bind; [|done]. destruct o; cbn [run_srv_op].
  - apply keeps_bind; [apply keeps_tcp_start|intros ?; apply keeps_ret].
  - apply keeps_bind; [apply keeps_full_round|intros ?; apply keeps_ret].
  - apply keeps_full_close_channel.
  - apply keeps_mod_obj; [done|]. intros s. apply map_snd_ends.
  - apply keeps_illegal.
  - by apply keeps_mod_obj.
  - apply keeps_tcp_close.
Qed.

Lemma wp_tcp_dtor s os : srv_pool (s, os) ->
  wp tcp_dtor (fun _ st => sfds st.2 = base /\ ts_chans st.1 = [] /\
                           socket_fd_ (ts_sock st.1) = INVALID_SOCKET) (s, os).
Proof.
  intros Hp. apply wp_bind. eapply wp_mono; [|by apply keeps_tcp_close]. intros _ [s1 os1] Hp1.
  apply wp_bind. unfold wp at 1, obj. apply wp_bind. unfold wp at 1, mod_obj.
  apply wp_bind. eapply wp_mono; [|apply wp_drop_chans].
  - intros _ [s2 os2] [E Hp2]. cbn in E. subst s2.
    destruct (pool_close base _ _ os2 Hp2) as (k & os3 & Hc & Hp3 & Hk).
    unfold wp, on_sock. cbn [fst snd] in Hc. rewrite Hc. cbn in *. by apply pool_nil in Hp3.
  - cbn. by rewrite <-Permutation_cons_append.
Qed.
End server_pool.

(** ** UDP servers *)

(** [UUdpServer] and [IUdpServer]: the receiving socket and thread of their
    base class and the sender's socket. *)
Record usrv : Type := USrv {
  us_recv : socket; us_send : socket; us_thread : thread; us_addr : str; us_port : Z;
}.

Definition usrv_new : usrv := USrv Socket_new Socket_new Thread_new [] 0.

Definition with_us_thread (t : thread) (u : usrv) : usrv :=
  USrv (us_recv u) (us_send u) t (us_addr u) (us_port u).

(** A [start] returns, throws, or waits for a shutdown in progress. *)
Inductive start_result : Type := Started (r : Z) | Throws (what : string) | Waits.

Section udp.
Context `{SockOs OS}.

Definition UM (A : Type) : Type := M (usrv * OS) A.
#[global] Instance UM_ret : MRet UM := M_ret.
#[global] Instance UM_bind : MBind UM := M_bind.

Definition on_recv {A} (m : SM A) : UM A := fun '(u, os) =>
  match m (us_recv u, os) with
  | Ok (a, (k, os')) => Ok (a, (USrv k (us_send u) (us_thread u) (us_addr u) (us_port u), os'))
  | Exc e => Exc e
  | Ub b => Ub b
  end.
Definition on_send {A} (m : SM A) : UM A := fun '(u, os) =>
  match m (us_send u, os) with
  | Ok (a, (k, os')) => Ok (a, (USrv (us_recv u) k (us_thread u) (us_addr u) (us_port u), os'))
  | Exc e => Exc e
  | Ub b => Ub b
  end.
Definition mod_udp (f : usrv -> usrv) : UM unit := fun '(u, os) => Ok (tt, (f u, os)).

Definition udp_create (w : wid) : UM start_result := fun '(u, os) =>
  match create w (us_thread u) with
  | None => Ok (Waits, (u, os))
  | Some (r, _, t) => Ok (Started r, (with_us_thread t u, os))
  end.

(** [UUdpSender::open] and [IUdpSender::open]. *)
Definition uudp_sender_open : SM bool := create_socket AF_UNIX SOCK_DGRAM 0.
Definition iudp_sender_open : SM bool := inet_udp_open 0 None.

Definition uudp_receiver_start (w : wid) (pszPath : option str) : UM start_result :=
  ok ← on_recv (open_path pszPath);
  if negb ok then mret (Throws "UUdpReceiver Create Error") else udp_create w.
(** The sender's failure is only logged. *)
Definition uudp_start (w : wid) (pszPath : option str) : UM start_result :=
  _ ← on_send uudp_sender_open; uudp_receiver_start w pszPath.

Definition iudp_receiver_start (w : wid) (pszAddr : option str) (nPort : Z) : UM start_result :=
  _ ← mod_udp (fun u => USrv (us_recv u) (us_send u) (us_thread u) (default [] pszAddr) nPort);
  ok ← on_recv (inet_udp_open (u32 nPort) pszAddr);
  if negb ok then mret (Throws "IUdpReceiver Create Error") else udp_create w.
Definition iudp_start (w : wid) (pszAddr : option str) (nPort : Z) : UM start_result :=
  ok ← on_send iudp_sender_open;
  if negb ok then mret (Throws "IUdpServer Create Error")
  else iudp_receiver_start w pszAddr nPort.

(** The destructors: the derived class's sender goes first, then the base class
    stops its thread. *)
Definition udp_dtor : UM unit :=
  _ ← on_send close;
  _ ← mod_udp (fun u => with_us_thread (close_pre (us_thread u)) u);
  _ ← on_recv close;
  mod_udp (fun u => with_us_thread (close_post (us_thread u)) u).
End udp.

Section udp_pool.
Context `{SockFds OS, !FdLimit OS}.
Context (base : gset Z).
Implicit Types (u : usrv) (os : OS).

Definition udp_pool (st : usrv * OS) : Prop := pool base [us_recv st.1; us_send st.1] st.2.

Lemma keeps_on_recv {A} (m : SM A) : (forall b, keeps (sk_owns b) m) -> keeps udp_pool (on_recv m).
Proof.
  intros Hm [u os] Hs. destruct (pool_run base _ _ os m Hm Hs) as (a & k & os' & Hr & Hp).
  unfold wp, on_recv. cbn [fst] in Hr. by rewrite Hr.
Qed.

Lemma keeps_on_send {A} (m : SM A) : (forall b, keeps (sk_owns b) m) -> keeps udp_pool (on_send m).
Proof.
  intros Hm [u os] Hs. unfold udp_pool in Hs. rewrite Permutation_swap in Hs.
  destruct (pool_run base _ _ os m Hm Hs) as (a & k & os' & Hr & Hp).
  unfold wp, on_send. cbn [fst] in Hr. rewrite Hr. unfold udp_pool. cbn.
  by rewrite Permutation_swap.
Qed.

Lemma keeps_mod_udp f : (forall u, us_recv (f u) = us_recv u /\ us_send (f u) = us_send u) ->
  keeps udp_pool (mod_udp f).
Proof.
  intros Hf [u os] Hs. unfold wp, mod_udp, udp_pool in *. cbn in *. by destruct (Hf u) as [-> ->].
Qed.

Lemma keeps_udp_create w : keeps udp_pool (udp_create w).
Proof.
  intros [u os] Hs. unfold wp, udp_create. by destruct (create w (us_thread u)) as [[[??]?]|].
Qed.

Lemma keeps_uudp_start w p : keeps udp_pool (uudp_start w (Some p)).
Proof.
  apply keeps_bind; [apply keeps_on_send; intros b; apply keeps_create_socket|]. intros _.
  apply keeps_bind; [apply keeps_on_recv; intros b; apply keeps_open_path|]. intros ok.
  apply keeps_if; intros _; [apply keeps_ret|apply keeps_udp_create].
Qed.

Lemma keeps_iudp_start w a port : keeps udp_pool (iudp_start w a port).
Proof.
  apply keeps_bind; [apply keeps_on_send; intros b; apply keeps_udp_open|]. intros ok.
  apply keeps_if; intros _; [apply keeps_ret|].
  apply keeps_bind; [by apply keeps_mod_udp|]. intros _.
  apply keeps_bind; [apply keeps_on_recv; intros b; apply keeps_udp_open|]. intros ok2.
  apply keeps_if; intros _; [apply keeps_ret|apply keeps_udp_create].
Qed.

Lemma udp_pool_new os : sfds os = base -> udp_pool (usrv_new, os).
Proof.
  intros Hs. apply pool_cons. split_and!; [|constructor|set_solver|].
  - apply closed_owned; [done|]. cbn. set_solver.
  - repeat constructor.
Qed.

(** The destructor gives both descriptors back. *)
Lemma wp_udp_dtor u os : udp_pool (u, os) ->
  wp udp_dtor (fun _ st => sfds st.2 = base /\ us_thread st.1 = close_post (close_pre (us_thread u)))
    (u, os).
Proof.
  intros Hp. unfold udp_pool in Hp. rewrite Permutation_swap in Hp. cbn [fst snd] in Hp.
  destruct (pool_close base _ _ os Hp) as (k & os1 & Hc & Hp1 & _).
  destruct (pool_close base _ _ os1 Hp1) as (k2 & os2 & Hc2 & Hp2 & _). apply pool_nil in Hp2.
  unfold udp_dtor. apply wp_bind. unfold wp at 1, on_send. rewrite Hc. apply wp_bind.
  unfold wp at 1, mod_udp. apply wp_bind. unfold wp at 1, on_recv. cbn [us_recv with_us_thread].
  by rewrite Hc2.
Qed.

(** A start launches the worker and leaves the receiving socket open, or
    throws and leaves neither. *)
Definition started_or_not (r : start_result) (st : usrv * OS) : Prop :=
  match r with
  | Started n => n = 1%Z /\ thread_exists (us_thread st.1) = 1%Z /\
                 closing_ (us_thread st.1) = false /\ do_exit (us_thread st.1) = false /\
                 socket_fd_ (us_recv st.1) <> INVALID_SOCKET
  | Throws _ => us_thread st.1 = Thread_new /\ socket_fd_ (us_recv st.1) = INVALID_SOCKET
  | Waits => False
  end.

Lemma wp_on_recv_opened (m : SM bool) u os w e :
  wp m opened (us_recv u, os) -> us_thread u = Thread_new ->
  wp (ok ← on_recv m; if negb ok then mret (Throws e) else udp_create w) started_or_not (u, os).
Proof.
  intros Hm Ht. apply wp_bind. unfold wp, on_recv in *.
  destruct (m (us_recv u, os)) as [[ok [k os1]]| |]; [|done|done].
  unfold opened in Hm. cbn [fst] in Hm. destruct ok; cbn.
  - rewrite Ht. cbn. split_and!; try done. by apply Hm.
  - split; [done|]. destruct (decide (socket_fd_ k = INVALID_SOCKET)) as [|Hk]; [done|].
    by apply Hm in Hk.
Qed.

Lemma wp_on_send_recv {A} (m : SM A) u os :
  (forall b, keeps (sk_owns b) m) -> udp_pool (u, os) ->
  wp (on_send m) (fun _ st => us_recv st.1 = us_recv u /\ us_thread st.1 = us_thread u) (u, os).
Proof.
  intros Hm Hp. pose proof (keeps_on_send m Hm _ Hp) as Hk. unfold wp, on_send in *.
  by destruct (m (us_send u, os)) as [[a [k os1]]| |].
Qed.

Lemma wp_uudp_start w p os : sfds os = base ->
  wp (uudp_start w (Some p)) started_or_not (usrv_new, os).
Proof.
  intros Hs. apply wp_bind.
  eapply wp_mono; [|apply wp_on_send_recv; [intros b; apply keeps_create_socket|by apply udp_pool_new]].
  intros _ [u1 os1] [Hr Ht]. cbn [fst] in *. apply wp_on_recv_opened; [|done].
  apply wp_path_opened. by rewrite Hr.
Qed.

Lemma wp_iudp_start w a port os : sfds os = base ->
  wp (iudp_start w a port) started_or_not (usrv_new, os).
Proof.
  intros Hs. apply wp_bind.
  eapply wp_mono; [|apply wp_on_send_recv; [intros b; apply keeps_udp_open|by apply udp_pool_new]].
  intros ok [u1 os1] [Hr Ht]. cbn [fst] in *. destruct ok; cbn [negb]; [|split; cbn; by rewrite ?Hr].
  unfold iudp_receiver_start. apply wp_bind. unfold wp at 1, mod_udp.
  apply wp_on_recv_opened; [|done]. apply wp_inet_opened. cbn. by rewrite Hr.
Qed.
End udp_pool.

(** ** [UUdpIfThread] *)

(** An event thread that owns a [UUdpServer]. *)
Record ifthread : Type := IfT {
  it_channel : option usrv; it_q : QThread.qthread; it_path : str;
}.

Definition UUdpIfThread_new (n : Z) : ifthread := IfT (Some usrv_new) (QThread.new n) [].

Definition UUdpIfThread_default : ifthread := UUdpIfThread_new DEF_EVENT_QUEUE_LENGTH.

Section ifthread.
Context `{SockOs OS}.

(** [start] with the receiver's and its own worker; an exception of the
    channel's start leaves its own thread uncreated. *)
Definition if_start (w w' : wid) (pszPath : str) (t : ifthread) (os : OS)
    : outcome (start_result * ifthread * OS) :=
  match it_channel t with
  | None => Ub NullDeref
  | Some u =>
      '(r, (u', os1)) ← uudp_start w (Some pszPath) (u, os);
      let t1 := IfT (Some u') (it_q t) (cstr pszPath) in
      match r with
      | Throws e => Ok (Throws e, t1, os1)
      | Waits => Ok (Waits, t1, os1)
      | Started _ =>
          match QThread.start w' (it_q t1) with
          | None => Ok (Waits, t1, os1)
          | Some (ok, _, q) => Ok (Started (if ok : bool then 1 else 0)%Z, IfT (Some u') q (it_path t1), os1)
          end
      end
  end.

(** A round of [thread_proc]: the event handed to [recv_handle] with its
    length; [None] while the queue is empty. *)
Definition if_round (t : ifthread) : option (outcome (EVENTINFO * Z * ifthread)) :=
  match QThread.remove (it_q t) with
  | None => None
  | Some (None, _) => Some (Ub NullDeref)
  | Some (Some e, q) => Some (Ok (e, nMsgLen (h e), IfT (it_channel t) q (it_path t)))
  end.

(** The destructor up to the join of its own worker: the channel goes first,
    then the quit event is posted. *)
Definition if_dtor (t : ifthread) (os : OS) : outcome (option jthread * ifthread * OS) :=
  os1 ← match it_channel t with
        | None => Ok os
        | Some u => '(_, (_, os1)) ← udp_dtor (u, os); Ok os1
        end;
  '(j, q) ← QThread.close_begin (it_q t);
  Ok (j, IfT None q (it_path t), os1).
End ifthread.

(** Started and destroyed, it gives back every descriptor, and what its own
    worker then takes from an empty queue is the quit event. *)
Lemma if_thread_lifecycle `{SockFds OS, !FdLimit OS} (os : OS) w w' p n :
  (0 < n <= INT32_MAX)%Z ->
  exists r t1 os1, if_start w w' p (UUdpIfThread_new n) os = Ok (r, t1, os1) /\ r <> Waits /\
    exists j t2 os2 e t3, if_dtor t1 os1 = Ok (j, t2, os2) /\ sfds os2 = sfds os /\
      if_round t2 = Some (Ok (e, nMsgLen (h e), t3)) /\ usType (h e) = CI_QUIT_THREAD.
Proof.
  intros Hn. unfold if_start, UUdpIfThread_new. cbn [it_channel it_q].
  pose proof (wp_and _ _ _ _ (wp_uudp_start (sfds os) w p os eq_refl)
    (keeps_uudp_start (sfds os) w p _ (udp_pool_new (sfds os) os eq_refl))) as Hw.
  apply wp_ok in Hw as (r & [u1 os1] & Hr & Hst & Hp). rewrite Hr. unfold mbind, outcome_bind.
  pose proof (wp_udp_dtor (sfds os) u1 os1 Hp) as Hd.
  apply wp_ok in Hd as ([] & [u2 os2] & Hd & Hf & _). cbn [snd] in Hf.
  assert (forall th a, exists j t2 e t3,
    if_dtor (IfT (Some u1) (QThread.QT th (Sync.Queue.new event0 n)) a) os1 = Ok (j, t2, os2) /\
    if_round t2 = Some (Ok (e, nMsgLen (h e), t3)) /\ usType (h e) = CI_QUIT_THREAD) as Hdt.
  { intros th a. unfold if_dtor, mbind, outcome_bind. cbn [it_channel it_q]. rewrite Hd.
    unfold QThread.close_begin, QThread.add_quit_event, QThread.add_event.
    destruct (make_event CI_QUIT_THREAD 0 None 0) as [e| |] eqn:He; [|by vm_compute in He..].
    unfold mbind, outcome_bind, QThread.add, Sync.Queue.put. cbn [QThread.qt_queue QThread.qt_thread
      Sync.Queue.new Sync.Queue.q_closed Sync.Queue.q_max Sync.Queue.q_items orb].
    unfold Sync.Queue.size_int. cbn [Sync.Queue.q_items length]. rewrite swrap_small by done.
    rewrite (proj2 (Z.leb_gt _ _)) by (cbn; lia). cbn [Z.eqb negb fst snd].
    assert (usType (h e) = CI_QUIT_THREAD) as Ht by (clear -He; vm_compute in He; by simplify_eq).
    destruct (close_post_begin _) as [[j th']|]; (do 4 eexists; split; [reflexivity|]; split; [reflexivity|exact Ht]). }
  destruct r as [z|what|]; [| |done].
  - unfold QThread.start. cbn [QThread.qt_thread QThread.new it_q].
    cbn [create Thread_new closing_ thread_ is_joinable stop_requested].
    do 3 eexists. split; [reflexivity|]. split; [done|].
    destruct (Hdt (Thr (Some (Joinable w')) false false) (cstr p)) as (j & t2 & e & t3 & ? & ? & ?).
    by exists j, t2, os2, e, t3.
  - do 3 eexists. split; [reflexivity|]. split; [done|].
    destruct (Hdt Thread_new (cstr p)) as (j & t2 & e & t3 & ? & ? & ?). by exists j, t2, os2, e, t3.
Qed.

(** ** Properties *)

(** C22: no descriptor of a TCP server is lost.  Whatever sequence of starts,
    rounds of the accept loop, ends of channel threads (after an illegal packet,
    which drops the socket at once, or otherwise), calls of [close_channel], changes
    of the limit and closes a server sees, and whichever of the system calls fail,
    every operation returns normally and the open descriptors are those the process
    had plus the one the listening socket holds, if any, and at most one per channel,
    all different.  So a rejected connection's and a dropped channel's are given
    back; a start that fails in [listen] keeps its descriptor as the listening
    socket's.  The destructor leaves exactly the initial descriptors.  Assumed: no
    descriptor is beyond [FD_SETSIZE], and the joins of the threads return. *)
Theorem tcp_server_descriptors `{SockFds OS, !FdLimit OS} (os : OS) (ops : list srv_op) :
  exists s1 os1, run_srv_ops ops (tsrv_new, os) = Ok (tt, (s1, os1)) /\
    srv_pool (sfds os) (s1, os1) /\
    exists s2 os2, tcp_dtor (s1, os1) = Ok (tt, (s2, os2)) /\
      sfds os2 = sfds os /\ ts_chans s2 = [].
Proof.
  assert (srv_pool (sfds os) (tsrv_new, os)) as Hp.
  { apply pool_cons. split_and!; [by apply closed_owned; [|set_solver]|constructor|set_solver|constructor]. }
  pose proof (keeps_srv_ops (sfds os) ops _ Hp) as Hw.
  apply wp_ok in Hw as ([] & [s1 os1] & Hr & Hp1). exists s1, os1. split_and!; [done|done|].
  pose proof (wp_tcp_dtor _ _ _ Hp1) as Hw.
  apply wp_ok in Hw as ([] & [s2 os2] & Hd & Hf & Hc & _). by exists s2, os2.
Qed.

Definition demo_srv_ops : list srv_op :=
  [SStart 0 None 80; SRound 1 0; SLimit 2; SRound 2 0; SRound 3 0; SIllegal 1; SRound 4 0;
   SCloseChannel 2].

Lemma tcp_server_descriptors_witness :
  let os := Net.idle 0 in
  FdLimit Net.net /\
  exists s1 os1, run_srv_ops demo_srv_ops (tsrv_new, os) = Ok (tt, (s1, os1)) /\
    srv_pool (sfds os) (s1, os1) /\
    exists s2 os2, tcp_dtor (s1, os1) = Ok (tt, (s2, os2)) /\
      sfds os2 = sfds os /\ ts_chans s2 = [].
Proof.
  split; [apply Net.net_limit|]. apply (tcp_server_descriptors (Net.idle 0) demo_srv_ops).
Defined.

(** C26: the accept loop on real sockets implements the abstract server.  A
    round from any state of the server returns normally, and its result and
    the channels, limit and types it leaves are those of one round of the
    abstract accept loop for what the [select] of this round and the [accept]
    after it report (no more than [select] is asked when it fails or times
    out).  Assumed: no descriptor is beyond [FD_SETSIZE]. *)
Theorem tcp_round_refines `{SockFds OS, !FdLimit OS} (base : gset Z) (s : tsrv) (os : OS)
    (ue cb : bool) (id : nat) (ty : Z) :
  srv_pool base (s, os) ->
  exists r s1 os1 nResult acc st, full_round id ty (s, os) = Ok (r, (s1, os1)) /\ srv_pool base (s1, os1) /\
    round_reports id ty (s, os) = Ok ((nResult, acc), st) /\
    accept_round nResult acc (to_server ue cb s) = (r, to_server ue cb s1).
Proof.
  intros Hp. destruct (full_round_spec base ue cb id ty s os Hp) as (r & [s1 os1] & n & acc & st & H1 & H2 & H3 & H4).
  by exists r, s1, os1, n, acc, st.
Qed.

Lemma tcp_round_refines_witness :
  let base : gset Z := {[ 0; 1; 2 ]}%Z in
  srv_pool base (tsrv_new, Net.idle 0) /\
  exists r s1 os1 nResult acc st, full_round 5 0 (tsrv_new, Net.idle 0) = Ok (r, (s1, os1)) /\
    srv_pool base (s1, os1) /\ round_reports 5 0 (tsrv_new, Net.idle 0) = Ok ((nResult, acc), st) /\
    accept_round nResult acc (to_server true false tsrv_new) = (r, to_server true false s1).
Proof.
  assert (srv_pool {[ 0; 1; 2 ]}%Z (tsrv_new, Net.idle 0)) as Hp.
  { apply pool_cons. split_and!; [by apply closed_owned; [|set_solver]|constructor|set_solver|constructor]. }
  split; [exact Hp|]. apply (tcp_round_refines {[ 0; 1; 2 ]}%Z). exact Hp.
Defined.

(** A start that could bind but not listen leaves its socket open, and every
    later start is refused. *)
Lemma tcp_start_open_socket `{SockOs OS} w a port s (os : OS) :
  socket_fd_ (ts_sock s) <> INVALID_SOCKET ->
  tcp_start w a port (s, os) =
  Ok (Some false, (with_ts_addr (default (ts_addr s) a) port s, os)).
Proof.
  intros Hfd. unfold tcp_start, on_sock, prepare_to_server, tcp_open, create_socket, self, obj,
    mod_obj, mbind, TM_bind, SM_bind, M_bind, mret, SM_ret, TM_ret, M_ret. cbn.
  rewrite (proj2 (Z.eqb_neq _ _) Hfd). cbn. by destruct s.
Qed.

(** A sender that is already open makes every further start of an
    [IUdpServer] throw, also when the receiver never started. *)
Lemma iudp_restart_throws `{SockOs OS} w a port u (os : OS) :
  socket_fd_ (us_send u) <> INVALID_SOCKET ->
  iudp_start w a port (u, os) = Ok (Throws "IUdpServer Create Error", (u, os)).
Proof.
  intros Hfd. unfold iudp_start, iudp_sender_open, inet_udp_open, create_socket, on_send, self,
    mbind, UM_bind, SM_bind, M_bind, mret, SM_ret, UM_ret, M_ret.
  rewrite (proj2 (Z.eqb_neq _ _) Hfd). cbn. by destruct u.
Qed.

(** C27: starting and destroying UDP servers.  [start] of a new [UUdpServer] (a
    path that is not null) or [IUdpServer] returns normally or throws: when it
    returns, the receiver thread runs and its socket is open; when it throws,
    no thread was created and the receiving socket is closed again.  Either
    way the destructor then gives back every descriptor, the sender's
    included, and no thread is left. *)
Theorem udp_server_lifecycle `{SockFds OS, !FdLimit OS} (os : OS) (w : wid)
    (m : UM start_result) :
  (exists p, m = uudp_start w (Some p)) \/ (exists a port, m = iudp_start w a port) ->
  exists r u1 os1, m (usrv_new, os) = Ok (r, (u1, os1)) /\ started_or_not r (u1, os1) /\
    udp_pool (sfds os) (u1, os1) /\
    exists u2 os2, udp_dtor (u1, os1) = Ok (tt, (u2, os2)) /\ sfds os2 = sfds os /\
      thread_exists (us_thread u2) = 0%Z.
Proof.
  intros Hm.
  assert (wp m (fun r st => started_or_not r st /\ udp_pool (sfds os) st) (usrv_new, os)) as Hw.
  { destruct Hm as [[p ->]|(a & port & ->)]; apply wp_and.
    - by eapply wp_uudp_start.
    - by apply keeps_uudp_start, udp_pool_new.
    - by eapply wp_iudp_start.
    - by apply keeps_iudp_start, udp_pool_new. }
  apply wp_ok in Hw as (r & [u1 os1] & Hr & Hst & Hp). exists r, u1, os1.
  split_and!; [done|done|done|]. pose proof (wp_udp_dtor _ _ _ Hp) as Hd.
  apply wp_ok in Hd as ([] & [u2 os2] & Hd & Hf & Ht). exists u2, os2.
  split_and!; [done|done|]. cbn [fst] in Ht. rewrite Ht. unfold close_post, close_post_begin.
  destruct r as [n|what|]; [|by destruct Hst as [E _]; cbn in E; rewrite E|done].
  destruct Hst as (_ & _ & Hc & _). cbn [fst] in Hc.
  by destruct (us_thread u1) as [[j|] stop cl]; cbn in Hc; subst cl.
Qed.

Lemma udp_server_lifecycle_witness :
  let os := Net.idle 0 in
  FdLimit Net.net /\
  exists r u1 os1, iudp_start 0 None 5000 (usrv_new, os) = Ok (r, (u1, os1)) /\
    started_or_not r (u1, os1) /\ udp_pool (sfds os) (u1, os1) /\
    exists u2 os2, udp_dtor (u1, os1) = Ok (tt, (u2, os2)) /\ sfds os2 = sfds os /\
      thread_exists (us_thread u2) = 0%Z.
Proof.
  split; [apply Net.net_limit|].
  apply (udp_server_lifecycle (Net.idle 0) 0 (iudp_start 0 None 5000)). right. eauto.
Defined.
