(* ===== verification/MemList.v ===== *)
(** * The ring of recent buffers (include/util.hpp and src/util.cpp, class [MemList])

    A singly linked list of owned buffers with a cursor.  Items live in a
    heap; following a null pointer or one to a deleted item is undefined. *)

From S2P Require Import Prelude.

Abbreviation loc := nat.

Record MEMITEM : Type := Item { nLength : Z; pBuffer : list Z; pNext : option loc }.

Record memlist : Type := ML {
  item_count_ : Z;
  cur_item_count_ : Z;
  head_ : option loc;
  tail_ : option loc;
  cur_ : option loc;
  items : gmap loc MEMITEM;
  next_loc : loc;
}.

Definition MemList_new (nItems : Z) : memlist := ML nItems 0 None None None ∅ 0.

Definition deref (p : option loc) (m : memlist) : outcome (loc * MEMITEM) :=
  match p with
  | None => Ub NullDeref
  | Some a => match items m !! a with Some i => Ok (a, i) | None => Ub UseAfterFree end
  end.

(** [new char[n]] and the copy of [n] bytes from the caller's memory. *)
Definition new_copy (n : Z) (src : list Z) : outcome (list Z) :=
  if (n <? 0)%Z then Exc "bad_array_new_length" else slice 0 (Z.to_nat n) src.

Definition with_items (h : gmap loc MEMITEM) (m : memlist) : memlist :=
  ML (item_count_ m) (cur_item_count_ m) (head_ m) (tail_ m) (cur_ m) h (next_loc m).
Definition with_ends (h t : option loc) (m : memlist) : memlist :=
  ML (item_count_ m) (cur_item_count_ m) h t (cur_ m) (items m) (next_loc m).

(** The reuse branch of [add]: take the oldest item to the end and refill it. *)
Definition add_reuse (len : Z) (src : list Z) (m : memlist) : outcome memlist :=
  let pItem := if (1 <? item_count_ m)%Z then head_ m else tail_ m in
  m1 ← (if (1 <? item_count_ m)%Z then
          '(a, ia) ← deref (head_ m) m;
          '(t, it) ← deref (tail_ m) m;
          let h1 := <[t := Item (nLength it) (pBuffer it) (Some a)]> (items m) in
          match h1 !! a with
          | Some i' =>
              Ok (with_ends (pNext ia) (Some a)
                    (with_items (<[a := Item (nLength i') (pBuffer i') None]> h1) m))
          | None => Ub UseAfterFree
          end
        else Ok m);
  '(a, i) ← deref pItem m1;
  buf ← (if (nLength i =? len)%Z then slice 0 (Z.to_nat len) src else new_copy len src);
  Ok (with_items (<[a := Item len buf (pNext i)]> (items m1)) m1).

(** The branch that appends a new item. *)
Definition add_new (len : Z) (src : list Z) (m : memlist) : outcome memlist :=
  buf ← new_copy len src;
  let a := next_loc m in
  n ← chk32 (cur_item_count_ m + 1);
  match head_ m with
  | None =>
      Ok (ML (item_count_ m) n (Some a) (Some a) (cur_ m)
            (<[a := Item len buf None]> (items m)) (S a))
  | Some _ =>
      '(t, it) ← deref (tail_ m) m;
      Ok (ML (item_count_ m) n (head_ m) (Some a) (cur_ m)
            (<[a := Item len buf None]>
               (<[t := Item (nLength it) (pBuffer it) (Some a)]> (items m))) (S a))
  end.

Definition add (len : Z) (src : list Z) (m : memlist) : outcome memlist :=
  if (cur_item_count_ m =? item_count_ m)%Z then add_reuse len src m else add_new len src m.

(** The deleting loop; every round deletes an item. *)
Fixpoint free_loop (fuel : nat) (m : memlist) : outcome memlist :=
  match fuel with
  | O => Ok m
  | S fuel =>
      match head_ m with
      | None => Ok m
      | Some _ =>
          match deref (head_ m) m with
          | Ok (a, i) =>
              free_loop fuel (with_ends (pNext i) (tail_ m) (with_items (delete a (items m)) m))
          | Exc e => Exc e
          | Ub k => Ub k
          end
      end
  end.
Definition free_all_items (m : memlist) : outcome memlist :=
  m1 ← free_loop (S (size (items m))) m; Ok (with_ends None None m1).
Definition MemList_dtor : memlist -> outcome memlist := free_all_items.

Definition set_items (nItems : Z) (m : memlist) : outcome memlist :=
  m1 ← free_all_items m;
  Ok (ML nItems 0 (head_ m1) (tail_ m1) (cur_ m1) (items m1) (next_loc m1)).
Definition reset (m : memlist) : outcome memlist :=
  free_all_items (ML (item_count_ m) 0 (head_ m) (tail_ m) (cur_ m) (items m) (next_loc m)).

Definition set_serialize (m : memlist) : memlist :=
  ML (item_count_ m) (cur_item_count_ m) (head_ m) (tail_ m) (head_ m) (items m) (next_loc m).

(** [get]: the item the cursor was at. *)
Definition get (m : memlist) : outcome (option MEMITEM * memlist) :=
  match cur_ m with
  | None => Ok (None, m)
  | Some _ =>
      '(_, i) ← deref (cur_ m) m;
      Ok (Some i, ML (item_count_ m) (cur_item_count_ m) (head_ m) (tail_ m) (pNext i)
                    (items m) (next_loc m))
  end.

(** ** The list in the heap *)
Definition chain (h : gmap loc MEMITEM) (l : list (loc * list Z)) : Prop :=
  forall i a b, l !! i = Some (a, b) ->
    h !! a = Some (Item (Z.of_nat (length b)) b (fst <$> l !! S i)).

(** [m] holds exactly the items of [l], in order, and nothing else is
    allocated. *)
Definition ml_rep (m : memlist) (l : list (loc * list Z)) : Prop :=
  chain (items m) l /\ NoDup (map fst l) /\ dom (items m) = list_to_set (map fst l) /\
  (forall a, a ∈ map fst l -> (a < next_loc m)%nat) /\
  head_ m = fst <$> head l /\ tail_ m = fst <$> last l /\
  cur_item_count_ m = Z.of_nat (length l).

Lemma chain_head h a b l : chain h ((a, b) :: l) ->
  h !! a = Some (Item (Z.of_nat (length b)) b (fst <$> head l)).
Proof. intros H. rewrite (H 0%nat a b) by done. simpl. by destruct l. Qed.

Lemma chain_tail h x l : chain h (x :: l) -> chain h l.
Proof. intros H i a b Hi. apply (H (S i) a b Hi). Qed.

Lemma chain_frame h h' l : (forall a, a ∈ map fst l -> h' !! a = h !! a) ->
  chain h l -> chain h' l.
Proof.
  intros Heq H i a b Hi. rewrite Heq; [by eapply H|].
  apply list_elem_of_fmap. exists (a, b). split; [done|]. by eapply list_elem_of_lookup_2.
Qed.

(** Linking a new last item behind the old one. *)
Lemma chain_snoc h l t bt a b :
  NoDup (map fst (l ++ [(t, bt)])) -> a ∉ map fst (l ++ [(t, bt)]) ->
  chain h (l ++ [(t, bt)]) ->
  chain (<[a := Item (Z.of_nat (length b)) b None]>
          (<[t := Item (Z.of_nat (length bt)) bt (Some a)]> h))
        ((l ++ [(t, bt)]) ++ [(a, b)]).
Proof.
  intros Hnd Ha Hc i x bx Hi. rewrite map_app in Hnd, Ha. simpl in Hnd, Ha.
  apply lookup_app_Some in Hi as [Hi|[Hge Hi]].
  - assert (x ∈ map fst (l ++ [(t, bt)])) as Hx.
    { apply list_elem_of_fmap. exists (x, bx). split; [done|]. by eapply list_elem_of_lookup_2. }
    rewrite map_app in Hx. simpl in Hx.
    rewrite lookup_insert_ne by set_solver.
    pose proof Hi as Hi0. apply lookup_app_Some in Hi as [Hi|[Hge Hi]].
    + assert (x <> t) as Hxt.
      { intros ->. apply NoDup_app in Hnd as (_ & Hd & _).
        apply (Hd t); [|set_solver]. apply list_elem_of_fmap. exists (t, bx).
        split; [done|]. by eapply list_elem_of_lookup_2. }
      rewrite lookup_insert_ne by done. rewrite (Hc i x bx Hi0). do 2 f_equal.
      apply lookup_lt_Some in Hi. rewrite (lookup_app_l (l ++ [(t, bt)])); [done|].
      rewrite length_app. simpl. lia.
    + destruct (i - length l)%nat as [|k] eqn:Hk; [|by destruct k]. simpl in Hi. simplify_eq.
      rewrite lookup_insert_eq. do 2 f_equal.
      rewrite lookup_app_r by (rewrite length_app; simpl; lia).
      replace (S i - length (l ++ [(x, bx)]))%nat with 0%nat by (rewrite length_app; simpl; lia).
      done.
  - destruct (i - length (l ++ [(t, bt)]))%nat as [|k] eqn:Hk; [|by destruct k].
    simpl in Hi. simplify_eq. rewrite lookup_insert_eq. do 2 f_equal.
    rewrite lookup_ge_None_2; [done|]. rewrite !length_app in *. simpl in *. lia.
Qed.

Lemma last_snoc_split {A} (l : list A) : l <> [] -> exists l' x, l = l' ++ [x].
Proof. intros H. destruct (exists_last H) as (l' & x & ->). eauto. Qed.

Lemma deref_rep m l i a b p : ml_rep m l -> l !! i = Some (a, b) -> p = Some a ->
  deref p m = Ok (a, Item (Z.of_nat (length b)) b (fst <$> l !! S i)).
Proof. intros (Hc & _) Hi ->. unfold deref. by rewrite (Hc i a b Hi). Qed.

Lemma new_copy_ok src : new_copy (Z.of_nat (length src)) src = Ok src.
Proof.
  unfold new_copy. rewrite (proj2 (Z.ltb_ge _ _)) by lia.
  rewrite Nat2Z.id, slice_ok, drop_0, take_ge by lia. done.
Qed.

Lemma add_new_spec m l src : ml_rep m l -> (Z.of_nat (length l) < INT32_MAX)%Z ->
  exists m', add_new (Z.of_nat (length src)) src m = Ok m' /\
    ml_rep m' (l ++ [(next_loc m, src)]) /\ item_count_ m' = item_count_ m.
Proof.
  intros Hrep Hl. destruct (Hrep) as (Hc & Hnd & Hdom & Hlt & Hh & Ht & Hcnt).
  unfold add_new. rewrite new_copy_ok. unfold mbind, outcome_bind. rewrite Hcnt.
  rewrite chk32_ok by (unfold in_s32, INT32_MIN, INT32_MAX in *; lia).
  assert (next_loc m ∉ map fst l) as Hfresh by (intros Hx%Hlt; lia).
  destruct (decide (l = [])) as [->|Hne].
  - rewrite Hh. simpl. eexists. split; [reflexivity|]. split; [|done].
    assert (items m = ∅) as -> by (apply dom_empty_inv_L; by rewrite Hdom).
    split_and!; simpl; try done.
    + intros [|i] a b Hi; simplify_eq/=. by rewrite lookup_insert_eq.
    + apply NoDup_singleton.
    + rewrite dom_insert_L. set_solver.
    + intros a Ha. set_solver.
  - destruct (last_snoc_split l Hne) as (l' & [t bt] & ->).
    destruct (head_ m) as [h|] eqn:Hhd; [|by destruct l'].
    rewrite (deref_rep m (l' ++ [(t, bt)]) (length l') t bt); [|done| |].
    + eexists. split; [reflexivity|]. split; [|done].
      split_and!; cbn [items nLength pBuffer next_loc head_ tail_ cur_item_count_].
      * by apply chain_snoc.
      * rewrite map_app. apply NoDup_snoc. done.
      * rewrite !dom_insert_L, Hdom, map_app, !map_app. simpl. set_solver.
      * intros a. rewrite map_app. simpl. intros [Ha%Hlt|Ha]%elem_of_app; [lia|]. set_solver.
      * rewrite Hh. by destruct l' as [|[]].
      * by rewrite last_snoc.
      * rewrite !length_app. simpl. lia.
    + by apply list_lookup_middle.
    + rewrite Ht. by rewrite last_snoc.
Qed.

(** Rotating the head to the end and refilling it. *)
Lemma add_reuse_many m a b l src : ml_rep m ((a, b) :: l) -> l <> [] ->
  (1 < item_count_ m)%Z ->
  exists m', add_reuse (Z.of_nat (length src)) src m = Ok m' /\
    ml_rep m' (l ++ [(a, src)]) /\ item_count_ m' = item_count_ m.
Proof.
  intros Hrep Hne Hn. destruct (Hrep) as (Hc & Hnd & Hdom & Hlt & Hh & Ht & Hcnt).
  destruct (last_snoc_split l Hne) as (l' & [t bt] & ->).
  assert (a ∉ map fst (l' ++ [(t, bt)]) /\ NoDup (map fst (l' ++ [(t, bt)]))) as [Ha Hnd']
    by by apply NoDup_cons.
  assert (a <> t) as Hat by (rewrite map_app in Ha; simpl in Ha; set_solver).
  unfold add_reuse. rewrite (proj2 (Z.ltb_lt _ _)) by done.
  rewrite (deref_rep m _ 0 a b (head_ m) Hrep) by (done || by rewrite Hh).
  unfold mbind, outcome_bind.
  rewrite (deref_rep m ((a, b) :: l' ++ [(t, bt)]) (S (length l')) t bt (tail_ m) Hrep).
  2:{ simpl. by apply list_lookup_middle. }
  2:{ rewrite Ht. by rewrite app_comm_cons, last_snoc. }
  rewrite lookup_insert_ne by done. rewrite (Hc 0%nat a b) by done.
  unfold deref. rewrite Hh. cbn [head fmap option_fmap option_map fst items with_items with_ends].
  rewrite lookup_insert_eq. cbn [nLength pBuffer pNext].
  assert ((if (Z.of_nat (length b) =? Z.of_nat (length src))%Z
           then slice 0 (Z.to_nat (Z.of_nat (length src))) src
           else new_copy (Z.of_nat (length src)) src) = Ok src) as ->.
  { rewrite new_copy_ok, Nat2Z.id, slice_ok, drop_0, take_ge by lia.
    by destruct (Z.eqb _ _). }
  eexists. split; [reflexivity|]. rewrite insert_insert_eq. split; [|done].
  split_and!; cbn [items with_items with_ends head_ tail_ cur_item_count_ next_loc].
  - apply chain_snoc; [done|done|]. by eapply chain_tail.
  - rewrite map_app. by apply NoDup_snoc.
  - rewrite !dom_insert_L, Hdom, !map_app. simpl. rewrite map_app. simpl. set_solver.
  - intros x Hx. apply Hlt. rewrite map_app in Hx. simpl in Hx |- *. set_solver.
  - simpl. by destruct l' as [|[]].
  - by rewrite last_snoc.
  - rewrite Hcnt. simpl. rewrite !length_app. simpl. lia.
Qed.

Lemma add_reuse_one m a b src : ml_rep m [(a, b)] -> item_count_ m = 1%Z ->
  exists m', add_reuse (Z.of_nat (length src)) src m = Ok m' /\
    ml_rep m' [(a, src)] /\ item_count_ m' = item_count_ m.
Proof.
  intros Hrep Hn. destruct (Hrep) as (Hc & Hnd & Hdom & Hlt & Hh & Ht & Hcnt).
  unfold add_reuse. rewrite Hn, (proj2 (Z.ltb_ge 1 1)) by lia. unfold mbind, outcome_bind.
  rewrite (deref_rep m _ 0 a b (tail_ m) Hrep) by (done || by rewrite Ht). cbn [nLength pNext].
  assert ((if (Z.of_nat (length b) =? Z.of_nat (length src))%Z
           then slice 0 (Z.to_nat (Z.of_nat (length src))) src
           else new_copy (Z.of_nat (length src)) src) = Ok src) as ->.
  { rewrite new_copy_ok, Nat2Z.id, slice_ok, drop_0, take_ge by lia.
    by destruct (Z.eqb _ _). }
  eexists. split; [reflexivity|]. split; [|done].
  split_and!; cbn [items with_items with_ends head_ tail_ cur_item_count_ next_loc]; try done.
  - intros [|i] x bx Hi; simplify_eq/=. by rewrite lookup_insert_eq.
  - rewrite dom_insert_L, Hdom. simpl. set_solver.
Qed.

Lemma add_spec n m l src : ml_rep m l -> item_count_ m = Z.of_nat n -> (1 <= n)%nat ->
  (length l <= n)%nat -> (Z.of_nat n <= INT32_MAX)%Z ->
  exists m' l', add (Z.of_nat (length src)) src m = Ok m' /\ ml_rep m' l' /\
    item_count_ m' = Z.of_nat n /\
    map snd l' = (if (length l =? n)%nat then drop 1 (map snd l) else map snd l) ++ [src] /\
    (length l' <= n)%nat.
Proof.
  intros Hrep Hic Hn Hle Hmax. pose proof Hrep as (_ & _ & _ & _ & _ & _ & Hcnt).
  unfold add. rewrite Hcnt, Hic. destruct (Nat.eqb_spec (length l) n) as [Heq|Hneq].
  - rewrite (proj2 (Z.eqb_eq _ _)) by lia.
    destruct l as [|[a b] l]; [simpl in *; lia|]. destruct (decide (l = [])) as [->|Hne].
    + destruct (add_reuse_one m a b src Hrep) as (m' & He & Hrep' & Hic'); [simpl in *; lia|].
      exists m', [(a, src)]. rewrite He, Hic', Hic. split_and!; try done; simpl; lia.
    + destruct (add_reuse_many m a b l src Hrep Hne) as (m' & He & Hrep' & Hic').
      { rewrite Hic, <-Heq. destruct l; [done|]. simpl. lia. }
      exists m', (l ++ [(a, src)]). rewrite He, Hic', Hic, map_app. split_and!; try done.
      rewrite length_app. simpl in *. lia.
  - rewrite (proj2 (Z.eqb_neq _ _)) by lia.
    destruct (add_new_spec m l src Hrep) as (m' & He & Hrep' & Hic'); [lia|].
    exists m', (l ++ [(next_loc m, src)]). rewrite He, Hic', Hic, map_app.
    split_and!; try done. rewrite length_app. simpl. lia.
Qed.

(** Adding a sequence of buffers. *)
Fixpoint adds (bs : list (list Z)) (m : memlist) : outcome memlist :=
  match bs with
  | [] => Ok m
  | b :: bs => m' ← add (Z.of_nat (length b)) b m; adds bs m'
  end.

Definition lastn {A} (n : nat) (l : list A) : list A := drop (length l - n) l.

Lemma lastn_snoc {A} n (l : list A) x : (1 <= n)%nat ->
  lastn n (l ++ [x]) = (if (length (lastn n l) =? n)%nat then drop 1 (lastn n l) else lastn n l) ++ [x].
Proof.
  intros Hn. unfold lastn. rewrite length_app, length_drop. simpl.
  destruct (Nat.eqb_spec (length l - (length l - n)) n) as [Heq|Hneq].
  - rewrite drop_drop, drop_app_le by lia. f_equal. f_equal. lia.
  - rewrite drop_app_le by lia. f_equal. f_equal. lia.
Qed.

Lemma adds_spec n bs m l seen : ml_rep m l -> item_count_ m = Z.of_nat n -> (1 <= n)%nat ->
  (Z.of_nat n <= INT32_MAX)%Z -> map snd l = lastn n seen ->
  exists m' l', adds bs m = Ok m' /\ ml_rep m' l' /\ item_count_ m' = Z.of_nat n /\
    map snd l' = lastn n (seen ++ bs).
Proof.
  revert m l seen. induction bs as [|b bs IH]; intros m l seen Hrep Hic Hn Hmax Hl.
  { exists m, l. by rewrite app_nil_r. }
  assert (length l = length (lastn n seen)) as Hlen by by rewrite <-Hl, length_map.
  destruct (add_spec n m l b Hrep Hic Hn) as (m1 & l1 & He & Hrep1 & Hic1 & Hs1 & _);
    [rewrite Hlen; unfold lastn; rewrite length_drop; lia|done|].
  destruct (IH m1 l1 (seen ++ [b]) Hrep1 Hic1 Hn Hmax) as (m2 & l2 & He2 & H2).
  { rewrite Hs1, Hl, lastn_snoc, Hlen by done. done. }
  exists m2, l2. simpl. unfold mbind, outcome_bind. rewrite He, He2.
  by rewrite <-app_assoc in H2.
Qed.

(** Reading the list with the cursor. *)
Fixpoint gets (k : nat) (m : memlist) : outcome (list (option (list Z))) :=
  match k with
  | O => Ok []
  | S k =>
      match get m with
      | Ok (i, m') => rs ← gets k m'; Ok ((pBuffer <$> i) :: rs)
      | Exc e => Exc e
      | Ub u => Ub u
      end
  end.

Lemma gets_S k m : gets (S k) m =
  match get m with
  | Ok (i, m') => rs ← gets k m'; Ok ((pBuffer <$> i) :: rs)
  | Exc e => Exc e
  | Ub u => Ub u
  end.
Proof. done. Qed.

Lemma gets_spec m l i : ml_rep m l -> cur_ m = fst <$> l !! i ->
  gets (S (length l - i)) m = Ok (map Some (drop i (map snd l)) ++ [None]).
Proof.
  intros Hrep. remember (length l - i)%nat as k eqn:Hk. revert i m Hrep Hk.
  induction k as [|k IH]; intros i m Hrep Hk Hcur.
  - rewrite lookup_ge_None_2 in Hcur by lia. simpl. unfold get. rewrite Hcur. simpl.
    rewrite drop_ge by (rewrite length_map; lia). done.
  - destruct (lookup_lt_is_Some_2 l i) as [[a b] Hi]; [lia|].
    rewrite Hi in Hcur. simpl in Hcur. rewrite gets_S. unfold get. rewrite Hcur.
    rewrite (deref_rep m l i a b (Some a) Hrep Hi eq_refl).
    unfold mbind, outcome_bind. cbn [pNext pBuffer].
    assert (drop i (map snd l) = b :: drop (S i) (map snd l)) as ->.
    { apply drop_S. by rewrite list_lookup_fmap, Hi. }
    rewrite (IH (S i)); [done| |lia|done].
    destruct Hrep as (H1 & H2 & H3 & H4 & H5 & H6 & H7). by split_and!.
Qed.

Lemma new_rep n : ml_rep (MemList_new n) [].
Proof.
  split_and!; simpl; try done; try apply NoDup_nil_2; set_solver.
Qed.

Lemma free_loop_spec l : forall m fuel, chain (items m) l -> NoDup (map fst l) ->
  dom (items m) = list_to_set (map fst l) -> head_ m = fst <$> head l -> (length l < fuel)%nat ->
  exists m', free_loop fuel m = Ok m' /\ items m' = ∅ /\ item_count_ m' = item_count_ m /\
    cur_item_count_ m' = cur_item_count_ m /\ cur_ m' = cur_ m /\ next_loc m' = next_loc m.
Proof.
  induction l as [|[a b] l IH]; intros m [|fuel] Hc Hnd Hdom Hh Hf; try (simpl in Hf; lia).
  - simpl. rewrite Hh. exists m. simpl. split_and!; try done.
    apply dom_empty_inv_L. by rewrite Hdom.
  - simpl in Hh. cbn [free_loop]. rewrite Hh. unfold deref. rewrite (chain_head _ _ _ _ Hc).
    apply NoDup_cons in Hnd as [Ha Hnd]. cbn [pNext].
    edestruct (IH (with_ends (fst <$> head l) (tail_ m) (with_items (delete a (items m)) m)) fuel)
      as (m' & He & Hm'); try done.
    + eapply chain_frame; [|by eapply chain_tail]. intros x Hx. simpl.
      apply lookup_delete_ne. intros ->. done.
    + simpl. rewrite dom_delete_L, Hdom. simpl. set_solver.
    + simpl in Hf. lia.
    + exists m'. split; [exact He|]. naive_solver.
Qed.

Lemma reset_rep m l : ml_rep m l ->
  exists m', reset m = Ok m' /\ ml_rep m' [] /\ item_count_ m' = item_count_ m /\
    cur_ m' = cur_ m /\ items m' = ∅.
Proof.
  intros (Hc & Hnd & Hdom & Hlt & Hh & Ht & Hcnt). unfold reset, free_all_items.
  edestruct (free_loop_spec l
    (ML (item_count_ m) 0 (head_ m) (tail_ m) (cur_ m) (items m) (next_loc m))
    (S (size (items m)))) as (m1 & He & Hi & H1 & H2 & H3 & H4); try done.
  - assert (size (items m) = length l) as ->; [|lia].
    rewrite <-size_dom, Hdom, size_list_to_set, length_map by done. done.
  - cbn [items]. unfold mbind, outcome_bind. rewrite He. simpl in *. eexists. split; [reflexivity|].
    split_and!; try done.
    unfold ml_rep. simpl. rewrite Hi. split_and!; try done; try apply NoDup_nil_2; set_solver.
Qed.

(** ** Properties *)

(** C37: a [MemList] of [n >= 1] items keeps the last [n] buffers.  After any
    sequence of [add] calls on a new list no pointer was followed that is
    null or deleted, exactly the kept items are allocated, and
    [set_serialize] followed by [get] calls yields copies of the last [n]
    buffers in order of arrival and then null. *)
Theorem mem_list_keeps_last (n : nat) (bs : list (list Z)) :
  (1 <= n)%nat -> (Z.of_nat n <= INT32_MAX)%Z ->
  exists m, adds bs (MemList_new (Z.of_nat n)) = Ok m /\
    size (items m) = Nat.min n (length bs) /\
    gets (S (Nat.min n (length bs))) (set_serialize m) =
      Ok (map Some (lastn n bs) ++ [None]).
Proof.
  intros Hn Hmax.
  destruct (adds_spec n bs (MemList_new (Z.of_nat n)) [] [] (new_rep _) eq_refl Hn Hmax)
    as (m & l & He & Hrep & Hic & Hl); [done|]. simpl in Hl.
  assert (length l = Nat.min n (length bs)) as Hlen.
  { rewrite <-(length_map snd), Hl. unfold lastn. rewrite length_drop. lia. }
  exists m. split; [done|]. destruct (Hrep) as (Hc & Hnd & Hdom & Hlt & Hh & Ht & Hcnt). split.
  - by rewrite <-size_dom, Hdom, size_list_to_set, length_map.
  - rewrite <-Hlen. rewrite <-Hl. replace (length l) with (length l - 0)%nat at 1 by lia.
    rewrite (gets_spec (set_serialize m) l 0); [by rewrite drop_0|by split_and!|].
    simpl. rewrite Hh. by destruct l.
Qed.

Lemma mem_list_keeps_last_witness :
  exists m, adds [[1]; [2; 2]; [3]]%Z (MemList_new 2) = Ok m /\
    size (items m) = 2%nat /\
    gets 3 (set_serialize m) = Ok [Some [2; 2]%Z; Some [3]%Z; None].
Proof.
  apply (mem_list_keeps_last 2 [[1]; [2; 2]; [3]]%Z); [lia|unfold INT32_MAX; lia].
Defined.

(** Two misuses the class does not guard against.  The cursor survives
    [reset]: after [set_serialize] and [reset] on a list with items, [get]
    follows a pointer to a deleted item; and [add] on a list of zero items
    follows a null pointer. *)
Theorem mem_list_hazards m a b l src :
  ml_rep m ((a, b) :: l) ->
  (exists m', reset (set_serialize m) = Ok m' /\ get m' = Ub UseAfterFree) /\
  add (Z.of_nat (length src)) src (MemList_new 0) = Ub NullDeref.
Proof.
  intros Hrep. split; [|done].
  assert (ml_rep (set_serialize m) ((a, b) :: l)) as Hrep' by (unfold ml_rep in *; naive_solver).
  destruct (reset_rep _ _ Hrep') as (m' & He & _ & _ & Hcur & Hi).
  exists m'. split; [done|]. destruct Hrep as (_ & _ & _ & _ & Hh & _).
  unfold get. rewrite Hcur. simpl. rewrite Hh. simpl. unfold deref, mbind, outcome_bind.
  by rewrite Hi.
Qed.

Definition demo_ml : memlist :=
  ML 2 1 (Some 0%nat) (Some 0%nat) None {[ 0%nat := Item 1 [7%Z] None ]} 1.

Lemma demo_ml_rep : ml_rep demo_ml [(0%nat, [7%Z])].
Proof.
  unfold ml_rep. split; [|split; [|split; [|split; [|done]]]].
  - intros [|i] x bx Hi; simplify_eq/=. done.
  - apply NoDup_singleton.
  - simpl. set_solver.
  - simpl. intros x Hx. assert (x = 0%nat) as -> by set_solver. lia.
Qed.

Lemma mem_list_hazards_witness :
  (exists m', reset (set_serialize demo_ml) = Ok m' /\ get m' = Ub UseAfterFree) /\
  add 1 [7%Z] (MemList_new 0) = Ub NullDeref.
Proof. apply (mem_list_hazards demo_ml 0 [7%Z] [] [7%Z]). apply demo_ml_rep. Defined.
