(* ===== verification/Timer.v ===== *)
(** * One-shot timers (include/util.hpp and src/util.cpp, class [GlobalTimer])

    A timer belongs to a [QThread] and has a number; the timer thread scans
    the list every millisecond and posts [CI_TIMER_DONE] for the timers that
    are due.  [TimeSpec] objects live in a heap, referenced by the list and
    by a map of maps; threads are named by numbers. *)

From S2P Require Import Prelude.

(** [struct timeval]. *)
Record timeval : Type := TV { tv_sec : Z; tv_usec : Z }.

Definition DIFFTIME (a b : timeval) : Z :=
  Z.abs ((tv_sec a - tv_sec b) * 1000 + Z.quot (tv_usec a - tv_usec b) 1000).

Record TimeSpec : Type := Spec { tv : timeval; nTerm : Z; nWhich : Z; obj : nat }.

Record timer : Type := MkTimer {
  timer_map_ : gmap nat (gmap Z nat);
  timer_list_ : list nat;
  specs : gmap nat TimeSpec;
  next_spec : nat;
}.

Definition GlobalTimer_new : timer := MkTimer ∅ [] ∅ 0.

(** [timer_map_[obj]] makes an empty inner map when there is none;
    [static_cast<uint8_t>] keeps eight bits of the number. *)
Definition AddElement (o : nat) (msecs which : Z) (now : timeval) (t : timer) : bool * timer :=
  let whichMap := default ∅ (timer_map_ t !! o) in
  match whichMap !! which with
  | Some _ => (false, MkTimer (<[o := whichMap]> (timer_map_ t)) (timer_list_ t) (specs t) (next_spec t))
  | None =>
      let p := next_spec t in
      (true, MkTimer (<[o := <[which := p]> whichMap]> (timer_map_ t)) (timer_list_ t ++ [p])
               (<[p := Spec now msecs (u8 which) o]> (specs t)) (S p))
  end.

(** Erase an inner entry, and the inner map when it becomes empty. *)
Definition erase_which (o : nat) (which : Z) (whichMap : gmap Z nat)
    (m : gmap nat (gmap Z nat)) : gmap nat (gmap Z nat) :=
  let w' := delete which whichMap in
  if bool_decide (w' = ∅) then delete o m else <[o := w']> m.

Definition RemoveElement (o : nat) (which : Z) (t : timer) : outcome (bool * timer) :=
  match timer_map_ t !! o with
  | None => Ok (false, t)
  | Some whichMap =>
      match whichMap !! which with
      | None => Ok (false, t)
      | Some p =>
          match specs t !! p with
          | None => Ub UseAfterFree
          | Some _ =>
              Ok (true, MkTimer (erase_which o which whichMap (timer_map_ t))
                          (filter (fun q => q <> p) (timer_list_ t))
                          (delete p (specs t)) (next_spec t))
          end
      end
  end.

Definition start_timer := AddElement.
Definition stop_timer := RemoveElement.

(** The destructor, its worker joined: [delete] for every entry of the map of
    maps, in the order of the (unordered) maps. *)
Fixpoint delete_specs (ps : list nat) (heap : gmap nat TimeSpec) : outcome (gmap nat TimeSpec) :=
  match ps with
  | [] => Ok heap
  | p :: ps =>
      match heap !! p with
      | None => Ub UseAfterFree
      | Some _ => delete_specs ps (delete p heap)
      end
  end.
Definition pairs (m : gmap nat (gmap Z nat)) : gmap (nat * Z) nat :=
  map_uncurry (M1 := gmap nat) (M2 := gmap Z) m.
Definition GlobalTimer_dtor (t : timer) : outcome (gmap nat TimeSpec) :=
  delete_specs (map snd (map_to_list (pairs (timer_map_ t)))) (specs t).

(** An event for a thread: [add_event(CI_TIMER_DONE, nWhich, ...)]. *)
Definition fired : Type := nat * Z.

(** The scan of [thread_proc]: the pointers kept and the events posted. *)
Fixpoint tick_loop (now : timeval) (l : list nat) (t : timer)
  : outcome (list nat * list fired * timer) :=
  match l with
  | [] => Ok ([], [], t)
  | p :: l =>
      match specs t !! p with
      | None => Ub UseAfterFree
      | Some s =>
          let keep :=
            '(k, ev, t') ← tick_loop now l t; Ok (p :: k, ev, t') in
          match timer_map_ t !! obj s with
          | None => keep
          | Some whichMap =>
              match whichMap !! nWhich s with
              | None => keep
              | Some _ =>
                  if (nTerm s <=? DIFFTIME (tv s) now)%Z then
                    let t1 := MkTimer (erase_which (obj s) (nWhich s) whichMap (timer_map_ t))
                                (timer_list_ t) (delete p (specs t)) (next_spec t) in
                    '(k, ev, t') ← tick_loop now l t1;
                    Ok (k, (obj s, u16 (nWhich s)) :: ev, t')
                  else keep
              end
          end
      end
  end.

Definition tick (now : timeval) (t : timer) : outcome (list fired * timer) :=
  '(k, ev, t') ← tick_loop now (timer_list_ t) t;
  Ok (ev, MkTimer (timer_map_ t') k (specs t') (next_spec t')).

(** ** The abstract timer list *)

(** The pending timers in order of their start. *)
Definition same_key (o : nat) (which : Z) (s : TimeSpec) : Prop := obj s = o /\ nWhich s = which.
#[export] Instance same_key_dec o which s : Decision (same_key o which s).
Proof. unfold same_key. apply _. Defined.

Definition due (now : timeval) (s : TimeSpec) : Prop := (nTerm s <= DIFFTIME (tv s) now)%Z.
#[export] Instance due_dec now s : Decision (due now s).
Proof. unfold due. apply _. Defined.

Inductive top : Type :=
| TStart (o : nat) (msecs which : Z) (now : timeval)
| TStop (o : nat) (which : Z)
| TTick (now : timeval).

Inductive tret : Type := RBool (b : bool) | RFired (ev : list fired).

Definition texec (op : top) (t : timer) : outcome (tret * timer) :=
  match op with
  | TStart o ms w now => let '(b, t') := start_timer o ms w now t in Ok (RBool b, t')
  | TStop o w => '(b, t') ← stop_timer o w t; Ok (RBool b, t')
  | TTick now => '(ev, t') ← tick now t; Ok (RFired ev, t')
  end.

Definition tspec (op : top) (l : list TimeSpec) : tret * list TimeSpec :=
  match op with
  | TStart o ms w now =>
      if bool_decide (Exists (same_key o w) l) then (RBool false, l)
      else (RBool true, l ++ [Spec now ms w o])
  | TStop o w =>
      (RBool (bool_decide (Exists (same_key o w) l)), filter (fun s => ~ same_key o w s) l)
  | TTick now =>
      (RFired (map (fun s => (obj s, nWhich s)) (filter (due now) l)),
       filter (fun s => ~ due now s) l)
  end.

(** The numbers that fit the eight bits. *)
Definition op_ok (op : top) : Prop :=
  match op with
  | TStart _ _ w _ => (0 <= w < 256)%Z
  | _ => True
  end.

(** ** Representation *)
Definition tm (m : gmap nat (gmap Z nat)) (o : nat) (w : Z) : option nat :=
  wm ← m !! o; wm !! w.

(** The map, the heap and the list agree on the timers [L]. *)
Record trep (t : timer) (L : list (nat * TimeSpec)) : Prop := {
  tr_nodup : NoDup (map fst L);
  tr_keys : forall p s p' s', (p, s) ∈ L -> (p', s') ∈ L ->
    obj s = obj s' -> nWhich s = nWhich s' -> p = p' /\ s = s';
  tr_heap : forall p s, (p, s) ∈ L -> specs t !! p = Some s /\ (0 <= nWhich s < 256)%Z;
  tr_fresh : forall p s, (p, s) ∈ L -> (p < next_spec t)%nat;
  tr_map : forall o w p, tm (timer_map_ t) o w = Some p <->
    exists s, (p, s) ∈ L /\ same_key o w s;
  tr_dom : forall p, is_Some (specs t !! p) -> p ∈ map fst L;
}.

Lemma tm_insert m o w p o' w' :
  tm (<[o := <[w := p]> (default ∅ (m !! o))]> m) o' w' =
  if bool_decide (o' = o /\ w' = w) then Some p else tm m o' w'.
Proof.
  unfold tm. destruct (decide (o' = o)) as [->|Ho].
  - rewrite lookup_insert_eq. simpl. destruct (decide (w' = w)) as [->|Hw].
    + rewrite lookup_insert_eq, bool_decide_true by done. done.
    + rewrite lookup_insert_ne, bool_decide_false by naive_solver.
      by destruct (m !! o).
  - rewrite lookup_insert_ne, bool_decide_false by naive_solver. done.
Qed.

Lemma tm_touch m o wm o' w' : default ∅ (m !! o) = wm ->
  tm (<[o := wm]> m) o' w' = tm m o' w'.
Proof.
  intros <-. unfold tm. destruct (decide (o' = o)) as [->|Ho].
  - rewrite lookup_insert_eq. simpl. by destruct (m !! o).
  - by rewrite lookup_insert_ne.
Qed.

Lemma tm_erase m o w wm o' w' : m !! o = Some wm ->
  tm (erase_which o w wm m) o' w' = if bool_decide (o' = o /\ w' = w) then None else tm m o' w'.
Proof.
  intros Hm. unfold erase_which, tm. case_bool_decide as He.
  - destruct (decide (o' = o)) as [->|Ho].
    + rewrite lookup_delete_eq. simpl. case_bool_decide as Hk; [done|].
      rewrite Hm. simpl. assert (w' <> w) as Hw by naive_solver.
      rewrite <-(lookup_delete_ne wm w w'), He by done. done.
    + rewrite lookup_delete_ne, bool_decide_false by naive_solver. done.
  - destruct (decide (o' = o)) as [->|Ho].
    + rewrite lookup_insert_eq, Hm. simpl. destruct (decide (w' = w)) as [->|Hw].
      * by rewrite lookup_delete_eq, bool_decide_true.
      * rewrite lookup_delete_ne, bool_decide_false by naive_solver. done.
    + rewrite lookup_insert_ne, bool_decide_false by naive_solver. done.
Qed.

Lemma tm_split m o w p : tm m o w = Some p -> exists wm, m !! o = Some wm /\ wm !! w = Some p.
Proof. unfold tm. destruct (m !! o) as [wm|]; simpl; [eauto|done]. Qed.

Lemma trep_remove t L1 p s L2 wm l : trep t (L1 ++ (p, s) :: L2) ->
  timer_map_ t !! obj s = Some wm ->
  trep (MkTimer (erase_which (obj s) (nWhich s) wm (timer_map_ t)) l
          (delete p (specs t)) (next_spec t)) (L1 ++ L2).
Proof.
  intros [Hnd Hk Hh Hf Hm Hdom] Hwm.
  assert ((p, s) ∈ L1 ++ (p, s) :: L2) as Hps by set_solver.
  assert (forall q x, (q, x) ∈ L1 ++ L2 -> (q, x) ∈ L1 ++ (p, s) :: L2 /\ q <> p) as Hin.
  { intros q x Hx. split; [set_solver|]. intros ->.
    rewrite map_app in Hnd. simpl in Hnd. apply NoDup_app in Hnd as (_ & Hd & Hnd).
    apply NoDup_cons in Hnd as [Hp _].
    apply elem_of_app in Hx as [Hx|Hx]; apply (list_elem_of_fmap_2 fst) in Hx; simpl in Hx;
      [apply (Hd p Hx); set_solver|done]. }
  split; cbn [timer_map_ specs next_spec].
  - rewrite map_app in *. simpl in Hnd. apply NoDup_app in Hnd as (H1 & H2 & H3).
    apply NoDup_cons in H3 as [_ H3]. apply NoDup_app. split_and!; [done|set_solver|done].
  - intros q x q' x' Hx Hx'. apply Hin in Hx as [Hx _], Hx' as [Hx' _]. by apply Hk.
  - intros q x Hx. apply Hin in Hx as [Hx Hq]. rewrite lookup_delete_ne by done. by apply Hh.
  - intros q x Hx. apply Hin in Hx as [Hx _]. by eapply Hf.
  - intros o w q. rewrite (tm_erase _ _ _ wm) by done. case_bool_decide as Heq.
    + destruct Heq as [-> ->]. split; [done|]. intros (x & Hx & Ho & Hw).
      apply Hin in Hx as [Hx Hq]. destruct (Hk q x p s Hx Hps Ho Hw) as [? _]. done.
    + rewrite Hm. split; intros (x & Hx & Hkey); exists x; (split; [|done]).
      * rewrite elem_of_app, elem_of_cons in Hx. destruct Hx as [?|[?|?]]; [set_solver| |set_solver].
        simplify_eq. destruct Hkey. naive_solver.
      * by apply Hin in Hx as [Hx _].
  - intros q [x Hx]. apply lookup_delete_Some in Hx as [Hne Hx].
    assert (q ∈ map fst (L1 ++ (p, s) :: L2)) as Hq by (apply Hdom; eauto).
    rewrite map_app in *. set_solver.
Qed.

Lemma trep_add t L o w ms now l : trep t L -> (0 <= w < 256)%Z ->
  tm (timer_map_ t) o w = None ->
  trep (MkTimer (<[o := <[w := next_spec t]> (default ∅ (timer_map_ t !! o))]> (timer_map_ t)) l
          (<[next_spec t := Spec now ms w o]> (specs t)) (S (next_spec t)))
       (L ++ [(next_spec t, Spec now ms w o)]).
Proof.
  intros [Hnd Hk Hh Hf Hm Hdom] Hw Hnone.
  assert (forall q x, (q, x) ∈ L -> ~ same_key o w x) as Hnokey.
  { intros q x Hx Hkey. assert (tm (timer_map_ t) o w = Some q) as Hs by (apply Hm; eauto).
    congruence. }
  split; cbn [timer_map_ specs next_spec].
  - rewrite map_app. apply NoDup_snoc. split; [done|]. intros ([q x] & Hq & Hx)%list_elem_of_fmap.
    simpl in Hq. subst. apply Hf in Hx. lia.
  - intros q x q' x' [Hx|Hx]%elem_of_app [Hx'|Hx']%elem_of_app Ho Hwh.
    + by apply Hk.
    + apply list_elem_of_singleton in Hx'. simplify_eq/=. destruct (Hnokey q x); done.
    + apply list_elem_of_singleton in Hx. simplify_eq/=. by destruct (Hnokey q' x').
    + apply list_elem_of_singleton in Hx, Hx'. naive_solver.
  - intros q x [Hx|Hx]%elem_of_app.
    + rewrite lookup_insert_ne; [by apply Hh|]. apply Hf in Hx. lia.
    + apply list_elem_of_singleton in Hx. simplify_eq. by rewrite lookup_insert_eq.
  - intros q x [Hx|Hx]%elem_of_app; [apply Hf in Hx; lia|].
    apply list_elem_of_singleton in Hx. simplify_eq. lia.
  - intros o' w' q. rewrite tm_insert. case_bool_decide as Heq.
    + destruct Heq as [-> ->]. split.
      * intros [= <-]. eexists. split; [apply elem_of_app; right; by left|done].
      * intros (x & [Hx|Hx]%elem_of_app & Hkey); [by destruct (Hnokey q x)|].
        apply list_elem_of_singleton in Hx. by simplify_eq.
    + rewrite Hm. split; intros (x & Hx & Hkey); exists x; (split; [|done]); [set_solver|].
      apply elem_of_app in Hx as [Hx|Hx]; [done|]. apply list_elem_of_singleton in Hx.
      simplify_eq. destruct Hkey. naive_solver.
  - intros q [x Hx]. rewrite map_app. apply lookup_insert_Some in Hx as [[<- _]|[_ Hx]]; [set_solver|].
    apply elem_of_app. left. apply Hdom. eauto.
Qed.

Lemma tm_exists t L o w : trep t L ->
  is_Some (tm (timer_map_ t) o w) <-> Exists (same_key o w) (map snd L).
Proof.
  intros [_ _ _ _ Hm _]. rewrite Exists_exists. split.
  - intros [p Hp]. apply Hm in Hp as (s & Hs & Hkey). exists s. split; [|done].
    apply (list_elem_of_fmap_2 snd _ _ Hs).
  - intros (s & ([p x] & -> & Hx)%list_elem_of_fmap & Hkey). exists p. apply Hm. eauto.
Qed.

(** The scan keeps the timers that are not due, in order. *)
Lemma tick_loop_spec now Ls : forall t Lk, trep t (Lk ++ Ls) ->
  exists t', tick_loop now (map fst Ls) t =
      Ok (map fst (filter (fun x => ~ due now x.2) Ls),
          map (fun s => (obj s, nWhich s)) (filter (due now) (map snd Ls)), t') /\
    trep t' (Lk ++ filter (fun x => ~ due now x.2) Ls).
Proof.
  induction Ls as [|[p s] Ls IH]; intros t Lk Hrep; cbn [tick_loop map fst snd].
  { exists t. by rewrite filter_nil. }
  assert ((p, s) ∈ Lk ++ (p, s) :: Ls) as Hps by set_solver.
  destruct (Hrep) as [Hnd Hk Hh Hf Hm Hdom]. destruct (Hh p s Hps) as [Hs Hw]. rewrite Hs.
  destruct (tm_split (timer_map_ t) (obj s) (nWhich s) p) as (wm & Hwm & Hp).
  { apply Hm. exists s. done. }
  rewrite Hwm, Hp, !filter_cons. cbn [snd].
  destruct (Z.leb_spec (nTerm s) (DIFFTIME (tv s) now)) as [Hd|Hd].
  - rewrite !decide_False by (simpl; unfold due; lia). rewrite decide_True by done.
    destruct (IH _ Lk (trep_remove t Lk p s Ls wm (timer_list_ t) Hrep Hwm)) as (t' & He & Hr).
    exists t'. unfold mbind, outcome_bind. rewrite He. cbn [map].
    by rewrite uwrap_small by (unfold in_uw; lia).
  - rewrite decide_True by (simpl; unfold due; lia). rewrite decide_False by (unfold due; lia).
    destruct (IH t (Lk ++ [(p, s)])) as (t' & He & Hr); [by rewrite <-app_assoc|].
    exists t'. unfold mbind, outcome_bind. rewrite He. cbn [map fst].
    split; [done|]. by rewrite <-app_assoc in Hr.
Qed.

Lemma filter_snd now (L : list (nat * TimeSpec)) :
  map snd (filter (fun x => ~ due now x.2) L) = filter (fun s => ~ due now s) (map snd L).
Proof.
  induction L as [|[p s] L IH]; [done|]. cbn [map snd]. rewrite !filter_cons. cbn [snd].
  destruct (decide (~ due now s)); cbn [map snd]; by rewrite IH.
Qed.

Lemma filter_all {A} (P : A -> Prop) `{!forall x, Decision (P x)} l :
  Forall P l -> filter P l = l.
Proof.
  induction 1 as [|x l Hx _ IH]; [done|]. by rewrite filter_cons_True, IH.
Qed.

Lemma trep_split t L p s : trep t L -> (p, s) ∈ L ->
  exists L1 L2, L = L1 ++ (p, s) :: L2 /\
    filter (fun q => q <> p) (map fst L) = map fst (L1 ++ L2) /\
    filter (fun x => ~ same_key (obj s) (nWhich s) x) (map snd L) = map snd (L1 ++ L2).
Proof.
  intros [Hnd Hk _ _ _ _] Hin. apply list_elem_of_split in Hin as (L1 & L2 & ->).
  exists L1, L2. split; [done|].
  assert (forall q x, (q, x) ∈ L1 ++ L2 -> q <> p) as Hq.
  { intros q x Hx ->. rewrite map_app in Hnd. simpl in Hnd.
    apply NoDup_app in Hnd as (_ & Hd & Hnd). apply NoDup_cons in Hnd as [Hp _].
    apply elem_of_app in Hx as [Hx|Hx]; apply (list_elem_of_fmap_2 fst) in Hx; simpl in Hx;
      [apply (Hd p Hx); set_solver|done]. }
  rewrite !map_app. simpl. rewrite !filter_app, !filter_cons_False
    by (unfold same_key; naive_solver).
  rewrite !filter_all; [done|..]; apply Forall_forall; intros y ([q x] & -> & Hx)%list_elem_of_fmap.
  1,2: intros [Ho Hw]; simpl in *;
    destruct (Hk q x p s) as [-> _]; [set_solver|set_solver|done|done|];
    apply (Hq p x); set_solver.
  1,2: simpl; apply (Hq q x); set_solver.
Qed.

Definition rep (t : timer) (l : list TimeSpec) : Prop :=
  exists L, trep t L /\ timer_list_ t = map fst L /\ map snd L = l.

Lemma texec_refines op t l : op_ok op -> rep t l ->
  exists t', texec op t = Ok ((tspec op l).1, t') /\ rep t' (tspec op l).2.
Proof.
  intros Hok (L & Hrep & Hlist & <-). destruct op as [o ms w now|o w|now]; simpl in *.
  - unfold start_timer, AddElement. pose proof (tm_exists t L o w Hrep) as Hex. unfold tm in Hex.
    destruct (default ∅ (timer_map_ t !! o) !! w) as [p|] eqn:Hd.
    + rewrite bool_decide_true.
      2:{ apply Hex. destruct (timer_map_ t !! o); simpl in *; [eauto|done]. }
      eexists. split; [reflexivity|]. exists L. split_and!; [|done|done].
      destruct Hrep as [H1 H2 H3 H4 H5 H6]. split; try done. intros o' w' q. simpl.
      rewrite (tm_touch _ _ _ o' w' eq_refl). apply H5.
    + assert (tm (timer_map_ t) o w = None) as Hn.
      { unfold tm. by destruct (timer_map_ t !! o). }
      rewrite bool_decide_false.
      2:{ intros Hx%Hex. unfold tm in Hn. rewrite Hn in Hx. by destruct Hx. }
      eexists. split; [reflexivity|]. simpl. rewrite uwrap_small by (unfold in_uw; lia).
      exists (L ++ [(next_spec t, Spec now ms w o)]). split_and!; simpl.
      * by apply trep_add.
      * by rewrite map_app, Hlist.
      * by rewrite map_app.
  - unfold stop_timer, RemoveElement. pose proof (tm_exists t L o w Hrep) as Hex.
    destruct (tm (timer_map_ t) o w) as [p|] eqn:Htm.
    + rewrite bool_decide_true by by apply Hex.
      destruct (tr_map _ _ Hrep o w p) as [Hm _]. destruct (Hm Htm) as (s & Hin & <- & <-).
      destruct (tm_split _ _ _ _ Htm) as (wm & Hwm & Hp). rewrite Hwm, Hp.
      destruct (tr_heap _ _ Hrep p s Hin) as [-> _].
      destruct (trep_split t L p s Hrep Hin) as (L1 & L2 & -> & Hf1 & Hf2).
      eexists. split; [reflexivity|]. simpl. rewrite Hf2, Hlist, Hf1.
      exists (L1 ++ L2). split_and!; [|done|done]. by apply trep_remove.
    + assert (~ Exists (same_key o w) (map snd L)) as Hno by (intros Hx%Hex; by destruct Hx).
      rewrite bool_decide_false by done. exists t.
      assert (filter (fun s => ~ same_key o w s) (map snd L) = map snd L) as ->.
      { apply filter_all, Forall_forall. intros s Hs Hkey. apply Hno, Exists_exists. eauto. }
      split; [|by exists L]. unfold tm in Htm.
      destruct (timer_map_ t !! o) as [wm|]; simpl in *; [|done]. by rewrite Htm.
  - destruct (tick_loop_spec now L t [] Hrep) as (t' & He & Hr).
    unfold tick. rewrite Hlist. unfold mbind, outcome_bind. rewrite He.
    eexists. split; [reflexivity|]. simpl in *.
    exists (filter (fun x => ~ due now x.2) L). split_and!; [|done|apply filter_snd].
    destruct Hr as [H1 H2 H3 H4 H5 H6]. by split.
Qed.

(** A timer call against the abstract list. *)
Lemma start_rep o' msec w now t l : rep t l -> (0 <= w < 256)%Z ->
  rep (start_timer o' msec w now t).2 (tspec (TStart o' msec w now) l).2.
Proof.
  intros Hr Hw. destruct (texec_refines (TStart o' msec w now) t l Hw Hr) as (t' & He & Hr').
  cbn [texec] in He. destruct (start_timer o' msec w now t) as [b t1]. by simplify_eq.
Qed.

Lemma stop_rep o' w b t t' l : rep t l -> stop_timer o' w t = Ok (b, t') ->
  rep t' (filter (fun s => ~ same_key o' w s) l).
Proof.
  intros Hr Hs. destruct (texec_refines (TStop o' w) t l I Hr) as (t1 & He & Hr1).
  cbn [texec] in He. unfold mbind, outcome_bind in He. rewrite Hs in He. by simplify_eq.
Qed.

(** The new list of a start: what was there, and perhaps one more. *)
Lemma start_list o' msec w now l x : x ∈ (tspec (TStart o' msec w now) l).2 ->
  x ∈ l \/ x = Spec now msec w o'.
Proof. cbn [tspec]. case_bool_decide; cbn [snd]; set_solver. Qed.
Lemma start_mono o' msec w now l x : x ∈ l -> x ∈ (tspec (TStart o' msec w now) l).2.
Proof. cbn [tspec]. case_bool_decide; cbn [snd]; set_solver. Qed.

(** Deleting distinct allocated objects. *)
Lemma delete_specs_ok ps : forall heap, NoDup ps -> (forall p, p ∈ ps -> is_Some (heap !! p)) ->
  exists heap', delete_specs ps heap = Ok heap' /\
    forall p, heap' !! p = if bool_decide (p ∈ ps) then None else heap !! p.
Proof.
  induction ps as [|p ps IH]; intros heap Hnd Hall; cbn [delete_specs].
  { exists heap. split; [done|]. intros q. by rewrite bool_decide_false by set_solver. }
  apply NoDup_cons in Hnd as [Hp Hnd]. destruct (Hall p) as [x Hx]; [by left|]. rewrite Hx.
  destruct (IH (delete p heap) Hnd) as (heap' & He & Hl).
  { intros q Hq. rewrite lookup_delete_ne by (intros ->; done). apply Hall. by right. }
  exists heap'. split; [done|]. intros q. rewrite Hl.
  destruct (decide (q = p)) as [->|Hne].
  - rewrite (bool_decide_true (p ∈ p :: ps)) by by left. by rewrite lookup_delete_eq; case_match.
  - rewrite lookup_delete_ne by done. by rewrite (bool_decide_ext (q ∈ p :: ps) (q ∈ ps)) by set_solver.
Qed.

(** The destructor deletes every pending timer once, and nothing else is left. *)
Lemma GlobalTimer_dtor_frees t l : rep t l -> GlobalTimer_dtor t = Ok ∅.
Proof.
  intros (L & [Hnd _ Hh _ Hm Hdom] & _ & _). unfold GlobalTimer_dtor.
  set (ps := map snd (map_to_list (pairs (timer_map_ t)))).
  assert (forall o w p, pairs (timer_map_ t) !! (o, w) = Some p <->
    exists s, (p, s) ∈ L /\ same_key o w s) as Hu.
  { intros o w p. unfold pairs. rewrite lookup_map_uncurry. apply Hm. }
  assert (forall p, p ∈ ps <-> p ∈ map fst L) as Hps.
  { intros p. unfold ps. rewrite !list_elem_of_fmap. split.
    - intros ([[o w] q] & -> & (s & Hs & _)%elem_of_map_to_list%Hu). by exists (q, s).
    - intros ([q s] & -> & Hs). exists ((obj s, nWhich s), q). split; [done|].
      apply elem_of_map_to_list, Hu. by exists s. }
  destruct (delete_specs_ok ps (specs t)) as (heap' & -> & Hl).
  - unfold ps. apply NoDup_fmap_2_strong; [|apply NoDup_map_to_list].
    intros [[o w] p] [[o' w'] p'] (s & Hs & Ho & Hw)%elem_of_map_to_list%Hu
      (s' & Hs' & Ho' & Hw')%elem_of_map_to_list%Hu. cbn [snd]. intros <-.
    apply Hh in Hs as [Hs _], Hs' as [Hs' _]. by simplify_eq.
  - intros p ([q s] & -> & Hs)%Hps%list_elem_of_fmap. apply Hh in Hs as [Hs _]. by exists s.
  - f_equal. apply map_eq. intros p. rewrite Hl, lookup_empty. case_bool_decide as Hp; [done|].
    destruct (specs t !! p) eqn:Hs; [|done]. destruct Hp. apply Hps, Hdom. by rewrite Hs.
Qed.

Fixpoint timer_run (ops : list top) (t : timer) : outcome (list tret * timer) :=
  match ops with
  | [] => Ok ([], t)
  | o :: ops => '(r, t') ← texec o t; '(rs, t'') ← timer_run ops t'; Ok (r :: rs, t'')
  end.
Fixpoint spec_run (ops : list top) (l : list TimeSpec) : list tret * list TimeSpec :=
  match ops with
  | [] => ([], l)
  | o :: ops => let '(r, l') := tspec o l in let '(rs, l'') := spec_run ops l' in (r :: rs, l'')
  end.

(** Every run from the start is represented by the abstract run. *)
Lemma timer_run_rep (ops : list top) : Forall op_ok ops ->
  exists t, timer_run ops GlobalTimer_new = Ok ((spec_run ops []).1, t) /\ rep t (spec_run ops []).2.
Proof.
  intros Hok. assert (rep GlobalTimer_new []) as Hrep.
  { exists []. split_and!; [|done|done].
    split; [apply NoDup_nil_2|set_solver|set_solver|set_solver| |].
    - intros o w p. split; [done|]. intros (s & Hs & _). set_solver.
    - intros p [x Hx]. cbn in Hx. by apply lookup_empty_Some in Hx. }
  revert Hrep. generalize GlobalTimer_new, (@nil TimeSpec).
  induction Hok as [|o ops Ho _ IH]; intros t l Hrep; simpl; [eauto|].
  destruct (texec_refines o t l Ho Hrep) as (t1 & He & Hr1).
  destruct (tspec o l) as [r l1] eqn:Hs. simpl in *.
  destruct (IH t1 l1 Hr1) as (t2 & He2 & Hr2). exists t2.
  unfold mbind, outcome_bind. rewrite He, He2. by destruct (spec_run ops l1).
Qed.

(** ** Properties *)

(** For timer numbers that fit eight bits, [GlobalTimer] implements a
    list of pending timers.  Any sequence of [start_timer], [stop_timer] and
    scans of the timer thread, at any clock readings, never touches a deleted
    [TimeSpec] and returns what the abstract list returns: a start succeeds
    unless the thread's timer of that number is pending, a stop succeeds
    exactly when it is, and a scan posts exactly one event for every pending
    timer that is due, in the order they were started, and forgets it.  The
    destructor then deletes each pending [TimeSpec] once and leaves none. *)
Theorem timer_refines_list (ops : list top) : Forall op_ok ops ->
  exists t, timer_run ops GlobalTimer_new = Ok ((spec_run ops []).1, t) /\
    rep t (spec_run ops []).2 /\ GlobalTimer_dtor t = Ok ∅.
Proof.
  intros Hok. destruct (timer_run_rep ops Hok) as (t & He & Hr).
  exists t. split_and!; [done|done|]. by eapply GlobalTimer_dtor_frees.
Qed.

Lemma timer_refines_list_witness :
  let ops := [TStart 1 50 0 (TV 10 0); TStart 1 20 1 (TV 10 0); TStart 1 9 1 (TV 10 0);
              TTick (TV 10 30000); TStop 1 0; TTick (TV 11 0)] in
  exists t, timer_run ops GlobalTimer_new =
      Ok ([RBool true; RBool true; RBool false; RFired [(1%nat, 1%Z)]; RBool true; RFired []], t) /\
    rep t [] /\ GlobalTimer_dtor t = Ok ∅.
Proof.
  apply (timer_refines_list
    [TStart 1 50 0 (TV 10 0); TStart 1 20 1 (TV 10 0); TStart 1 9 1 (TV 10 0);
     TTick (TV 10 30000); TStop 1 0; TTick (TV 11 0)]).
  repeat constructor; simpl; lia.
Defined.

Definition clash : timer :=
  (start_timer 1 10 0 (TV 0 0) (start_timer 1 10 256 (TV 0 0) GlobalTimer_new).2).2.

(** A timer number of 256 or more breaks the bookkeeping, because
    [TimeSpec::nWhich] keeps eight bits of it.  A lone timer 256 is accepted
    and never fires, whatever its term and the clock; and with timer 0 of the
    same thread pending too ([clash]), the scan that finds both due reports
    timer 0 once, and a later [stop_timer] of 256 deletes an object a second
    time. *)
Theorem timer_which_truncated (o : nat) (ms : Z) (t0 : timeval) :
  (exists t, start_timer o ms 256 t0 GlobalTimer_new = (true, t) /\
     forall later, tick later t = Ok ([], t)) /\
  (exists t, tick (TV 1 0) clash = Ok ([(1%nat, 0%Z)], t) /\
     stop_timer 1 256 t = Ub UseAfterFree).
Proof.
  split.
  - eexists. split; [reflexivity|]. intros later. unfold tick. cbn [timer_list_ GlobalTimer_new app].
    simpl. rewrite lookup_insert_eq. cbn [obj nWhich]. rewrite lookup_insert_eq.
    rewrite lookup_insert_ne by done. done.
  - eexists. split; [vm_compute; reflexivity|vm_compute; reflexivity].
Qed.
