(* ===== verification/Paths.v ===== *)
(** * Path and string helpers (src/util.cpp)

    [split_path], [is_dir], [make_dirs], [tokenize], [to_lower], [to_upper]
    and [is_digit].  [stat] and [mkdir] are outside the repository: [Dirs] is
    their interface, [DirLaws] the documented behaviour the theorem on
    [make_dirs] relies on, and a finite set of paths satisfies it.  A [char*]
    argument is a [str] without NUL. *)

From S2P Require Import Prelude Text.

(** ** [split_path] *)

(** [strchr] and [strrchr] as the text before and after the match. *)
Fixpoint strchr (c : ascii) (s : str) : option (str * str) :=
  match s with
  | [] => None
  | x :: s =>
      if ceq x c then Some ([], s)
      else match strchr c s with Some (h, t) => Some (x :: h, t) | None => None end
  end.

Fixpoint strrchr (c : ascii) (s : str) : option (str * str) :=
  match s with
  | [] => None
  | x :: s =>
      match strrchr c s with
      | Some (h, t) => Some (x :: h, t)
      | None => if ceq x c then Some ([], s) else None
      end
  end.

Definition split_path (pname : str) (spliter : ascii) (order : Z) : str * str :=
  match (if (order =? 0)%Z then strrchr spliter pname else strchr spliter pname) with
  | None => (pname, [])
  | Some (head, tail) => (head, tail)
  end.

(** ** [make_dirs] *)
(** [stat]'s [st_mode], [None] when it fails, and [mkdir] with its result. *)
Class Dirs (OS : Type) := {
  os_stat_mode : str -> OS -> option Z;
  os_mkdir : str -> Z -> OS -> Z * OS;
}.

(** The file types of the target. *)
Definition S_IFMT : Z := 0xF000.
Definition S_IFDIR : Z := 0x4000.
Definition S_IFBLK : Z := 0x6000.
Definition S_IFSOCK : Z := 0xC000.

Definition is_dir `{Dirs OS} (pname : str) (os : OS) : bool :=
  match os_stat_mode pname os with
  | None => false
  | Some st_mode => (Z.land st_mode S_IFDIR =? S_IFDIR)%Z
  end.

Definition SLASH : ascii := "/"%char.

(** The recursion is on [head], which is shorter; [None] is out of fuel. *)
Fixpoint make_dirs `{Dirs OS} (fuel : nat) (pname : str) (mode : Z) (os : OS) : option OS :=
  match fuel with
  | O => None
  | S fuel =>
      let '(head, tail) := split_path pname SLASH 0 in
      let name := match tail with [] => head | _ => pname end in
      let '(head, tail) := match tail with
                           | [] => split_path name SLASH 0
                           | _ => (head, tail)
                           end in
      let nested := negb (bool_decide (head = [])) && negb (bool_decide (tail = []))
                    && negb (is_dir head os) in
      os1 ← (if nested then make_dirs fuel head mode os else Some os);
      Some (os_mkdir name mode os1).2
  end.

(** ** [tokenize] *)
Definition in_delim (delim : str) (c : ascii) : bool := bool_decide (c ∈ delim).

(** [strtok_r] on the text [saveptr] points at: the token and the new
    [saveptr]. *)
Definition strtok_r (delim s : str) : option (str * str) :=
  match skip (in_delim delim) s with
  | [] => None
  | s' =>
      let tok := span (fun c => negb (in_delim delim c)) s' in
      Some (tok, drop (S (length tok)) s')
  end.

Fixpoint tokenize_loop (fuel : nat) (delim s : str) : option (list str) :=
  match fuel with
  | O => None
  | S fuel =>
      match strtok_r delim s with
      | None => Some []
      | Some (token, save) => ts ← tokenize_loop fuel delim save; Some (token :: ts)
      end
  end.

(** The tokens are appended to [value].  Every token takes a character, so
    one more round than there are characters is enough. *)
Definition tokenize (pszLine : str) (value : list str) (delim : str) : option (list str) :=
  ts ← tokenize_loop (S (length pszLine)) delim pszLine; Some (value ++ ts).

(** ** Case and digits *)
Definition toupper (c : ascii) : ascii :=
  if ((97 <=? code c) && (code c <=? 122))%Z then ascii_of_N (Z.to_N (code c - 32)) else c.

Fixpoint to_lower (s : str) : str :=
  match s with [] => [] | c :: s => tolower c :: to_lower s end.
Fixpoint to_upper (s : str) : str :=
  match s with [] => [] | c :: s => toupper c :: to_upper s end.
Fixpoint is_digit (s : str) : bool :=
  match s with [] => true | c :: s => if isdigit c then is_digit s else false end.

(** ** Lemmas on splitting *)
Lemma strchr_some c s h t : strchr c s = Some (h, t) <-> s = h ++ c :: t /\ c ∉ h.
Proof.
  revert h t. induction s as [|x s IH]; intros h t; simpl.
  { split; [done|]. by destruct h; intros [? _]. }
  destruct (ceq x c) eqn:Hx.
  - apply ceq_true in Hx as ->. split.
    + intros [= <- <-]. split; [done|]. set_solver.
    + intros [Heq Hn]. destruct h as [|y h]; simplify_eq/=; [done|]. set_solver.
  - apply ceq_false in Hx. destruct (strchr c s) as [[h0 t0]|] eqn:Hs.
    + destruct (proj1 (IH h0 t0) eq_refl) as [-> Hn]. split.
      * intros [= <- <-]. split; [done|]. set_solver.
      * intros [Heq Hn']. destruct h as [|y h]; simplify_eq/=.
        assert (Some (h0, t0) = Some (h, t)) as [= -> ->]; [|done].
        apply IH. split; [done|]. set_solver.
    + split; [done|]. intros [Heq Hn]. destruct h as [|y h]; simplify_eq/=.
      enough (@None (str * str) = Some (h, t)) by done. apply IH. split; [done|]. set_solver.
Qed.

Lemma strrchr_none c s : strrchr c s = None <-> c ∉ s.
Proof.
  induction s as [|x s IH]; simpl; [set_solver|].
  destruct (strrchr c s) as [[h t]|] eqn:Hs.
  - split; [done|]. intros Hn. exfalso. assert (Some (h, t) = None); [|done].
    apply IH. set_solver.
  - destruct (ceq x c) eqn:Hx.
    + apply ceq_true in Hx as ->. split; [done|set_solver].
    + apply ceq_false in Hx. split; [|done]. intros _. apply proj1 in IH. set_solver.
Qed.

Lemma strrchr_last c h t : c ∉ t -> strrchr c (h ++ c :: t) = Some (h, t).
Proof.
  intros Ht. induction h as [|x h IH]; simpl.
  - rewrite (proj2 (strrchr_none c t) Ht). by rewrite (proj2 (ceq_true c c) eq_refl).
  - by rewrite IH.
Qed.

Lemma strrchr_some c s h t : strrchr c s = Some (h, t) <-> s = h ++ c :: t /\ c ∉ t.
Proof.
  split; [|by intros [-> ?]; apply strrchr_last].
  revert h t. induction s as [|x s IH]; intros h t; simpl; [done|].
  destruct (strrchr c s) as [[h0 t0]|] eqn:Hs.
  - intros [= <- <-]. destruct (IH h0 t0 eq_refl) as [-> ?]. done.
  - destruct (ceq x c) eqn:Hx; [|done]. apply ceq_true in Hx as ->.
    intros [= <- <-]. split; [done|]. by apply strrchr_none.
Qed.

(** ** Tokens: a reference definition *)

(** Cut at every delimiter: the pieces, empty ones included. *)
Fixpoint pieces (delim s : str) : list str :=
  match s with
  | [] => [[]]
  | c :: s =>
      match pieces delim s with
      | p :: ps => if in_delim delim c then [] :: p :: ps else (c :: p) :: ps
      | [] => []
      end
  end.
Definition words (delim s : str) : list str := filter (fun p => p <> []) (pieces delim s).

Lemma pieces_cons delim s : exists p ps, pieces delim s = p :: ps.
Proof.
  induction s as [|c s (p & ps & IH)]; [by repeat eexists|].
  simpl. rewrite IH. case_match; by repeat eexists.
Qed.

Lemma pieces_delim delim c s : in_delim delim c = true ->
  pieces delim (c :: s) = [] :: pieces delim s.
Proof.
  intros Hc. destruct (pieces_cons delim s) as (p & ps & Hp). simpl. by rewrite Hp, Hc.
Qed.

Lemma pieces_word delim w s : Forall (fun c => in_delim delim c = false) w ->
  exists p ps, pieces delim s = p :: ps /\ pieces delim (w ++ s) = (w ++ p) :: ps.
Proof.
  intros Hw. destruct (pieces_cons delim s) as (p & ps & Hp).
  exists p, ps. split; [done|]. induction Hw as [|c w Hc _ IH]; [done|].
  simpl. by rewrite IH, Hc.
Qed.

Lemma words_skip delim s : words delim (skip (in_delim delim) s) = words delim s.
Proof.
  induction s as [|c s IH]; [done|]. cbn [skip]. destruct (in_delim delim c) eqn:Hc; [|done].
  rewrite IH. unfold words. rewrite pieces_delim by done. by rewrite filter_cons_False by tauto.
Qed.

Lemma span_drop p s : s = span p s ++ drop (length (span p s)) s.
Proof. induction s as [|c s IH]; [done|]. simpl. destruct (p c); simpl; by rewrite <-?IH. Qed.

Lemma span_Forall p s : Forall (fun c => p c = true) (span p s).
Proof. induction s as [|c s IH]; simpl; [done|]. destruct (p c) eqn:?; by constructor. Qed.

Lemma span_next p s c r : drop (length (span p s)) s = c :: r -> p c = false.
Proof.
  induction s as [|x s IH]; [done|]. simpl. destruct (p x) eqn:Hx; simpl; [apply IH|].
  by intros [= <- _].
Qed.

Lemma skip_head p s c r : skip p s = c :: r -> p c = false.
Proof.
  induction s as [|x s IH]; [done|]. simpl. destruct (p x) eqn:Hx; [apply IH|].
  by intros [= <- _].
Qed.

Lemma length_skip p s : (length (skip p s) <= length s)%nat.
Proof. induction s as [|c s IH]; simpl; [done|]. destruct (p c); simpl; lia. Qed.

(** One call of [strtok_r] peels off the first word. *)
Lemma strtok_words delim s :
  match strtok_r delim s with
  | None => words delim s = []
  | Some (tok, save) => words delim s = tok :: words delim save /\ (length save < length s)%nat
  end.
Proof.
  unfold strtok_r. rewrite <-(words_skip delim s).
  pose proof (length_skip (in_delim delim) s) as Hl.
  destruct (skip (in_delim delim) s) as [|c s'] eqn:Hs; [done|].
  apply skip_head in Hs. set (p := fun c => negb (in_delim delim c)).
  assert (p c = true) as Hc by (unfold p; by rewrite Hs).
  pose proof (span_drop p (c :: s')) as Hsp. pose proof (span_next p (c :: s')) as Hnx.
  pose proof (span_Forall p (c :: s')) as Hall.
  assert (span p (c :: s') <> []) as Hne by (simpl; by rewrite Hc).
  set (tok := span p (c :: s')) in *.
  assert (Forall (fun c => in_delim delim c = false) tok) as Hw.
  { eapply Forall_impl; [exact Hall|]. intros x Hx. by apply negb_true_iff. }
  split; [|rewrite length_drop; simpl in *; destruct tok; simpl; [done|lia]].
  replace (S (length tok)) with (length tok + 1)%nat by lia. rewrite <-drop_drop.
  rewrite Hsp at 1. destruct (drop (length tok) (c :: s')) as [|d r] eqn:Hd.
  - rewrite app_nil_r. unfold words.
    destruct (pieces_word delim tok [] Hw) as (p0 & ps & [= <- <-] & Hp).
    rewrite !app_nil_r in Hp. rewrite Hp. by rewrite filter_cons_True.
  - specialize (Hnx d r eq_refl). apply negb_false_iff in Hnx. simpl drop.
    unfold words. destruct (pieces_word delim tok (d :: r) Hw) as (p0 & ps & Hp0 & Hp).
    rewrite pieces_delim in Hp0 by done. injection Hp0 as <- <-. rewrite Hp, app_nil_r.
    by rewrite filter_cons_True.
Qed.

Lemma tokenize_loop_words fuel delim s : (length s < fuel)%nat ->
  tokenize_loop fuel delim s = Some (words delim s).
Proof.
  revert s. induction fuel as [|fuel IH]; intros s Hf; [lia|]. simpl.
  pose proof (strtok_words delim s) as Hst.
  destruct (strtok_r delim s) as [[tok save]|]; [|by rewrite Hst].
  destruct Hst as [-> Hl]. by rewrite IH by lia.
Qed.

(** ** Directories *)

(** [mkdir] may fail, for want of a parent, of permission or of room, or because the
    name is taken; when it returns 0 the directory exists; no directory disappears;
    and what is named below a directory was found through it. *)
Class DirLaws (OS : Type) `{Dirs OS} := {
  mkdir_done : forall n mode os, (os_mkdir n mode os).1 = 0%Z ->
    is_dir n (os_mkdir n mode os).2 = true;
  mkdir_keeps : forall n p mode os,
    is_dir p os = true -> is_dir p (os_mkdir n mode os).2 = true;
  dir_parent : forall h t os, h <> [] -> t <> [] -> SLASH ∉ t ->
    is_dir (h ++ SLASH :: t) os = true -> is_dir h os = true;
}.

(** A sequence of calls of [mkdir], with their results. *)
Fixpoint mkdir_all `{Dirs OS} (names : list str) (mode : Z) (os : OS) : list Z * OS :=
  match names with
  | [] => ([], os)
  | n :: names =>
      let '(r, os1) := os_mkdir n mode os in
      let '(rs, os2) := mkdir_all names mode os1 in (r :: rs, os2)
  end.

Definition component (c : str) : Prop := c <> [] /\ SLASH ∉ c.

(** [abs] a leading slash; [c0/c1/...]. *)
Definition path (abs : bool) (c0 : str) (cs : list str) : str :=
  foldl (fun p c => p ++ SLASH :: c) (if abs then SLASH :: c0 else c0) cs.

Lemma path_snoc abs c0 cs c : path abs c0 (cs ++ [c]) = path abs c0 cs ++ SLASH :: c.
Proof. unfold path. by rewrite foldl_app. Qed.

Lemma path_nonempty abs c0 cs : component c0 -> path abs c0 cs <> [].
Proof.
  intros [Hc _]. induction cs as [|c cs _] using rev_ind; [by destruct abs|].
  rewrite path_snoc. by destruct (path abs c0 cs).
Qed.

Lemma split_path_last h t : SLASH ∉ t -> split_path (h ++ SLASH :: t) SLASH 0 = (h, t).
Proof. intros Ht. unfold split_path. simpl. by rewrite strrchr_last. Qed.

Lemma split_path_none n : SLASH ∉ n -> split_path n SLASH 0 = (n, []).
Proof. intros Hn. unfold split_path. simpl. by rewrite (proj2 (strrchr_none _ _) Hn). Qed.

(** The path and its parents from the one of [S j] components on, top down. *)
Definition chain (abs : bool) (c0 : str) (cs : list str) (j : nat) : list str :=
  map (fun k => path abs c0 (take k cs)) (seq j (S (length cs) - j)).

Lemma chain_last abs c0 cs : chain abs c0 cs (length cs) = [path abs c0 cs].
Proof.
  unfold chain. replace (S (length cs) - length cs)%nat with 1%nat by lia. cbn. by rewrite firstn_all.
Qed.

Lemma dir_chain_snoc abs c0 cs c j : (j <= length cs)%nat ->
  chain abs c0 (cs ++ [c]) j = chain abs c0 cs j ++ [path abs c0 (cs ++ [c])].
Proof.
  intros Hj. unfold chain. rewrite length_app. cbn [length].
  replace (S (length cs + 1) - j)%nat with (S (length cs) - j + 1)%nat by lia.
  rewrite seq_app, map_app. f_equal.
  - apply map_ext_in. intros k Hk%in_seq. by rewrite take_app_le by lia.
  - cbn. by rewrite take_ge by (rewrite length_app; cbn; lia).
Qed.

Lemma chain_elem abs c0 cs j k : (j <= k <= length cs)%nat ->
  path abs c0 (take k cs) ∈ chain abs c0 cs j.
Proof. intros Hk. unfold chain. apply list_elem_of_In, in_map_iff. exists k. split; [done|]. apply in_seq. lia. Qed.

Section directories.
Context `{DirLaws OS}.
Implicit Types (os : OS).

(** A single trailing slash is dropped. *)
Lemma make_dirs_step fuel h t (slash : bool) mode os : component t ->
  make_dirs (S fuel) ((h ++ SLASH :: t) ++ (if slash then [SLASH] else [])) mode os =
  (os1 ← (if negb (bool_decide (h = [])) && negb (is_dir h os)
          then make_dirs fuel h mode os else Some os);
   Some (os_mkdir (h ++ SLASH :: t) mode os1).2).
Proof.
  intros [Ht Hs]. cbn [make_dirs]. destruct slash.
  - rewrite (split_path_last (h ++ SLASH :: t) []) by set_solver.
    rewrite split_path_last by done. destruct t; [done|].
    by rewrite (bool_decide_false (_ :: _ = [])), andb_true_r.
  - rewrite app_nil_r, split_path_last by done. destruct t; [done|].
    by rewrite (bool_decide_false (_ :: _ = [])), andb_true_r.
Qed.

Lemma make_dirs_single fuel n (slash : bool) mode os : component n ->
  make_dirs (S fuel) (n ++ (if slash then [SLASH] else [])) mode os
  = Some (os_mkdir n mode os).2.
Proof.
  intros [Hn Hs]. cbn [make_dirs]. destruct slash.
  - rewrite (split_path_last n []) by set_solver. rewrite split_path_none by done.
    rewrite (bool_decide_true ([] = [])) by done. by rewrite andb_false_r.
  - rewrite app_nil_r, !split_path_none by done.
    rewrite (bool_decide_true ([] = [])) by done. by rewrite andb_false_r.
Qed.

(** Every directory on the way to [cs]. *)
Definition all_dirs abs c0 cs os : Prop :=
  forall k, is_dir (path abs c0 (take k cs)) os = true.

Lemma all_dirs_parents abs c0 cs os : component c0 -> Forall component cs ->
  is_dir (path abs c0 cs) os = true -> all_dirs abs c0 cs os.
Proof.
  intros Hc0. induction cs as [|c cs IH] using rev_ind; intros Hcs Hd k.
  { by rewrite take_nil. }
  apply Forall_app in Hcs as [Hcs [Hc1 Hc2]%Forall_singleton].
  destruct (decide (length (cs ++ [c]) <= k)%nat) as [Hk|Hk]; [by rewrite take_ge|].
  rewrite length_app in Hk. simpl in Hk. rewrite take_app_le by lia.
  apply IH; [done|]. rewrite path_snoc in Hd.
  by apply (dir_parent _ c); [apply path_nonempty|..].
Qed.

Lemma mkdir_all_snoc names n mode os :
  (mkdir_all (names ++ [n]) mode os).2 = (os_mkdir n mode (mkdir_all names mode os).2).2.
Proof.
  revert os. induction names as [|x names IH]; intros os; cbn [app mkdir_all].
  - cbn [snd]. by destruct (os_mkdir n mode os).
  - destruct (os_mkdir x mode os) as [r os1]. specialize (IH os1).
    destruct (mkdir_all (names ++ [n]) mode os1), (mkdir_all names mode os1). exact IH.
Qed.

Lemma mkdir_all_keeps names mode os p : is_dir p os = true -> is_dir p (mkdir_all names mode os).2 = true.
Proof.
  revert os. induction names as [|n names IH]; intros os Hp; [done|]. cbn [mkdir_all].
  apply (mkdir_keeps n p mode) in Hp. destruct (os_mkdir n mode os) as [r os1]. apply IH in Hp. cbn [snd] in Hp.
  by destruct (mkdir_all names mode os1).
Qed.

Lemma mkdir_all_done names mode os : Forall (fun r => r = 0%Z) (mkdir_all names mode os).1 ->
  Forall (fun n => is_dir n (mkdir_all names mode os).2 = true) names.
Proof.
  revert os. induction names as [|n names IH]; intros os; [done|]. cbn [mkdir_all].
  pose proof (mkdir_done n mode os) as Hd. destruct (os_mkdir n mode os) as [r os1].
  pose proof (mkdir_all_keeps names mode os1 n) as Hk. specialize (IH os1).
  destruct (mkdir_all names mode os1) as [rs os2]. cbn [fst snd] in *.
  intros [-> Hrs]%Forall_cons. constructor; auto.
Qed.

(** The calls [make_dirs] makes. *)
Lemma make_dirs_calls abs c0 cs (slash : bool) mode fuel os :
  component c0 -> Forall component cs -> (length (path abs c0 cs) < fuel)%nat ->
  exists j, (j <= length cs)%nat /\ (j = 0%nat \/ is_dir (path abs c0 (take (j - 1) cs)) os = true) /\
    (forall k, (j <= k < length cs)%nat -> is_dir (path abs c0 (take k cs)) os = false) /\
    make_dirs fuel (path abs c0 cs ++ (if slash then [SLASH] else [])) mode os
      = Some (mkdir_all (chain abs c0 cs j) mode os).2.
Proof.
  intros Hc0. revert slash fuel. induction cs as [|c cs IH] using rev_ind; intros slash fuel Hcs Hf;
    (destruct fuel as [|fuel]; [lia|]).
  { exists 0%nat. split_and!; [done|by left|cbn; lia|].
    assert ((mkdir_all (chain abs c0 [] 0) mode os).2 = (os_mkdir (path abs c0 []) mode os).2) as ->.
    { cbn. by destruct (os_mkdir _ mode os). }
    destruct abs; unfold path; cbn [foldl]; [|by apply make_dirs_single].
    exact (make_dirs_step fuel [] c0 slash mode os Hc0). }
  apply Forall_app in Hcs as [Hcs [Hc _]%Forall_cons].
  rewrite path_snoc, length_app in Hf. cbn in Hf. rewrite path_snoc, (make_dirs_step fuel _ c) by exact Hc.
  pose proof (path_nonempty abs c0 cs Hc0) as Hne. rewrite bool_decide_false by done. cbn [negb andb].
  destruct (is_dir (path abs c0 cs) os) eqn:Hd; cbn [negb].
  - exists (length (cs ++ [c])). rewrite chain_last, path_snoc. split_and!; [done| |lia|].
    + right. rewrite length_app. cbn [length]. rewrite Nat.add_sub, take_app_le, firstn_all by lia. done.
    + cbn. by destruct (os_mkdir _ mode os).
  - destruct (IH false fuel Hcs ltac:(lia)) as (j & Hj & Hpar & Hmiss & Hm). rewrite app_nil_r in Hm.
    exists j. rewrite length_app. cbn [length]. split_and!; [lia| | |].
    + destruct Hpar as [->|Hpar]; [by left|right]. by rewrite take_app_le by lia.
    + intros k Hk. rewrite take_app_le by lia. destruct (decide (k = length cs)) as [->|]; [by rewrite firstn_all|].
      apply Hmiss. lia.
    + rewrite Hm, dir_chain_snoc, mkdir_all_snoc, path_snoc by done. done.
Qed.

(** When they all succeed, or there was nothing to make, the whole chain is there. *)
Lemma chain_dirs abs c0 cs j mode os : component c0 -> Forall component cs -> (j <= length cs)%nat ->
  (j = 0%nat \/ is_dir (path abs c0 (take (j - 1) cs)) os = true) ->
  Forall (fun r => r = 0%Z) (mkdir_all (chain abs c0 cs j) mode os).1 \/ is_dir (path abs c0 cs) os = true ->
  all_dirs abs c0 cs (mkdir_all (chain abs c0 cs j) mode os).2.
Proof.
  intros Hc0 Hcs Hj Hpar [Hok|Hd] k; [|by apply mkdir_all_keeps, all_dirs_parents].
  destruct (decide (j <= k)%nat) as [Hk|Hk].
  - apply mkdir_all_done in Hok. rewrite Forall_forall in Hok.
    destruct (decide (k <= length cs)%nat) as [Hl|Hl]; [apply Hok, chain_elem; lia|].
    rewrite take_ge by lia. apply Hok.
    pose proof (chain_elem abs c0 cs j (length cs) ltac:(lia)) as Hin. by rewrite firstn_all in Hin.
  - destruct Hpar as [->|Hpar]; [lia|]. apply mkdir_all_keeps.
    pose proof (all_dirs_parents abs c0 (take (j - 1) cs) os Hc0 (Forall_take _ _ _ Hcs) Hpar k) as Ha.
    rewrite take_take, Nat.min_l in Ha by lia. done.
Qed.
End directories.

(** ** A directory tree as a set of paths *)
Module DirTree.
(** The proper ancestors of [pre ++ p] below [pre]. *)
Fixpoint ups (pre p : str) : list str :=
  match p with
  | [] => []
  | c :: r => (if ceq c SLASH && negb (bool_decide (pre = [])) then [pre] else [])
              ++ ups (pre ++ [c]) r
  end.

Definition tree : Type := gset str.
Definition isdir (p : str) (s : tree) : bool :=
  bool_decide (p ∈ s /\ Forall (fun h => h ∈ s) (ups [] p)).

(** [mkdir] fails on a name in use and without a parent. *)
Definition has_parent (n : str) (s : tree) : bool :=
  match strrchr SLASH n with
  | None | Some ([], _) => true
  | Some (h, _) => isdir h s
  end.
Definition mk (n : str) (_ : Z) (s : tree) : Z * tree :=
  if has_parent n s && negb (bool_decide (n ∈ s)) then (0%Z, {[ n ]} ∪ s) else ((-1)%Z, s).

#[global] Instance dirs : Dirs tree := {|
  os_stat_mode p s := if isdir p s then Some 0x41ED%Z else None;
  os_mkdir := mk;
|}.

Lemma is_dir_isdir p (s : tree) : is_dir p s = isdir p s.
Proof. unfold is_dir. simpl. by destruct (isdir p s). Qed.

Lemma ups_app pre a b : ups pre (a ++ b) = ups pre a ++ ups (pre ++ a) b.
Proof.
  revert pre. induction a as [|c a IH]; intros pre; simpl; [by rewrite app_nil_r|].
  rewrite IH, (cons_middle c pre a), (app_assoc pre [c] a). by rewrite app_assoc.
Qed.

Lemma ups_flat pre t : SLASH ∉ t -> ups pre t = [].
Proof.
  revert pre. induction t as [|c t IH]; intros pre Ht; [done|]. simpl.
  rewrite (proj2 (ceq_false c SLASH)) by set_solver. simpl. apply IH. set_solver.
Qed.

Lemma ups_below h t : h <> [] -> SLASH ∉ t -> ups [] (h ++ SLASH :: t) = ups [] h ++ [h].
Proof.
  intros Hh Ht. rewrite ups_app. cbn [ups app]. rewrite (ups_flat _ t), app_nil_r by done.
  by rewrite ceq_refl, bool_decide_false.
Qed.

Lemma isdir_mono p s s' : s ⊆ s' -> isdir p s = true -> isdir p s' = true.
Proof.
  unfold isdir. rewrite !bool_decide_eq_true. intros Hs [Hp Ha].
  split; [set_solver|]. eapply Forall_impl; [exact Ha|]. set_solver.
Qed.

#[global] Instance dir_laws : DirLaws tree.
Proof.
  split.
  - intros n mode s. rewrite is_dir_isdir. simpl. unfold mk, has_parent.
    destruct (strrchr SLASH n) as [[h t]|] eqn:Hs.
    + apply strrchr_some in Hs as [-> Ht]. destruct h as [|x h].
      * destruct (_ && _); [|done]. intros _. apply bool_decide_eq_true. cbn. rewrite ups_flat by done.
        split; [set_solver|done].
      * destruct (isdir (x :: h) s) eqn:Hd; [|done]. destruct (true && _); [|done]. intros _.
        apply bool_decide_eq_true. rewrite ups_below by done. apply bool_decide_eq_true in Hd as [Hin Ha].
        cbn [snd]. split; [set_solver|]. apply Forall_app. split; [|apply Forall_singleton; set_solver].
        eapply Forall_impl; [exact Ha|]. set_solver.
    + apply strrchr_none in Hs. destruct (_ && _); [|done]. intros _. apply bool_decide_eq_true.
      rewrite ups_flat by done. cbn [snd]. split; [set_solver|done].
  - intros n p mode s. rewrite !is_dir_isdir. apply isdir_mono. simpl. unfold mk. case_match; set_solver.
  - intros h t s Hh Ht Hs. rewrite !is_dir_isdir. unfold isdir. rewrite !bool_decide_eq_true, ups_below by done.
    intros [_ [Ha Hin]%Forall_app]. split; [|done]. by inversion Hin.
Qed.
End DirTree.

(** ** Properties *)

(** C39: [tokenize] returns, for every line and delimiter set, and appends to
    [value] the non-empty pieces between delimiters, in order: no token is
    empty or holds a delimiter, and together they are exactly the characters
    of the line that are not delimiters. *)
Theorem tokenize_splits line value delim :
  tokenize line value delim = Some (value ++ words delim line) /\
  Forall (fun w => w <> [] /\ Forall (fun c => in_delim delim c = false) w) (words delim line) /\
  concat (words delim line) = filter (fun c => in_delim delim c = false) line.
Proof.
  split_and!.
  - unfold tokenize. rewrite tokenize_loop_words by lia. done.
  - apply Forall_forall. intros w. unfold words. rewrite list_elem_of_filter. intros [Hne Hw].
    split; [done|]. revert w Hw Hne. induction line as [|c s IH]; simpl; [set_solver|].
    intros w. destruct (pieces_cons delim s) as (p & ps & Hp). rewrite Hp in *.
    assert (forall v, v ∈ p :: ps -> Forall (fun c => in_delim delim c = false) v) as IH'.
    { intros v Hv. destruct (decide (v = [])) as [->|]; [done|]. by apply IH. }
    destruct (in_delim delim c) eqn:Hc; intros [->|Hw]%elem_of_cons Hne; auto.
    + constructor; [done|]. apply IH'. set_solver.
    + apply IH'. set_solver.
  - induction line as [|c s IH]; [done|]. destruct (pieces_cons delim s) as (p & ps & Hp).
    destruct (in_delim delim c) eqn:Hc.
    + unfold words. rewrite pieces_delim, filter_cons_False by (done || tauto).
      rewrite filter_cons_False by congruence. exact IH.
    + rewrite filter_cons_True by done. unfold words in *. simpl. rewrite Hp, Hc in *.
      rewrite filter_cons_True by done. simpl. f_equal.
      destruct (decide (p = [])) as [->|Hne].
      * rewrite filter_cons_False in IH by tauto. done.
      * rewrite filter_cons_True in IH by done. done.
Qed.

(** C38: [make_dirs] makes the chain.  On a path of plain components, absolute or
    relative, with or without a trailing slash, it returns, for every answer of the
    system.  It calls [mkdir] on the path and on those of its parents, from the
    deepest one that exists down, that do not exist, each before the ones below it.
    If these calls succeed, or the path existed already, the path and all its
    parents are directories afterwards ([mkdir]'s failures go unreported); none that
    existed is gone.  Exists means that [is_dir] says so.  Assumed: a [mkdir] that
    returns 0 made the directory, it removes none, and the parents of a directory
    are directories. *)
Theorem make_dirs_creates {OS} `{DirLaws OS} abs c0 cs (slash : bool) mode fuel (os : OS) :
  component c0 -> Forall component cs -> (length (path abs c0 cs) < fuel)%nat ->
  exists j,
    (j <= length cs)%nat /\ (j = 0%nat \/ is_dir (path abs c0 (take (j - 1) cs)) os = true) /\
    (forall k, (j <= k < length cs)%nat -> is_dir (path abs c0 (take k cs)) os = false) /\
    let calls := mkdir_all (chain abs c0 cs j) mode os in
    make_dirs fuel (path abs c0 cs ++ (if slash then [SLASH] else [])) mode os = Some calls.2 /\
    (Forall (fun r => r = 0%Z) calls.1 \/ is_dir (path abs c0 cs) os = true ->
       forall k, is_dir (path abs c0 (take k cs)) calls.2 = true) /\
    (forall p, is_dir p os = true -> is_dir p calls.2 = true).
Proof.
  intros H1 H2 H3. destruct (make_dirs_calls abs c0 cs slash mode fuel os H1 H2 H3) as (j & Hj & Hp & Hm & Hc).
  exists j. split; [done|]. split; [done|]. split; [done|]. cbn zeta. split; [done|].
  split; [by apply chain_dirs|]. intros p. apply mkdir_all_keeps.
Qed.

Lemma make_dirs_creates_witness :
  exists os', make_dirs 20 (chars "/var/log/svc/") 511 ({[ chars "/var" ]} : DirTree.tree)
              = Some os' /\
    (forall p, is_dir p ({[ chars "/var" ]} : DirTree.tree) = true -> is_dir p os' = true).
Proof.
  destruct (make_dirs_creates true (chars "var") [chars "log"; chars "svc"] true 511 20
           ({[ chars "/var" ]} : DirTree.tree)) as (j & _ & _ & _ & Hm & _ & Hk).
  - split; [done|]. by vm_compute; set_solver.
  - repeat constructor; try done; set_solver.
  - simpl. lia.
  - eexists. split; [exact Hm|exact Hk].
Defined.

(** On that tree the two missing directories are made. *)
Lemma make_dirs_demo :
  make_dirs 20 (chars "/var/log/svc/") 511 ({[ chars "/var" ]} : DirTree.tree)
  = Some (mkdir_all [chars "/var/log"; chars "/var/log/svc"] 511 {[ chars "/var" ]}).2 /\
  (mkdir_all [chars "/var/log"; chars "/var/log/svc"] 511 ({[ chars "/var" ]} : DirTree.tree)).1 = [0; 0]%Z.
Proof. by vm_compute. Qed.

(** [split_path] cuts at the last separator ([order] zero) or at the
    first one; the pieces around it are the path. *)
Theorem split_path_cuts pname c order :
  let '(head, tail) := split_path pname c order in
  if bool_decide (c ∈ pname)
  then pname = head ++ c :: tail /\ (if (order =? 0)%Z then c ∉ tail else c ∉ head)
  else head = pname /\ tail = [].
Proof.
  unfold split_path. destruct (order =? 0)%Z.
  - destruct (strrchr c pname) as [[h t]|] eqn:Hs.
    + apply strrchr_some in Hs as [-> Ht]. rewrite bool_decide_true by set_solver. done.
    + apply strrchr_none in Hs. by rewrite bool_decide_false.
  - destruct (strchr c pname) as [[h t]|] eqn:Hs.
    + apply strchr_some in Hs as [-> Ht]. rewrite bool_decide_true by set_solver. done.
    + rewrite bool_decide_false; [done|]. intros (h & t & -> & Hn)%list_elem_of_split_l.
      rewrite (proj2 (strchr_some c _ h t)) in Hs; done.
Qed.

(** The mask test of [is_dir] is not [S_ISDIR]: a path answers true whenever
    its type has the directory bit, so block devices and sockets do. *)
Theorem is_dir_by_bit {OS} `{Dirs OS} p (os : OS) m : os_stat_mode p os = Some m ->
  (Z.land m S_IFMT = S_IFDIR \/ Z.land m S_IFMT = S_IFBLK \/ Z.land m S_IFMT = S_IFSOCK) ->
  is_dir p os = true.
Proof.
  intros Hm Ht. unfold is_dir. rewrite Hm. apply Z.eqb_eq.
  assert (Z.land m S_IFDIR = Z.land (Z.land m S_IFMT) S_IFDIR) as -> by (by rewrite <-Z.land_assoc).
  by destruct Ht as [->|[->| ->]].
Qed.
