(* ===== verification/Shm.v ===== *)
(** * Queues in shared memory (include/sharedmemory.hpp)

    [SharedMemory<T>]'s creation and attachment, and [ShmQueue<T>], a ring of
    fixed-size slots guarded by a process-shared mutex and two POSIX
    semaphores.  A slot is its bytes; what a consumer gets is the address of
    a slot.  [put] and [get] are split where other processes can run. *)

From S2P Require Import Prelude Ring.

(** ** [SharedMemory] *)
Inductive mutex_state : Type := MRaw | MReady | MLocked.

Record shm : Type := ShmObj { origin_ : bool; shm_mutex : mutex_state }.

(** [initialize]: [found] when the first [shmget] finds the segment, whose
    mutex is then in the state the other processes left it in. *)
Definition SharedMemory_initialize (found : bool) (left_in : mutex_state) : shm :=
  if negb found then ShmObj false MRaw else ShmObj true left_in.

Definition attach (s : shm) : shm :=
  ShmObj (origin_ s) (if origin_ s then MReady else shm_mutex s).

(** ** [ShmQueue] *)
Section shmqueue.
(** [sizeof(T)]. *)
Context (sizeofT : nat).

Record shmq : Type := SQ {
  sem_put_ : nat;
  sem_get_ : nat;
  max_ : nat;
  m_nNextPut : nat;
  m_nNextGet : nat;
  m_nCurQueueLen : Z;
  slots : list (list Z);
}.

(** [initialize(n)] on a fresh segment (or [reset], which forces it): [mem] is
    what the slots hold.  Where the segment is attached, and what [reset] does to
    the slot pointers, is in ShmSeg. *)
Definition ShmQueue_initialize (n : nat) (mem : list (list Z)) : shmq :=
  SQ n 0 n 0 0 0 mem.
Definition shm_reset (q : shmq) : shmq := ShmQueue_initialize (max_ q) (slots q).

Definition put_event (q : shmq) : bool * shmq :=
  ((1 <? m_nCurQueueLen q)%Z,
   SQ (sem_put_ q) (S (sem_get_ q)) (max_ q) (m_nNextPut q) (m_nNextGet q)
      (m_nCurQueueLen q) (slots q)).

(** [put] up to the unlock: the slot it will fill. *)
Definition put_reserve (q : shmq) : option (nat * shmq) :=
  match sem_put_ q with
  | O => None
  | S k =>
      let mSlot := (m_nNextPut q) mod (max_ q) in
      let next := if (S (m_nNextPut q) =? max_ q)%nat then 0%nat else S (m_nNextPut q) in
      Some (mSlot, SQ k (sem_get_ q) (max_ q) next (m_nNextGet q)
                     (m_nCurQueueLen q + 1) (slots q))
  end.
(** The copy, after the unlock. *)
Definition put_copy (mSlot : nat) (object : list Z) (nLen : Z) (q : shmq) : outcome shmq :=
  let nLen := if (nLen =? 0)%Z then Z.of_nat sizeofT else nLen in
  if (nLen <? 0)%Z then Ub OutOfBounds
  else
    old ← fetch mSlot (slots q);
    src ← slice 0 (Z.to_nat nLen) object;
    new ← blit 0 src old;
    sl ← store mSlot new (slots q);
    Ok (SQ (sem_put_ q) (sem_get_ q) (max_ q) (m_nNextPut q) (m_nNextGet q)
           (m_nCurQueueLen q) sl).
Definition put_post (q : shmq) : shmq :=
  SQ (sem_put_ q) (S (sem_get_ q)) (max_ q) (m_nNextPut q) (m_nNextGet q)
     (m_nCurQueueLen q) (slots q).

Definition put (object : list Z) (nLen : Z) (q : shmq) : outcome (Z * shmq) :=
  match put_reserve q with
  | None => Ok ((-1)%Z, q)
  | Some (mSlot, q1) => q2 ← put_copy mSlot object nLen q1; Ok (0%Z, put_post q2)
  end.

(** The locked part of [get] and [try_get], and the post after it. *)
Definition take_slot (q : shmq) : nat * shmq :=
  let mSlot := (m_nNextGet q) mod (max_ q) in
  let next := if (S (m_nNextGet q) =? max_ q)%nat then 0%nat else S (m_nNextGet q) in
  (mSlot, SQ (S (sem_put_ q)) (sem_get_ q) (max_ q) (m_nNextPut q) next
            (m_nCurQueueLen q - 1) (slots q)).

Definition with_get (k : nat) (q : shmq) : shmq :=
  SQ (sem_put_ q) k (max_ q) (m_nNextPut q) (m_nNextGet q) (m_nCurQueueLen q) (slots q).

(** [get]: a post without an item is consumed and the wait resumed; [None]
    when the caller blocks.  [k] is the semaphore's count. *)
Fixpoint get_loop (k : nat) (q : shmq) : option nat * shmq :=
  match k with
  | O => (None, with_get 0 q)
  | S k =>
      if (m_nCurQueueLen q =? 0)%Z then get_loop k q
      else let '(s, q') := take_slot (with_get k q) in (Some s, q')
  end.
Definition get (q : shmq) : option nat * shmq := get_loop (sem_get_ q) q.

Definition try_get (q : shmq) : option nat * shmq :=
  match sem_get_ q with
  | O => (None, q)
  | S k => let '(s, q') := take_slot (with_get k q) in (Some s, q')
  end.

(** What the pointer to a slot reads. *)
Definition slot_bytes (s : nat) (q : shmq) : list Z := default [] (slots q !! s).

(** [peek]: whether a queued item has [pValue] at [offset]. *)
Definition memcmp_at (s : list Z) (offset : nat) (v : list Z) : bool :=
  bool_decide (take (length v) (drop offset s) = v).
Fixpoint peek_loop (k i : nat) (pValue : list Z) (offset : nat) (q : shmq) : bool :=
  match k with
  | O => false
  | S k =>
      let mSlot := (m_nNextGet q + i) mod (max_ q) in
      if memcmp_at (slot_bytes mSlot q) offset pValue then true
      else peek_loop k (S i) pValue offset q
  end.
Definition peek (pValue : list Z) (offset : nat) (q : shmq) : Z :=
  if (m_nCurQueueLen q <=? 0)%Z then 0%Z
  else if peek_loop (Z.to_nat (m_nCurQueueLen q)) 0 pValue offset q then 1%Z else 0%Z.

Definition shm_length (q : shmq) : Z := m_nCurQueueLen q.

(** ** Calls one after the other *)
Inductive sop : Type :=
| SPut (object : list Z) (nLen : Z)
| SGet
| STryGet
| SPutEvent
| SLength
| SPeek (pValue : list Z) (offset : nat).

#[global] Instance sop_eq_dec : EqDecision sop.
Proof. solve_decision. Defined.

(** What a call returns; a pointer is read right away. *)
Inductive sret : Type := RCode (z : Z) | RSlot (bytes : option (list Z)) | RFlag (b : bool).

Definition via_slot (r : option nat * shmq) : sret * shmq :=
  (RSlot (match r.1 with Some s => Some (slot_bytes s r.2) | None => None end), r.2).

Definition sexec (o : sop) (q : shmq) : outcome (sret * shmq) :=
  match o with
  | SPut ob n => '(z, q') ← put ob n q; Ok (RCode z, q')
  | SGet => Ok (via_slot (get q))
  | STryGet => Ok (via_slot (try_get q))
  | SPutEvent => let '(b, q') := put_event q in Ok (RFlag b, q')
  | SLength => Ok (RCode (shm_length q), q)
  | SPeek v off => Ok (RCode (peek v off q), q)
  end.

(** ** The bounded FIFO it is meant to be *)

(** The items are the bytes [put] copied. *)
Definition item_of (object : list Z) (nLen : Z) : list Z :=
  take (Z.to_nat (if (nLen =? 0)%Z then Z.of_nat sizeofT else nLen)) object.

Definition call_ok (o : sop) : Prop :=
  match o with
  | SPut ob n => length ob = sizeofT /\ (0 <= n <= Z.of_nat sizeofT)%Z
  | _ => True
  end.

(** The result of a call on a queue holding [xs], and the queue after it. *)
Definition fifo_after (n : nat) (o : sop) (xs : list (list Z)) : list (list Z) :=
  match o with
  | SPut ob l => if (length xs <? n)%nat then xs ++ [item_of ob l] else xs
  | SGet | STryGet => drop 1 xs
  | _ => xs
  end.
Definition ret_ok (n : nat) (o : sop) (xs : list (list Z)) (r : sret) : Prop :=
  match o, r with
  | SPut _ _, RCode z => z = (if (length xs <? n)%nat then 0 else -1)%Z
  | (SGet | STryGet), RSlot b =>
      match xs, b with
      | x :: _, Some bytes => take (length x) bytes = x
      | [], None => True
      | _, _ => False
      end
  | SPutEvent, RFlag b => b = bool_decide (1 < length xs)%nat
  | SLength, RCode z => z = Z.of_nat (length xs)
  | SPeek v off, RCode z =>
      (Exists (fun x => take (length v) (drop off x) = v /\ (off + length v <= length x)%nat) xs ->
         z = 1%Z) /\ (xs = [] -> z = 0%Z)
  | _, _ => False
  end.

(** ** Representation *)

(** [extra]: posts of [put_event] not yet consumed. *)
Definition sq_rep (n : nat) (q : shmq) (xs : list (list Z)) (extra : nat) : Prop :=
  max_ q = n /\ (0 < n)%nat /\ (length xs <= n)%nat /\
  m_nCurQueueLen q = Z.of_nat (length xs) /\
  sem_put_ q = (n - length xs)%nat /\ sem_get_ q = (length xs + extra)%nat /\
  m_nNextPut q = ((m_nNextGet q + length xs) mod n)%nat /\ (m_nNextGet q < n)%nat /\
  length (slots q) = n /\ Forall (fun s => length s = sizeofT) (slots q) /\
  (forall i x, xs !! i = Some x ->
     exists s, slots q !! ((m_nNextGet q + i) mod n)%nat = Some s /\ take (length x) s = x).

Lemma wrap_next n k : (k < n)%nat ->
  (if (S k =? n)%nat then 0 else S k)%nat = ((k + 1) mod n)%nat.
Proof.
  intros Hk. destruct (Nat.eqb_spec (S k) n) as [<-|Hne].
  - replace (k + 1)%nat with (S k) by lia. by rewrite Nat.Div0.mod_same.
  - rewrite Nat.mod_small; lia.
Qed.

Lemma take_slot_rep n q x xs extra : sq_rep n q (x :: xs) extra ->
  exists s q', take_slot (with_get (length xs + extra) q) = (s, q') /\
    sq_rep n q' xs extra /\ take (length x) (slot_bytes s q') = x.
Proof.
  intros (Hm & Hn & Hl & Hc & Hp & Hg & Hnp & Hng & Hsl & Hsz & Hi).
  unfold take_slot. cbn [with_get m_nNextGet max_ sem_put_ sem_get_ m_nCurQueueLen slots m_nNextPut].
  do 2 eexists. split; [reflexivity|]. rewrite Hm. rewrite wrap_next by done. split.
  - unfold sq_rep. cbn [max_ m_nCurQueueLen sem_put_ sem_get_ m_nNextPut m_nNextGet slots].
    simpl in *. split_and!; try done; try lia.
    + rewrite Hnp, Nat.Div0.add_mod_idemp_l. f_equal. lia.
    + apply mod_bound. lia.
    + intros i y Hy. destruct (Hi (S i) y Hy) as (s & Hs & Ht). exists s. split; [|done].
      rewrite <-Hs. f_equal. rewrite Nat.Div0.add_mod_idemp_l. f_equal. lia.
  - destruct (Hi 0%nat x eq_refl) as (s & Hs & Ht). unfold slot_bytes. cbn [slots].
    rewrite Nat.add_0_r in Hs. by rewrite Hs.
Qed.

Lemma get_rep n q xs extra : sq_rep n q xs extra ->
  match xs with
  | [] => exists q', get q = (None, q') /\ sq_rep n q' [] 0
  | x :: xs' => exists s q', get q = (Some s, q') /\ sq_rep n q' xs' extra /\
                  take (length x) (slot_bytes s q') = x
  end.
Proof.
  intros Hrep. pose proof Hrep as (Hm & Hn & Hl & Hc & Hp & Hg & Hnp & Hng & Hsl & Hsz & Hi).
  unfold get. rewrite Hg. destruct xs as [|x xs].
  - assert (forall k, get_loop k q = (None, with_get 0 q)) as Hk.
    { induction k as [|k IH]; simpl; [done|]. by rewrite Hc, IH. }
    rewrite Hk. eexists. split; [reflexivity|].
    unfold sq_rep. simpl in *. split_and!; try done; lia.
  - simpl length. cbn [Nat.add get_loop]. rewrite Hc. simpl (Z.of_nat _ =? 0)%Z.
    destruct (take_slot_rep n q x xs extra Hrep) as (s & q' & He & Hr & Ht).
    rewrite He. eauto.
Qed.

Lemma try_get_rep n q xs : sq_rep n q xs 0 ->
  match xs with
  | [] => try_get q = (None, q)
  | x :: xs' => exists s q', try_get q = (Some s, q') /\ sq_rep n q' xs' 0 /\
                  take (length x) (slot_bytes s q') = x
  end.
Proof.
  intros Hrep. pose proof Hrep as (Hm & Hn & Hl & Hc & Hp & Hg & _).
  unfold try_get. rewrite Hg. destruct xs as [|x xs]; [done|].
  simpl length. cbn [Nat.add].
  destruct (take_slot_rep n q x xs 0 Hrep) as (s & q' & He & Hr & Ht). rewrite He. eauto.
Qed.

Lemma put_copy_ok k object nLen q old : length object = sizeofT ->
  (0 <= nLen <= Z.of_nat sizeofT)%Z -> slots q !! k = Some old -> length old = sizeofT ->
  put_copy k object nLen q =
  Ok (SQ (sem_put_ q) (sem_get_ q) (max_ q) (m_nNextPut q) (m_nNextGet q) (m_nCurQueueLen q)
        (<[k := splice 0 (item_of object nLen) old]> (slots q))).
Proof.
  intros Ho Hn Hk Hold. unfold put_copy, item_of.
  set (len := if (nLen =? 0)%Z then Z.of_nat sizeofT else nLen).
  assert (0 <= len <= Z.of_nat sizeofT)%Z as Hlen by (unfold len; destruct (nLen =? 0)%Z; lia).
  rewrite (proj2 (Z.ltb_ge _ _)) by lia. unfold fetch. rewrite Hk. unfold mbind, outcome_bind.
  rewrite slice_ok, drop_0 by lia. rewrite blit_ok by (autorewrite with pdk; lia).
  unfold store. rewrite bool_decide_true by (by eapply lookup_lt_Some). done.
Qed.

Lemma put_rep n q xs extra object nLen : sq_rep n q xs extra -> length object = sizeofT ->
  (0 <= nLen <= Z.of_nat sizeofT)%Z ->
  if (length xs <? n)%nat
  then exists q', put object nLen q = Ok (0%Z, q') /\ sq_rep n q' (xs ++ [item_of object nLen]) extra
  else put object nLen q = Ok ((-1)%Z, q).
Proof.
  intros (Hm & Hn & Hl & Hc & Hp & Hg & Hnp & Hng & Hsl & Hsz & Hi) Ho Hlen.
  unfold put, put_reserve. rewrite Hp.
  destruct (Nat.ltb_spec (length xs) n) as [Hlt|Hge].
  2:{ by replace (n - length xs)%nat with 0%nat by lia. }
  destruct (n - length xs)%nat as [|k] eqn:Hk; [lia|].
  assert (m_nNextPut q < n)%nat as Hnpn by (rewrite Hnp; apply mod_bound; lia).
  rewrite Hm, (Nat.mod_small (m_nNextPut q)) by done. rewrite wrap_next by done.
  destruct (lookup_lt_is_Some_2 (slots q) (m_nNextPut q)) as [old Hold]; [lia|].
  assert (length old = sizeofT) as Hos by (rewrite Forall_lookup in Hsz; eauto).
  rewrite (put_copy_ok _ object nLen _ old) by done.
  unfold mbind, outcome_bind. eexists. split; [reflexivity|].
  set (x := item_of object nLen).
  assert (length x <= sizeofT)%nat as Hx.
  { unfold x, item_of. rewrite length_take. lia. }
  unfold sq_rep, put_post.
  cbn [max_ m_nCurQueueLen sem_put_ sem_get_ m_nNextPut m_nNextGet slots].
  rewrite !length_app, length_insert. simpl length.
  split_and!; try done; try lia.
  - rewrite Hnp, Nat.Div0.add_mod_idemp_l. f_equal. lia.
  - apply Forall_insert; [done|]. rewrite length_splice; lia.
  - intros i y Hy. apply lookup_app_Some in Hy as [Hy|[Hge Hy]].
    + destruct (Hi i y Hy) as (s & Hs & Ht). exists s. split; [|done].
      rewrite list_lookup_insert_ne; [done|]. rewrite Hnp. intros Heq.
      apply lookup_lt_Some in Hy. apply mod_inj in Heq; lia.
    + destruct (i - length xs)%nat as [|j] eqn:Hj; [|by destruct j]. simpl in Hy. injection Hy as <-.
      assert (i = length xs) as -> by lia. exists (splice 0 x old). rewrite <-Hnp. split.
      * apply list_lookup_insert_eq. lia.
      * pose proof (take_splice 0 x old ltac:(lia)) as Ht. simpl in Ht. by rewrite Ht.
Qed.

Lemma peek_loop_true k i v off q j : (i <= j < i + k)%nat ->
  memcmp_at (slot_bytes ((m_nNextGet q + j) mod max_ q) q) off v = true ->
  peek_loop k i v off q = true.
Proof.
  revert i. induction k as [|k IH]; intros i Hj Hm; [lia|]. cbn [peek_loop]. cbv zeta.
  destruct (decide (i = j)) as [->|Hne]; [by rewrite Hm|].
  destruct (memcmp_at (slot_bytes ((m_nNextGet q + i) mod max_ q) q) off v); [done|].
  apply IH; [lia|done].
Qed.

Lemma peek_rep n q xs extra v off : sq_rep n q xs extra ->
  (Exists (fun x => take (length v) (drop off x) = v /\ (off + length v <= length x)%nat) xs ->
     peek v off q = 1%Z) /\ (xs = [] -> peek v off q = 0%Z).
Proof.
  intros (Hm & Hn & Hl & Hc & _ & _ & _ & _ & _ & _ & Hi). unfold peek. rewrite Hc. split.
  - intros (x & [j Hj]%list_elem_of_lookup & Hv & Hfit)%Exists_exists.
    destruct (Hi j x Hj) as (s & Hs & Ht).
    apply lookup_lt_Some in Hj. rewrite (proj2 (Z.leb_gt _ _)) by lia.
    rewrite (peek_loop_true _ _ _ _ _ j); [done|lia|].
    unfold memcmp_at, slot_bytes. rewrite Hm, Hs. simpl. apply bool_decide_eq_true.
    rewrite <-Hv at 2. rewrite <-Ht. rewrite skipn_firstn_comm, take_take. f_equal. lia.
  - by intros ->.
Qed.

(** A call on a representation; [try_get] needs that no post is extra. *)
Lemma sexec_rep n q xs extra o : sq_rep n q xs extra -> call_ok o ->
  (o = STryGet -> extra = 0%nat) ->
  exists r q' extra', sexec o q = Ok (r, q') /\ ret_ok n o xs r /\
    sq_rep n q' (fifo_after n o xs) extra' /\ (extra' <= extra + if decide (o = SPutEvent) then 1 else 0)%nat.
Proof.
  intros Hrep Hok Htry. destruct o as [ob l| | | | |v off]; cbn [sexec fifo_after ret_ok].
  - destruct Hok as [Ho Hl]. pose proof (put_rep n q xs extra ob l Hrep Ho Hl) as Hp.
    unfold mbind, outcome_bind. destruct (Nat.ltb_spec (length xs) n).
    + destruct Hp as (q' & -> & Hr). do 3 eexists. split_and!; [done|done|exact Hr|lia].
    + rewrite Hp. do 3 eexists. split_and!; [done|done|exact Hrep|lia].
  - pose proof (get_rep n q xs extra Hrep) as Hg. destruct xs as [|x xs].
    + destruct Hg as (q' & -> & Hr). do 3 eexists. split_and!; [done|done|exact Hr|lia].
    + destruct Hg as (s & q' & -> & Hr & Ht). unfold via_slot. simpl.
      do 3 eexists. rewrite drop_0. split_and!; [done|done|exact Hr|lia].
  - rewrite (Htry eq_refl) in *. pose proof (try_get_rep n q xs Hrep) as Hg.
    destruct xs as [|x xs].
    + rewrite Hg. do 3 eexists. split_and!; [done|done|exact Hrep|lia].
    + destruct Hg as (s & q' & -> & Hr & Ht). unfold via_slot. simpl.
      do 3 eexists. rewrite drop_0. split_and!; [done|done|exact Hr|lia].
  - pose proof Hrep as (Hm & Hn & Hl & Hc & Hp & Hg & Hrest).
    eexists _, _, (S extra). split_and!; [done| | |rewrite decide_True by done; lia].
    + simpl. rewrite Hc. destruct (Z.ltb_spec 1 (Z.of_nat (length xs)));
        [rewrite bool_decide_true|rewrite bool_decide_false]; done || lia.
    + unfold sq_rep. simpl. split_and!; try done; try lia; apply Hrest.
  - eexists _, _, extra. split_and!; [done| |done|lia].
    by destruct Hrep as (_ & _ & _ & Hc & _).
  - eexists _, _, extra. split_and!; [done| | |lia]; [|done].
    by apply (peek_rep n q xs extra).
Qed.
End shmqueue.
Arguments fifo_after sizeofT n o xs : clear implicits.

(** Calls one after the other; every result is the FIFO's. *)
Inductive srun_ok (sizeofT n : nat) : list sop -> shmq -> list (list Z) -> Prop :=
| srun_ok_nil q xs : srun_ok sizeofT n [] q xs
| srun_ok_cons o ops q xs r q' :
    sexec sizeofT o q = Ok (r, q') -> ret_ok n o xs r ->
    srun_ok sizeofT n ops q' (fifo_after sizeofT n o xs) -> srun_ok sizeofT n (o :: ops) q xs.

(** ** Properties *)

(** C36: used by one caller at a time, a [ShmQueue] is a bounded FIFO.  For
    any sequence of complete calls in which [try_get] and [put_event] are not
    mixed: [put] accepts exactly while fewer than [n] items are queued,
    [get] and [try_get] hand out the items in order, the first bytes of the
    slot being the bytes [put] copied, [get] ignores the posts of
    [put_event] and blocks only on an empty queue, [length] counts the items,
    [peek] finds a queued item, and no slot index is out of range. *)
Theorem shm_queue_sequential_fifo (sizeofT n : nat) (mem : list (list Z)) (ops : list sop) :
  (0 < n)%nat -> length mem = n -> Forall (fun s => length s = sizeofT) mem ->
  Forall (call_ok sizeofT) ops -> (STryGet ∉ ops \/ SPutEvent ∉ ops) ->
  srun_ok sizeofT n ops (ShmQueue_initialize n mem) [].
Proof.
  intros Hn Hmem Hsz Hok Hmix.
  assert (sq_rep sizeofT n (ShmQueue_initialize n mem) [] 0) as Hrep.
  { unfold sq_rep. simpl. rewrite Nat.Div0.mod_0_l. split_and!; try done; lia. }
  assert (forall extra q xs, sq_rep sizeofT n q xs extra ->
            STryGet ∉ ops \/ ((SPutEvent ∉ ops) /\ extra = 0%nat) ->
            srun_ok sizeofT n ops q xs) as Hgen; [|apply (Hgen 0%nat); [done|naive_solver]].
  clear Hmix Hmem Hsz Hrep mem.
  induction Hok as [|o ops Ho _ IH]; intros extra q xs Hrep Hx; [constructor|].
  destruct (sexec_rep sizeofT n q xs extra o Hrep Ho) as (r & q' & e' & He & Hr & Hrep' & Hle).
  { intros ->. destruct Hx as [Hx|[_ ->]]; [set_solver|done]. }
  econstructor; [exact He|exact Hr|]. apply (IH e'); [done|].
  destruct Hx as [Hx|[Hx ->]]; [left; set_solver|right]. split; [set_solver|].
  rewrite decide_False in Hle by set_solver. lia.
Qed.

Definition demo_ops : list sop :=
  [SPut [1; 2; 3]%Z 0; SPut [4; 5; 6]%Z 2; SPut [7; 7; 7]%Z 0; SPeek [5]%Z 1; SPutEvent;
   SGet; SPut [8; 8; 8]%Z 0; SGet; SLength; SGet; SGet].

Lemma shm_queue_sequential_fifo_witness :
  srun_ok 3 2 demo_ops (ShmQueue_initialize 2 [[0; 0; 0]; [0; 0; 0]]%Z) [].
Proof.
  apply (shm_queue_sequential_fifo 3 2 [[0; 0; 0]; [0; 0; 0]]%Z demo_ops).
  - lia.
  - reflexivity.
  - repeat constructor.
  - repeat constructor; simpl; lia.
  - left. unfold demo_ops. set_solver.
Defined.

(** What the queue does not guarantee.  A [put_event] followed by
    [try_get] on an empty queue hands out a slot nobody filled and leaves the
    length at minus one.  And since a producer copies its item after it has
    given up the mutex, a second producer that overtakes it posts for a slot
    the first has not filled: the consumer's [get] returns that slot with its
    old bytes, before the second producer's item. *)
Theorem shm_queue_hazards (sizeofT n : nat) (mem : list (list Z)) (old object : list Z) :
  (1 < n)%nat -> mem !! 0%nat = Some old -> length mem = n ->
  Forall (fun s => length s = sizeofT) mem -> length object = sizeofT ->
  (let q := ShmQueue_initialize n mem in
   exists q', try_get (put_event q).2 = (Some 0%nat, q') /\ slot_bytes 0 q' = old /\
     shm_length q' = (-1)%Z) /\
  (exists q1 q2 q3,
     put_reserve (ShmQueue_initialize n mem) = Some (0%nat, q1) /\
     put sizeofT object 0 q1 = Ok (0%Z, q2) /\
     get q2 = (Some 0%nat, q3) /\ slot_bytes 0 q3 = old).
Proof.
  intros Hn H0 Hlen Hsz Ho.
  assert (forall k : nat, (0 mod k = 0)%nat) as H0m by (intros; apply Nat.Div0.mod_0_l).
  split.
  - eexists. split; [|split].
    + unfold try_get, put_event, take_slot. cbn [snd sem_get_ ShmQueue_initialize]. cbv zeta.
      cbn [with_get m_nNextGet max_]. rewrite H0m. reflexivity.
    + unfold slot_bytes. cbn [slots with_get ShmQueue_initialize]. by rewrite H0.
    + done.
  - destruct n as [|[|n]]; [lia|lia|].
    destruct (lookup_lt_is_Some_2 mem 1) as [o1 Ho1]; [lia|].
    assert (length o1 = sizeofT) as Hl1 by (rewrite Forall_lookup in Hsz; eauto).
    do 3 eexists. split; [|split; [|split]].
    + unfold put_reserve. cbn [ShmQueue_initialize sem_put_ m_nNextPut max_]. rewrite H0m.
      reflexivity.
    + unfold put, put_reserve. cbn [sem_put_ m_nNextPut max_ ShmQueue_initialize Nat.eqb].
      rewrite (Nat.mod_small 1) by lia.
      rewrite (put_copy_ok sizeofT 1 object 0 _ o1) by (done || lia). reflexivity.
    + unfold get, put_post. cbn [sem_get_ get_loop m_nCurQueueLen ShmQueue_initialize].
      unfold take_slot. cbn [with_get m_nNextGet max_]. rewrite H0m. reflexivity.
    + unfold slot_bytes. cbn [slots ShmQueue_initialize with_get put_post].
      rewrite list_lookup_insert_ne by done. by rewrite H0.
Qed.

Lemma shm_queue_hazards_witness :
  (let q := ShmQueue_initialize 2 [[9]; [9]]%Z in
   exists q', try_get (put_event q).2 = (Some 0%nat, q') /\ slot_bytes 0 q' = [9]%Z /\
     shm_length q' = (-1)%Z) /\
  (exists q1 q2 q3,
     put_reserve (ShmQueue_initialize 2 [[9]; [9]]%Z) = Some (0%nat, q1) /\
     put 1 [5]%Z 0 q1 = Ok (0%Z, q2) /\
     get q2 = (Some 0%nat, q3) /\ slot_bytes 0 q3 = [9]%Z).
Proof.
  apply (shm_queue_hazards 1 2 [[9]; [9]]%Z [9]%Z [5]%Z);
    [lia|reflexivity|reflexivity|repeat constructor|reflexivity].
Defined.

(** The mutex of the segment is initialised by the wrong process: the one
    that creates the segment leaves it raw, and one that attaches to a
    segment in use initialises it again, even while it is locked. *)
Theorem shm_mutex_initialisation (left_in : mutex_state) :
  shm_mutex (attach (SharedMemory_initialize false left_in)) = MRaw /\
  shm_mutex (attach (SharedMemory_initialize true MLocked)) = MReady.
Proof. done. Qed.
