(* ===== verification/ShmThread.v ===== *)
(** * Event threads on shared memory (include/sharedmemory.hpp)

    [ShmQThread]: a [Thread] whose event queue is a [ShmQueue] of packets,
    with the [CongestThread] that wakes its consumer when the queue was left
    with events by an earlier process; and the timed [try_get]. *)

From S2P Require Import Prelude Ring ThreadLife Event Shm.

(** ** The timed [try_get] *)

(** The clock readings of the calls, in seconds; [None] when the readings run
    out before the loop ends. *)
Fixpoint try_get_loop (nDeadline : Z) (clock : list Z) (q : shmq) : option (option nat * shmq) :=
  match try_get q with
  | (Some s, q') => Some (Some s, q')
  | (None, q') =>
      match clock with
      | [] => None
      | now :: clock => if (nDeadline <? s32 now)%Z then Some (None, q')
                        else try_get_loop nDeadline clock q'
      end
  end.
Definition try_get_timed (now nWaitTimeout : Z) (clock : list Z) (q : shmq)
    : outcome (option (option nat * shmq)) :=
  nDeadline ← chk32 (s32 now + nWaitTimeout);
  Ok (try_get_loop nDeadline clock q).

(** ** [ShmQThread] *)

(** [sizeof(EVENTINFO)]. *)
Abbreviation packet_size := MAX_EVENTINFO_SIZE.

Record shmqt : Type := SQT {
  sqt_thread : thread;
  sqt_cong : option thread;
  sqt_queue : shmq;
}.

Definition ShmQThread_new (q : shmq) : shmqt := SQT Thread_new None q.

(** [start] with the names of the two workers; [None] waits in [create]. *)
Definition shm_start (w wc : wid) (t : shmqt) : option (bool * shmqt) :=
  let cong := if negb (shm_length (sqt_queue t) =? 0)%Z
              then match create wc Thread_new with Some (_, _, c) => Some c | None => None end
              else sqt_cong t in
  '(r, _, th) ← create w (sqt_thread t);
  Some ((r =? 1)%Z, SQT th cong (sqt_queue t)).

Definition with_sq (q : shmq) (t : shmqt) : shmqt := SQT (sqt_thread t) (sqt_cong t) q.

Definition shm_add (e : EVENTINFO) (t : shmqt) : outcome (bool * shmqt) :=
  '(r, q) ← put packet_size (event_bytes e) (nMsgLen (h e)) (sqt_queue t);
  Ok ((r =? 0)%Z, with_sq q t).
(** What the pointers [remove] and [try_remove] return read; [remove] blocks
    when it returns none. *)
Definition shm_remove (t : shmqt) : option (list Z) * shmqt :=
  let '(s, q) := get (sqt_queue t) in
  (match s with Some s => Some (slot_bytes s q) | None => None end, with_sq q t).
Definition shm_try_remove (t : shmqt) : option (list Z) * shmqt :=
  let '(s, q) := try_get (sqt_queue t) in
  (match s with Some s => Some (slot_bytes s q) | None => None end, with_sq q t).

Definition shm_add_event (type_ stype : Z) (pValue : option (list Z)) (nLen : Z) (t : shmqt)
    : outcome (bool * shmqt) :=
  e ← make_event type_ stype pValue nLen; shm_add e t.
Definition shm_add_event32 (type_ stype value : Z) (t : shmqt) : outcome (bool * shmqt) :=
  e ← make_event32 type_ stype value; shm_add e t.
Definition shm_add_quit_event (t : shmqt) : outcome (bool * shmqt) :=
  shm_add_event CI_QUIT_THREAD 0 None 0 t.

(** [close] up to the join. *)
Definition shm_close_begin (t : shmqt) : outcome (option jthread * shmqt) :=
  let t1 := SQT (close_pre (sqt_thread t)) (sqt_cong t) (sqt_queue t) in
  '(_, t2) ← shm_add_quit_event t1;
  match close_post_begin (sqt_thread t2) with
  | None => Ok (None, t2)
  | Some (j, th) => Ok (Some j, SQT th (sqt_cong t2) (sqt_queue t2))
  end.

(** ** The congestion thread and its consumers *)

(** [put_event] in its two steps: the test under the lock and the post. *)
Definition congested (q : shmq) : bool := (1 <? m_nCurQueueLen q)%Z.

Lemma put_event_steps q : put_event q = (congested q, put_post q).
Proof. done. Qed.



(** A step of a producer or consumer, of the congestion thread (its test, its post),
    or its return on a stop request. *)
Inductive clab : Type := LOther | LTest | LPost | LStop.
#[global] Instance clab_eq_dec : EqDecision clab.
Proof. solve_decision. Defined.




(** ** Lemmas *)











Lemma length_event_bytes e : length (Value e) = MAX_VALUE_SIZE ->
  length (event_bytes e) = packet_size.
Proof.
  intros Hv. unfold event_bytes. rewrite !length_app, length_header_bytes, length_line_bytes, Hv.
  unfold MAX_VALUE_SIZE. rewrite header_length_eq. unfold MAX_EVENTINFO_SIZE. lia.
Qed.

(** The length field of a made event. *)
Lemma make_event_msglen ty sty mem nLen e : make_event ty sty mem nLen = Ok e ->
  nMsgLen (h e) = (Z.of_nat EVENTINFO_HEADER_LENGTH + nLen)%Z.
Proof.
  unfold make_event, mbind, outcome_bind.
  destruct (match mem with Some _ => _ | None => _ end) as [v| |]; [|done|done].
  unfold chk32. destruct (_ && _); [|done]. by intros [= <-].
Qed.

(** ** Properties *)




(** Events through shared memory.  With room in the queue and a payload
    that fits, [ShmQThread::add_event] succeeds and appends one packet holding
    the header with the type and subtype, the length field, and the payload;
    and [remove] on a queue of packets returns the oldest one, byte for byte
    up to its length, and leaves the others. *)
Theorem shm_event_roundtrip (n : nat) (t : shmqt) xs ty sty mem nLen :
  sq_rep packet_size n (sqt_queue t) xs 0 -> (length xs < n)%nat ->
  (0 <= nLen <= Z.of_nat (length mem))%Z -> (nLen <= Z.of_nat MAX_VALUE_SIZE)%Z ->
  exists e t', shm_add_event ty sty (Some mem) nLen t = Ok (true, t') /\
    usType (h e) = u16 ty /\ usSubType (h e) = u16 sty /\ event_value_length e = nLen /\
    take (Z.to_nat nLen) (Value e) = take (Z.to_nat nLen) mem /\
    sq_rep packet_size n (sqt_queue t')
      (xs ++ [take (Z.to_nat (nMsgLen (h e))) (event_bytes e)]) 0 /\
    (exists bytes t'', shm_remove t' = (Some bytes, t'') /\
       match xs ++ [take (Z.to_nat (nMsgLen (h e))) (event_bytes e)] with
       | x :: xs' => take (length x) bytes = x /\ sq_rep packet_size n (sqt_queue t'') xs' 0
       | [] => False
       end).
Proof.
  intros Hrep Hroom Hn Hv.
  destruct (make_event_spec ty sty mem nLen Hn Hv) as (e & He & H1 & H2 & H3 & Hlv & H4).
  pose proof (make_event_msglen _ _ _ _ _ He) as Hml.
  assert (0 <= nMsgLen (h e) <= Z.of_nat packet_size)%Z as Hr.
  { rewrite Hml, header_length_eq. unfold MAX_VALUE_SIZE in Hv. rewrite header_length_eq in Hv.
    unfold MAX_EVENTINFO_SIZE in *. lia. }
  pose proof (put_rep packet_size n _ xs 0 (event_bytes e) (nMsgLen (h e)) Hrep
    (length_event_bytes e Hlv) Hr) as Hput.
  rewrite (proj2 (Nat.ltb_lt _ _) Hroom) in Hput. destruct Hput as (q' & Hput & Hrep').
  assert (item_of packet_size (event_bytes e) (nMsgLen (h e))
          = take (Z.to_nat (nMsgLen (h e))) (event_bytes e)) as Hit.
  { unfold item_of. rewrite (proj2 (Z.eqb_neq _ _)); [done|].
    rewrite Hml, header_length_eq. lia. }
  rewrite Hit in Hrep'. exists e, (with_sq q' t).
  unfold shm_add_event, shm_add, mbind, outcome_bind. rewrite He, Hput.
  split_and!; try done. pose proof (get_rep packet_size n q' _ 0 Hrep') as Hget.
  unfold shm_remove. cbn [sqt_queue with_sq].
  destruct (xs ++ _) as [|x xs'] eqn:Ex; [by destruct xs|].
  destruct Hget as (s & q'' & -> & Hrep'' & Htk). by do 2 eexists.
Qed.

Lemma shm_event_roundtrip_witness :
  let t := ShmQThread_new (ShmQueue_initialize 2 (replicate 2 (replicate packet_size 0%Z))) in
  (0 < 2)%nat /\
  exists e t', shm_add_event 7 1 (Some [1; 2; 3]%Z) 3 t = Ok (true, t') /\
    usType (h e) = u16 7 /\ usSubType (h e) = u16 1 /\ event_value_length e = 3%Z /\
    take (Z.to_nat 3) (Value e) = take (Z.to_nat 3) [1; 2; 3]%Z /\
    sq_rep packet_size 2 (sqt_queue t')
      ([] ++ [take (Z.to_nat (nMsgLen (h e))) (event_bytes e)]) 0 /\
    (exists bytes t'', shm_remove t' = (Some bytes, t'') /\
       match [] ++ [take (Z.to_nat (nMsgLen (h e))) (event_bytes e)] with
       | x :: xs' => take (length x) bytes = x /\ sq_rep packet_size 2 (sqt_queue t'') xs' 0
       | [] => False
       end).
Proof.
  split; [lia|].
  apply (shm_event_roundtrip 2
    (ShmQThread_new (ShmQueue_initialize 2 (replicate 2 (replicate packet_size 0%Z)))) []).
  - unfold sq_rep. cbn [sqt_queue ShmQThread_new ShmQueue_initialize max_ m_nCurQueueLen sem_put_
      sem_get_ m_nNextPut m_nNextGet slots length].
    split_and!; try reflexivity; try lia.
    + apply Forall_replicate. apply length_replicate.
    + intros i x Hx. done.
  - cbn. lia.
  - cbn. lia.
  - rewrite max_value_size_eq. lia.
Defined.
