(* ===== verification/ShmSeg.v ===== *)
(** * Segments behind the shared-memory queue (include/sharedmemory.hpp)

    [SharedMemory<T>] and the parts of [ShmQueue<T>] that create, attach, reset
    and give up its segment.  Pointers are addresses; which of them may be used
    is given by the table of attached segments, so that a pointer kept across a
    detach is an error of the model.  What the segment holds is in Shm. *)

From S2P Require Import Prelude Text Shm.

(** ** The system calls *)

(** [open] with [O_CREAT] and [close] stand for [check_file]'s; [shm_maps] is the
    process's table of attached segments (address to size) and [shm_size] the
    size of a segment. *)
Class ShmOs (OS : Type) := {
  shm_stat : str -> OS -> bool;
  shm_creat : str -> OS -> Z * OS;
  shm_close : Z -> OS -> OS;
  shm_ftok : str -> OS -> Z;
  sys_shmget : Z -> Z -> Z -> OS -> Z * OS;
  sys_shmat : Z -> OS -> Z * OS;
  sys_shmdt : Z -> OS -> Z * OS;
  sys_shmctl_rmid : Z -> OS -> Z * OS;
  shm_unlink : str -> OS -> OS;
  shm_maps : OS -> gmap Z Z;
  shm_size : Z -> OS -> option Z;
}.

(** Documented behaviour: only [shmat] and [shmdt] change the table; a segment
    found by [shmget] is at least as large as asked for; [shmat] returns -1 or
    the address of a region of the segment's size that meets no attached one,
    the first page excluded; a negative number names no segment; [shmdt] succeeds on attached addresses only and
    makes or enlarges no segment. *)
Class ShmLaws (OS : Type) `{ShmOs OS} := {
  creat_maps p os : shm_maps (shm_creat p os).2 = shm_maps os;
  close_maps fd os : shm_maps (shm_close fd os) = shm_maps os;
  get_maps k n f os : shm_maps (sys_shmget k n f os).2 = shm_maps os;
  rmid_maps id os : shm_maps (sys_shmctl_rmid id os).2 = shm_maps os;
  unlink_maps p os : shm_maps (shm_unlink p os) = shm_maps os;
  get_size k n f os : (0 <= (sys_shmget k n f os).1)%Z ->
    exists sz, shm_size (sys_shmget k n f os).1 (sys_shmget k n f os).2 = Some sz /\ (n <= sz)%Z;
  at_maps id os :
    ((sys_shmat id os).1 = (-1)%Z /\ shm_maps (sys_shmat id os).2 = shm_maps os) \/
    (exists sz, shm_size id os = Some sz /\ (4096 <= (sys_shmat id os).1)%Z /\
      shm_maps (sys_shmat id os).2 = <[(sys_shmat id os).1 := sz]> (shm_maps os) /\
      forall b szb, shm_maps os !! b = Some szb ->
        ((sys_shmat id os).1 + sz <= b \/ b + szb <= (sys_shmat id os).1)%Z);
  dt_maps a os :
    match shm_maps os !! a with
    | Some _ => (sys_shmdt a os).1 = 0%Z /\ shm_maps (sys_shmdt a os).2 = delete a (shm_maps os)
    | None => (sys_shmdt a os).1 = (-1)%Z /\ shm_maps (sys_shmdt a os).2 = shm_maps os
    end;
  dt_size a os id sz : shm_size id (sys_shmdt a os).2 = Some sz -> shm_size id os = Some sz;
  size_neg id os : (id < 0)%Z -> shm_size id os = None;
  maps_low os a sz : shm_maps os !! a = Some sz -> (4096 <= a /\ 0 < sz)%Z;
}.

Definition SHM_MODE : Z := 0x1b6.
Definition IPC_CREAT : Z := 0x200.
Definition IPC_EXCL : Z := 0x400.
Definition EVENT_QUEUE_LENGTH : Z := 56.

(** [sizeof(pthread_mutex_t)]; of [TShmBuffer], whose slots start at
    [m_szData]: two semaphores of 32 bytes, four integers and the character,
    rounded up to the alignment. *)
Definition sizeof_mutex : Z := 40.
Definition offset_max : Z := 64.
Definition offset_data : Z := 80.
Definition sizeof_header : Z := 88.

Record shobj : Type := SO {
  mutex_ptr_ : Z;
  so_path : str;
  shm_id_ : Z;
  size_ : Z;
  so_origin : bool;
  buffer_ : Z;
}.

Section segment.
Context `{ShmOs OS}.

(** An access to [n] bytes at [p]. *)
Definition accessible (p n : Z) (os : OS) : bool :=
  existsb (fun e : Z * Z => (e.1 <=? p) && (p + n <=? e.1 + e.2))%Z (map_to_list (shm_maps os)).
Definition touch (p n : Z) (os : OS) : outcome unit :=
  if accessible p n os then Ok tt else if (p =? 0)%Z then Ub NullDeref else Ub UseAfterFree.

(** [initialize]; [sizeofT] is [sizeof(T)]. *)
Definition seg_initialize (sizeofT key : Z) (m : shobj) (os : OS) : outcome (Z * shobj * OS) :=
  size ← (if (size_ m =? -1)%Z then Ok (s32 (sizeof_mutex + sizeofT))
          else chk32 (size_ m + sizeof_mutex));
  let '(id, os1) := sys_shmget key size 0 os in
  let '(id', origin, os2) :=
    if (id <? 0)%Z
    then let '(id', os2) := sys_shmget key size (Z.lor (Z.lor SHM_MODE IPC_CREAT) IPC_EXCL) os1 in
         (id', false, os2)
    else let '(id', os2) := sys_shmget key size SHM_MODE os1 in (id', true, os2) in
  Ok (id', SO (mutex_ptr_ m) (so_path m) id' size origin (buffer_ m), os2).

Definition check_file (path : str) (os : OS) : OS :=
  if shm_stat path os then os
  else let '(nFile, os1) := shm_creat path os in
       if (nFile =? -1)%Z then os1 else shm_close nFile os1.

(** The constructors: from a key, and from a path with [nSize] (-1 where the
    source leaves the default). *)
Definition SharedMemory_key (sizeofT key : Z) (os : OS) : outcome (shobj * OS) :=
  '(_, m, os1) ← seg_initialize sizeofT key (SO 0 [] (-1) (-1) false 0) os; Ok (m, os1).
Definition SharedMemory_path (sizeofT : Z) (path : str) (nSize : Z) (os : OS) : outcome (shobj * OS) :=
  let os1 := check_file path os in
  '(_, m, os2) ← seg_initialize sizeofT (shm_ftok path os1) (SO 0 path (-1) nSize false 0) os1;
  Ok (m, os2).

(** [attach]: the result of [shmat] is used as it is. *)
Definition seg_attach (m : shobj) (os : OS) : outcome (Z * shobj * OS) :=
  let '(p, os1) := sys_shmat (shm_id_ m) os in
  let b := (p + sizeof_mutex)%Z in
  _ ← (if so_origin m then touch p sizeof_mutex os1 else Ok tt);
  Ok (b, SO p (so_path m) (shm_id_ m) (size_ m) (so_origin m) b, os1).

Definition detach (m : shobj) (os : OS) : Z * OS :=
  if (mutex_ptr_ m =? 0)%Z then (0%Z, os) else sys_shmdt (mutex_ptr_ m) os.
Definition data (m : shobj) (os : OS) : outcome (Z * shobj * OS) :=
  if (buffer_ m =? 0)%Z then seg_attach m os else Ok (buffer_ m, m, os).

(** [lock] and [unlock]: the access to the mutex, if there is one. *)
Definition seg_lock (m : shobj) (os : OS) : outcome unit :=
  if (mutex_ptr_ m =? 0)%Z then Ok tt else touch (mutex_ptr_ m) sizeof_mutex os.
Definition seg_unlock (m : shobj) (os : OS) : outcome unit :=
  if (mutex_ptr_ m =? 0)%Z then Ok tt else touch (mutex_ptr_ m) sizeof_mutex os.

Definition SharedMemory_dtor (m : shobj) (os : OS) : outcome OS :=
  _ ← seg_unlock m os; Ok (detach m os).2.

Definition destroy (m : shobj) (os : OS) : Z * OS :=
  let '(r, os1) := sys_shmctl_rmid (shm_id_ m) os in
  if (r <? 0)%Z then ((-1)%Z, os1)
  else (1%Z, match so_path m with [] => os1 | _ => shm_unlink (so_path m) os1 end).
End segment.

(** ** [ShmQueue] *)
Record shq : Type := SHQ {
  q_path : str;
  q_shm : option shobj;
  shm_buffer_ : Z;
  queue_objects_ : list Z;
}.

Section queue.
Context `{ShmOs OS} (sizeofT : Z).

Definition slot_addr (b : Z) (i : nat) : Z := (b + offset_data + sizeofT * Z.of_nat i)%Z.

(** [initialize]: the new segment object is made, the old one destroyed, then
    the new one attached. *)
Definition q_initialize (n : Z) (bForce : bool) (q : shq) (os : OS) : outcome (shq * OS) :=
  let nSize := s32 (sizeof_header - 1 + sizeofT * n) in
  '(m, os1) ← SharedMemory_path sizeof_header (q_path q) nSize os;
  os2 ← match q_shm q with None => Ok os1 | Some old => SharedMemory_dtor old os1 end;
  '(b, m', os3) ← data m os2;
  _ ← (if negb (so_origin m') || bForce then touch b offset_data os3 else Ok tt);
  let q1 := SHQ (q_path q) (Some m') b (queue_objects_ q) in
  if bForce then Ok (q1, os3)
  else if (n <? 0)%Z then Exc "vector::_M_default_append"
  else Ok (SHQ (q_path q) (Some m') b (map (slot_addr b) (seq 0 (Z.to_nat n))), os3).

Definition ShmQueue_new (path : str) (n : Z) (os : OS) : outcome (shq * OS) :=
  q_initialize n false (SHQ path None 0 []) os.

Definition ShmQueue_default (path : str) (os : OS) : outcome (shq * OS) :=
  ShmQueue_new path EVENT_QUEUE_LENGTH os.

(** [reset], where the segment holds [max] as its capacity. *)
Definition q_reset (max : Z) (q : shq) (os : OS) : outcome (shq * OS) :=
  _ ← touch (shm_buffer_ q + offset_max) 4 os;
  q_initialize max true q os.

Definition q_destroy (q : shq) (os : OS) : outcome (Z * OS) :=
  match q_shm q with None => Ub NullDeref | Some m => Ok (destroy m os) end.

(** The destructor: [sem_post] on [sem_get_], then the segment object's. *)
Definition ShmQueue_dtor (q : shq) (os : OS) : outcome OS :=
  _ ← touch (shm_buffer_ q + 32) 32 os;
  match q_shm q with None => Ok os | Some m => SharedMemory_dtor m os end.

(** Use of the object in slot [i], as [put] and the callers of [get] do. *)
Definition q_slot (i : nat) (q : shq) (os : OS) : outcome unit :=
  match queue_objects_ q !! i with
  | None => Ub OutOfBounds
  | Some p => touch p sizeofT os
  end.
End queue.

(** ** Lemmas *)
Section lemmas.
Context `{ShmLaws OS}.
Implicit Types (os : OS) (base : gmap Z Z).

Lemma accessible_spec p n os :
  accessible p n os = true <->
  exists a sz, shm_maps os !! a = Some sz /\ (a <= p)%Z /\ (p + n <= a + sz)%Z.
Proof.
  unfold accessible. rewrite existsb_exists. split.
  - intros ([a sz] & Hin & [?%Z.leb_le ?%Z.leb_le]%andb_true_iff). exists a, sz.
    split; [|done]. by apply elem_of_map_to_list, list_elem_of_In.
  - intros (a & sz & Hl & ? & ?). exists (a, sz). split.
    + by apply list_elem_of_In, elem_of_map_to_list.
    + apply andb_true_iff. by split; apply Z.leb_le.
Qed.

Lemma touch_ok p n os a sz : shm_maps os !! a = Some sz -> (a <= p)%Z -> (p + n <= a + sz)%Z ->
  touch p n os = Ok tt.
Proof. intros. unfold touch. by rewrite (proj2 (accessible_spec p n os)) by eauto. Qed.

Lemma touch_gone p n os : (0 < p)%Z ->
  (forall a sz, shm_maps os !! a = Some sz -> (p < a \/ a + sz < p + n)%Z) ->
  touch p n os = Ub UseAfterFree.
Proof.
  intros Hp Hno. unfold touch. destruct (accessible p n os) eqn:Ha.
  - apply accessible_spec in Ha as (a & sz & Hl & ? & ?). destruct (Hno a sz Hl); lia.
  - by rewrite (proj2 (Z.eqb_neq p 0)) by lia.
Qed.

(** Nothing is attached in the first page or below. *)
Lemma touch_low p n os : (p < 4096)%Z -> exists k, touch p n os = Ub k.
Proof.
  intros Hp. unfold touch. destruct (accessible p n os) eqn:Ha; [|case_match; eauto].
  apply accessible_spec in Ha as (a & sz & Hl & ? & ?). apply maps_low in Hl. lia.
Qed.

Lemma check_file_maps path os : shm_maps (check_file path os) = shm_maps os.
Proof.
  unfold check_file. destruct (shm_stat path os); [done|].
  pose proof (creat_maps path os) as Hc. destruct (shm_creat path os) as [fd os1]. cbn in Hc.
  case_match; [done|]. by rewrite close_maps.
Qed.

(** The segment for [path] and what the system is after the calls that find or make
    it: the one that exists already, or else a new one. *)
Definition segment_for (path : str) (size : Z) (os : OS) : Z * OS :=
  let os1 := check_file path os in
  let old := sys_shmget (shm_ftok path os1) size 0 os1 in
  sys_shmget (shm_ftok path os1) size
    (if (old.1 <? 0)%Z then Z.lor (Z.lor SHM_MODE IPC_CREAT) IPC_EXCL else SHM_MODE) old.2.

Lemma SharedMemory_path_spec sizeofT path nSize os :
  (0 <= nSize)%Z -> (nSize + sizeof_mutex <= INT32_MAX)%Z ->
  exists m os', SharedMemory_path sizeofT path nSize os = Ok (m, os') /\
    shm_maps os' = shm_maps os /\ mutex_ptr_ m = 0%Z /\ buffer_ m = 0%Z /\ so_path m = path /\
    (shm_id_ m, os') = segment_for path (nSize + sizeof_mutex) os /\
    forall sz, shm_size (shm_id_ m) os' = Some sz -> (nSize + sizeof_mutex <= sz)%Z.
Proof.
  intros Hn Hm. unfold SharedMemory_path, seg_initialize. cbn [size_ so_path mutex_ptr_ buffer_].
  rewrite (proj2 (Z.eqb_neq nSize (-1))) by lia.
  rewrite chk32_ok by (unfold in_s32, INT32_MIN, sizeof_mutex in *; lia).
  unfold mbind, outcome_bind, segment_for. rewrite <-(check_file_maps path os).
  set (os1 := check_file path os). set (key := shm_ftok path os1). clearbody os1 key.
  pose proof (get_maps key (nSize + sizeof_mutex) 0 os1) as Hg.
  destruct (sys_shmget key (nSize + sizeof_mutex) 0 os1) as [id os2]. cbn [fst snd] in *.
  assert (forall f, let r := sys_shmget key (nSize + sizeof_mutex) f os2 in
    shm_maps r.2 = shm_maps os1 /\
    forall sz, shm_size r.1 r.2 = Some sz -> (nSize + sizeof_mutex <= sz)%Z) as Hf.
  { intros f r. split; [by unfold r; rewrite get_maps|]. intros sz Hsz.
    destruct (Z_lt_le_dec r.1 0) as [Hneg|Hpos]; [by rewrite size_neg in Hsz|].
    destruct (get_size key _ f os2 Hpos) as (sz' & Hsz' & ?). fold r in Hsz'.
    rewrite Hsz in Hsz'. by simplify_eq. }
  destruct (id <? 0)%Z.
  - specialize (Hf (Z.lor (Z.lor SHM_MODE IPC_CREAT) IPC_EXCL)).
    destruct (sys_shmget _ _ _ os2) as [id' os3]. destruct Hf as [Hf1 Hf2]. by do 2 eexists.
  - specialize (Hf SHM_MODE). destruct (sys_shmget _ _ _ os2) as [id' os3].
    destruct Hf as [Hf1 Hf2]. by do 2 eexists.
Qed.

(** An object attached at [a], its segment the only one besides [base]. *)
Definition attached_at base (need a sz : Z) (m : shobj) os : Prop :=
  mutex_ptr_ m = a /\ buffer_ m = (a + sizeof_mutex)%Z /\ (4096 <= a)%Z /\ (need <= sz)%Z /\
  shm_maps os = <[a := sz]> base /\ base !! a = None /\
  forall b szb, base !! b = Some szb -> (a + sz <= b \/ b + szb <= a)%Z.

Lemma data_spec base need m os : (0 < need)%Z -> (sizeof_mutex <= need)%Z ->
  shm_maps os = base -> buffer_ m = 0%Z ->
  (forall sz, shm_size (shm_id_ m) os = Some sz -> (need <= sz)%Z) ->
  (exists a sz m' os', data m os = Ok ((a + sizeof_mutex)%Z, m', os') /\
     a = (sys_shmat (shm_id_ m) os).1 /\ so_origin m' = so_origin m /\ attached_at base need a sz m' os') \/
  ((sys_shmat (shm_id_ m) os).1 = (-1)%Z /\
   match data m os with
   | Ok (b, m', _) => b = 39%Z /\ so_origin m' = false
   | Exc _ => False
   | Ub _ => True
   end).
Proof.
  intros Hpos Hmut Hb Hbuf Hneed. unfold data. rewrite Hbuf. cbn [Z.eqb].
  unfold seg_attach. pose proof (at_maps (shm_id_ m) os) as Hat. rewrite Hb in Hat.
  destruct (sys_shmat (shm_id_ m) os) as [a os']. cbn [fst snd] in Hat.
  destruct Hat as [[-> Hm]|(sz & Hsz & Hlow & Hm & Hdis)].
  - right. split; [done|]. unfold mbind, outcome_bind. destruct (so_origin m) eqn:?; [|done].
    by destruct (touch_low (-1) sizeof_mutex os') as [k ->]; [lia|].
  - left. apply Hneed in Hsz.
    assert (base !! a = None) as Hfresh.
    { destruct (base !! a) as [szb|] eqn:Hl; [|done]. rewrite <-Hb in Hl.
      pose proof (maps_low os a szb Hl). rewrite Hb in Hl. destruct (Hdis a szb Hl); lia. }
    exists a, sz, (SO a (so_path m) (shm_id_ m) (size_ m) (so_origin m) (a + sizeof_mutex)), os'.
    assert (touch a sizeof_mutex os' = Ok tt) as Ht.
    { apply (touch_ok _ _ _ a sz); [by rewrite Hm, lookup_insert_eq|lia|lia]. }
    unfold mbind, outcome_bind. rewrite Ht. destruct (so_origin m); by split_and!.
Qed.

Lemma dtor_attached base need a sz m os : (sizeof_mutex <= need)%Z ->
  attached_at base need a sz m os ->
  exists os', SharedMemory_dtor m os = Ok os' /\ os' = (detach m os).2 /\ shm_maps os' = base /\
    forall id s, shm_size id os' = Some s -> shm_size id os = Some s.
Proof.
  intros Hn (Hp & Hb & Hlow & Hsz & Hm & Hf & _). unfold SharedMemory_dtor, seg_unlock, detach.
  rewrite Hp, (proj2 (Z.eqb_neq a 0)) by lia. unfold mbind, outcome_bind.
  rewrite (touch_ok _ _ _ a sz) by (rewrite ?Hm, ?lookup_insert_eq; (done || lia)).
  eexists. split; [reflexivity|]. split; [done|]. split; [|intros id s; apply dt_size].
  pose proof (dt_maps a os) as Hd. rewrite Hm, lookup_insert_eq in Hd. destruct Hd as [_ ->].
  by rewrite delete_insert_id.
Qed.
End lemmas.

(** ** The queue on its segment *)
Section qlemmas.
Context `{ShmLaws OS} (sizeofT : Z).
Implicit Types (os : OS) (base : gmap Z Z).

(** The bytes a queue of [n] slots needs, mutex included. *)
Definition need_bytes (n : Z) : Z := (sizeof_mutex + sizeof_header - 1 + sizeofT * n)%Z.

(** The queue's segment is attached at [a] and is the only one besides [base]. *)
Definition q_attached base (n a sz : Z) (q : shq) os : Prop :=
  exists m, q_shm q = Some m /\ shm_buffer_ q = (a + sizeof_mutex)%Z /\
    attached_at base (need_bytes n) a sz m os.

(** What the [shmat] of [initialize] returns: on the queue's segment, once the old
    object, if any, is gone. *)
Definition shmat_result (n : Z) (q : shq) os : Z :=
  let seg := segment_for (q_path q) (need_bytes n) os in
  (sys_shmat seg.1 match q_shm q with None => seg.2 | Some old => (detach old seg.2).2 end).1.

Lemma q_initialize_spec base n f q os : (0 < sizeofT)%Z -> (0 < n)%Z ->
  (need_bytes n <= INT32_MAX)%Z ->
  match q_shm q with
  | None => shm_maps os = base
  | Some m => exists need a sz, (sizeof_mutex <= need)%Z /\ attached_at base need a sz m os
  end ->
  match q_initialize sizeofT n f q os with
  | Ok (q', os') => exists a sz, a = shmat_result n q os /\ q_attached base n a sz q' os' /\
      queue_objects_ q' = if f then queue_objects_ q
        else map (slot_addr sizeofT (a + sizeof_mutex)) (seq 0 (Z.to_nat n))
  | Exc _ => False
  | Ub _ => shmat_result n q os = (-1)%Z
  end.
Proof.
  intros Hs Hn Hfit Hq. unfold q_initialize.
  assert (s32 (sizeof_header - 1 + sizeofT * n) = (sizeof_header - 1 + sizeofT * n)%Z) as ->.
  { apply swrap_small. unfold in_s32, need_bytes, sizeof_mutex, sizeof_header, INT32_MIN in *. nia. }
  destruct (SharedMemory_path_spec sizeof_header (q_path q) (sizeof_header - 1 + sizeofT * n) os)
    as (m & os1 & -> & Hm1 & _ & Hbuf & _ & Hseg & Hsz).
  { unfold sizeof_header. nia. }
  { unfold need_bytes in Hfit. lia. }
  unfold mbind, outcome_bind.
  replace (sizeof_header - 1 + sizeofT * n + sizeof_mutex)%Z with (need_bytes n) in Hseg
    by (unfold need_bytes; lia).
  assert (exists os2, match q_shm q with None => Ok os1 | Some old => SharedMemory_dtor old os1 end
            = Ok os2 /\ os2 = match q_shm q with None => os1 | Some old => (detach old os1).2 end /\ shm_maps os2 = base /\
            forall id s, shm_size id os2 = Some s -> shm_size id os1 = Some s)
    as (os2 & -> & Eos2 & Hm2 & Hs2).
  { destruct (q_shm q) as [old|]; [|exists os1; by rewrite Hm1].
    destruct Hq as (need & a & sz & Hneed & Hat).
    apply (dtor_attached base need a sz old os1 Hneed). unfold attached_at in *. by rewrite Hm1. }
  assert (shmat_result n q os = (sys_shmat (shm_id_ m) os2).1) as Hres.
  { unfold shmat_result. rewrite <-Hseg. cbn [fst snd]. by rewrite Eos2. }
  assert (forall sz, shm_size (shm_id_ m) os2 = Some sz -> (need_bytes n <= sz)%Z) as Hsz2.
  { intros sz Hsz'. apply Hs2, Hsz in Hsz'. unfold need_bytes. lia. }
  assert (0 < need_bytes n /\ sizeof_mutex <= need_bytes n /\ sizeof_mutex + offset_data <= need_bytes n)%Z
    as (Hnb0 & Hnb & Hnb2) by (unfold need_bytes, sizeof_mutex, sizeof_header, offset_data; nia).
  destruct (data_spec base (need_bytes n) m os2 Hnb0 Hnb Hm2 Hbuf Hsz2)
    as [(a & sz & m' & os3 & -> & Ea & Ho & Hat)|[Hfail Hd]].
  - assert (touch (a + sizeof_mutex) offset_data os3 = Ok tt) as ->.
    { destruct Hat as (_ & _ & _ & ? & Hm & _).
      apply (touch_ok _ _ os3 a sz); [by rewrite Hm, lookup_insert_eq|unfold sizeof_mutex in *; lia..]. }
    destruct (negb (so_origin m') || f), f; rewrite ?(proj2 (Z.ltb_ge n 0)) by lia;
      (exists a, sz; split; [by rewrite Hres|]; split; [by exists m'|done]).
  - destruct (data m os2) as [[[b m'] os3]|what|k]; [|done|by rewrite Hres].
    destruct Hd as [-> ->]. cbn [negb orb].
    destruct (touch_low 39 offset_data os3) as [k ->]; [lia|]. by rewrite Hres.
Qed.

Lemma q_dtor_attached base n a sz q os : (0 < sizeofT)%Z -> (0 < n)%Z ->
  q_attached base n a sz q os ->
  exists os', ShmQueue_dtor q os = Ok os' /\ shm_maps os' = base.
Proof.
  intros Hs Hn (m & Hq & Hb & Hat). unfold ShmQueue_dtor. rewrite Hq, Hb.
  assert (need_bytes n >= 128)%Z as Hnb by (unfold need_bytes, sizeof_mutex, sizeof_header; nia).
  pose proof Hat as (_ & _ & _ & Hsz & Hm & _).
  rewrite (touch_ok _ _ os a sz) by (rewrite ?Hm, ?lookup_insert_eq; unfold sizeof_mutex; (done || lia)).
  destruct (dtor_attached base (need_bytes n) a sz m os) as (os' & -> & _ & Hm' & _);
    [unfold sizeof_mutex; lia|done|by exists os'].
Qed.

(** The slots computed for a segment at [a]: inside it, behind the header, in
    order and apart. *)
Lemma slot_addr_in (n a sz : Z) (i : nat) : (0 < sizeofT)%Z -> (need_bytes n <= sz)%Z ->
  (Z.of_nat i < n)%Z ->
  (a + sizeof_mutex + offset_data <= slot_addr sizeofT (a + sizeof_mutex) i /\
   slot_addr sizeofT (a + sizeof_mutex) i + sizeofT <= a + sz)%Z.
Proof.
  unfold need_bytes, slot_addr, sizeof_mutex, sizeof_header, offset_data. intros. nia.
Qed.

Lemma slot_addr_next b i : slot_addr sizeofT b (S i) = (slot_addr sizeofT b i + sizeofT)%Z.
Proof. unfold slot_addr. lia. Qed.

Definition slots_of (n a : Z) : list Z :=
  map (slot_addr sizeofT (a + sizeof_mutex)) (seq 0 (Z.to_nat n)).

Lemma slots_of_lookup n a i : (Z.of_nat i < n)%Z ->
  slots_of n a !! i = Some (slot_addr sizeofT (a + sizeof_mutex) i).
Proof.
  intros Hi. unfold slots_of. rewrite list_lookup_fmap, lookup_seq_lt by lia. done.
Qed.

(** Using a slot of a segment at [a] while the queue's is at [a']. *)
Lemma q_slot_same base n a sz q os i : (0 < sizeofT)%Z -> (Z.of_nat i < n)%Z ->
  q_attached base n a sz q os -> queue_objects_ q = slots_of n a ->
  q_slot sizeofT i q os = Ok tt.
Proof.
  intros Hs Hi (m & _ & _ & (_ & _ & _ & Hsz & Hm & _)) Hq.
  unfold q_slot. rewrite Hq, slots_of_lookup by done.
  pose proof (slot_addr_in n a sz i Hs Hsz Hi) as [? ?].
  apply (touch_ok _ _ os a sz); [by rewrite Hm, lookup_insert_eq| |done].
  unfold sizeof_mutex, offset_data in *. lia.
Qed.

Lemma q_slot_gone base n a sz a' sz' q os i : (0 < sizeofT)%Z -> (Z.of_nat i < n)%Z ->
  (4096 <= a)%Z -> (need_bytes n <= sz)%Z ->
  (forall b szb, base !! b = Some szb -> (a + sz <= b \/ b + szb <= a)%Z) ->
  (a + sz <= a' \/ a' + sz' <= a)%Z ->
  q_attached base n a' sz' q os -> queue_objects_ q = slots_of n a ->
  q_slot sizeofT i q os = Ub UseAfterFree.
Proof.
  intros Hs Hi Hlow Hsz Hdis Hd (m & _ & _ & (_ & _ & _ & _ & Hm & _)) Hq.
  unfold q_slot. rewrite Hq, slots_of_lookup by done.
  pose proof (slot_addr_in n a sz i Hs Hsz Hi) as [? ?].
  unfold sizeof_mutex, offset_data in *. apply touch_gone; [lia|]. intros c szc Hc.
  rewrite Hm in Hc. apply lookup_insert_Some in Hc as [[<- <-]|[_ Hc]]; [|apply Hdis in Hc]; lia.
Qed.
End qlemmas.

(** ** A kernel for the laws *)
Module Segs.

(** Files, keys, segment sizes, attachments; [k_reuse] says whether an address
    is given out again after a detach, [k_top] is where the next one goes if
    not. *)
Record kernel : Type := K {
  k_files : list str;
  k_keys : gmap Z Z;
  k_sizes : gmap Z Z;
  k_next : nat;
  k_maps : gmap Z Z;
  k_reuse : bool;
  k_top : Z;
}.

Definition good (e : Z * Z) : Prop := (4096 <= e.1)%Z /\ (0 < e.2)%Z.
#[global] Instance good_dec e : Decision (good e).
Proof. unfold good. apply _. Defined.

Definition maps_of (k : kernel) : gmap Z Z := filter good (k_maps k).
Definition size_of (id : Z) (k : kernel) : option Z :=
  if (id <? 0)%Z then None else k_sizes k !! id.
Definition map_end (m : gmap Z Z) : Z := map_fold (fun a sz r => Z.max (a + sz) r) 4096%Z m.

Definition with_maps (m : gmap Z Z) (top : Z) (k : kernel) : kernel :=
  K (k_files k) (k_keys k) (k_sizes k) (k_next k) m (k_reuse k) top.

Definition get (key n flg : Z) (k : kernel) : Z * kernel :=
  match k_keys k !! key with
  | Some id =>
      match size_of id k with
      | Some sz => if (n <=? sz)%Z && negb (Z.testbit flg 10) then (id, k) else ((-1)%Z, k)
      | None => ((-1)%Z, k)
      end
  | None =>
      if Z.testbit flg 9
      then let id := Z.of_nat (k_next k) in
           (id, K (k_files k) (<[key := id]> (k_keys k)) (<[id := n]> (k_sizes k)) (S (k_next k))
                  (k_maps k) (k_reuse k) (k_top k))
      else ((-1)%Z, k)
  end.
Definition at_ (id : Z) (k : kernel) : Z * kernel :=
  match size_of id k with
  | Some sz =>
      if (sz <=? 0)%Z then ((-1)%Z, k)
      else let a := Z.max (map_end (maps_of k)) (if k_reuse k then 4096 else k_top k) in
           (a, with_maps (<[a := sz]> (k_maps k)) (a + sz) k)
  | None => ((-1)%Z, k)
  end.
Definition dt (a : Z) (k : kernel) : Z * kernel :=
  match maps_of k !! a with
  | Some _ => (0%Z, with_maps (delete a (k_maps k)) (k_top k) k)
  | None => ((-1)%Z, k)
  end.

#[global] Instance segs_os : ShmOs kernel := {|
  shm_stat p k := bool_decide (p ∈ k_files k);
  shm_creat p k := (3%Z, K (p :: k_files k) (k_keys k) (k_sizes k) (k_next k) (k_maps k) (k_reuse k) (k_top k));
  shm_close _ k := k;
  shm_ftok p k := if bool_decide (p ∈ k_files k) then Z.of_nat (length p) else (-1)%Z;
  sys_shmget := get;
  sys_shmat := at_;
  sys_shmdt := dt;
  sys_shmctl_rmid id k := (if (id <? 0)%Z then (-1)%Z else 0%Z, k);
  shm_unlink p k := K (filter (fun f => f <> p) (k_files k)) (k_keys k) (k_sizes k) (k_next k)
                      (k_maps k) (k_reuse k) (k_top k);
  shm_maps := maps_of;
  shm_size := size_of;
|}.

Lemma map_end_spec m : (4096 <= map_end m)%Z /\
  forall b sz, m !! b = Some sz -> (b + sz <= map_end m)%Z.
Proof.
  unfold map_end. induction m as [|a sz m Ha Hf [IH1 IH2]] using map_first_key_ind.
  - split; [done|]. intros b sz. by rewrite lookup_empty.
  - rewrite map_fold_insert_first_key by done. split; [lia|].
    intros b szb [[<- <-]|[_ Hb]]%lookup_insert_Some; [lia|]. apply IH2 in Hb. lia.
Qed.

#[global] Instance segs_laws : ShmLaws kernel.
Proof.
  split; cbn -[Z.testbit]; try done.
  - intros k n f os. unfold get. by repeat case_match.
  - intros k n f os. unfold get, size_of. repeat case_match; cbn; intros; simplify_eq; bprop; cbn in *; try lia.
    + by exists z0.
    + rewrite lookup_insert_eq. by eexists.
  - intros id os. unfold at_. destruct (size_of id os) as [sz|] eqn:Hsz; [|by left].
    destruct (sz <=? 0)%Z eqn:Hz; [by left|]. right. apply Z.leb_gt in Hz. exists sz.
    destruct (map_end_spec (maps_of os)) as [He Hall].
    cbn [fst snd]. set (a := Z.max _ _). assert (map_end (maps_of os) <= a)%Z by lia.
    split_and!; [done|lia| |].
    + unfold maps_of at 1. cbn [with_maps k_maps]. apply map_filter_insert_True. by split; cbn; lia.
    + intros b szb Hb. apply Hall in Hb. lia.
  - intros a os. unfold dt. destruct (maps_of os !! a) eqn:Hl; [|done]. cbn. split; [done|].
    unfold maps_of at 1. cbn [with_maps k_maps]. by rewrite map_filter_delete.
  - intros a os id sz. unfold dt, size_of. by destruct (maps_of os !! a).
  - intros id os Hid. unfold size_of. by rewrite (proj2 (Z.ltb_lt id 0)).
  - intros os a sz [_ Hg]%map_lookup_filter_Some. exact Hg.
Qed.

Definition boot (reuse : bool) : kernel := K [] ∅ ∅ 0 ∅ reuse 4096.
End Segs.

(** ** Properties *)

(** C30: a shared-memory queue lives inside its segment.  For every number of
    slots whose bytes fit an [int], constructing the queue attaches one segment,
    new in the process's table; the slot pointers are one per slot, each a slot
    size after the one before, all of them behind the mutex and the header and
    inside the segment, and usable; the destructor leaves the table as it was.
    It leaves defined behaviour exactly when the [shmat] of the segment that
    [shmget] found or made for the path returns -1, which the code uses as an
    address; otherwise that is the address attached.  Assumed of the system: what
    [ShmLaws] says of [shmget], [shmat] and [shmdt]. *)
Theorem shm_queue_mapping `{ShmLaws OS} (sizeofT n : Z) (path : str) (os : OS) :
  (0 < sizeofT)%Z -> (0 < n)%Z -> (need_bytes sizeofT n <= INT32_MAX)%Z ->
  let seg := segment_for path (need_bytes sizeofT n) os in
  let a := (sys_shmat seg.1 seg.2).1 in
  match ShmQueue_new sizeofT path n os with
  | Ok (q, os1) => a <> (-1)%Z /\
      exists sz, shm_maps os1 = <[a := sz]> (shm_maps os) /\ shm_maps os !! a = None /\
        Z.of_nat (length (queue_objects_ q)) = n /\
        (forall i p, queue_objects_ q !! i = Some p ->
           (a + sizeof_mutex + offset_data <= p /\ p + sizeofT <= a + sz)%Z /\
           q_slot sizeofT i q os1 = Ok tt) /\
        (forall i p p', queue_objects_ q !! i = Some p -> queue_objects_ q !! S i = Some p' ->
           p' = (p + sizeofT)%Z) /\
        exists os2, ShmQueue_dtor q os1 = Ok os2 /\ shm_maps os2 = shm_maps os
  | Exc _ => False
  | Ub _ => a = (-1)%Z
  end.
Proof.
  intros Hs Hn Hfit seg a0. unfold ShmQueue_new.
  pose proof (q_initialize_spec sizeofT (shm_maps os) n false (SHQ path None 0 []) os Hs Hn Hfit eq_refl) as Hq.
  destruct (q_initialize sizeofT n false (SHQ path None 0 []) os) as [[q os1]|what|k]; [|done|exact Hq].
  destruct Hq as (a & sz & Ea & Hat & Hobj). fold (slots_of sizeofT n a) in Hobj.
  assert (a0 = a) as -> by (by rewrite Ea). clear Ea.
  pose proof Hat as (m & _ & _ & (_ & _ & Hlow & Hsz & Hm & Hf & _)). split; [lia|].
  assert (forall i p, queue_objects_ q !! i = Some p -> (Z.of_nat i < n)%Z /\
            p = slot_addr sizeofT (a + sizeof_mutex) i) as Hlook.
  { intros i p Hp. pose proof (lookup_lt_Some _ _ _ Hp) as Hlt. rewrite Hobj in Hp, Hlt.
    unfold slots_of in Hlt. rewrite length_map, length_seq in Hlt.
    rewrite slots_of_lookup in Hp by lia. split; [lia|]. by simplify_eq. }
  exists sz. split_and!; try done.
  - rewrite Hobj. unfold slots_of. rewrite length_map, length_seq. lia.
  - intros i p Hp. destruct (Hlook i p Hp) as [Hi ->]. split.
    + by apply (slot_addr_in sizeofT n).
    + by eapply q_slot_same.
  - intros i p p' [_ ->]%Hlook [_ ->]%Hlook. apply slot_addr_next.
  - exact (q_dtor_attached sizeofT _ n a sz q os1 Hs Hn Hat).
Qed.

Lemma shm_queue_mapping_witness :
  exists q os1 os2, ShmQueue_new 8 (chars "/tmp/q") 4 (Segs.boot false) = Ok (q, os1) /\
    queue_objects_ q = [4216; 4224; 4232; 4240]%Z /\
    ShmQueue_dtor q os1 = Ok os2 /\ shm_maps os2 = shm_maps (Segs.boot false).
Proof.
  pose proof (shm_queue_mapping 8 4 (chars "/tmp/q") (Segs.boot false) ltac:(lia) ltac:(lia)
    ltac:(by vm_compute)) as Hw.
  destruct (ShmQueue_new 8 (chars "/tmp/q") 4 (Segs.boot false)) as [[q os1]|what|k] eqn:Hn;
    [|by vm_compute in Hn..].
  destruct Hw as (_ & sz & _ & _ & _ & _ & _ & os2 & Hd & Hm).
  exists q, os1, os2. split_and!; try done. vm_compute in Hn. by simplify_eq.
Defined.

(** [reset] of a shared-memory queue keeps the slot pointers of the old
    attachment.  It destroys the old segment object, which detaches it, and
    attaches a new one without recomputing the pointers: if the kernel happens
    to return the same address the slots are usable, and if the new region lies
    elsewhere every use of a slot is a use of memory no longer attached. *)
Theorem shm_queue_reset `{ShmLaws OS} (sizeofT n : Z) (path : str) (os os1 os2 : OS) (q q' : shq) :
  (0 < sizeofT)%Z -> (0 < n)%Z -> (need_bytes sizeofT n <= INT32_MAX)%Z ->
  ShmQueue_new sizeofT path n os = Ok (q, os1) -> q_reset sizeofT n q os1 = Ok (q', os2) ->
  (shm_buffer_ q' = shm_buffer_ q ->
     forall i, (Z.of_nat i < n)%Z -> q_slot sizeofT i q' os2 = Ok tt) /\
  (forall sz sz', shm_maps os1 !! (shm_buffer_ q - sizeof_mutex)%Z = Some sz ->
     shm_maps os2 !! (shm_buffer_ q' - sizeof_mutex)%Z = Some sz' ->
     (shm_buffer_ q + sz <= shm_buffer_ q' \/ shm_buffer_ q' + sz' <= shm_buffer_ q)%Z ->
     forall i, (Z.of_nat i < n)%Z -> q_slot sizeofT i q' os2 = Ub UseAfterFree).
Proof.
  intros Hs Hn Hfit Hnew Hreset. unfold ShmQueue_new in Hnew.
  pose proof (q_initialize_spec sizeofT (shm_maps os) n false (SHQ path None 0 []) os Hs Hn Hfit eq_refl) as Hq.
  rewrite Hnew in Hq. destruct Hq as (a & sz & _ & Hat & Hobj). fold (slots_of sizeofT n a) in Hobj.
  pose proof Hat as (m & Hqm & Hb & Hatm). pose proof Hatm as (_ & _ & Hlow & Hsz & Hm & _ & Hdis).
  unfold q_reset, mbind, outcome_bind in Hreset.
  destruct (touch (shm_buffer_ q + offset_max) 4 os1); try discriminate Hreset.
  pose proof (q_initialize_spec sizeofT (shm_maps os) n true q os1 Hs Hn Hfit) as Hq'.
  rewrite Hqm, Hreset in Hq'. destruct Hq' as (a' & sz' & _ & Hat' & Hobj').
  { exists (need_bytes sizeofT n), a, sz. split; [|done].
    unfold need_bytes, sizeof_mutex, sizeof_header. nia. }
  pose proof Hat' as (m' & _ & Hb' & (_ & _ & _ & _ & Hm' & _)).
  rewrite Hb, Hb', Hm, Hm', !Z.add_simpl_r, !lookup_insert_eq. rewrite Hobj in Hobj'. split.
  - intros Heq i Hi. assert (a' = a) as -> by lia. by eapply q_slot_same.
  - intros s s' [= <-] [= <-] Hd i Hi. eapply (q_slot_gone sizeofT (shm_maps os) n a sz a' sz'); try done. lia.
Qed.

Lemma shm_queue_reset_witness :
  exists q os1 q' os2, ShmQueue_new 8 (chars "/tmp/q") 4 (Segs.boot false) = Ok (q, os1) /\
    q_reset 8 4 q os1 = Ok (q', os2) /\ q_slot 8 2 q' os2 = Ub UseAfterFree.
Proof.
  destruct (ShmQueue_new 8 (chars "/tmp/q") 4 (Segs.boot false)) as [[q os1]|what|k] eqn:Hn;
    [|by vm_compute in Hn..].
  destruct (q_reset 8 4 q os1) as [[q' os2]|what|k] eqn:Hr;
    [|vm_compute in Hn; simplify_eq; by vm_compute in Hr..].
  exists q, os1, q', os2. split_and!; [done|done|].
  destruct (shm_queue_reset 8 4 (chars "/tmp/q") (Segs.boot false) os1 os2 q q' ltac:(lia) ltac:(lia)
    ltac:(by vm_compute) Hn Hr) as [_ Hg].
  vm_compute in Hn. simplify_eq. vm_compute in Hr. simplify_eq.
  apply (Hg 159 159)%Z; [reflexivity|reflexivity|by left|lia].
Defined.

(** With a kernel that reuses the address the pointers happen to stay good. *)
Lemma shm_queue_reset_reuse :
  match ShmQueue_new 8 (chars "/tmp/q") 4 (Segs.boot true) with
  | Ok (q, os1) =>
      match q_reset 8 4 q os1 with
      | Ok (q', os2) => q_slot 8 2 q' os2 = Ok tt
      | _ => False
      end
  | _ => False
  end.
Proof. vm_compute. reflexivity. Qed.

(** [detach] does not clear the pointer: the destructor after it unlocks a mutex
    that is no longer attached. *)
Lemma shm_detach_then_dtor `{ShmLaws OS} base need a sz m (os : OS) : (sizeof_mutex <= need)%Z ->
  attached_at base need a sz m os ->
  SharedMemory_dtor m (detach m os).2 = Ub UseAfterFree.
Proof.
  intros Hn (Hp & Hb & Hlow & Hsz & Hm & Hf & Hdis). unfold SharedMemory_dtor, seg_unlock, detach.
  rewrite Hp, (proj2 (Z.eqb_neq a 0)) by lia. unfold mbind, outcome_bind.
  pose proof (dt_maps a os) as Hd. rewrite Hm, lookup_insert_eq, delete_insert_id in Hd by done.
  destruct Hd as [_ Hd]. rewrite touch_gone; [done|lia|]. intros b szb Hl. rewrite Hd in Hl.
  apply Hdis in Hl as Hx. rewrite <-Hd in Hl. apply maps_low in Hl. unfold sizeof_mutex in *. lia.
Qed.

(** A process that opens an existing queue with fewer slots than its creator
    indexes past its pointers when the ring reaches the others. *)
Lemma shm_fewer_slots `{ShmOs OS} (sizeofT n : Z) (path : str) (os os1 : OS) q (i : nat) :
  ShmQueue_new sizeofT path n os = Ok (q, os1) -> (n <= Z.of_nat i)%Z ->
  q_slot sizeofT i q os1 = Ub OutOfBounds.
Proof.
  unfold ShmQueue_new, q_initialize. unfold mbind, outcome_bind. intros Hq Hi.
  repeat case_match; simplify_eq; unfold q_slot; cbn [queue_objects_];
    by rewrite lookup_ge_None_2 by (rewrite length_map, length_seq; lia).
Qed.
