(* ===== verification/Logger.v ===== *)
(** * The rotating logger (include/logger.hpp, src/logger.cpp)

    Producers format a line and put it on a [Queue1To1]; one worker thread
    takes the messages, (re)opens the dated log file, rotates it when it is
    over quota and appends the lines.  The file system is the interface
    [Posix] of [Files] with the two further calls of [LogOs]; [LogVolume]
    states the documented behaviour of a writable volume and [MemFs] is one.
    The diagnostics the code prints on [stderr] are left out. *)

From S2P Require Import Prelude Text Sync Files.

(** ** Further system calls *)

(** [stat] (the size, or [None] when it fails) and
    [std::filesystem::create_directories]. *)
Class LogOs (OS : Type) `{Posix OS} := {
  os_stat_size : str -> OS -> option Z;
  os_create_directories : str -> OS -> OS;
}.

(** ** Data *)
Inductive LOGLEVEL : Type :=
| Critical | Error | Warn | Info | Boardapi | Api | Event | MaxLevel.

Definition level_num (l : LOGLEVEL) : Z :=
  match l with
  | Critical => 0 | Error => 1 | Warn => 2 | Info => 3
  | Boardapi => 4 | Api => 5 | Event => 6 | MaxLevel => 7
  end.

Inductive msg_type : Type := Log | Reopen | Stop.

Record LogMsg : Type := Msg {
  m_type : msg_type; m_text : str; m_prefix : str; m_path : str; m_quota : Z;
}.

(** The members the worker owns. *)
Record logger : Type := Lg {
  prefix_ : str; root_path_ : str; logger_path_ : str; quota_ : Z;
  file_ : file; date_ : Z;
}.

(** The members the producers read. *)
Record front : Type := Front { level_ : LOGLEVEL; file_line_level_ : LOGLEVEL; pid_ : Z }.

Definition LOG_ROOT_PATH : str := chars "../bin/log/".
Definition MAX_QUATA_INDEX : nat := 7.

Definition Logger_new (today : Z) : logger :=
  Lg (chars "log") LOG_ROOT_PATH [] 0 File_default today.
Definition Front_new (pid : Z) : front := Front MaxLevel Warn pid.
Definition set_level (l : LOGLEVEL) (p : front) : front :=
  Front l (file_line_level_ p) (pid_ p).
Definition set_file_line_level (l : LOGLEVEL) (p : front) : front :=
  Front (level_ p) l (pid_ p).

(** ** Producers *)

(** [snprintf(buf, size, ...)] of text [s]: at most [size - 1] characters. *)
Definition snprintf (size : nat) (s : str) : str := take (size - 1) s.

(** [%0<w>ld]. *)
Definition pad0 (w : nat) (z : Z) : str :=
  if (z <? 0)%Z
  then "-"%char :: replicate (w - 1 - length (print_int (- z))) "0"%char ++ print_int (- z)
  else replicate (w - length (print_int z)) "0"%char ++ print_int z.

(** The three [log] overloads; [body] is the text of the formatted arguments
    and [tStr] the [FormatTime] of the current time.  The result is the
    returned length and the message put on the queue, if any. *)
Definition push_log (text : str) : LogMsg := Msg Log text [] [] 0.

Definition FormatTime `{Calendar} (strftime : str -> tm -> str) (t : TimeMs) : outcome str :=
  TimeMs_Format strftime (chars "%T") t.

Definition log_plain (body : str) (p : front) : Z * option LogMsg :=
  let szTmp := cstr (snprintf 20480 body) in
  let szDbg := snprintf (20480 + 64)
    (chars "[p" ++ pad0 5 (pid_ p) ++ chars "] " ++ szTmp ++ [LF]) in
  (Z.of_nat (length szDbg), Some (push_log szDbg)).

Definition log_level (l : LOGLEVEL) (tStr body : str) (p : front) : Z * option LogMsg :=
  if (level_num (level_ p) <? level_num l)%Z then (0%Z, None)
  else
    let szTmp := cstr (snprintf 20480 body) in
    let szDbg := snprintf (20480 + 64)
      (chars "[p" ++ pad0 5 (pid_ p) ++ chars "] " ++ tStr ++ chars "> " ++ szTmp ++ [LF]) in
    (Z.of_nat (length szDbg), Some (push_log szDbg)).

Definition log_file_line (file : str) (line : Z) (l : LOGLEVEL) (tStr body : str) (p : front)
    : Z * option LogMsg :=
  if (level_num (level_ p) <? level_num l)%Z then (0%Z, None)
  else
    let szTmp := cstr (snprintf 20480 body) in
    let szDbg :=
      if (level_num l <=? level_num (file_line_level_ p))%Z
      then snprintf (20480 + 128)
        (chars "[p" ++ pad0 5 (pid_ p) ++ chars "] " ++ tStr ++ chars "> [" ++ file
         ++ chars ":" ++ print_int line ++ chars "] " ++ szTmp ++ [LF])
      else snprintf (20480 + 128)
        (chars "[p" ++ pad0 5 (pid_ p) ++ chars "] " ++ tStr ++ chars "> " ++ szTmp ++ [LF]) in
    (Z.of_nat (length szDbg), Some (push_log szDbg)).

(** The printf-style shorthands. *)
Definition infof (file : str) (line : Z) : str -> str -> front -> Z * option LogMsg := log_file_line file line Info.
Definition warnf (file : str) (line : Z) : str -> str -> front -> Z * option LogMsg := log_file_line file line Warn.
Definition errorf (file : str) (line : Z) : str -> str -> front -> Z * option LogMsg := log_file_line file line Error.
Definition eventf (file : str) (line : Z) : str -> str -> front -> Z * option LogMsg := log_file_line file line Event.
Definition criticalf (file : str) (line : Z) : str -> str -> front -> Z * option LogMsg := log_file_line file line Critical.

(** [log_fmt]; [body] is [None] when [std::format] throws, which leaves only a
    line on [stderr]. *)
Definition log_fmt (level : LOGLEVEL) (file : str) (line : Z) (tStr : str) (body : option str)
    (p : front) : Z * option LogMsg :=
  if (level_num (level_ p) <? level_num level)%Z then (0%Z, None)
  else match body with
       | Some b => log_file_line file line level tStr b p
       | None => (0%Z, None)
       end.

(** The message the destructor puts before it joins the worker. *)
Definition Logger_dtor : LogMsg := Msg Stop [] [] [] 0.

(** [create_file(prefix, quota)] and [create_file(prefix, path, quota)]. *)
Definition create_file (pPrefix : option str) (nQuata : Z) : LogMsg :=
  Msg Reopen [] (default [] pPrefix) [] nQuata.
Definition create_file_path (pPrefix pPath : option str) (nQuata : Z) : LogMsg :=
  Msg Reopen [] (default [] pPrefix) (default LOG_ROOT_PATH pPath) nQuata.

(** ** The worker *)

(** [year * 10000 + month * 100 + day]. *)
Definition make_date `{Calendar} (now : Time) : outcome Z :=
  y ← GetYear now; m ← GetMonth now;
  y' ← chk32 (y * 10000); m' ← chk32 (m * 100);
  s ← chk32 (y' + m'); chk32 (s + GetDay now).

(** ["%s%s.%d"] and ["%s%s.%04d"] printed into a buffer of 512. *)
Definition slot_name (lg : logger) (i : nat) : str :=
  snprintf 512 (cstr (root_path_ lg) ++ cstr (prefix_ lg) ++ chars "."
                ++ print_int (Z.of_nat i)).
Definition dated_name (lg : logger) : str :=
  snprintf 512 (cstr (root_path_ lg) ++ cstr (prefix_ lg) ++ chars "."
                ++ pad0 4 (Z.rem (date_ lg) 10000)).

Fixpoint find_last (c : ascii) (s : str) : option nat :=
  match s with
  | [] => None
  | x :: s =>
      match find_last c s with
      | Some n => Some (S n)
      | None => if ceq c x then Some 0%nat else None
      end
  end.

Definition with_path (p : str) (lg : logger) : logger :=
  Lg (prefix_ lg) (root_path_ lg) p (quota_ lg) (file_ lg) (date_ lg).
Definition with_file (f : file) (lg : logger) : logger :=
  Lg (prefix_ lg) (root_path_ lg) (logger_path_ lg) (quota_ lg) f (date_ lg).
Definition with_date (d : Z) (lg : logger) : logger :=
  Lg (prefix_ lg) (root_path_ lg) (logger_path_ lg) (quota_ lg) (file_ lg) d.

(** The bytes of a line. *)
Definition bytes (s : str) : list Z := map code s.

Section worker.
Context `{LogOs OS}.
Implicit Types (lg : logger) (os : OS).

(** The loop of [check_quota], from slot [i] down to slot 1. *)
Fixpoint cascade lg (i : nat) os : OS :=
  match i with
  | O => os
  | S k =>
      let oldName := slot_name lg (S k) in
      match os_stat_size oldName os with
      | None => cascade lg k os
      | Some _ => cascade lg k (os_rename oldName (slot_name lg (S (S k))) os)
      end
  end.

Definition close_if_open (f : file) os : file * OS :=
  if negb (fd_ f =? hFileNull)%Z then File_close f os else (f, os).

Definition check_quota lg os : bool * logger * OS :=
  if (quota_ lg <? 1)%Z then (false, lg, os)
  else if bool_decide (logger_path_ lg = []) then (false, lg, os)
  else
    match os_stat_size (logger_path_ lg) os with
    | None => (false, lg, os)
    | Some st_size =>
        if (st_size <=? quota_ lg * 1048576)%Z then (false, lg, os)
        else
          let '(f, os1) := close_if_open (file_ lg) os in
          let os2 := cascade lg (MAX_QUATA_INDEX - 1) os1 in
          (true, with_file f lg, os_rename (logger_path_ lg) (slot_name lg 1) os2)
    end.

Definition make_parent (path : str) os : OS :=
  match find_last "/"%char path with
  | Some pos =>
      match take pos path with
      | [] => os
      | dir => os_create_directories dir os
      end
  | None => os
  end.

Definition do_open lg os : bool * logger * OS :=
  let '(rotated, lg1, os1) := check_quota lg os in
  let lg2 := if rotated then lg1 else with_path (dated_name lg1) lg1 in
  let '(f, os2) := close_if_open (file_ lg2) os1 in
  let os3 := make_parent (logger_path_ lg2) os2 in
  let '(ok, f', os4) :=
    File_open (logger_path_ lg2) (Z.lor (Z.lor modeWrite modeNoTruncate) modeCreate) 0 f os3 in
  (ok, with_file f' lg2, os4).

Definition handle_reopen (m : LogMsg) lg os : logger * OS :=
  let lg1 := Lg (match m_prefix m with [] => prefix_ lg | p => p end)
                (match m_path m with [] => root_path_ lg | p => p end)
                []
                (if (m_quota m =? 0)%Z then quota_ lg else m_quota m)
                (file_ lg) (date_ lg) in
  let '(_, lg2, os2) := do_open lg1 os in (lg2, os2).

Definition handle_log (nDate : Z) (text : str) lg os : logger * OS :=
  let '(lg1, os1) :=
    match check_quota lg os with
    | (true, lg1, os1) => let '(_, lg2, os2) := do_open lg1 os1 in (lg2, os2)
    | (false, lg1, os1) =>
        if (date_ lg1 <? nDate)%Z
        then let '(_, lg2, os2) := do_open (with_date nDate lg1) os1 in (lg2, os2)
        else (lg1, os1)
    end in
  (lg1, (File_write (take (u32n (length text)) (bytes text)) (file_ lg1) os1).2).

(** The body of both loops of [thread_proc], for a message taken on date
    [nDate]. *)
Definition handle (s : logger * OS) (e : LogMsg * Z) : logger * OS :=
  let '(lg, os) := s in
  let '(m, nDate) := e in
  match m_type m with
  | Reopen => handle_reopen m lg os
  | Log => handle_log nDate (m_text m) lg os
  | Stop => (lg, os)
  end.
End worker.

(** ** [thread_proc] and its producers *)
Module Thread.
Section thread.
Context `{LogOs OS}.

Inductive phase : Type := Running | Draining | Stopped.

(** The queue, where the worker is, its data, and the messages put and
    taken so far (the latter with the date of the clock at that moment). *)
Record state : Type := St {
  t_queue : Queue1To1.queue LogMsg; t_phase : phase; t_data : logger * OS;
  t_put : list LogMsg; t_taken : list (LogMsg * Z);
}.

Definition init (lg : logger) (os : OS) : state :=
  St Queue1To1.new Running (lg, os) [] [].

Definition finish (d : logger * OS) : logger * OS :=
  let '(f, os') := File_close (file_ d.1) d.2 in (with_file f d.1, os').

(** Steps of the worker. *)
Inductive work : state -> state -> Prop :=
| run_stop q q' d ps ts m nd :
    Queue1To1.get q = Some (m, q') -> m_type m = Stop ->
    work (St q Running d ps ts) (St q' Draining d ps (ts ++ [(m, nd)]))
| run_handle q q' d ps ts m nd :
    Queue1To1.get q = Some (m, q') -> m_type m <> Stop ->
    work (St q Running d ps ts) (St q' Running (handle d (m, nd)) ps (ts ++ [(m, nd)]))
| drain_handle q q' d ps ts m nd :
    Queue1To1.try_get q = (Some m, q') ->
    work (St q Draining d ps ts) (St q' Draining (handle d (m, nd)) ps (ts ++ [(m, nd)]))
| drain_done q q' d ps ts :
    Queue1To1.try_get q = (None, q') ->
    work (St q Draining d ps ts) (St q' Stopped (finish d) ps ts).

(** Steps of the worker and of any producer. *)
Inductive step : state -> state -> Prop :=
| st_put m q ph d ps ts :
    step (St q ph d ps ts) (St (Queue1To1.put m q) ph d (ps ++ [m]) ts)
| st_work s s' : work s s' -> step s s'.

Definition replay (d0 : logger * OS) (s : state) : logger * OS :=
  let d := foldl handle d0 (t_taken s) in
  match t_phase s with Stopped => finish d | _ => d end.

Definition inv (d0 : logger * OS) (s : state) : Prop :=
  t_put s = (t_taken s).*1 ++ Queue1To1.q_items (t_queue s) /\
  t_data s = replay d0 s /\
  (t_phase s = Running <-> Forall (fun e => m_type e.1 <> Stop) (t_taken s)).

Lemma work_inv d0 s s' : inv d0 s -> work s s' -> inv d0 s'.
Proof.
  unfold inv, replay. intros (Hq & Hd & Hr) Hw.
  destruct Hw as [[xs] q' d ps ts m nd Hg Hm|[xs] q' d ps ts m nd Hg Hm
                 |[xs] q' d ps ts m nd Hg|[xs] q' d ps ts Hg];
    unfold Queue1To1.get, Queue1To1.try_get in Hg;
    destruct xs as [|x xs]; simplify_eq/=; rewrite ?foldl_app, ?fmap_app, <-?app_assoc;
    split_and!; try done.
  - simpl. unfold handle. destruct (foldl _ d0 ts). by rewrite Hm.
  - split; [done|]. rewrite Forall_app, Forall_singleton. simpl. tauto.
  - split; [|done]. intros _. rewrite Forall_app, Forall_singleton. tauto.
  - split; [done|]. rewrite Forall_app, <-Hr. by intros [? _].
  - rewrite <-Hr. by split.
Qed.

Lemma step_inv d0 s s' : inv d0 s -> step s s' -> inv d0 s'.
Proof.
  intros Hi Hst. destruct Hst as [m q ph d ps ts|s s' Hw]; [|by eapply work_inv].
  destruct Hi as (Hq & Hd & Hr). split_and!; simpl in *; try done.
  by rewrite Hq, app_assoc.
Qed.

Lemma thread_reach_inv lg os s : rtc step (init lg os) s -> inv (lg, os) s.
Proof.
  apply (rtc_ind_r (inv (lg, os))).
  - by split_and!.
  - intros x y _ Hs Hi. by eapply step_inv.
Qed.

(** What is put stays put. *)
Lemma step_puts s s' : step s s' -> t_put s `prefix_of` t_put s'.
Proof. intros [m q ph d ps ts|? ? []]; simpl; eauto using prefix_app_r. Qed.

(** While the worker has not stopped nothing that was put is lost: it is
    either taken or still queued, so at the end everything is taken. *)
Definition pending_ok (ps : list LogMsg) (s : state) : Prop :=
  ps `prefix_of` t_put s /\ (t_phase s = Stopped -> ps `prefix_of` (t_taken s).*1).

Lemma step_pending d0 ps s s' : inv d0 s -> pending_ok ps s -> step s s' -> pending_ok ps s'.
Proof.
  intros Hi [Hp Hs] Hst. pose proof (step_puts _ _ Hst) as Hpre. split; [by etrans|].
  destruct Hst as [m q ph d qs ts|? ? Hw]; [done|].
  destruct Hi as (Hq & _ & _). destruct Hw as [| | |[xs] q' d qs ts Hg]; try done.
  simpl in *. intros _. unfold Queue1To1.try_get in Hg.
  destruct xs; simplify_eq/=. by rewrite app_nil_r in Hp.
Qed.

(** The worker alone takes everything queued, then stops. *)
Lemma drain_all xs d ps ts nd :
  rtc work (St (Queue1To1.Q xs) Draining d ps ts)
    (St (Queue1To1.Q []) Stopped (finish (foldl handle d (map (., nd) xs))) ps
        (ts ++ map (., nd) xs)).
Proof.
  revert d ts. induction xs as [|x xs IH]; intros d ts; simpl.
  - rewrite app_nil_r. apply rtc_once. by constructor.
  - eapply rtc_l; [by apply (drain_handle _ (Queue1To1.Q xs) _ _ _ x nd)|].
    rewrite (cons_middle (x, nd) ts (map _ xs)), app_assoc. apply IH.
Qed.

Lemma run_all xs d ps ts nd :
  Exists (fun m => m_type m = Stop) xs ->
  exists s', rtc work (St (Queue1To1.Q xs) Running d ps ts) s' /\
    t_phase s' = Stopped /\ t_taken s' = ts ++ map (., nd) xs.
Proof.
  revert d ts. induction xs as [|x xs IH]; intros d ts Hex.
  { by apply Exists_nil in Hex. }
  destruct (m_type x) eqn:Hm.
  3: { eexists; split; [|split].
       - eapply rtc_l; [by apply (run_stop _ (Queue1To1.Q xs) _ _ _ x nd)|].
         apply (drain_all xs _ _ _ nd).
       - done.
       - simpl. by rewrite (cons_middle (x, nd) ts (map _ xs)), app_assoc. }
  all: apply Exists_cons in Hex as [Hx|Hex]; [congruence|].
  all: destruct (IH (handle d (x, nd)) (ts ++ [(x, nd)]) Hex) as (s' & Hw & Hp & Ht).
  all: exists s'; split; [eapply rtc_l; [apply (run_handle _ (Queue1To1.Q xs) _ _ _ x nd); [done|congruence]|exact Hw]|].
  all: split; [done|]; rewrite Ht; simpl; by rewrite (cons_middle (x, nd) ts (map _ xs)), app_assoc.
Qed.
End thread.
Arguments state : clear implicits.
End Thread.

(** ** A writable volume *)

(** [content n os]: the bytes of the file named [n]; [appender fd n os]: [fd]
    is open for appending to it. *)
Class LogVolume (OS : Type) `{LogOs OS} := {
  content : str -> OS -> option (list Z);
  appender : Z -> str -> OS -> Prop;
  stat_content : forall n os,
    os_stat_size n os = (fun c => Z.of_nat (length c)) <$> content n os;
  rename_content : forall a b n os, a <> b -> is_Some (content a os) ->
    content n (os_rename a b os) =
    if decide (n = b) then content a os else if decide (n = a) then None else content n os;
  close_content : forall fd n os, content n (os_close fd os) = content n os;
  dirs_content : forall d n os, content n (os_create_directories d os) = content n os;
  append_open : forall n m os,
    let '(fd, os') := os_open n (Z.lor (Z.lor O_WRONLY O_CREAT) O_APPEND) m os in
    fd <> (-1)%Z /\ appender fd n os' /\
    forall k, content k os' = if decide (k = n) then Some (default [] (content n os))
                              else content k os;
  append_write : forall fd n bs os, appender fd n os ->
    let '(r, os') := os_write fd bs os in
    r = Z.of_nat (length bs) /\ appender fd n os' /\
    forall k, content k os' = if decide (k = n) then Some (default [] (content n os) ++ bs)
                              else content k os;
}.

#[global] Instance memfs_log_os : LogOs MemFs.fs := {|
  os_stat_size n s := (fun c => Z.of_nat (length c)) <$> MemFs.tree s !! n;
  os_create_directories _ s := s;
|}.

#[global] Program Instance memfs_volume : LogVolume MemFs.fs := {|
  content n s := MemFs.tree s !! n;
  appender fd n s := MemFs.table s !! fd = Some (n, length (MemFs.contents n s));
|}.
Next Obligation. done. Qed.
Next Obligation.
  intros a b n s Hab [c Hc]. simpl in *. unfold MemFs.mrename. rewrite Hc. simpl.
  case_decide as Hb; [subst; by rewrite lookup_insert_eq|].
  rewrite lookup_insert_ne by done. case_decide as Ha; [subst; by rewrite lookup_delete_eq|].
  by rewrite lookup_delete_ne.
Qed.
Next Obligation. done. Qed.
Next Obligation. done. Qed.
Next Obligation.
  intros n m s. simpl. unfold MemFs.mopen. pose proof (MemFs.fresh_fd_ok s).
  destruct (MemFs.tree s !! n) eqn:Hn; simpl; (split_and!; [done| |]).
  1, 3: by rewrite lookup_insert_eq, MemFs.contents_insert.
  all: intros k; case_decide; subst; rewrite ?lookup_insert_eq, ?lookup_insert_ne by done; done.
Qed.
Next Obligation.
  intros fd n bs s Hf. simpl. unfold MemFs.mwrite. simpl in Hf. rewrite Hf. simpl.
  rewrite drop_ge, app_nil_r, Nat.sub_diag, app_nil_r, firstn_all by lia.
  split_and!; [done| |].
  - rewrite lookup_insert_eq, MemFs.contents_insert. by rewrite length_app.
  - intros k. case_decide; subst; [by rewrite lookup_insert_eq|by rewrite lookup_insert_ne].
Qed.

(** ** Names *)

(** The names fit the buffers. *)
Definition fits (lg : logger) : Prop :=
  (length (cstr (root_path_ lg)) + length (cstr (prefix_ lg)) <= 500)%nat /\ (0 <= date_ lg)%Z.

Lemma snprintf_fits n s : (length s < n)%nat -> snprintf n s = s.
Proof. intros Hl. unfold snprintf. apply take_ge. lia. Qed.

Lemma print_slot i : (i <= 8)%nat -> print_int (Z.of_nat i) = [digit_chr (Z.of_nat i)].
Proof. intros Hi. by do 9 (destruct i as [|i]; [done|]); lia. Qed.

Lemma length_dec_digits k n : (0 <= n < 10000)%Z -> (4 <= k)%nat ->
  (length (dec_digits k n) <= 4)%nat.
Proof.
  intros Hn Hk. do 4 (destruct k as [|k]; [lia|]). simpl.
  repeat case_match; simpl; rewrite ?length_app; simpl; bprop; try lia.
  all: exfalso; Z.to_euclidean_division_equations; lia.
Qed.

Lemma length_pad4 z : (0 <= z < 10000)%Z -> length (pad0 4 z) = 4%nat.
Proof.
  intros Hz. unfold pad0. rewrite (proj2 (Z.ltb_ge _ _)) by lia.
  assert (length (print_int z) <= 4)%nat as Hl.
  { unfold print_int. rewrite (proj2 (Z.ltb_ge _ _)) by lia. apply length_dec_digits; lia. }
  rewrite length_app, length_replicate. lia.
Qed.

Lemma slot_name_eq lg i : fits lg -> (i <= 8)%nat ->
  slot_name lg i = cstr (root_path_ lg) ++ cstr (prefix_ lg) ++ ["."%char; digit_chr (Z.of_nat i)].
Proof.
  intros [Hf _] Hi. unfold slot_name. rewrite print_slot by done.
  apply snprintf_fits. rewrite !length_app. simpl. lia.
Qed.

Lemma dated_name_eq lg : fits lg ->
  dated_name lg = cstr (root_path_ lg) ++ cstr (prefix_ lg)
                  ++ "."%char :: pad0 4 (Z.rem (date_ lg) 10000) /\
  length (pad0 4 (Z.rem (date_ lg) 10000)) = 4%nat.
Proof.
  intros [Hf Hd]. assert (length (pad0 4 (Z.rem (date_ lg) 10000)) = 4%nat) as Hl.
  { apply length_pad4. pose proof (Z.rem_bound_pos (date_ lg) 10000). lia. }
  split; [|done]. unfold dated_name. apply snprintf_fits. rewrite !length_app. simpl. lia.
Qed.

Lemma slot_name_inj lg i j : fits lg -> (i <= 8)%nat -> (j <= 8)%nat ->
  slot_name lg i = slot_name lg j -> i = j.
Proof.
  intros Hf Hi Hj. rewrite !slot_name_eq by done. intros Heq.
  apply app_inv_head, app_inv_head in Heq. injection Heq as Heq.
  do 9 (destruct i as [|i]; [by do 9 (destruct j as [|j]; [done|]); lia|]). lia.
Qed.

Lemma slot_not_dated lg i : fits lg -> (i <= 8)%nat -> slot_name lg i <> dated_name lg.
Proof.
  intros Hf Hi Heq. destruct (dated_name_eq lg Hf) as [Hd Hl]. rewrite slot_name_eq, Hd in Heq by done.
  apply app_inv_head, app_inv_head in Heq. injection Heq as Heq. by rewrite <-Heq in Hl.
Qed.

Lemma dated_name_nonempty lg : fits lg -> dated_name lg <> [].
Proof.
  intros Hf. destruct (dated_name_eq lg Hf) as [-> _].
  by destruct (cstr (root_path_ lg)), (cstr (prefix_ lg)).
Qed.

(** ** Rotation *)
Section rotation.
Context `{LogVolume OS}.
Implicit Types (lg : logger) (os : OS).

(** Slot [i]; there is no slot 0. *)
Definition slot lg os (i : nat) : option (list Z) :=
  match i with O => None | S _ => content (slot_name lg i) os end.

Definition not_slot lg (n : str) : Prop :=
  forall j, (1 <= j <= 7)%nat -> n <> slot_name lg j.

(** Moving slot [S k] up one. *)
Lemma move_slot lg k os os1 : fits lg -> (k <= 5)%nat ->
  is_Some (content (slot_name lg (S k)) os) ->
  os1 = os_rename (slot_name lg (S k)) (slot_name lg (S (S k))) os ->
  (forall i, (i <= 7)%nat -> slot lg os1 i =
     if decide (i = S (S k)) then slot lg os (S k)
     else if decide (i = S k) then None else slot lg os i) /\
  (forall n, not_slot lg n -> content n os1 = content n os).
Proof.
  intros Hf Hk Hc ->.
  assert (slot_name lg (S k) <> slot_name lg (S (S k))) as Hne.
  { intros Heq%slot_name_inj; lia || done. }
  split.
  - intros [|i] Hi; [by rewrite !decide_False by lia|]. unfold slot.
    rewrite rename_content by done.
    repeat case_decide; simplify_eq/=; try done; exfalso;
      match goal with H : slot_name _ _ = _ |- _ => apply slot_name_inj in H; lia || done end.
  - intros n Hn. rewrite rename_content by done.
    rewrite !decide_False; [done| |]; apply Hn; lia.
Qed.

Lemma cascade_spec lg k os : fits lg -> (k <= 6)%nat ->
  (forall j, (1 <= j <= 7)%nat -> slot lg (cascade lg k os) j =
     if decide (j = S k)
     then match slot lg os k with Some c => Some c | None => slot lg os j end
     else if decide (j <= k)%nat then slot lg os (j - 1) else slot lg os j) /\
  (forall n, not_slot lg n -> content n (cascade lg k os) = content n os).
Proof.
  intros Hf. revert os. induction k as [|k IH]; intros os Hk.
  { split; [|done]. intros j Hj. simpl. repeat case_decide; lia || done. }
  cbn [cascade]. rewrite stat_content.
  destruct (content (slot_name lg (S k)) os) as [c|] eqn:Hc; cbn [fmap option_fmap option_map].
  - destruct (move_slot lg k os _ Hf ltac:(lia) ltac:(by rewrite Hc) eq_refl) as [Hsl Hot].
    set (os1 := os_rename _ _ os) in *.
    destruct (IH os1 ltac:(lia)) as [Hs Hn]. split; [|intros n ?; by rewrite Hn, Hot].
    intros j Hj. rewrite Hs, !Hsl by lia.
    assert (slot lg os (S k) = Some c) as Hk1 by done. rewrite Hk1.
    repeat case_decide; try lia; try done.
    subst. replace (S k - 1)%nat with k by lia. by destruct (slot lg os k).
  - destruct (IH os ltac:(lia)) as [Hs Hn]. split; [|done].
    assert (slot lg os (S k) = None) as Hk1 by done.
    intros j Hj. rewrite Hs, Hk1 by done.
    repeat case_decide; try lia; try done; subst.
    replace (S k - 1)%nat with k by lia. rewrite Hk1. by destruct (slot lg os k).
Qed.

(** The worker has the dated file open for appending. *)
Definition ready lg os : Prop :=
  fits lg /\ logger_path_ lg = dated_name lg /\ close_on_delete_ (file_ lg) = true /\
  fd_ (file_ lg) <> hFileNull /\ appender (fd_ (file_ lg)) (dated_name lg) os.

(** The lines kept on disk, oldest first. *)
Definition retained lg os : list Z :=
  concat (map (fun i => default [] (slot lg os i)) [7; 6; 5; 4; 3; 2; 1]%nat)
  ++ default [] (content (dated_name lg) os).

Definition same_config lg lg' : Prop :=
  prefix_ lg' = prefix_ lg /\ root_path_ lg' = root_path_ lg /\ quota_ lg' = quota_ lg /\
  date_ lg' = date_ lg.

Lemma same_config_names lg lg' : same_config lg lg' ->
  dated_name lg' = dated_name lg /\ (forall i, slot_name lg' i = slot_name lg i) /\
  (fits lg -> fits lg').
Proof.
  intros (Hp & Hr & _ & Hd). unfold dated_name, slot_name, fits. by rewrite Hp, Hr, Hd.
Qed.

Lemma same_config_retained lg lg' os : same_config lg lg' -> retained lg' os = retained lg os.
Proof.
  intros (Hd & Hs & _)%same_config_names. unfold retained, slot. simpl. by rewrite Hd, !Hs.
Qed.

(** Closing touches no file. *)
Lemma close_if_open_spec f os :
  close_on_delete_ f = true ->
  let '(f', os') := close_if_open f os in
  fd_ f' = hFileNull /\ close_on_delete_ f' = true /\
  (forall n, content n os' = content n os).
Proof.
  intros Hc. unfold close_if_open, File_close.
  destruct (Z.eqb_spec (fd_ f) hFileNull) as [Hf|Hf]; simpl; [done|].
  rewrite Hc. simpl. split_and!; [done|done|]. intros n. apply close_content.
Qed.

Lemma make_parent_content p n os : content n (make_parent p os) = content n os.
Proof.
  unfold make_parent. destruct (find_last _ p); [|done].
  destruct (take _ p); [done|]. apply dirs_content.
Qed.

(** Opening without a rotation: every file stays as it is, and the dated
    one exists and is open for appending. *)
Lemma do_open_spec lg os :
  fits lg -> close_on_delete_ (file_ lg) = true -> check_quota lg os = (false, lg, os) ->
  let '(ok, lg', os') := do_open lg os in
  ok = true /\ ready lg' os' /\ same_config lg lg' /\
  forall k, content k os' = if decide (k = dated_name lg)
    then Some (default [] (content (dated_name lg) os)) else content k os.
Proof.
  intros Hf Hc Hq. unfold do_open. rewrite Hq. simpl.
  pose proof (close_if_open_spec (file_ lg) os Hc) as Hcl.
  destruct (close_if_open _ os) as [f os2]. destruct Hcl as (Hfd & Hcd & Hco).
  unfold File_open. change (open_flags _) with (Z.lor (Z.lor O_WRONLY O_CREAT) O_APPEND).
  pose proof (append_open (dated_name lg) (open_mode 0) (make_parent (dated_name lg) os2)) as Ho.
  destruct (os_open _ _ _ _) as [fd os4]. destruct Ho as (Hok & Hap & Hct).
  rewrite (proj2 (Z.eqb_neq fd (-1)) Hok), Hfd. simpl.
  split_and!; [done| |done|].
  - split_and!; simpl; done.
  - intros k. rewrite Hct, !make_parent_content, !Hco. done.
Qed.

(** [check_quota] either leaves everything alone, or found the dated file
    over quota and shifted it and the slots by one. *)
Lemma check_quota_spec lg os : ready lg os ->
  let size := Z.of_nat (length (default [] (content (dated_name lg) os))) in
  let '(b, lg', os') := check_quota lg os in
  (b = false /\ lg' = lg /\ os' = os /\
   ((1 <= quota_ lg)%Z -> (size <= quota_ lg * 1048576)%Z)) \/
  (b = true /\ same_config lg lg' /\ close_on_delete_ (file_ lg') = true /\
   logger_path_ lg' = dated_name lg /\
   (1 <= quota_ lg)%Z /\ (quota_ lg * 1048576 < size)%Z /\
   content (dated_name lg) os' = None /\
   slot lg os' 1 = content (dated_name lg) os /\
   (forall j, (2 <= j <= 6)%nat -> slot lg os' j = slot lg os (j - 1)) /\
   slot lg os' 7 = (match slot lg os 6 with Some c => Some c | None => slot lg os 7 end) /\
   (forall n, not_slot lg n -> n <> dated_name lg -> content n os' = content n os)).
Proof.
  intros (Hf & Hp & Hcd & Hfd & Hap). unfold check_quota.
  destruct (Z.ltb_spec (quota_ lg) 1) as [Hq|Hq]; [left; split_and!; done || lia|].
  rewrite bool_decide_false by (rewrite Hp; by apply dated_name_nonempty).
  rewrite Hp, stat_content.
  destruct (content (dated_name lg) os) as [c|] eqn:Hc; simpl.
  2: { left. split_and!; try done. simpl. lia. }
  destruct (Z.leb_spec (Z.of_nat (length c)) (quota_ lg * 1048576)) as [Hs|Hs].
  { left. by split_and!. }
  pose proof (close_if_open_spec (file_ lg) os Hcd) as Hcl.
  destruct (close_if_open _ os) as [f os1]. destruct Hcl as (Hfd' & Hcd' & Hco).
  right. destruct (cascade_spec lg 6 os1 Hf ltac:(lia)) as [Hsl Hot].
  assert (forall i, slot lg os1 i = slot lg os i) as Hsame.
  { intros [|i]; [done|]. unfold slot. apply Hco. }
  assert (not_slot lg (dated_name lg)) as Hns.
  { intros j Hj. symmetry. apply slot_not_dated; [done|lia]. }
  set (os2 := cascade lg 6 os1) in *.
  assert (content (dated_name lg) os2 = Some c) as Hact by (rewrite Hot, Hco; done).
  assert (forall n, content n (os_rename (dated_name lg) (slot_name lg 1) os2) =
    if decide (n = slot_name lg 1) then Some c
    else if decide (n = dated_name lg) then None else content n os2) as Hren.
  { intros n. rewrite rename_content, Hact; [done| |by rewrite Hact]. apply Hns. lia. }
  assert (forall j, (2 <= j <= 7)%nat ->
    slot lg (os_rename (dated_name lg) (slot_name lg 1) os2) j = slot lg os2 j) as Hj.
  { intros [|j] Hj; [lia|]. unfold slot. rewrite Hren, !decide_False; [done| |].
    - symmetry. apply Hns. lia.
    - intros Heq%slot_name_inj; lia || done. }
  split_and!; simpl; try done.
  - rewrite Hren, decide_False, decide_True by (apply Hns || done; lia). done.
  - rewrite Hren. by rewrite decide_True.
  - intros j Hj'. rewrite Hj, Hsl by lia.
    rewrite decide_False, decide_True by lia. apply Hsame.
  - change (content (slot_name lg 7) ?o) with (slot lg o 7).
    change (content (slot_name lg 6) ?o) with (slot lg o 6).
    rewrite Hj, Hsl by lia. rewrite decide_True by lia. by rewrite !Hsame.
  - intros n Hn Hnd. rewrite Hren, decide_False, decide_False by (done || apply Hn; lia).
    by rewrite Hot, Hco.
Qed.

(** Appending a line to the open file. *)
Lemma log_write_spec lg os text : ready lg os -> (Z.of_nat (length text) < 2 ^ 32)%Z ->
  let os' := (File_write (take (u32n (length text)) (bytes text)) (file_ lg) os).2 in
  ready lg os' /\
  forall k, content k os' = if decide (k = dated_name lg)
    then Some (default [] (content (dated_name lg) os) ++ bytes text) else content k os.
Proof.
  intros (Hf & Hp & Hcd & Hfd & Hap) Hl. unfold File_write.
  rewrite u32n_small, take_ge by (unfold bytes; rewrite ?length_map; done || lia).
  pose proof (append_write _ _ (bytes text) _ Hap) as Hw.
  destruct (os_write _ _ os) as [r os']; simpl. destruct Hw as (_ & Hap' & Hk).
  by split_and!.
Qed.

Lemma slot_other lg os os' i : fits lg -> (i <= 7)%nat ->
  (forall k, k <> dated_name lg -> content k os' = content k os) ->
  slot lg os' i = slot lg os i.
Proof.
  intros Hf Hi Hk. destruct i as [|i]; [done|]. apply Hk, slot_not_dated; [done|lia].
Qed.

Lemma retained_append lg os os' (new : list Z) : fits lg ->
  (forall k, content k os' = if decide (k = dated_name lg)
    then Some (default [] (content (dated_name lg) os) ++ new) else content k os) ->
  retained lg os' = retained lg os ++ new.
Proof.
  intros Hf Hk. unfold retained. rewrite (Hk (dated_name lg)), decide_True by done.
  assert (forall i, (i <= 7)%nat -> slot lg os' i = slot lg os i) as Hs.
  { intros i Hi. apply slot_other; [done..|]. intros k Hne. by rewrite Hk, decide_False. }
  cbn [map default]. rewrite !Hs by lia. by rewrite <-app_assoc.
Qed.

(** After a rotation and a fresh [do_open]: what was in the slots and the
    dated file is kept, but for slot 7 when slot 6 moves over it. *)
Lemma retained_shift lg os os' :
  content (dated_name lg) os' = Some [] ->
  slot lg os' 1 = content (dated_name lg) os ->
  (forall j, (2 <= j <= 6)%nat -> slot lg os' j = slot lg os (j - 1)) ->
  slot lg os' 7 = (match slot lg os 6 with Some c => Some c | None => slot lg os 7 end) ->
  exists lost, retained lg os = lost ++ retained lg os' /\
    (lost <> [] -> is_Some (slot lg os 7) /\ is_Some (slot lg os' 7)).
Proof.
  intros Hact Hs1 Hj H7. unfold retained. rewrite Hact. cbn [map concat].
  rewrite H7, Hs1, !Hj by lia. cbn [Nat.sub].
  destruct (slot lg os 6) as [c6|] eqn:H6; cbn [default].
  - exists (default [] (slot lg os 7)). split.
    + rewrite !app_nil_r. by rewrite <-!app_assoc.
    + destruct (slot lg os 7); [by eauto|done].
  - exists []. split; [|done]. simpl. rewrite !app_nil_r. by rewrite <-!app_assoc.
Qed.

(** What one [Log] message of the current day does. *)
Definition kept lg os (new : list Z) lg' os' : Prop :=
  ready lg' os' /\ same_config lg lg' /\
  (exists lost, retained lg os ++ new = lost ++ retained lg os' /\
     (lost <> [] -> is_Some (slot lg os' 7))) /\
  (is_Some (slot lg os 7) -> is_Some (slot lg os' 7)) /\
  ((quota_ lg < 1)%Z -> retained lg os' = retained lg os ++ new) /\
  ((1 <= quota_ lg)%Z ->
     (Z.of_nat (length (default [] (content (dated_name lg) os')))
      <= quota_ lg * 1048576 + Z.of_nat (length new))%Z) /\
  (forall n, not_slot lg n -> n <> dated_name lg -> content n os' = content n os).

Lemma kept_write lg os lg' os' text :
  kept lg os [] lg' os' -> (Z.of_nat (length text) < 2 ^ 32)%Z ->
  kept lg os (bytes text) lg'
    (File_write (take (u32n (length text)) (bytes text)) (file_ lg') os').2.
Proof.
  intros (Hrd & Hsc & (lost & Hre & Hlo) & H7 & Hq & Hsz & Hot) Hl.
  destruct (same_config_names _ _ Hsc) as (Hd & Hs & Hft).
  destruct (log_write_spec lg' os' text Hrd Hl) as [Hrd' Hk]. rewrite Hd in Hk.
  set (os'' := (File_write _ _ os').2) in *.
  assert (fits lg) as Hf.
  { destruct Hrd as [Hf _]. unfold fits in *. destruct Hsc as (<- & <- & _ & <-). done. }
  pose proof (retained_append lg os' os'' _ Hf Hk) as Hra.
  assert (slot lg os'' 7 = slot lg os' 7) as Hsl.
  { apply slot_other; [done|lia|]. intros k ?. by rewrite Hk, decide_False. }
  split_and!; try done.
  - exists lost. rewrite Hra, Hsl. split; [|done]. rewrite app_nil_r in Hre.
    by rewrite Hre, <-app_assoc.
  - by rewrite Hsl.
  - intros ?. rewrite Hra, Hq by done. by rewrite app_nil_r.
  - intros Hq1. specialize (Hsz Hq1). rewrite Hk, decide_True by done. simpl in *.
    rewrite length_app. lia.
  - intros n Hn Hne. by rewrite Hk, decide_False, Hot.
Qed.

Lemma check_quota_missing lg os : content (logger_path_ lg) os = None ->
  check_quota lg os = (false, lg, os).
Proof.
  intros Hn. unfold check_quota. rewrite stat_content, Hn. by repeat case_match.
Qed.

Lemma handle_log_spec lg os nDate text :
  ready lg os -> (nDate <= date_ lg)%Z -> (Z.of_nat (length text) < 2 ^ 32)%Z ->
  let '(lg', os') := handle_log nDate text lg os in kept lg os (bytes text) lg' os'.
Proof.
  intros Hrd Hnd Hl. unfold handle_log.
  pose proof (check_quota_spec lg os Hrd) as Hcq. cbv zeta in Hcq.
  destruct (check_quota lg os) as [[b lg1] os1].
  destruct Hcq as [(-> & -> & -> & Hsz)|(-> & Hsc & Hcd & Hp & Hq & Hsz & Hn & Hs1 & Hj & H7 & Hot)].
  - rewrite (proj2 (Z.ltb_ge _ _)) by lia. apply kept_write; [|done].
    split_and!; try done; rewrite ?app_nil_r; [by exists []|done|]. intros ?. simpl. lia.
  - destruct (same_config_names _ _ Hsc) as (Hd & Hs & Hft). destruct Hrd as [Hf _].
    assert (check_quota lg1 os1 = (false, lg1, os1)) as Hmiss.
    { apply check_quota_missing. by rewrite Hp. }
    pose proof (do_open_spec lg1 os1 (Hft Hf) Hcd Hmiss) as Hop.
    destruct (do_open lg1 os1) as [[ok lg2] os2]. destruct Hop as (_ & Hrd2 & Hsc2 & Hk).
    rewrite Hd, Hn in Hk. simpl in Hk.
    assert (forall i, (i <= 7)%nat -> slot lg os2 i = slot lg os1 i) as Hsl.
    { intros i Hi. apply slot_other; [done..|]. intros k ?. by rewrite Hk, decide_False. }
    destruct (retained_shift lg os os2) as (lost & Hre & Hlo).
    { by rewrite Hk, decide_True. } { by rewrite Hsl by lia. }
    { intros j ?. rewrite Hsl by lia. by apply Hj. } { by rewrite Hsl by lia. }
    apply kept_write; [|done]. split_and!; [done| | | |lia| |].
    + destruct Hsc as (?&?&?&?), Hsc2 as (?&?&?&?). split_and!; congruence.
    + exists lost. rewrite app_nil_r. split; [done|]. intros ?. by apply Hlo.
    + intros [c Hc]. rewrite Hsl, H7, Hc by lia. by destruct (slot lg os 6).
    + intros _. rewrite Hk, decide_True by done. simpl. lia.
    + intros n Hns Hne. rewrite Hk, decide_False by done. by apply Hot.
Qed.

(** [Reopen] makes the worker ready for the file it names. *)
Lemma handle_reopen_ready m lg os :
  close_on_delete_ (file_ lg) = true ->
  let pfx := match m_prefix m with [] => prefix_ lg | p => p end in
  let root := match m_path m with [] => root_path_ lg | p => p end in
  (length (cstr root) + length (cstr pfx) <= 500)%nat -> (0 <= date_ lg)%Z ->
  let '(lg', os') := handle_reopen m lg os in
  ready lg' os' /\ prefix_ lg' = pfx /\ root_path_ lg' = root /\ date_ lg' = date_ lg /\
  (forall n c, content n os = Some c -> content n os' = Some c).
Proof.
  intros Hc pfx root Hl Hd. unfold handle_reopen.
  set (lg1 := Lg _ _ _ _ _ _).
  pose proof (do_open_spec lg1 os (conj Hl Hd) Hc) as Ho.
  assert (check_quota lg1 os = (false, lg1, os)) as Hq.
  { unfold check_quota. simpl. by destruct (_ <? 1)%Z. }
  specialize (Ho Hq). destruct (do_open lg1 os) as [[ok lg2] os2].
  destruct Ho as (_ & Hrd & (?&?&?&?) & Hk). split_and!; try done.
  intros n c Hn. rewrite Hk. case_decide; subst; by rewrite ?Hn.
Qed.

(** A run of [Log] messages of the current day, each at most [L] long. *)
Definition todays (L d : Z) (e : LogMsg * Z) : Prop :=
  m_type e.1 = Log /\ (Z.of_nat (length (m_text e.1)) <= L)%Z /\ (e.2 <= d)%Z.

Definition lines (msgs : list (LogMsg * Z)) : list Z :=
  concat (map (fun e => bytes (m_text e.1)) msgs).

Definition kept_run lg os (L : Z) (msgs : list (LogMsg * Z)) lg' os' : Prop :=
  ready lg' os' /\ same_config lg lg' /\
  (exists lost, retained lg os ++ lines msgs = lost ++ retained lg os' /\
     (lost <> [] -> is_Some (slot lg os' 7))) /\
  (is_Some (slot lg os 7) -> is_Some (slot lg os' 7)) /\
  ((quota_ lg < 1)%Z -> retained lg os' = retained lg os ++ lines msgs) /\
  (msgs <> [] -> (1 <= quota_ lg)%Z ->
     (Z.of_nat (length (default [] (content (dated_name lg) os')))
      <= quota_ lg * 1048576 + L)%Z) /\
  (forall n, not_slot lg n -> n <> dated_name lg -> content n os' = content n os).

Lemma kept_run_snoc lg os L msgs lg1 os1 m lg2 os2 :
  kept_run lg os L msgs lg1 os1 -> kept lg1 os1 (bytes (m_text m.1)) lg2 os2 ->
  (Z.of_nat (length (m_text m.1)) <= L)%Z -> kept_run lg os L (msgs ++ [m]) lg2 os2.
Proof.
  intros (Hrd & Hsc & (l1 & Hre & Hlo) & H7 & Hq & _ & Hot)
         (Hrd2 & Hsc2 & (l2 & Hre2 & Hlo2) & H72 & Hq2 & Hsz2 & Hot2) HL.
  destruct (same_config_names _ _ Hsc) as (Hd & Hs & _).
  assert (forall os i, slot lg1 os i = slot lg os i) as Hsl.
  { intros o [|i]; [done|]. unfold slot. by rewrite Hs. }
  assert (forall o, retained lg1 o = retained lg o) as Hr by (intros; by apply same_config_retained).
  assert (quota_ lg1 = quota_ lg) as Hqu by apply Hsc.
  assert (lines (msgs ++ [m]) = lines msgs ++ bytes (m_text m.1)) as Hli.
  { unfold lines. rewrite map_app, concat_app. simpl. by rewrite app_nil_r. }
  rewrite Hr in Hre2, Hq2. rewrite Hr in Hre2, Hq2. rewrite !Hsl in *. rewrite Hqu in Hq2, Hsz2.
  rewrite Hd in Hsz2, Hot2. unfold kept_run. rewrite Hli. split_and!.
  - done.
  - destruct Hsc as (?&?&?&?), Hsc2 as (?&?&?&?). split_and!; congruence.
  - exists (l1 ++ l2). split; [by rewrite app_assoc, Hre, <-!app_assoc, Hre2|].
    intros Hne. destruct l2; [|by apply Hlo2]. rewrite app_nil_r in Hne. auto.
  - auto.
  - intros Hlt. rewrite Hq2, Hq by done. by rewrite app_assoc.
  - intros _ Hq1. specialize (Hsz2 Hq1). unfold bytes in Hsz2. rewrite length_map in Hsz2. lia.
  - intros n Hn Hne. rewrite Hot2; [by apply Hot| |done].
    intros j Hj. rewrite Hs. by apply Hn.
Qed.

Lemma kept_run_all lg os L msgs : ready lg os -> (L < 2 ^ 32)%Z ->
  Forall (todays L (date_ lg)) msgs ->
  let '(lg', os') := foldl handle (lg, os) msgs in kept_run lg os L msgs lg' os'.
Proof.
  intros Hrd HL. induction msgs as [|m msgs IH] using rev_ind; intros Hall.
  - simpl. split_and!; try done; unfold lines; simpl; rewrite app_nil_r; [by exists []|done].
  - apply Forall_app in Hall as [Hms (Hm & Hlen & Hdt)%Forall_singleton].
    rewrite foldl_app. specialize (IH Hms). cbn [foldl].
    destruct (foldl handle (lg, os) msgs) as [lg1 os1].
    pose proof IH as (Hrd1 & (_ & _ & _ & Hd) & _). destruct m as [m nd]. simpl in *.
    rewrite Hm. pose proof (handle_log_spec lg1 os1 nd (m_text m) Hrd1) as Hh.
    rewrite Hd in Hh. specialize (Hh Hdt ltac:(lia)).
    destruct (handle_log nd (m_text m) lg1 os1) as [lg2 os2].
    by eapply (kept_run_snoc _ _ _ _ _ _ (m, nd)).
Qed.
End rotation.

(** ** Properties *)

(** C5: the worker handles every message exactly once, in the order it was
    put, and stops only when nothing is left.  In every interleaving of
    producers and worker the messages put are those taken followed by those
    queued, the files and the worker's members are the result of handling the
    taken messages in that order, and once the worker has stopped everything
    put before it did (also after the destructor's [Stop]) has been handled.
    A worker with a [Stop] among the messages put is never stuck: it reaches
    the end on its own, having handled all of them. *)
Theorem logger_drains_queue {OS} `{LogOs OS} lg os (s s' : Thread.state OS) :
  rtc Thread.step (Thread.init lg os) s -> Thread.t_phase s <> Thread.Stopped ->
  rtc Thread.step s s' ->
  Thread.t_put s' = (Thread.t_taken s').*1 ++ Queue1To1.q_items (Thread.t_queue s') /\
  Thread.t_data s' = Thread.replay (lg, os) s' /\
  (Thread.t_phase s' = Thread.Stopped -> Thread.t_put s `prefix_of` (Thread.t_taken s').*1) /\
  (Exists (fun m => m_type m = Stop) (Thread.t_put s) ->
   exists s2, rtc Thread.work s s2 /\ Thread.t_phase s2 = Thread.Stopped /\
              (Thread.t_taken s2).*1 = Thread.t_put s).
Proof.
  intros Hr Hns Hr'. pose proof (Thread.thread_reach_inv _ _ _ Hr) as Hi.
  assert (Thread.inv (lg, os) s') as (Hq' & Hd' & _) by (eapply Thread.thread_reach_inv; by etrans).
  split_and!; [done|done| |].
  - enough (Thread.inv (lg, os) s' /\ Thread.pending_ok (Thread.t_put s) s') as (_ & _ & Hp)
      by exact Hp.
    revert s' Hr' Hq' Hd'. apply (rtc_ind_r (fun s' => _ -> _ -> _)); [by split|].
    intros x y Hx Hxy IH _ _.
    assert (Thread.inv (lg, os) x) as Hix by (eapply Thread.thread_reach_inv; by etrans).
    destruct IH as [_ Hpx]; [apply Hix..|].
    split; [by eapply Thread.step_inv|by eapply Thread.step_pending].
  - intros Hex. destruct s as [[xs] ph d ps ts]. destruct Hi as (Hq & _ & Hrun).
    simpl in *. subst ps. destruct ph; [|clear Hrun|done].
    + destruct (Thread.run_all xs d (ts.*1 ++ xs) ts 0%Z) as (s2 & Hw & Hp & Ht).
      { apply Exists_app in Hex as [Hex|Hex]; [|done]. exfalso.
        apply Exists_exists in Hex as (m & (e & -> & He)%list_elem_of_fmap & Hm).
        apply proj1 in Hrun. specialize (Hrun eq_refl). rewrite Forall_forall in Hrun.
        by apply (Hrun e). }
      exists s2. split_and!; [done|done|]. rewrite Ht, fmap_app. f_equal.
      rewrite <-list_fmap_compose. apply list_fmap_id.
    + eexists; split; [apply (Thread.drain_all xs d _ ts 0%Z)|]. split; [done|]. simpl.
      rewrite fmap_app. f_equal. rewrite <-list_fmap_compose. apply list_fmap_id.
Qed.

Definition demo_msgs : list LogMsg :=
  [create_file (Some (chars "svc")) 1; push_log (chars "hello"); Logger_dtor].

Definition demo_state : Thread.state MemFs.fs :=
  Thread.St (Queue1To1.Q demo_msgs) Thread.Running (Logger_new 20240517, MemFs.empty)
    demo_msgs [].

Lemma demo_reachable : rtc Thread.step (Thread.init (Logger_new 20240517) MemFs.empty) demo_state.
Proof. do 3 (eapply rtc_l; [apply Thread.st_put|]). apply rtc_refl. Qed.

(** The destructor's [Stop] with a reopen and a line still queued. *)
Lemma logger_drains_queue_witness :
  exists s2, rtc Thread.work demo_state s2 /\ Thread.t_phase s2 = Thread.Stopped /\
             (Thread.t_taken s2).*1 = demo_msgs.
Proof.
  apply (logger_drains_queue (Logger_new 20240517) MemFs.empty demo_state demo_state).
  - apply demo_reachable.
  - done.
  - apply rtc_refl.
  - do 2 apply Exists_cons_tl. by apply Exists_cons_hd.
Defined.

(** C6: rotation keeps the log.  On a writable volume, a worker with the
    dated file open that handles any run of [Log] messages of that day has it
    open again afterwards, and what the seven slots and the dated file held,
    followed by the new lines, is what they hold now, but for lines dropped
    from the front: the oldest ones, and only when the last slot is in use.
    Without a quota nothing is dropped; with one the dated file never
    outgrows it by more than one line.  No other file is touched. *)
Theorem logger_rotation_retains {OS} `{LogVolume OS} lg (os : OS) L msgs :
  ready lg os -> (L < 2 ^ 32)%Z -> Forall (todays L (date_ lg)) msgs ->
  let '(lg', os') := foldl handle (lg, os) msgs in
  ready lg' os' /\ dated_name lg' = dated_name lg /\
  (exists lost, retained lg os ++ lines msgs = lost ++ retained lg os' /\
     (lost <> [] -> (1 <= quota_ lg)%Z /\ is_Some (slot lg os' 7))) /\
  (msgs <> [] -> (1 <= quota_ lg)%Z ->
     (Z.of_nat (length (default [] (content (dated_name lg) os')))
      <= quota_ lg * 1048576 + L)%Z) /\
  (forall n, not_slot lg n -> n <> dated_name lg -> content n os' = content n os).
Proof.
  intros Hrd HL Hall. pose proof (kept_run_all lg os L msgs Hrd HL Hall) as Hk.
  destruct (foldl handle (lg, os) msgs) as [lg' os'].
  destruct Hk as (Hrd' & Hsc & (lost & Hre & Hlo) & _ & Hq & Hsz & Hot).
  split_and!; try done; [by apply same_config_names|].
  destruct (Z_lt_dec (quota_ lg) 1) as [Hq1|Hq1].
  - exists []. by rewrite Hq.
  - exists lost. split; [done|]. intros Hne. split; [lia|auto].
Qed.

(** Slot 1 is in use and the dated file is over a quota of one megabyte. *)
Definition demo_full : MemFs.fs :=
  MemFs.Fs {[ chars "d/svc.1" := [1%Z]; chars "d/svc.0517" := replicate 1048577 2%Z ]} ∅.
Definition demo_ready : logger * MemFs.fs :=
  handle (Logger_new 20240517, demo_full)
         (create_file_path (Some (chars "svc")) (Some (chars "d/")) 1, 20240517%Z).
Definition demo_lines : list (LogMsg * Z) :=
  [(push_log (chars "a"), 20240517%Z); (push_log (chars "b"), 20240517%Z)].

Lemma demo_ready_ok : ready demo_ready.1 demo_ready.2 /\ date_ demo_ready.1 = 20240517%Z.
Proof.
  unfold demo_ready, handle. cbn [m_type create_file_path].
  pose proof (handle_reopen_ready (create_file_path (Some (chars "svc")) (Some (chars "d/")) 1)
    (Logger_new 20240517) demo_full eq_refl) as Hr. cbv zeta in Hr.
  specialize (Hr ltac:(simpl; lia) ltac:(simpl; lia)).
  destruct (handle_reopen _ _ _) as [lg' os']. by destruct Hr as (? & _ & _ & ? & _).
Qed.

Lemma logger_rotation_retains_witness :
  let '(lg', os') := foldl handle (demo_ready.1, demo_ready.2) demo_lines in
  ready lg' os' /\ dated_name lg' = dated_name demo_ready.1 /\
  (exists lost, retained demo_ready.1 demo_ready.2 ++ lines demo_lines
                = lost ++ retained demo_ready.1 os' /\
     (lost <> [] -> (1 <= quota_ demo_ready.1)%Z /\ is_Some (slot demo_ready.1 os' 7))) /\
  (demo_lines <> [] -> (1 <= quota_ demo_ready.1)%Z ->
     (Z.of_nat (length (default [] (content (dated_name demo_ready.1) os')))
      <= quota_ demo_ready.1 * 1048576 + 16)%Z) /\
  (forall n, not_slot demo_ready.1 n -> n <> dated_name demo_ready.1 ->
     content n os' = content n demo_ready.2).
Proof.
  apply (logger_rotation_retains demo_ready.1 demo_ready.2 16 demo_lines).
  - apply demo_ready_ok.
  - lia.
  - rewrite (proj2 demo_ready_ok). repeat constructor; simpl; lia.
Defined.
