(* ===== verification/Icmp.v ===== *)
(** * The ICMP monitor (include/icmp.hpp)

    [IcmpManager]: the Internet checksum, the echo request it sends and the
    receive loop that tracks whether the host answers; [IcmpMonitor]: the
    table of managers.  Raw sockets, [inet_addr] and the clock are outside the
    repository: their results are arguments. *)

From S2P Require Import Prelude Text Timer Paths.

(** ** [check_sum] *)

(** The loop over 16-bit words (little-endian in memory) and the odd byte. *)
Fixpoint word_sum (bs : list Z) : Z :=
  match bs with
  | lo :: hi :: bs => (lo + 256 * hi + word_sum bs)%Z
  | [b] => b
  | [] => 0%Z
  end.

(** [nSum] is an [int]; the words are non-negative, so it overflows exactly
    when the total does not fit. *)
Definition check_sum (bs : list Z) : outcome Z :=
  nSum ← chk32 (word_sum bs);
  let nSum := (Z.shiftr nSum 16 + Z.land nSum 0xffff)%Z in
  let nSum := (nSum + Z.shiftr nSum 16)%Z in
  Ok (u16 (Z.lnot nSum)).

(** ** [send_icmp] *)
Definition DEFDATALEN : Z := (64 - 8)%Z.
Definition htons (z : Z) : list Z := rev (le_enc 2 (u16 z)).

(** The IP header with the checksum field [sum]; [src] and [dst] are the
    four bytes of [inet_addr]. *)
Definition ip_header (nLen pid : Z) (src dst : list Z) (sum : Z) : list Z :=
  [0x45; 0]%Z ++ htons (20 + nLen) ++ htons pid ++ [0; 0; 255; 1]%Z
  ++ le_enc 2 sum ++ src ++ dst.

(** The echo request with the checksum field [sum]. *)
Definition echo_request (pid fd : Z) (tv : timeval) (sum : Z) : list Z :=
  [8; 0]%Z ++ le_enc 2 sum ++ le_enc 2 (u16 pid) ++ le_enc 2 (u16 fd)
  ++ le_enc 8 (tv_sec tv) ++ le_enc 8 (tv_usec tv) ++ replicate 40 0%Z.

Inductive IPPROTO_TYPE : Type := PROTO_RAW | PROTO_ICMP.

(** The bytes handed to [sendto]. *)
Definition icmp_packet (proto : IPPROTO_TYPE) (pid fd : Z) (src dst : list Z) (tv : timeval)
    : outcome (list Z) :=
  let nLen := (DEFDATALEN + 8)%Z in
  hdr ← match proto with
        | PROTO_RAW =>
            ip_sum ← check_sum (ip_header nLen pid src dst 0);
            Ok (ip_header nLen pid src dst ip_sum)
        | PROTO_ICMP => Ok []
        end;
  icmp_cksum ← check_sum (echo_request pid fd tv 0);
  Ok (hdr ++ echo_request pid fd tv icmp_cksum).

(** ** The receive loop *)

(** [TimeVal] is a local that starts uninitialised. *)
Record receiver : Type := Rc {
  active_ : bool; delay_ : Z; time_val_ : timeval; TimeVal : option timeval;
}.

(** What one round sees: the result of [select], then of [recv], then of the
    clock. *)
Inductive event : Type :=
| SelectError | SelectTimeout | RecvError | RecvPacket (Packet : list Z) (now : timeval).

(** A round goes on or breaks the loop. *)
Inductive verdict : Type := Continue | Break.

Definition with_active (b : bool) (r : receiver) : receiver :=
  Rc b (delay_ r) (time_val_ r) (TimeVal r).

Definition ICMP_MINLEN : nat := 8.
Definition byte (Packet : list Z) (i : nat) : outcome Z :=
  match Packet !! i with Some b => Ok b | None => Ub OutOfBounds end.
Definition half (Packet : list Z) (i : nat) : outcome Z :=
  lo ← byte Packet i; hi ← byte Packet (S i); Ok (lo + 256 * hi)%Z.

Definition recv_round (pid fd : Z) (e : event) (r : receiver) : outcome (verdict * receiver) :=
  match e with
  | SelectError => Ok (Break, with_active false r)
  | SelectTimeout => Ok (Continue, with_active false r)
  | RecvError => Ok (Break, r)
  | RecvPacket Packet now =>
      b0 ← byte Packet 0;
      let nHeaderLen := Z.to_nat (Z.shiftl (Z.land b0 15) 2) in
      if bool_decide (length Packet < nHeaderLen + ICMP_MINLEN)%nat then Ok (Break, r)
      else
        icmp_type ← byte Packet nHeaderLen;
        icmp_id ← half Packet (nHeaderLen + 4);
        icmp_seq ← half Packet (nHeaderLen + 6);
        let r1 := if (icmp_type =? 0)%Z && (icmp_id =? u16 pid)%Z && (icmp_seq =? u16 fd)%Z
                  then Rc true (delay_ r) (time_val_ r) (Some now) else r in
        match TimeVal r1 with
        | None => Ub Uninitialised
        | Some tv =>
            if (delay_ r1 <? DIFFTIME (time_val_ r1) tv)%Z then Ok (Continue, with_active false r1)
            else Ok (Continue, r1)
        end
  end.

(** ** [IcmpMonitor] *)
Record manager : Type := Mgr {
  m_addr : str; m_priority : Z; m_bind : option str; m_delay : Z; m_running : bool;
}.
(** [IcmpManager::set_delay]. *)
Definition manager_set_delay (msec : Z) (g : manager) : manager :=
  Mgr (m_addr g) (m_priority g) (m_bind g) msec (m_running g).

Record monitor : Type := Mon { managers_ : gmap str manager; mon_delay : Z; interval_ : Z }.
Definition IcmpMonitor_new : monitor := Mon ∅ 1000 500.

(** [pMgr->start] gets the first field, the second as a number and the third
    as the bind address; [started] is its result. *)
Definition add_manager (pszAddr : str) (started : bool) (m : monitor) : outcome (bool * monitor) :=
  match tokenize pszAddr [] (chars ":") with
  | None => Exc "tokenize"
  | Some info =>
      priority ← (if bool_decide (length info = 1%nat) then Ok 1%Z
                  else match info !! 1%nat with Some s => atoi s | None => Ub OutOfBounds end);
      let pszBind := if bool_decide (length info = 3%nat) then info !! 2%nat else None in
      match info !! 0%nat with
      | None => Ub OutOfBounds
      | Some addr =>
          Ok (started, Mon (<[pszAddr := Mgr addr priority pszBind 1000 started]> (managers_ m))
                           (mon_delay m) (interval_ m))
      end
  end.

Definition remove_manager (pszAddr : str) (m : monitor) : bool * monitor :=
  match managers_ m !! pszAddr with
  | Some _ => (true, Mon (delete pszAddr (managers_ m)) (mon_delay m) (interval_ m))
  | None => (false, m)
  end.

Definition set_delay (msec : Z) (m : monitor) : monitor :=
  Mon (manager_set_delay msec <$> managers_ m) msec (interval_ m).
Definition set_interval (msec : Z) (m : monitor) : monitor := Mon (managers_ m) (mon_delay m) msec.

(** [start(addrs)]: one manager per blank-separated word; [created] is the
    result of [create()]. *)
Fixpoint add_managers (addrs : list str) (started : str -> bool) (m : monitor) : outcome monitor :=
  match addrs with
  | [] => Ok m
  | a :: addrs => r ← add_manager a (started a) m; add_managers addrs started r.2
  end.
Definition monitor_start (root created : bool) (pszAddrs : str) (started : str -> bool)
    (m : monitor) : outcome (bool * monitor) :=
  if negb root then Ok (false, m)
  else match tokenize pszAddrs [] (chars " ") with
       | None => Exc "tokenize"
       | Some addrs => m' ← add_managers addrs started m; Ok (created, m')
       end.

(** ** Lemmas *)
Definition byteP (b : Z) : Prop := (0 <= b < 256)%Z.

(** Induction two elements at a time. *)
Lemma pair_ind {A} (P : list A -> Prop) :
  P [] -> (forall x, P [x]) -> (forall x y l, P l -> P (x :: y :: l)) -> forall l, P l.
Proof.
  intros H0 H1 H2. fix IH 1. intros [|x [|y l]]; [done|apply H1|]. apply H2, IH.
Qed.

(** The folding of [check_sum] keeps the sum modulo 65535, in 16 bits. *)
Definition fold16 (s : Z) : Z :=
  let a := (s / 65536 + s mod 65536)%Z in ((a + a / 65536) mod 65536)%Z.

Lemma check_sum_fold bs : in_s32 (word_sum bs) -> (0 <= word_sum bs)%Z ->
  check_sum bs = Ok (65535 - fold16 (word_sum bs))%Z.
Proof.
  intros Hs H0. unfold check_sum. rewrite chk32_ok by done. simpl. f_equal.
  rewrite !Z.shiftr_div_pow2 by lia. change (2 ^ 16)%Z with 65536%Z.
  change 0xffff%Z with (Z.ones 16). rewrite Z.land_ones by lia. change (2 ^ 16)%Z with 65536%Z.
  unfold fold16, uwrap, Z.lnot. change (2 ^ 16)%Z with 65536%Z.
  change (Z.ones 16) with 65535%Z. cbv zeta.
  set (a := (word_sum bs / 65536 + word_sum bs mod 65536)%Z).
  generalize (a + a / 65536)%Z. intros b. Z.to_euclidean_division_equations. lia.
Qed.

Lemma fold16_spec s : (0 <= s < 2147483648)%Z ->
  exists k, (s = 65535 * k + fold16 s /\ 0 <= k /\ 0 <= fold16 s <= 65535)%Z /\
            (fold16 s = 0 -> s = 0)%Z.
Proof.
  intros Hs. unfold fold16. cbv zeta.
  assert (0 <= s / 65536 <= 32767)%Z as Hq by (Z.to_euclidean_division_equations; lia).
  assert (0 <= s mod 65536 < 65536)%Z as Hr by (apply Z.mod_pos_bound; lia).
  pose proof (Z.div_mod s 65536 ltac:(lia)) as Hdm.
  revert Hq Hr Hdm. generalize (s / 65536)%Z (s mod 65536)%Z. intros q r Hq Hr ->.
  destruct (Z_lt_dec (q + r) 65536) as [Hlt|Hge].
  - rewrite (Z.div_small (q + r)), Z.add_0_r, Z.mod_small by lia. exists q. lia.
  - assert ((q + r) / 65536 = 1)%Z as -> by (Z.to_euclidean_division_equations; lia).
    assert ((q + r + 1) mod 65536 = q + r + 1 - 65536)%Z as ->
      by (Z.to_euclidean_division_equations; lia).
    exists (q + 1)%Z. lia.
Qed.

Lemma fold16_complete s : (0 <= s < 2147483648 - 65536)%Z ->
  fold16 (s + (65535 - fold16 s)) = 65535%Z.
Proof.
  intros Hs. destruct (fold16_spec s ltac:(lia)) as (k & (He & Hk & Hb) & _).
  destruct (fold16_spec (s + (65535 - fold16 s)) ltac:(lia)) as (k' & (He' & Hk' & Hb') & Hz).
  lia.
Qed.

Lemma word_sum_bound bs : Forall byteP bs ->
  (0 <= word_sum bs <= 65535 * Z.of_nat (length bs))%Z.
Proof.
  induction bs as [|b|lo hi bs IH] using pair_ind; intros Hb.
  - simpl. lia.
  - apply Forall_cons in Hb as [Hb _]. unfold byteP in Hb. simpl. lia.
  - apply Forall_cons in Hb as [Hlo [Hhi Hb]%Forall_cons]. specialize (IH Hb).
    unfold byteP in *. simpl. lia.
Qed.

Lemma word_sum_app a b : Nat.Even (length a) -> word_sum (a ++ b) = (word_sum a + word_sum b)%Z.
Proof.
  induction a as [|x|lo hi a IH] using pair_ind; intros [k Hk]; simpl in *; [done|lia|].
  rewrite IH; [lia|]. exists (k - 1)%nat. lia.
Qed.

(** A header [a], the checksum field, the rest [b]: the sum over a zero field
    goes into the field, and the sum over the result is zero. *)
Lemma check_sum_seal a b : Forall byteP a -> Forall byteP b -> Nat.Even (length a) ->
  (Z.of_nat (length a + length b) <= 32000)%Z ->
  exists c, check_sum (a ++ le_enc 2 0 ++ b) = Ok c /\ check_sum (a ++ le_enc 2 c ++ b) = Ok 0%Z.
Proof.
  intros Ha Hb Hev Hl.
  pose proof (word_sum_bound a Ha) as Hwa. pose proof (word_sum_bound b Hb) as Hwb.
  assert (forall z, (0 <= z <= 65535)%Z ->
    word_sum (a ++ le_enc 2 z ++ b) = (word_sum a + word_sum b + z)%Z) as Hw.
  { intros z Hz. rewrite word_sum_app by done. simpl. rewrite Z.mod_small with (a := (z / 256)%Z).
    - pose proof (Z.div_mod z 256). lia.
    - Z.to_euclidean_division_equations. lia. }
  assert (0 <= word_sum a + word_sum b <= 2097120000)%Z as Hs by lia.
  revert Hw Hs. generalize (word_sum a + word_sum b)%Z. intros s Hw Hs.
  destruct (fold16_spec s ltac:(lia)) as (k & (He & Hk & Hf) & _).
  exists (65535 - fold16 s)%Z.
  split; rewrite check_sum_fold; rewrite ?Hw by lia; unfold in_s32, INT32_MIN, INT32_MAX; try lia.
  - by rewrite Z.add_0_r.
  - rewrite fold16_complete by lia. done.
Qed.

Lemma le_enc_bytes n z : Forall byteP (le_enc n z).
Proof.
  revert z. induction n as [|n IH]; intros z; simpl; constructor; [|apply IH].
  unfold byteP. pose proof (Z.mod_pos_bound z 256). lia.
Qed.

(** Eight reply bytes are enough for the fields the loop reads. *)
Lemma byte_ok l i : (i < length l)%nat -> exists b, byte l i = Ok b.
Proof.
  intros Hi. unfold byte. destruct (l !! i) eqn:Hl; [by eexists|].
  apply lookup_ge_None in Hl. lia.
Qed.

Lemma half_ok l i : (S i < length l)%nat -> exists h, half l i = Ok h.
Proof.
  intros Hi. unfold half. destruct (byte_ok l i ltac:(lia)) as [lo ->].
  destruct (byte_ok l (S i) Hi) as [hi ->]. by eexists.
Qed.

Lemma byte_at l i b : l !! i = Some b -> byte l i = Ok b.
Proof. unfold byte. by intros ->. Qed.

(** A received IP packet: a header of [hl] words and an ICMP message. *)
Definition received (hl : Z) (rest : list Z) (ty code_ ck : Z) (id seq : Z) (data : list Z)
    : list Z :=
  (0x40 + hl)%Z :: rest ++ [ty; code_] ++ le_enc 2 ck ++ le_enc 2 id ++ le_enc 2 seq ++ data.

Lemma half_le l i z a b : in_uw 16 z -> l = a ++ le_enc 2 z ++ b -> length a = i ->
  half l i = Ok z.
Proof.
  intros Hz -> <-. unfold half.
  rewrite (byte_at _ (length a) (z mod 256)%Z), (byte_at _ (S (length a)) (z / 256 mod 256)%Z).
  - simpl. f_equal. unfold in_uw in Hz. change (2 ^ 16)%Z with 65536%Z in Hz.
    Z.to_euclidean_division_equations. lia.
  - rewrite lookup_app_r by lia. by replace (S (length a) - length a)%nat with 1%nat by lia.
  - rewrite lookup_app_r by lia. by rewrite Nat.sub_diag.
Qed.

Definition is_reply (pid fd ty id seq : Z) : bool :=
  (ty =? 0)%Z && (id =? u16 pid)%Z && (seq =? u16 fd)%Z.

Lemma recv_round_fields pid fd hl rest ty cd ck id seq data now r :
  (5 <= hl < 16)%Z -> length rest = (Z.to_nat (4 * hl) - 1)%nat ->
  in_uw 16 id -> in_uw 16 seq ->
  recv_round pid fd (RecvPacket (received hl rest ty cd ck id seq data) now) r =
  let r1 := if is_reply pid fd ty id seq
            then Rc true (delay_ r) (time_val_ r) (Some now) else r in
  match TimeVal r1 with
  | None => Ub Uninitialised
  | Some tv => if (delay_ r1 <? DIFFTIME (time_val_ r1) tv)%Z
               then Ok (Continue, with_active false r1) else Ok (Continue, r1)
  end.
Proof.
  intros Hhl Hrest Hid Hseq. unfold recv_round.
  assert (byte (received hl rest ty cd ck id seq data) 0 = Ok (0x40 + hl)%Z) as -> by done.
  assert (Z.to_nat (Z.shiftl (Z.land (0x40 + hl) 15) 2) = Z.to_nat (4 * hl)) as Hlen.
  { rewrite Z.shiftl_mul_pow2 by lia. change 15%Z with (Z.ones 4). rewrite Z.land_ones by lia.
    change (2 ^ 4)%Z with 16%Z. f_equal. Z.to_euclidean_division_equations. lia. }
  cbn [mbind outcome_bind]. rewrite Hlen.
  set (n := Z.to_nat (4 * hl)) in *. assert (20 <= n)%nat as Hn by lia.
  set (P := received hl rest ty cd ck id seq data).
  assert (P = ((0x40 + hl)%Z :: rest) ++ [ty; cd] ++ le_enc 2 ck ++ le_enc 2 id
              ++ le_enc 2 seq ++ data) as HP by done.
  assert (length ((0x40 + hl)%Z :: rest) = n) as Hh by (simpl; lia).
  rewrite bool_decide_false.
  2: { rewrite HP, !length_app, !length_le_enc. unfold ICMP_MINLEN. simpl in *. lia. }
  rewrite (byte_at P n ty).
  2: { rewrite HP, lookup_app_r by lia. by rewrite Hh, Nat.sub_diag. }
  cbn [mbind outcome_bind].
  rewrite (half_le P (n + 4) id (((0x40 + hl)%Z :: rest) ++ [ty; cd] ++ le_enc 2 ck)
             (le_enc 2 seq ++ data)).
  2: done. 2: by rewrite HP, <-!app_assoc. 2: rewrite !length_app, Hh, length_le_enc; simpl; lia.
  cbn [mbind outcome_bind].
  rewrite (half_le P (n + 6) seq
             (((0x40 + hl)%Z :: rest) ++ [ty; cd] ++ le_enc 2 ck ++ le_enc 2 id) data).
  2: done. 2: by rewrite HP, <-!app_assoc. 2: rewrite !length_app, Hh, !length_le_enc; simpl; lia.
  done.
Qed.

(** ** Properties *)

(** C35: the packets [send_icmp] hands to the kernel are valid.  For every
    process, socket and pair of addresses the checksums are computed without
    overflow and verify (a receiver's sum over the IP header, and over the
    ICMP message, checksum included, is zero), the packet is 84 bytes long as
    its IP length field says (64 without the IP header), and the echo carries
    the process id and the socket. *)
Theorem icmp_packet_valid proto pid fd src dst tv :
  Forall byteP src -> Forall byteP dst -> length src = 4%nat -> length dst = 4%nat ->
  exists hdr msg, icmp_packet proto pid fd src dst tv = Ok (hdr ++ msg) /\
    check_sum msg = Ok 0%Z /\ length msg = 64%nat /\
    take 2 msg = [8; 0]%Z /\ le_dec (take 2 (drop 4 msg)) = u16 pid /\
    le_dec (take 2 (drop 6 msg)) = u16 fd /\
    match proto with
    | PROTO_RAW => check_sum hdr = Ok 0%Z /\ length hdr = 20%nat /\
                   take 2 (drop 2 hdr) = [0; 84]%Z /\ drop 12 hdr = src ++ dst
    | PROTO_ICMP => hdr = []
    end.
Proof.
  intros Hs Hd Ls Ld.
  set (eb := le_enc 2 (u16 pid) ++ le_enc 2 (u16 fd) ++ le_enc 8 (tv_sec tv)
             ++ le_enc 8 (tv_usec tv) ++ replicate 40 0%Z).
  assert (Forall byteP eb) as Heb.
  { unfold eb. rewrite !Forall_app. split_and!; try apply le_enc_bytes.
    apply Forall_replicate. by unfold byteP. }
  assert (length eb = 60%nat) as Leb by (unfold eb; by autorewrite with pdk).
  destruct (check_sum_seal [8; 0]%Z eb) as (c & Hc & Hc0);
    [repeat constructor; lia|done|by exists 1%nat|rewrite Leb; simpl; lia|].
  assert (length (echo_request pid fd tv c) = 64%nat) as Lm
    by (unfold echo_request; by autorewrite with pdk).
  unfold icmp_packet. change (echo_request pid fd tv 0) with ([8; 0]%Z ++ le_enc 2 0 ++ eb).
  destruct proto.
  - set (ha := [0x45; 0]%Z ++ htons (20 + (DEFDATALEN + 8)) ++ htons pid ++ [0; 0; 255; 1]%Z).
    assert (forall z, ip_header (DEFDATALEN + 8) pid src dst z
                      = ha ++ le_enc 2 z ++ (src ++ dst)) as Hih.
    { intros z. unfold ip_header, ha. by rewrite <-!app_assoc. }
    assert (Forall byteP ha) as Hha.
    { unfold ha, htons. rewrite !Forall_app.
      split_and!; try apply Forall_rev, le_enc_bytes; repeat constructor; lia. }
    destruct (check_sum_seal ha (src ++ dst)) as (h & Hh & Hh0).
    { done. } { by apply Forall_app. } { by exists 5%nat. }
    { rewrite length_app, Ls, Ld. simpl. lia. }
    rewrite !Hih, Hh. cbn [mbind outcome_bind]. rewrite Hc. cbn [mbind outcome_bind].
    eexists (ha ++ le_enc 2 h ++ (src ++ dst)), (echo_request pid fd tv c).
    rewrite Hih. split_and!; try done.
    + by apply (le_dec_enc_uw 2), uwrap_range.
    + by apply (le_dec_enc_uw 2), uwrap_range.
    + rewrite !length_app, Ls, Ld. done.
  - cbn [mbind outcome_bind]. rewrite Hc. cbn [mbind outcome_bind].
    eexists [], (echo_request pid fd tv c). split_and!; try done.
    + by apply (le_dec_enc_uw 2), uwrap_range.
    + by apply (le_dec_enc_uw 2), uwrap_range.
Qed.

Lemma icmp_packet_valid_witness :
  exists hdr msg,
    icmp_packet PROTO_RAW 4711 9 [127; 0; 0; 1]%Z [10; 0; 0; 2]%Z (TV 1700000000 250000)
      = Ok (hdr ++ msg) /\
    check_sum msg = Ok 0%Z /\ length msg = 64%nat /\
    take 2 msg = [8; 0]%Z /\ le_dec (take 2 (drop 4 msg)) = u16 4711 /\
    le_dec (take 2 (drop 6 msg)) = u16 9 /\
    (check_sum hdr = Ok 0%Z /\ length hdr = 20%nat /\
     take 2 (drop 2 hdr) = [0; 84]%Z /\ drop 12 hdr = [127; 0; 0; 1; 10; 0; 0; 2]%Z).
Proof.
  apply (icmp_packet_valid PROTO_RAW 4711 9 [127; 0; 0; 1]%Z [10; 0; 0; 2]%Z
           (TV 1700000000 250000)); try done; repeat constructor; lia.
Defined.

(** What a round of the receive loop makes of a packet.  Our echo reply
    records its time and sets [active_] exactly when it came within [delay_]
    of the request; any other packet keeps [active_] only as long as the last
    reply is within [delay_].  Once a reply has been seen no packet, however
    malformed, makes the loop read out of bounds; before the first one a
    foreign packet makes it compare against an uninitialised time. *)
Theorem icmp_round_tracks pid fd hl rest ty cd ck id seq data now r :
  (5 <= hl < 16)%Z -> length rest = (Z.to_nat (4 * hl) - 1)%nat ->
  in_uw 16 id -> in_uw 16 seq ->
  let e := RecvPacket (received hl rest ty cd ck id seq data) now in
  (is_reply pid fd ty id seq = true ->
   recv_round pid fd e r =
   Ok (Continue, Rc (DIFFTIME (time_val_ r) now <=? delay_ r)%Z (delay_ r) (time_val_ r)
                    (Some now))) /\
  (is_reply pid fd ty id seq = false -> TimeVal r = None ->
   recv_round pid fd e r = Ub Uninitialised) /\
  (forall t, is_reply pid fd ty id seq = false -> TimeVal r = Some t ->
   recv_round pid fd e r =
   Ok (Continue, with_active (active_ r && (DIFFTIME (time_val_ r) t <=? delay_ r)%Z) r)) /\
  (forall p t, TimeVal r = Some t -> p <> [] -> safe (recv_round pid fd (RecvPacket p now) r)).
Proof.
  intros Hhl Hrest Hid Hseq e. unfold e. rewrite recv_round_fields by done.
  cbv zeta. split_and!.
  - intros ->. simpl. rewrite Z.leb_antisym. by destruct (_ <? _)%Z.
  - intros -> Ht. by rewrite Ht.
  - intros t -> Ht. rewrite Ht. rewrite Z.leb_antisym. destruct (_ <? _)%Z; simpl.
    + by rewrite andb_false_r.
    + rewrite andb_true_r. by destruct r.
  - intros p t Ht Hp k. unfold recv_round. destruct (byte_ok p 0) as [b0 ->].
    { destruct p; [done|simpl; lia]. }
    cbn [mbind outcome_bind]. set (n := Z.to_nat _). unfold ICMP_MINLEN.
    destruct (bool_decide_reflect (length p < n + 8)%nat) as [|Hge]; [done|].
    destruct (byte_ok p n ltac:(lia)) as [b1 ->]. cbn [mbind outcome_bind].
    destruct (half_ok p (n + 4) ltac:(lia)) as [h1 ->]. cbn [mbind outcome_bind].
    destruct (half_ok p (n + 6) ltac:(lia)) as [h2 ->]. cbn [mbind outcome_bind].
    cbv zeta. destruct (_ && _); simpl; rewrite ?Ht; by destruct (_ <? _)%Z.
Qed.

(** A foreign echo request arrives before the first reply. *)
Lemma icmp_round_tracks_witness :
  recv_round 4711 9 (RecvPacket (received 5 (replicate 19 0%Z) 8 0 0 1 1 []) (TV 10 0))
    (Rc false 1000 (TV 10 0) None) = Ub Uninitialised.
Proof.
  apply (icmp_round_tracks 4711 9 5 (replicate 19 0%Z) 8 0 0 1 1 [] (TV 10 0)
           (Rc false 1000 (TV 10 0) None)); try done; lia.
Defined.

(** A manager added after [set_delay] keeps the delay it was constructed with. *)
Lemma late_manager_delay pszAddr msec b m m' : add_manager pszAddr b (set_delay msec m) = Ok (b, m') ->
  exists g, managers_ m' !! pszAddr = Some g /\ m_delay g = 1000%Z /\ mon_delay m' = msec.
Proof.
  unfold add_manager, mbind, outcome_bind. destruct (tokenize _ _ _) as [info|]; [|done].
  repeat case_match; try done; intros [= <-]; cbn; rewrite lookup_insert_eq; eauto.
Qed.
