(* ===== verification/IcmpLink.v ===== *)
(** * The ICMP manager's sockets and the monitor's loop (include/icmp.hpp)

    [RawSocket::open], [IcmpManager]'s construction, [start], [send_icmp] and
    [reset_link] on the sockets of Sock, and the event loop of [IcmpMonitor].
    [getprotobyname] is an argument, exceptions of [open] are values. *)

From S2P Require Import Prelude Wp Text Timer ThreadLife Event Sock Tcp Servers Icmp.

Definition SOCK_RAW : Z := 3.
Definition IPPROTO_RAW : Z := 255.
Definition IP_HDRINCL : Z := 3.

(** ** [RawSocket] *)
Record rawsock : Type := Raw { rs_sock : socket; available_ : bool; proto_type_ : IPPROTO_TYPE }.

Definition RawSocket_new : rawsock := Raw Socket_new false PROTO_ICMP.

(** The members of [IcmpManager] its methods change; the sockets are
    [unique_ptr]s. *)
Record icmpm : Type := IM {
  im_sock : option rawsock;
  im_recv : option rawsock;
  im_thread : thread;
  im_addr : str;
  im_bind : str;
  im_priority : Z;
  im_time : timeval;
}.

Definition IcmpManager_new : icmpm :=
  IM (Some RawSocket_new) (Some RawSocket_new) Thread_new [] [] 1 (TV 0 0).

Definition with_sock (s : option rawsock) (m : icmpm) : icmpm :=
  IM s (im_recv m) (im_thread m) (im_addr m) (im_bind m) (im_priority m) (im_time m).
Definition with_recv (s : option rawsock) (m : icmpm) : icmpm :=
  IM (im_sock m) s (im_thread m) (im_addr m) (im_bind m) (im_priority m) (im_time m).
Definition with_bind (b : str) (m : icmpm) : icmpm :=
  IM (im_sock m) (im_recv m) (im_thread m) (im_addr m) b (im_priority m) (im_time m).
Definition with_im_thread (t : thread) (m : icmpm) : icmpm :=
  IM (im_sock m) (im_recv m) t (im_addr m) (im_bind m) (im_priority m) (im_time m).

Section raw.
Context `{SockOs OS} (proto_icmp : option Z).

(** [open]: [None] is the exception. *)
Definition raw_open (nType : IPPROTO_TYPE) (r : rawsock) (os : OS)
    : outcome (option bool * rawsock * OS) :=
  let r0 k := Raw k false nType in
  match nType with
  | PROTO_RAW =>
      '(ok, (k, os1)) ← create_socket AF_INET SOCK_RAW IPPROTO_RAW (rs_sock r, os);
      if negb ok then Ok (None, r0 k, os1)
      else
        let os2 := (sys_setsockopt (socket_fd_ k) IP_HDRINCL 1 os1).2 in
        Ok (Some true, Raw k true nType, os2)
  | PROTO_ICMP =>
      match proto_icmp with
      | None => Ok (None, r0 (rs_sock r), os)
      | Some p =>
          '(ok, (k, os1)) ← create_socket AF_INET SOCK_RAW p (rs_sock r, os);
          if negb ok then Ok (None, r0 k, os1) else Ok (Some true, Raw k true nType, os1)
      end
  end.

(** [unique_ptr::reset]: the destructor closes the socket. *)
Definition raw_reset (r : option rawsock) (os : OS) : outcome OS :=
  match r with
  | None => Ok os
  | Some r => '(_, (_, os')) ← close (rs_sock r, os); Ok os'
  end.

(** The [try] block of [start]: the sockets it leaves behind. *)
Definition start_sockets (pszBind : option str) (m : icmpm) (os : OS) : outcome (icmpm * OS) :=
  match im_sock m, im_recv m with
  | Some s, Some v =>
      '(r1, s1, os1) ← raw_open PROTO_RAW s os;
      match r1 with
      | None =>
          os2 ← raw_reset (Some s1) os1; os3 ← raw_reset (Some v) os2;
          Ok (with_recv None (with_sock None m), os3)
      | Some _ =>
          '(r2, v1, os2) ← raw_open PROTO_ICMP v os1;
          match r2 with
          | None =>
              os3 ← raw_reset (Some s1) os2; os4 ← raw_reset (Some v1) os3;
              Ok (with_recv None (with_sock None m), os4)
          | Some _ =>
              let m1 := with_recv (Some v1) (with_sock (Some s1) m) in
              match pszBind with
              | None => Ok (with_bind (im_addr m) m1, os2)
              | Some b =>
                  '(ok, (k, os3)) ← bind_port 0 (Some b) (rs_sock v1, os2);
                  let v2 := Raw k (available_ v1) (proto_type_ v1) in
                  if ok : bool then Ok (with_bind b (with_recv (Some v2) m1), os3)
                  else os4 ← raw_reset (Some v2) os3; Ok (with_bind b (with_recv None m1), os4)
              end
          end
      end
  | _, _ => Ub NullDeref
  end.

(** [send_icmp] with the answer of [OnSendNotify], the process id and the
    clock. *)
Definition send_icmp (notify : bool) (pid : Z) (now : timeval) (m : icmpm) (os : OS)
    : outcome (Z * icmpm * OS) :=
  match im_sock m with
  | None => Ok ((-1)%Z, m, os)
  | Some r =>
      if negb notify then Ok (1%Z, m, os)
      else
        let fd := socket_fd_ (rs_sock r) in
        let dst := inet_addr (im_addr m) in
        let m1 := IM (im_sock m) (im_recv m) (im_thread m) (im_addr m) (im_bind m) (im_priority m) now in
        pkt ← icmp_packet (proto_type_ r) pid fd (le_enc 4 (inet_addr (im_bind m))) (le_enc 4 dst) now;
        match proto_type_ r with
        | PROTO_RAW =>
            let '(n, os1) := sys_sendto_in fd pkt 0 dst 0 os in Ok (n, m1, os1)
        | PROTO_ICMP =>
            '(n, (k, os1)) ← send_to pkt 0 (Some (im_addr m)) 0 (rs_sock r, os);
            Ok (n, with_sock (Some (Raw k (available_ r) (proto_type_ r))) m1, os1)
        end
  end.

(** [start] with the worker's name; [None] waits in [create]. *)
Definition icmp_start (w : wid) (pszAddr : option str) (priority : Z) (pszBind : option str)
    (notify : bool) (pid : Z) (now : timeval) (m : icmpm) (os : OS)
    : outcome (option bool * icmpm * OS) :=
  let m0 := IM (im_sock m) (im_recv m) (im_thread m) (default [] pszAddr) (im_bind m) priority (im_time m) in
  '(m1, os1) ← start_sockets pszBind m0 os;
  match im_sock m1 with
  | None => Ok (Some false, m1, os1)
  | Some _ =>
      match create w (im_thread m1) with
      | None => Ok (None, m1, os1)
      | Some (r, _, t) =>
          let m2 := with_im_thread t m1 in
          if negb (r =? 0)%Z
          then '(_, m3, os2) ← send_icmp notify pid now m2 os1; Ok (Some true, m3, os2)
          else Ok (Some false, m2, os1)
      end
  end.

(** [reset_link]: an exception of [open] leaves the object as it then is. *)
Definition reset_link (m : icmpm) (os : OS) : outcome (option unit * icmpm * OS) :=
  os1 ← raw_reset (im_recv m) os;
  os2 ← raw_reset (im_sock m) os1;
  '(r, s, os3) ← raw_open PROTO_RAW RawSocket_new os2;
  let m1 := with_sock (Some s) (with_recv None m) in
  Ok (match r with Some _ => Some tt | None => None end, m1, os3).

(** [IcmpMonitor::reset_managers], in the map's order; an exception of one
    manager leaves the later ones as they are. *)
Fixpoint reset_managers (ms : list (str * icmpm)) (os : OS)
    : outcome (option unit * list (str * icmpm) * OS) :=
  match ms with
  | [] => Ok (Some tt, [], os)
  | (key, mgr) :: ms =>
      '(r, mgr', os1) ← reset_link mgr os;
      match r with
      | None => Ok (None, (key, mgr') :: ms, os1)
      | Some _ =>
          '(r2, ms', os2) ← reset_managers ms os1; Ok (r2, (key, mgr') :: ms', os2)
      end
  end.

(** The first call of [thread_proc]'s loop. *)
Definition recv_select (delay : Z) (m : icmpm) (os : OS) : outcome (Z * icmpm * OS) :=
  match im_recv m with
  | None => Ub NullDeref
  | Some r =>
      '(n, (k, os1)) ← select_ms delay (rs_sock r, os);
      Ok (n, with_recv (Some (Raw k (available_ r) (proto_type_ r))) m, os1)
  end.

(** The destructor, its worker joined. *)
Definition icmp_dtor (m : icmpm) (os : OS) : outcome OS :=
  os1 ← raw_reset (im_recv m) os; raw_reset (im_sock m) os1.
End raw.

(** ** [IcmpMonitor]'s loop *)

(** What one round of [thread_proc] does, in order. *)
Inductive maction : Type := ANotify | AAlive | ASend (key : str) | ATimer (msec : Z).

(** [None] leaves the loop; [keys] are the managers in the order of the map. *)
Definition monitor_round (on_notify on_alive : bool) (keys : list str) (interval : Z)
    (ev : option EVENTINFO) : option (list maction) :=
  match ev with
  | None => None
  | Some e =>
      if (usType (h e) =? CI_TIMER_DONE)%Z
      then Some ((if on_notify then [ANotify] else []) ++ (if on_alive then [AAlive] else [])
                 ++ map ASend keys ++ [ATimer interval])
      else Some []
  end.

(** The rounds on a sequence of results of [remove], after the first timer;
    [exit_seen n] when [do_exit] is true before round [n]. *)
Fixpoint monitor_loop (on_notify on_alive : bool) (keys : list str) (interval : Z)
    (exit_seen : nat -> bool) (n : nat) (evs : list (option EVENTINFO)) : list maction :=
  match evs with
  | [] => []
  | ev :: evs =>
      if exit_seen n then []
      else match monitor_round on_notify on_alive keys interval ev with
           | None => []
           | Some acts => acts ++ monitor_loop on_notify on_alive keys interval exit_seen (S n) evs
           end
  end.
Definition monitor_proc (on_notify on_alive : bool) (keys : list str) (interval : Z)
    (exit_seen : nat -> bool) (evs : list (option EVENTINFO)) : list maction :=
  ATimer interval :: monitor_loop on_notify on_alive keys interval exit_seen 0 evs.

(** ** Lemmas *)
Definition live (m : icmpm) : list socket :=
  match im_sock m with Some r => [rs_sock r] | None => [] end ++
  match im_recv m with Some r => [rs_sock r] | None => [] end.

(** What the system's answers mean for [start], call by call: the descriptor of a raw
    socket of a protocol, if [socket] makes one and its option can be set; that of
    each kind of [RawSocket]; and whether an address can be bound to it. *)
Section answers.
Context `{SockOs OS} (proto_icmp : option Z).
Implicit Types (os : OS).

Definition raw_fd (p : Z) os : option Z * OS :=
  let '(fd, os1) := sys_socket AF_INET SOCK_RAW p os in
  if (fd =? -1)%Z then (None, os1)
  else let '(e, os2) := sys_setsockopt fd SO_REUSEADDR 1 os1 in
       if (e =? 0)%Z then (Some fd, os2) else (None, sys_close fd os2).

Definition kind_fd (ty : IPPROTO_TYPE) os : option Z * OS :=
  match ty with
  | PROTO_RAW =>
      match raw_fd IPPROTO_RAW os with
      | (Some fd, os1) => (Some fd, (sys_setsockopt fd IP_HDRINCL 1 os1).2)
      | none => none
      end
  | PROTO_ICMP => match proto_icmp with Some p => raw_fd p os | None => (None, os) end
  end.

Definition can_bind (b : str) (fd : Z) os : bool :=
  negb (inet_addr b =? -1)%Z && negb ((sys_bind_in fd (inet_addr b) 0 os).1 =? -1)%Z.

Lemma create_raw_fd p os :
  exists k, create_socket AF_INET SOCK_RAW p (Socket_new, os)
      = Ok (bool_decide (is_Some (raw_fd p os).1), (k, (raw_fd p os).2)) /\
    socket_fd_ k = default INVALID_SOCKET (raw_fd p os).1.
Proof.
  assert (wp (create_socket AF_INET SOCK_RAW p) (fun ok st => ok = bool_decide (is_Some (raw_fd p os).1) /\
    st.2 = (raw_fd p os).2 /\ socket_fd_ st.1 = default INVALID_SOCKET (raw_fd p os).1) (Socket_new, os)) as Hw.
  { unfold create_socket, raw_fd. wp_go. cbn [Socket_new socket_fd_]. rewrite Z.eqb_refl. cbn [negb]. wp_go.
    unfold INVALID_SOCKET. destruct (sys_socket AF_INET SOCK_RAW p os) as [fd os1]. cbn [fst snd].
    destruct (fd =? -1)%Z eqn:E; wp_go; [apply Z.eqb_eq in E; by subst|].
    cbn [Z.eqb AF_INET Pos.eqb]. wp_go. destruct (sys_setsockopt fd SO_REUSEADDR 1 os1) as [e os2]. cbn [fst snd].
    by destruct (e =? 0)%Z; cbn [negb]; wp_go. }
  unfold wp in Hw. destruct (create_socket _ _ _ _) as [[ok [k os']]| |]; [|done|done].
  destruct Hw as (-> & E & Hk). cbn in E. subst os'. by exists k.
Qed.

Lemma raw_open_fd ty os res r' os' : raw_open proto_icmp ty RawSocket_new os = Ok (res, r', os') ->
  res = match (kind_fd ty os).1 with Some _ => Some true | None => None end /\
  os' = (kind_fd ty os).2 /\ socket_fd_ (rs_sock r') = default INVALID_SOCKET (kind_fd ty os).1.
Proof.
  unfold raw_open, kind_fd. destruct ty; [|destruct proto_icmp as [p|]; [|by intros [= <- <- <-]]]; cbn [rs_sock RawSocket_new].
  - destruct (create_raw_fd IPPROTO_RAW os) as (k & -> & Hk). unfold mbind, outcome_bind.
    destruct (raw_fd IPPROTO_RAW os) as [[fd|] os1]; cbn [fst snd default id] in *; case_bool_decide as Hd;
      try (by destruct Hd); cbn [negb]; intros [= <- <- <-]; by rewrite ?Hk.
  - destruct (create_raw_fd p os) as (k & -> & Hk). unfold mbind, outcome_bind.
    destruct (raw_fd p os) as [[fd|] os1]; cbn [fst snd default id] in *; case_bool_decide as Hd;
      try (by destruct Hd); cbn [negb]; by intros [= <- <- <-].
Qed.

Lemma raw_fd_valid p os fd : (raw_fd p os).1 = Some fd -> fd <> INVALID_SOCKET.
Proof.
  unfold raw_fd, INVALID_SOCKET. destruct (sys_socket _ _ _ _) as [x os1].
  destruct (Z.eqb_spec x (-1)); [done|]. destruct (sys_setsockopt _ _ _ _) as [e os2].
  destruct (e =? 0)%Z; [|done]. by intros [= <-].
Qed.

Lemma kind_fd_valid ty os fd : (kind_fd ty os).1 = Some fd -> fd <> INVALID_SOCKET.
Proof.
  unfold kind_fd. destruct ty; [|destruct proto_icmp; [apply raw_fd_valid|done]].
  pose proof (raw_fd_valid IPPROTO_RAW os fd) as Hv. by destruct (raw_fd IPPROTO_RAW os) as [[x|] os1].
Qed.

Lemma bind_port_can b s os :
  exists s' os', bind_port 0 (Some b) (s, os) = Ok (can_bind b (socket_fd_ s) os, (s', os')) /\
    socket_fd_ s' = socket_fd_ s.
Proof.
  assert (wp (bind_port 0 (Some b)) (fun ok st => ok = can_bind b (socket_fd_ s) os /\
    socket_fd_ st.1 = socket_fd_ s) (s, os)) as Hw.
  { unfold bind_port, can_bind, set_buffers, SOCKET_ERROR. wp_go. cbn zeta.
    destruct (inet_addr b =? -1)%Z; wp_go; [done|]. change (wire_port 0) with 0%Z.
    destruct ((sys_bind_in (socket_fd_ s) (inet_addr b) 0 os).1 =? -1)%Z; cbn [negb]; by wp_go. }
  unfold wp in Hw. destruct (bind_port _ _ _) as [[ok [s' os']]| |]; [|done|done].
  destruct Hw as [-> Hs]. by exists s', os'.
Qed.
End answers.

Section manager.
Context `{SockFds OS, !FdLimit OS} (proto_icmp : option Z).
Context (base : gset Z).
Implicit Types (os : OS) (m : icmpm).

Lemma pool_sys ss os os' : pool base ss os -> sfds os' = sfds os -> pool base ss os'.
Proof. intros (Hn & Hb & Hs & Hr) E. unfold pool. by rewrite E. Qed.

(** [open] keeps the pool; it returns [true] exactly when the socket is
    open. *)
Lemma raw_open_pool ty r ss os : pool base (rs_sock r :: ss) os ->
  socket_fd_ (rs_sock r) = INVALID_SOCKET ->
  exists res r' os', raw_open proto_icmp ty r os = Ok (res, r', os') /\
    pool base (rs_sock r' :: ss) os' /\ proto_type_ r' = ty /\
    match res with
    | Some b => b = true /\ socket_fd_ (rs_sock r') <> INVALID_SOCKET
    | None => socket_fd_ (rs_sock r') = INVALID_SOCKET
    end.
Proof.
  intros Hp Hf.
  assert (forall p, exists ok k os1, create_socket AF_INET SOCK_RAW p (rs_sock r, os)
            = Ok (ok, (k, os1)) /\ pool base (k :: ss) os1 /\ opened ok (k, os1)) as Hcr.
  { intros p. destruct (pool_run base (rs_sock r) ss os (create_socket AF_INET SOCK_RAW p)) as (ok & k & os1 & Hr & Hp1);
      [intros b; apply keeps_create_socket|done|].
    exists ok, k, os1. split_and!; [done|done|].
    pose proof (wp_create_opened AF_INET SOCK_RAW p _ os Hf) as Hw. unfold wp in Hw. by rewrite Hr in Hw. }
  unfold raw_open. destruct ty.
  - destruct (Hcr IPPROTO_RAW) as (ok & k & os1 & -> & Hp1 & Ho). unfold mbind, outcome_bind.
    destruct ok; cbn [negb]; do 3 eexists; (split; [reflexivity|]); cbn [rs_sock proto_type_].
    + split_and!; [|done|done|by apply Ho]. eapply pool_sys; [done|]. apply setsockopt_fds.
    + split_and!; [done|done|]. destruct (decide (socket_fd_ k = INVALID_SOCKET)) as [|Hk]; [done|].
      by apply Ho in Hk.
  - destruct proto_icmp as [p|]; [|by do 3 eexists].
    destruct (Hcr p) as (ok & k & os1 & -> & Hp1 & Ho). unfold mbind, outcome_bind.
    destruct ok; cbn [negb]; do 3 eexists; (split; [reflexivity|]); cbn [rs_sock proto_type_].
    + split_and!; [done|done|done|by apply Ho].
    + split_and!; [done|done|]. destruct (decide (socket_fd_ k = INVALID_SOCKET)) as [|Hk]; [done|].
      by apply Ho in Hk.
Qed.

Lemma raw_reset_pool r ss os : pool base (rs_sock r :: ss) os ->
  exists os', raw_reset (Some r) os = Ok os' /\ pool base ss os'.
Proof.
  intros Hp. destruct (pool_close base _ _ os Hp) as (k & os' & Hc & Hp' & _).
  exists os'. unfold raw_reset, mbind, outcome_bind. by rewrite Hc.
Qed.

(** The sockets [start] leaves, by the answers of the system: both gone unless both
    could be made; then the sending one has the first descriptor, the receiving one
    the second unless a bind was asked for and refused. *)
Definition start_left (b : option str) os m : Prop :=
  match (kind_fd proto_icmp PROTO_RAW os).1,
        (kind_fd proto_icmp PROTO_ICMP (kind_fd proto_icmp PROTO_RAW os).2).1 with
  | Some fd1, Some fd2 =>
      let os2 := (kind_fd proto_icmp PROTO_ICMP (kind_fd proto_icmp PROTO_RAW os).2).2 in
      (exists s, im_sock m = Some s /\ socket_fd_ (rs_sock s) = fd1 /\ proto_type_ s = PROTO_RAW) /\
      (if match b with Some b => can_bind b fd2 os2 | None => true end
       then exists v, im_recv m = Some v /\ socket_fd_ (rs_sock v) = fd2
       else im_recv m = None)
  | _, _ => im_sock m = None /\ im_recv m = None
  end.
Definition sockets_ready m : Prop := forall s, im_sock m = Some s -> proto_type_ s = PROTO_RAW.

Lemma pool_two_new os : sfds os = base -> pool base [Socket_new; Socket_new] os.
Proof.
  intros Hs. apply pool_cons. split_and!; [|constructor|set_solver|].
  - apply closed_owned; [done|]. cbn. set_solver.
  - repeat constructor.
Qed.

Lemma start_sockets_spec a p b os : sfds os = base ->
  exists m' os', start_sockets proto_icmp b
      (IM (Some RawSocket_new) (Some RawSocket_new) Thread_new a [] p (TV 0 0)) os = Ok (m', os') /\
    pool base (live m') os' /\ start_left b os m' /\ im_thread m' = Thread_new.
Proof.
  intros Hs. unfold start_sockets, start_left. cbn [im_sock im_recv].
  destruct (raw_open_pool PROTO_RAW RawSocket_new [Socket_new] os (pool_two_new os Hs) eq_refl)
    as (r1 & s1 & os1 & Ho1 & Hp1 & Ht1 & _).
  destruct (raw_open_fd _ _ _ _ _ _ Ho1) as (-> & -> & Hfd1). rewrite Ho1. unfold mbind, outcome_bind.
  destruct (kind_fd proto_icmp PROTO_RAW os) as [[fd1|] os1]; cbn [fst snd default id] in *.
  2:{ destruct (raw_reset_pool s1 [Socket_new] os1 Hp1) as (os2 & -> & Hp2).
      destruct (raw_reset_pool RawSocket_new [] os2 Hp2) as (os3 & -> & Hp3). by do 2 eexists. }
  rewrite Permutation_swap in Hp1.
  destruct (raw_open_pool PROTO_ICMP RawSocket_new [rs_sock s1] os1 Hp1 eq_refl)
    as (r2 & v1 & os2 & Ho2 & Hp2 & _ & _).
  destruct (raw_open_fd _ _ _ _ _ _ Ho2) as (-> & -> & Hfd2). rewrite Ho2. rewrite Permutation_swap in Hp2.
  destruct (kind_fd proto_icmp PROTO_ICMP os1) as [[fd2|] os2]; cbn [fst snd default id] in *.
  2:{ destruct (raw_reset_pool s1 [rs_sock v1] os2 Hp2) as (os3 & -> & Hp3).
      destruct (raw_reset_pool v1 [] os3 Hp3) as (os4 & -> & Hp4). by do 2 eexists. }
  destruct b as [b|]; [|do 2 eexists; split; [reflexivity|]; split_and!; try done; by eexists].
  rewrite Permutation_swap in Hp2.
  destruct (pool_run base _ _ os2 (bind_port 0 (Some b)) (fun c => keeps_bind_port c 0 (Some b)) Hp2)
    as (ok & k & os3 & Hb & Hp3).
  destruct (bind_port_can b (rs_sock v1) os2) as (k' & os3' & Hb' & Hk). rewrite Hb in Hb'.
  injection Hb' as -> -> ->.
  rewrite Hb. unfold id in *. rewrite Hfd2 in *. destruct (can_bind b fd2 os2).
  - do 2 eexists. split; [reflexivity|]. unfold live. cbn.
    rewrite Permutation_swap. split_and!; try done; by eexists.
  - destruct (raw_reset_pool (Raw k' (available_ v1) (proto_type_ v1)) _ os3' Hp3) as (os4 & -> & Hp4).
    do 2 eexists. split; [reflexivity|]. split_and!; try done; by eexists.
Qed.

Lemma start_left_ready b os m : start_left b os m -> sockets_ready m.
Proof.
  unfold start_left, sockets_ready. intros Hl s Hs.
  destruct (kind_fd _ _ os).1 as [fd1|]; [|destruct Hl; congruence].
  destruct (kind_fd _ _ _).1 as [fd2|]; [|destruct Hl; congruence].
  destruct Hl as [(s' & Es & _ & Hp) _]. by simplify_eq.
Qed.

(** A live socket with a descriptor is open. *)
Lemma live_open m os s : pool base (live m) os -> im_sock m = Some s \/ im_recv m = Some s ->
  socket_fd_ (rs_sock s) <> INVALID_SOCKET -> socket_fd_ (rs_sock s) ∈ sfds os.
Proof.
  intros (_ & _ & -> & _) Hs Hf. apply elem_of_union_l, elem_of_list_to_set.
  unfold held. apply list_elem_of_filter. split; [done|]. apply list_elem_of_fmap.
  exists (rs_sock s). split; [done|]. unfold live. apply elem_of_app.
  destruct Hs as [->| ->]; [left|right]; apply list_elem_of_here.
Qed.

Lemma check_sum_ok bs : Forall byteP bs -> (Z.of_nat (length bs) <= 32000)%Z ->
  exists c, check_sum bs = Ok c.
Proof.
  intros Hb Hl. pose proof (word_sum_bound bs Hb). unfold check_sum.
  rewrite chk32_ok; [by eexists|]. unfold in_s32, INT32_MIN, INT32_MAX. lia.
Qed.

Lemma icmp_packet_ok proto pid fd a b tv :
  exists pkt, icmp_packet proto pid fd (le_enc 4 a) (le_enc 4 b) tv = Ok pkt.
Proof.
  assert (Forall byteP (echo_request pid fd tv 0)) as He.
  { unfold echo_request. rewrite !Forall_app. split_and!; try apply le_enc_bytes.
    - repeat constructor; unfold byteP; lia.
    - apply Forall_replicate. by unfold byteP. }
  assert (Forall byteP (ip_header (DEFDATALEN + 8) pid (le_enc 4 a) (le_enc 4 b) 0)) as Hh.
  { unfold ip_header. rewrite !Forall_app.
    split_and!; try apply le_enc_bytes; try (unfold htons; apply Stdlib.Lists.List.Forall_rev, le_enc_bytes);
      repeat constructor; unfold byteP; lia. }
  destruct (check_sum_ok _ He) as [c Hc]; [by vm_compute|].
  destruct (check_sum_ok _ Hh) as [c2 Hc2]; [by vm_compute|].
  unfold icmp_packet, mbind, outcome_bind. destruct proto; rewrite ?Hc2, Hc; eauto.
Qed.

(** Sending leaves the sockets and their descriptors alone. *)
Lemma send_icmp_pool n pid now m os : pool base (live m) os -> sockets_ready m ->
  exists z m' os', send_icmp n pid now m os = Ok (z, m', os') /\ pool base (live m') os' /\
    im_sock m' = im_sock m /\ im_recv m' = im_recv m /\ im_thread m' = im_thread m /\
    (im_sock m = None -> z = (-1)%Z).
Proof.
  intros Hp Hr. unfold send_icmp. unfold sockets_ready in Hr.
  destruct (im_sock m) as [r|] eqn:Es; [|by do 3 eexists]. specialize (Hr r eq_refl).
  destruct n; cbn [negb]; [|by do 3 eexists].
  destruct (icmp_packet_ok (proto_type_ r) pid (socket_fd_ (rs_sock r)) (inet_addr (im_bind m))
              (inet_addr (im_addr m)) now) as [pkt ->]. unfold mbind, outcome_bind.
  rewrite Hr.
  pose proof (sendto_in_fds (socket_fd_ (rs_sock r)) pkt 0 (inet_addr (im_addr m)) 0 os) as Hs.
  destruct (sys_sendto_in _ _ _ _ _ _) as [z os1]. do 3 eexists. split; [reflexivity|].
  split_and!; try done. unfold live in *. rewrite Es in Hp. by eapply pool_sys.
Qed.

Lemma icmp_dtor_pool m os : pool base (live m) os ->
  exists os', icmp_dtor m os = Ok os' /\ sfds os' = base.
Proof.
  unfold live, icmp_dtor. destruct (im_sock m) as [s|], (im_recv m) as [v|]; cbn [app]; intros Hp.
  - rewrite Permutation_swap in Hp. destruct (raw_reset_pool v _ os Hp) as (os1 & -> & Hp1).
    unfold mbind, outcome_bind. destruct (raw_reset_pool s _ os1 Hp1) as (os2 & -> & Hp2).
    apply pool_nil in Hp2. eauto.
  - cbn [raw_reset]. unfold mbind at 1, outcome_bind at 1.
    destruct (raw_reset_pool s _ os Hp) as (os2 & Hr & Hp2). apply pool_nil in Hp2. eauto.
  - destruct (raw_reset_pool v _ os Hp) as (os1 & -> & Hp1). apply pool_nil in Hp1.
    unfold mbind, outcome_bind. cbn. eauto.
  - apply pool_nil in Hp. cbn. eauto.
Qed.
End manager.

(** ** Properties *)

(** C31: starting an ICMP manager.  For every address, bind address and behaviour of
    the system, [start] on a new manager returns normally.  When the protocol is
    known and both raw sockets can be made it returns [true]: the worker runs, the
    sending socket is open on the first descriptor, and the receiving socket is open
    on the second, or, exactly when a bind address was given that [inet_addr] maps to -1
    or that [bind] refuses, gone, and then the worker dereferences a null pointer.
    Otherwise it returns [false]: no worker runs, both socket objects are gone and
    their descriptors are given back.  In each case the destructor gives every
    descriptor back.  Assumed: [socket] returns a fresh descriptor below
    [FD_SETSIZE], or -1. *)
Theorem icmp_manager_start `{SockFds OS, !FdLimit OS} (proto_icmp : option Z) (os : OS) w a p b n pid now :
  exists ok m os1,
    icmp_start proto_icmp w a p b n pid now IcmpManager_new os = Ok (Some ok, m, os1) /\
    (let '(fd1, o1) := kind_fd proto_icmp PROTO_RAW os in
     let '(fd2, o2) := kind_fd proto_icmp PROTO_ICMP o1 in
     match fd1, fd2 with
     | Some fd1, Some fd2 =>
         ok = true /\ thread_exists (im_thread m) = 1%Z /\
         (exists s, im_sock m = Some s /\ socket_fd_ (rs_sock s) = fd1 /\ fd1 ∈ sfds os1) /\
         (if match b with Some b => can_bind b fd2 o2 | None => true end
          then exists v, im_recv m = Some v /\ socket_fd_ (rs_sock v) = fd2 /\ fd2 ∈ sfds os1
          else im_recv m = None /\ forall d os', recv_select d m os' = Ub NullDeref)
     | _, _ => ok = false /\ im_thread m = Thread_new /\ im_sock m = None /\ im_recv m = None /\
               sfds os1 = sfds os
     end) /\
    exists os2, icmp_dtor m os1 = Ok os2 /\ sfds os2 = sfds os.
Proof.
  unfold icmp_start, IcmpManager_new. cbn [im_sock im_recv im_thread im_bind im_time].
  destruct (start_sockets_spec proto_icmp (sfds os) (default [] a) p b os eq_refl)
    as (m1 & os1 & -> & Hp & Hl & Hth). pose proof (start_left_ready _ _ _ _ Hl) as Hready.
  unfold mbind, outcome_bind. unfold start_left in Hl.
  destruct (kind_fd proto_icmp PROTO_RAW os) as [fd1 o1] eqn:E1.
  destruct (kind_fd proto_icmp PROTO_ICMP o1) as [fd2 o2] eqn:E2. cbn [fst snd] in Hl. rewrite E2 in Hl.
  destruct (im_sock m1) as [s|] eqn:Es.
  2:{ assert (im_recv m1 = None /\ (fd1 = None \/ fd2 = None)) as [Er Hfd].
      { destruct fd1, fd2; try (destruct Hl; by auto). destruct Hl as [(? & ? & _) _]. congruence. }
      exists false, m1, os1. split; [done|]. split; [|by apply icmp_dtor_pool].
      unfold live in Hp. rewrite Es, Er in Hp. apply pool_nil in Hp.
      destruct fd1, fd2; by destruct Hfd. }
  rewrite Hth. cbn [create Thread_new closing_ thread_ is_joinable stop_requested Z.eqb negb].
  destruct (send_icmp_pool (sfds os) n pid now (with_im_thread (Thr (Some (Joinable w)) false false) m1) os1)
    as (z & m2 & os2 & -> & Hp2 & Hs2 & Hr2 & Ht2 & _); [done|exact Hready|].
  exists true, m2, os2. split; [done|]. split; [|by apply icmp_dtor_pool]. cbn in Hs2, Hr2, Ht2.
  destruct fd1 as [fd1|]; [|destruct Hl; congruence]. destruct fd2 as [fd2|]; [|destruct Hl; congruence].
  destruct Hl as [(s' & Es' & Hfd & _) Hrv]. assert (s' = s) as -> by congruence.
  assert (fd1 <> INVALID_SOCKET /\ fd2 <> INVALID_SOCKET) as [Hi1 Hi2] 
    by (split; eapply kind_fd_valid; [by rewrite E1|by rewrite E2]).
  rewrite Ht2. split_and!; [done|done| |].
  - exists s. rewrite Hs2. split_and!; [done|done|]. rewrite <-Hfd in Hi1 |- *.
    eapply live_open; [done|by left; rewrite Hs2|done].
  - destruct (match b with Some _ => _ | None => _ end).
    + destruct Hrv as (v & Ev & Hv). exists v. rewrite Hr2. split_and!; [done|done|].
      rewrite <-Hv in Hi2 |- *. eapply live_open; [done|by right; rewrite Hr2|done].
    + rewrite Hr2. split; [done|]. intros d os'. unfold recv_select. by rewrite Hr2, Hrv.
Qed.

Lemma icmp_manager_start_witness :
  FdLimit Net.net /\
  exists ok m os1,
    icmp_start (Some 1%Z) 0 (Some (chars "127.0.0.1")) 1 None true 77 (TV 1 2) IcmpManager_new (Net.idle 0)
      = Ok (Some ok, m, os1) /\
    exists os2, icmp_dtor m os1 = Ok os2 /\ sfds os2 = sfds (Net.idle 0).
Proof.
  split; [apply Net.net_limit|].
  destruct (icmp_manager_start (Some 1%Z) (Net.idle 0) 0 (Some (chars "127.0.0.1")) 1 None true 77 (TV 1 2))
    as (ok & m & os1 & Hs & _ & Hd).
  exists ok, m, os1. split; [exact Hs|exact Hd].
Defined.

(** After [reset_link], and after [reset_managers] for every manager, the worker
    finds no receiving socket. *)
Lemma reset_link_null `{SockOs OS} pr m (os : OS) r m' os' :
  reset_link pr m os = Ok (r, m', os') -> im_recv m' = None.
Proof.
  unfold reset_link, mbind, outcome_bind.
  destruct (raw_reset (im_recv m) os) as [os1| |]; [|done|done].
  destruct (raw_reset (im_sock m) os1) as [os2| |]; [|done|done].
  destruct (raw_open pr PROTO_RAW RawSocket_new os2) as [[[r1 s] os3]| |]; [|done|done].
  by intros [= <- <- <-].
Qed.

Lemma reset_managers_null `{SockOs OS} pr ms : forall (os : OS) ms' os' d,
  reset_managers pr ms os = Ok (Some tt, ms', os') ->
  Forall (fun km => recv_select d km.2 os' = Ub NullDeref) ms' /\ map fst ms' = map fst ms.
Proof.
  enough (forall (os : OS) ms' os', reset_managers pr ms os = Ok (Some tt, ms', os') ->
    Forall (fun km => im_recv km.2 = None) ms' /\ map fst ms' = map fst ms) as Hall.
  { intros os ms' os' d Hr. destruct (Hall _ _ _ Hr) as [Hn Hk]. split; [|done].
    eapply Forall_impl; [exact Hn|]. intros km Hkm. unfold recv_select. by rewrite Hkm. }
  induction ms as [|[key mgr] ms IH]; intros os ms' os'; cbn [reset_managers].
  { intros [= <- <-]. by split. }
  unfold mbind, outcome_bind.
  destruct (reset_link pr mgr os) as [[[r mgr'] os1]| |] eqn:Hl; [|done|done].
  apply reset_link_null in Hl. destruct r; [|done].
  destruct (reset_managers pr ms os1) as [[[r2 ms2] os2]| |] eqn:Hr; [|done|done].
  intros [= -> <- <-]. destruct (IH _ _ _ Hr) as [Hn Hk]. cbn [map fst].
  split; [by constructor|by rewrite Hk].
Qed.

(** Each timer event makes the monitor ping every manager once, in the map's
    order, and set the timer again; other events do nothing. *)
Lemma monitor_loop_pings nt al keys iv evs :
  monitor_proc nt al keys iv (fun _ => false) (map Some evs) =
  ATimer iv :: concat (map (fun e => if (usType (h e) =? CI_TIMER_DONE)%Z
    then (if nt then [ANotify] else []) ++ (if al then [AAlive] else []) ++ map ASend keys ++ [ATimer iv]
    else []) evs).
Proof.
  unfold monitor_proc. f_equal. generalize 0%nat. induction evs as [|e evs IH]; intros n; [done|].
  cbn [map monitor_loop concat monitor_round]. destruct (_ =? _)%Z; by rewrite IH.
Qed.
