(* ===== verification/Udp.v ===== *)
(** * UDP servers (include/udpserver.hpp, src/udpserver.cpp)

    The receivers [UUdpReceiver] (Unix sockets) and [IUdpReceiver] (Internet
    sockets) run the same loop over one packet buffer; the servers and
    [UUdpIfThread] send packets through a callback.  The sockets are outside
    this file: [recv_from] is a list of results, [send_to] the bytes handed to
    it.  A callback gets the buffer and the length; what it leaves in the
    buffer is its result. *)

From S2P Require Import Prelude Event.

(** ** The packet as raw bytes *)

(** [sizeof(EVENTINFO)]. *)
Definition nPkSize : nat := MAX_EVENTINFO_SIZE.

(** [h.nMsgLen], an [int] at offset four. *)
Definition get_msglen (buf : list Z) : Z := s32 (le_dec (take 4 (drop 4 buf))).
Definition put_msglen (n : Z) (buf : list Z) : list Z := splice 4 (le_enc 4 (u32 n)) buf.

(** ** The receive loop *)

(** [OnAfterReceive]: null, or what it makes of the buffer it is shown. *)
Abbreviation callback := (option (list Z -> Z -> list Z)).

(** One iteration's [recv_from]: a datagram, or a failed call; or [do_exit]
    is seen first. *)
Inductive rx_event : Type := Datagram (d : list Z) | RecvFailed | ExitSeen.

(** The calls of [OnAfterReceive] so far, and the packet buffer, which is not
    cleared between datagrams. *)
Record rx : Type := Rx { rx_packet : list Z; rx_calls : list (list Z * Z) }.

Definition rx_init : rx := Rx (replicate nPkSize 0%Z) [].

(** [add_event(pBuffer)]. *)
Definition add_event (cb : callback) (r : rx) : rx :=
  let nLen := get_msglen (rx_packet r) in
  match cb with
  | None => r
  | Some f => Rx (f (rx_packet r) nLen) (rx_calls r ++ [(rx_packet r, nLen)])
  end.

(** [UUdpReceiver::add_event(pBuffer)] is the same. *)
Definition uudp_add_event : callback -> rx -> rx := add_event.

(** One iteration; [None] leaves the loop. *)
Definition rx_round (cb : callback) (e : rx_event) (r : rx) : option rx :=
  match e with
  | ExitSeen | RecvFailed => None
  | Datagram d =>
      let data := take nPkSize d in
      let nLen := Z.of_nat (length data) in
      let buf := splice 0 data (rx_packet r) in
      if (nLen <? 1)%Z then None
      else
        let buf := if (nLen =? get_msglen buf)%Z then buf else put_msglen nLen buf in
        Some (add_event cb (Rx buf (rx_calls r)))
  end.

(** [thread_proc]: the final state and whether it still runs. *)
Fixpoint thread_proc (cb : callback) (es : list rx_event) (r : rx) : rx * bool :=
  match es with
  | [] => (r, true)
  | e :: es => match rx_round cb e r with Some r' => thread_proc cb es r' | None => (r, false) end
  end.

(** [UUdpReceiver::add_event(pBuffer, nLen)] wraps the bytes in an event of
    type 1 and subtype 2; [IUdpReceiver]'s passes them on. *)
Definition uudp_wrap (pBuffer : option (list Z)) (nLen : Z) : outcome (list Z * Z) :=
  e ← make_event 1 2 pBuffer nLen; Ok (event_bytes e, nMsgLen (h e)).
Definition iudp_pass (Buffer : list Z) (nLen : Z) : list Z * Z := (Buffer, nLen).

(** ** Sending *)

(** [UUdpSender::send_to(pInfo)] and [IUdpSender::send_to(pInfo)]: as many
    bytes as the length field says. *)
Definition sender_event (buf : list Z) : outcome (list Z) :=
  if (get_msglen buf <? 0)%Z then Ub OutOfBounds else slice 0 (Z.to_nat (get_msglen buf)) buf.
Definition sender_raw (buf : list Z) (nLen : Z) : outcome (list Z) :=
  if (nLen <? 0)%Z then Ub OutOfBounds else slice 0 (Z.to_nat nLen) buf.

(** [OnBeforeSend] may change the buffer and the length it points at. *)
Abbreviation send_callback := (option (list Z -> Z -> list Z * Z)).

(** [UUdpServer::send_to(PEVENTINFO)], [IUdpServer::send_to(PEVENTINFO)]: the
    callback's length is dropped. *)
Definition server_event (cb : send_callback) (buf : list Z) : outcome (list Z) :=
  match cb with
  | None => sender_event buf
  | Some f => sender_event (f buf (get_msglen buf)).1
  end.
(** The [void*] forms use it. *)
Definition server_raw (cb : send_callback) (buf : list Z) (nLen : Z) : outcome (list Z) :=
  match cb with
  | None => sender_raw buf nLen
  | Some f => let '(buf', n') := f buf nLen in sender_raw buf' n'
  end.

(** [UUdpSender]'s forms are those of [IUdpSender] over the Unix socket. *)
Definition uudp_sender_event : list Z -> outcome (list Z) := sender_event.
Definition uudp_sender_raw : list Z -> Z -> outcome (list Z) := sender_raw.

(** [IUdpServer]'s two forms are the same code over [IUdpSender]. *)
Definition iserver_event : send_callback -> list Z -> outcome (list Z) := server_event.
Definition iserver_raw : send_callback -> list Z -> Z -> outcome (list Z) := server_raw.

(** ** [UUdpIfThread] *)
Section ifthread.
Context (send_handle : list Z -> Z -> list Z).

(** [before_send] hands the length on by value. *)
Definition before_send (buf : list Z) (pLen : Z) : list Z * Z := (send_handle buf pLen, pLen).

Definition if_send_to (buf : list Z) (nLen : Z) : outcome (list Z) :=
  let buf1 := put_msglen nLen (send_handle buf nLen) in
  server_event (Some before_send) buf1.
End ifthread.

(** ** Lemmas *)
Lemma nPkSize_pos : (8 <= Z.of_nat nPkSize <= 4096)%Z.
Proof. by vm_compute. Qed.

Lemma length_put_msglen n buf : (8 <= length buf)%nat -> length (put_msglen n buf) = length buf.
Proof. intros Hb. unfold put_msglen. apply length_splice. rewrite length_le_enc. lia. Qed.

Lemma get_put_msglen n buf : in_s32 n -> (8 <= length buf)%nat ->
  get_msglen (put_msglen n buf) = n.
Proof.
  intros Hn Hb. unfold get_msglen, put_msglen.
  replace 4%nat with (length (le_enc 4 (u32 n))) at 1 by apply length_le_enc.
  rewrite splice_read by lia. rewrite le_dec_enc_uw by (apply uwrap_range; lia).
  by apply swrap_uwrap.
Qed.

(** What the callback is shown for a datagram: its length, the length in the
    header, and the datagram's bytes but for the length field. *)
Definition shows (d : list Z) (c : list Z * Z) : Prop :=
  let '(buf, nLen) := c in
  length buf = nPkSize /\ nLen = Z.of_nat (length (take nPkSize d)) /\
  get_msglen buf = nLen /\
  (forall i, (i < length (take nPkSize d))%nat -> (i < 4 \/ 8 <= i)%nat -> buf !! i = d !! i).

Lemma rx_round_shows f d r : d <> [] -> length (rx_packet r) = nPkSize ->
  (forall buf n, length (f buf n) = length buf) ->
  exists buf n, rx_round (Some f) (Datagram d) r = Some (Rx (f buf n) (rx_calls r ++ [(buf, n)])) /\
    shows d (buf, n).
Proof.
  intros Hd Hp Hf. unfold rx_round.
  pose proof nPkSize_pos as Hsz. set (data := take nPkSize d).
  assert (1 <= length data <= nPkSize)%nat as Hl.
  { unfold data. rewrite length_take. destruct d; [done|]. cbn [length]. lia. }
  rewrite (proj2 (Z.ltb_ge _ _)) by lia.
  set (b0 := splice 0 data (rx_packet r)).
  assert (length b0 = nPkSize) as Hb0 by (unfold b0; rewrite length_splice; rewrite Hp; [done|apply Hl]).
  assert (forall i, (i < length data)%nat -> b0 !! i = d !! i) as Hi.
  { intros i Hlt. unfold b0, splice. rewrite take_0. simpl. rewrite lookup_app_l by done.
    unfold data. apply lookup_take_lt. unfold data in Hlt. rewrite length_take in Hlt. lia. }
  unfold add_event. cbn [rx_packet rx_calls]. eexists _, _. split; [reflexivity|].
  destruct (Z.eqb_spec (Z.of_nat (length data)) (get_msglen b0)) as [He|He].
  - split_and!; [done|done|done|]. intros i Hlt _. by apply Hi.
  - assert (in_s32 (Z.of_nat (length data))) as Hs
      by (unfold in_s32, INT32_MIN, INT32_MAX; lia).
    rewrite get_put_msglen by (done || lia).
    split_and!; [by rewrite length_put_msglen by lia|done|by rewrite get_put_msglen by (done || lia)|].
    intros i Hlt Ho. unfold put_msglen.
    rewrite lookup_splice_out by (rewrite ?length_le_enc; lia). by apply Hi.
Qed.

(** ** Properties *)

(** The receive loops deliver every datagram.  As long as the datagrams
    are not empty, the callback is called once per datagram, in order, with
    the number of bytes received (at most the size of an event), a header
    whose length field says the same, and otherwise the datagram's bytes, and
    the loop goes on; an empty datagram ends it, whatever follows. *)
Theorem udp_receiver_delivers f ds es :
  Forall (fun d => d <> []) ds -> (forall buf n, length (f buf n) = length buf) ->
  (exists r, thread_proc (Some f) (map Datagram ds) rx_init = (r, true) /\
     Forall2 shows ds (rx_calls r)) /\
  (exists r, thread_proc (Some f) (map Datagram ds ++ Datagram [] :: es) rx_init = (r, false) /\
     Forall2 shows ds (rx_calls r)).
Proof.
  intros Hds Hf.
  assert (forall ds0 r, length (rx_packet r) = nPkSize -> Forall2 shows ds0 (rx_calls r) ->
    exists r', length (rx_packet r') = nPkSize /\ Forall2 shows (ds0 ++ ds) (rx_calls r') /\
      forall tl, thread_proc (Some f) (map Datagram ds ++ tl) r = thread_proc (Some f) tl r') as Hrun.
  { induction Hds as [|d ds Hd _ IH]; intros ds0 r Hp Hc.
    { exists r. by rewrite app_nil_r. }
    destruct (rx_round_shows f d r Hd Hp Hf) as (buf & n & Hr & Hsh).
    destruct (IH (ds0 ++ [d]) (Rx (f buf n) (rx_calls r ++ [(buf, n)]))) as (r' & Hp' & Hc' & Ht).
    { simpl. rewrite Hf. apply Hsh. } { simpl. apply Forall2_app; [done|]. by constructor. }
    exists r'. rewrite <-app_assoc in Hc'. split_and!; [done|done|].
    intros tl. cbn [map app thread_proc]. by rewrite Hr. }
  destruct (Hrun [] rx_init) as (r & Hp & Hc & Ht); [apply length_replicate|constructor|].
  split; exists r.
  - specialize (Ht []). rewrite app_nil_r in Ht. by rewrite Ht.
  - by rewrite Ht.
Qed.

Lemma udp_receiver_delivers_witness :
  (exists r, thread_proc (Some (fun b _ => b)) (map Datagram [[1; 2; 3]; [4]]%Z) rx_init = (r, true) /\
     Forall2 shows [[1; 2; 3]; [4]]%Z (rx_calls r)) /\
  (exists r, thread_proc (Some (fun b _ => b))
               (map Datagram [[1; 2; 3]; [4]]%Z ++ Datagram [] :: [Datagram [5]%Z]) rx_init = (r, false) /\
     Forall2 shows [[1; 2; 3]; [4]]%Z (rx_calls r)).
Proof.
  apply (udp_receiver_delivers (fun b _ => b) [[1; 2; 3]; [4]]%Z [Datagram [5]%Z]).
  - by repeat constructor.
  - done.
Defined.
