(* ===== verification/MsgQueue.v ===== *)
(** * Message queues (include/msgqueue.hpp, include/mtq.hpp)

    [MsgQueue<P, T>] wraps a System V message queue with a receiver thread;
    [CMsgQueueThread<P, T>] forwards what it receives into the event queue of
    a [QThread].  The kernel's queues are outside the repository: [MsgOs] is
    their interface and [MsgLaws] the documented behaviour of [msgsnd] and
    [msgrcv].  The template parameter [T] is its size [sizeT], a [T] its
    bytes. *)

From S2P Require Import Prelude Sync ThreadLife Event.
Import QThread QThreadFacts.

(** ** The kernel's queues *)
Inductive rcv_result : Type := RcvBlocks | RcvErr (errno : Z) | Rcv (mbody : list Z).

Class MsgOs (K : Type) := {
  ftok : str -> Z -> Z;
  msgget : Z -> K -> Z * K;
  msgsnd : Z -> Z -> list Z -> K -> Z * K;
  msgrcv : Z -> nat -> Z -> K -> rcv_result * K;
  msg_rmid : Z -> K -> K;
}.

(** A queue is a list of messages; a receive of a positive type takes the first
    message of that type and leaves the others in order. *)
Class MsgLaws (K : Type) `{MsgOs K} := {
  kq : Z -> K -> list (Z * list Z);
  snd_ok : forall id ty b k, (msgsnd id ty b k).1 = 0%Z ->
    kq id (msgsnd id ty b k).2 = kq id k ++ [(ty, b)];
  snd_fails : forall id ty b k, (msgsnd id ty b k).1 <> 0%Z ->
    (msgsnd id ty b k).1 = (-1)%Z /\ kq id (msgsnd id ty b k).2 = kq id k;
  rcv_ok : forall id n ty k b k', (0 < ty)%Z -> msgrcv id n ty k = (Rcv b, k') ->
    exists l1 l2, kq id k = l1 ++ (ty, b) :: l2 /\ Forall (fun m => m.1 <> ty) l1 /\
      kq id k' = l1 ++ l2;
  rcv_none : forall id n ty k r k', msgrcv id n ty k = (r, k') ->
    (forall b, r <> Rcv b) -> kq id k' = kq id k;
}.

(** The bodies of the messages of a type, in order. *)
Definition of_type (ty : Z) (l : list (Z * list Z)) : list (list Z) :=
  map snd (filter (fun m => m.1 = ty) l).

Lemma of_type_app ty l1 l2 : of_type ty (l1 ++ l2) = of_type ty l1 ++ of_type ty l2.
Proof. unfold of_type. by rewrite filter_app, map_app. Qed.

Lemma of_type_none ty l : Forall (fun m => m.1 <> ty) l -> of_type ty l = [].
Proof.
  induction 1 as [|m l Hm _ IH]; [done|]. unfold of_type in *. rewrite filter_cons.
  by rewrite decide_False.
Qed.

Lemma of_type_one ty t b : of_type ty [(t, b)] = if (t =? ty)%Z then [b] else [].
Proof.
  unfold of_type. rewrite filter_cons. cbn [fst]. destruct (Z.eqb_spec t ty).
  - by rewrite decide_True.
  - by rewrite decide_False.
Qed.

(** ** [MsgQueue] *)
(** Octal 0660. *)
Definition PERMIT : Z := 432.
Definition MSG_SEND_TYPE : Z := 1.
Definition MSG_RECV_TYPE : Z := 2.
Definition MSG_NONE_TYPE : Z := 0xfffe.
Definition EINTR : Z := 4.

(** A message buffer: [MSGELEM]. *)
Record msgelem : Type := Elem { mtype : Z; mbody : list Z }.

Record msgqueue : Type := MQ {
  mq_thread : thread;
  send_elem_ : msgelem;
  recv_elem_ : msgelem;
  queue_id_ : Z;
  send_id_ : Z;
  recv_id_ : Z;
  has_callback : bool;
  owner_ : bool;
}.

Section msgqueue.
Context (sizeT : nat).

Definition MsgQueue_new : msgqueue :=
  MQ Thread_new (Elem 0 (replicate sizeT 0%Z)) (Elem 0 (replicate sizeT 0%Z)) (-1)
     MSG_SEND_TYPE MSG_RECV_TYPE false false.

Definition with_send_elem (e : msgelem) (q : msgqueue) : msgqueue :=
  MQ (mq_thread q) e (recv_elem_ q) (queue_id_ q) (send_id_ q) (recv_id_ q) (has_callback q) (owner_ q).
Definition with_recv_elem (e : msgelem) (q : msgqueue) : msgqueue :=
  MQ (mq_thread q) (send_elem_ q) e (queue_id_ q) (send_id_ q) (recv_id_ q) (has_callback q) (owner_ q).
Definition set_send_id (ty : Z) (q : msgqueue) : msgqueue :=
  MQ (mq_thread q) (send_elem_ q) (recv_elem_ q) (queue_id_ q) ty (recv_id_ q) (has_callback q) (owner_ q).
Definition set_recv_id (ty : Z) (q : msgqueue) : msgqueue :=
  MQ (mq_thread q) (send_elem_ q) (recv_elem_ q) (queue_id_ q) (send_id_ q) ty (has_callback q) (owner_ q).
Definition set_owner (o : bool) (q : msgqueue) : msgqueue :=
  MQ (mq_thread q) (send_elem_ q) (recv_elem_ q) (queue_id_ q) (send_id_ q) (recv_id_ q) (has_callback q) o.

Context `{MsgOs K}.

(** [start] with the worker's name; [None] is the [exit(-1)] of a failed
    [msgget] or a caller that waits in [create]. *)
Definition mq_start (w : wid) (path : str) (id : Z) (callback : bool) (q : msgqueue) (k : K)
    : option (bool * msgqueue * K) :=
  let '(qid, k1) := msgget (ftok path id) k in
  if (qid =? -1)%Z then None
  else
    '(r, _, t) ← create w (mq_thread q);
    Some (negb (r =? 0)%Z,
          MQ t (send_elem_ q) (recv_elem_ q) qid (send_id_ q) (recv_id_ q) callback (owner_ q), k1).

(** [send] in its three steps on the shared buffer; [send_type] is its local
    [type]. *)
Definition send_type (type_ : Z) (q : msgqueue) : Z :=
  if (type_ =? -1)%Z then send_id_ q else type_.
Definition send_fill_type (type_ : Z) (q : msgqueue) : msgqueue :=
  with_send_elem (Elem (send_type type_ q) (mbody (send_elem_ q))) q.
Definition send_fill_body (elem : list Z) (q : msgqueue) : outcome msgqueue :=
  b ← slice 0 sizeT elem; Ok (with_send_elem (Elem (mtype (send_elem_ q)) b) q).
Definition send_post (q : msgqueue) (k : K) : Z * K :=
  msgsnd (queue_id_ q) (mtype (send_elem_ q)) (mbody (send_elem_ q)) k.

Definition mq_send (elem : list Z) (type_ : Z) (q : msgqueue) (k : K) : outcome (Z * msgqueue * K) :=
  q2 ← send_fill_body elem (send_fill_type type_ q);
  let '(r, k') := send_post q2 k in Ok (r, q2, k').

Definition mq_remove (q : msgqueue) (k : K) : K := msg_rmid (queue_id_ q) k.

(** One round of [thread_proc]: the arguments of the callback, if it is
    called; [None] when [msgrcv] blocks. *)
Definition rcv_round (q : msgqueue) (k : K) : option (option (bool * list Z) * msgqueue * K) :=
  let '(r, k1) := msgrcv (queue_id_ q) sizeT (recv_id_ q) k in
  match r with
  | RcvBlocks => None
  | RcvErr _ => Some (None, with_recv_elem (Elem (recv_id_ q) (mbody (recv_elem_ q))) q, k1)
  | Rcv b =>
      let body := splice 0 b (mbody (recv_elem_ q)) in
      Some (if has_callback q then Some (owner_ q, body) else None,
            with_recv_elem (Elem (recv_id_ q) body) q, k1)
  end.

(** ** [CMsgQueueThread] *)
Record mqthread : Type := MT { mt_queue : msgqueue; mt_q : qthread }.

Definition CMsgQueueThread_new (nBufferLen : Z) : mqthread :=
  MT MsgQueue_new (QThread.new nBufferLen).

(** [start] up to the receiver's creation, and the rest: a message can arrive
    in between. *)
Definition mt_start_begin (w : wid) (path : str) (id type_ : Z) (m : mqthread) (k : K)
    : option (mqthread * K) :=
  '(_, q, k') ← mq_start w path id true (set_recv_id type_ (set_send_id MSG_RECV_TYPE (mt_queue m))) k;
  Some (MT q (mt_q m), k').
Definition mt_start_end (w : wid) (m : mqthread) : option mqthread :=
  '(_, _, t) ← QThread.start w (mt_q m);
  Some (MT (set_owner true (mt_queue m)) t).

(** The callback. *)
Definition MsgQueueRecv (self : bool) (pBuffer : list Z) (t : qthread) : outcome (bool * qthread) :=
  if negb self then Ok (false, t)
  else add_event 0 0 (Some pBuffer) (Z.of_nat sizeT) t.

(** The receiver's round with the callback in place. *)
Definition mt_round (m : mqthread) (k : K) : option (outcome (option bool * mqthread * K)) :=
  match rcv_round (mt_queue m) k with
  | None => None
  | Some (None, q, k') => Some (Ok (None, MT q (mt_q m), k'))
  | Some (Some (self, body), q, k') =>
      Some ('(ok, t) ← MsgQueueRecv self body (mt_q m); Ok (Some ok, MT q t, k'))
  end.

(** [GetQueue]: whether it returns null or the address of the payload in the event
    queue's scratch event, and what a read through that address finds. *)
Definition GetQueue (m : mqthread) : bool * mqthread :=
  let '(e, t) := try_remove (mt_q m) in
  (match e with Some _ => true | None => false end, MT (mt_queue m) t).
Definition got_message (m : mqthread) : list Z :=
  take sizeT (Value (Queue.deref (qt_queue (mt_q m)))).
Definition PutQueue (pMsg : list Z) (m : mqthread) (k : K) : outcome (bool * mqthread * K) :=
  '(r, q, k') ← mq_send pMsg (-1) (mt_queue m) k; Ok (negb (r =? -1)%Z, MT q (mt_q m), k').
End msgqueue.

(** ** Runs *)

(** Where a thread is in [send]: outside, with the type stored, with the body
    copied; with the arguments of its call. *)
Inductive spc : Type := SIdle | STyped (elem : list Z) (ty : Z) | SFilled (elem : list Z) (ty : Z).

(** The [CMsgQueueThread] that receives and the thread that sends with it, the
    [MsgQueue] objects other processes send with, each with its one sending
    thread, and the kernel. *)
Record mstate (K : Type) : Type := MS {
  ms_mt : mqthread; ms_pc : spc; ms_peers : list (msgqueue * spc); ms_kern : K;
}.
Arguments MS {K} _ _ _ _.
Arguments ms_mt {K} _.
Arguments ms_pc {K} _.
Arguments ms_peers {K} _.
Arguments ms_kern {K} _.

(** The return of a [send] with its arguments and its result, a step inside one,
    rounds of the receiver with the callback's answer, returns of [GetQueue] and
    reads through the pointer it returned, and the end of [start]. *)
Inductive mlab : Type :=
| LSend (ty : Z) (elem : list Z) (r : Z) | LTau | LTake (b : list Z) (ok : bool) | LRetry
| LGet (found : bool) | LRead (b : list Z) | LOwner.

Section runs.
Context (sizeT : nat) `{MsgLaws K}.

(** A step of a thread in [send]. *)
Inductive send_step : msgqueue * spc * K -> mlab -> msgqueue * spc * K -> Prop :=
| ss_type elem type_ q k :
    send_step (q, SIdle, k) LTau (send_fill_type type_ q, STyped elem (send_type type_ q), k)
| ss_body elem ty q q' k :
    send_fill_body sizeT elem q = Ok q' -> send_step (q, STyped elem ty, k) LTau (q', SFilled elem ty, k)
| ss_post elem ty q r k k' :
    send_post q k = (r, k') -> send_step (q, SFilled elem ty, k) (LSend ty elem r) (q, SIdle, k').

Inductive mstep : mstate K -> mlab -> mstate K -> Prop :=
| m_send l m pc ps k q' pc' k' :
    send_step (mt_queue m, pc, k) l (q', pc', k') ->
    mstep (MS m pc ps k) l (MS (MT q' (mt_q m)) pc' ps k')
| m_peer l m pc ps1 q1 pc1 ps2 k q1' pc1' k' :
    send_step (q1, pc1, k) l (q1', pc1', k') ->
    mstep (MS m pc (ps1 ++ (q1, pc1) :: ps2) k) l (MS m pc (ps1 ++ (q1', pc1') :: ps2) k')
| m_take ok m pc ps k m' k' :
    mt_round sizeT m k = Some (Ok (Some ok, m', k')) ->
    mstep (MS m pc ps k) (LTake (mbody (recv_elem_ (mt_queue m'))) ok) (MS m' pc ps k')
| m_retry m pc ps k m' k' :
    mt_round sizeT m k = Some (Ok (None, m', k')) -> mstep (MS m pc ps k) LRetry (MS m' pc ps k')
| m_get b m pc ps k m' : GetQueue m = (b, m') -> mstep (MS m pc ps k) (LGet b) (MS m' pc ps k)
| m_read m pc ps k : mstep (MS m pc ps k) (LRead (got_message sizeT m)) (MS m pc ps k)
| m_owner w m pc ps k m' : mt_start_end w m = Some m' -> mstep (MS m pc ps k) LOwner (MS m' pc ps k).

Inductive mrun : mstate K -> list mlab -> mstate K -> Prop :=
| mrun_nil s : mrun s [] s
| mrun_snoc s tr s1 l s2 : mrun s tr s1 -> mstep s1 l s2 -> mrun s (tr ++ [l]) s2.

(** Undisturbed, the three steps are [send]. *)
Lemma send_steps elem type_ q k r q' k' : mq_send sizeT elem type_ q k = Ok (r, q', k') ->
  exists q1, send_step (q, SIdle, k) LTau (q1, STyped elem (send_type type_ q), k) /\
    send_step (q1, STyped elem (send_type type_ q), k) LTau (q', SFilled elem (send_type type_ q), k) /\
    send_step (q', SFilled elem (send_type type_ q), k) (LSend (send_type type_ q) elem r) (q', SIdle, k').
Proof.
  unfold mq_send, mbind, outcome_bind. intros Hs. exists (send_fill_type type_ q).
  destruct (send_fill_body sizeT elem (send_fill_type type_ q)) as [q2| |] eqn:Hb; [|done|done].
  destruct (send_post q2 k) as [r1 k1] eqn:Hp. simplify_eq.
  split_and!; [apply ss_type|by apply ss_body|by apply ss_post].
Qed.
End runs.

(** The bodies of type [ty] whose [send] reported success; taken by the receiver;
    accepted by its callback; read by the consumer. *)
Definition sent (sizeT : nat) (ty : Z) (tr : list mlab) : list (list Z) :=
  omap (fun l => match l with
                 | LSend t e r => if (t =? ty)%Z && negb (r =? -1)%Z then Some (take sizeT e) else None
                 | _ => None end) tr.
Definition taken (tr : list mlab) : list (list Z) :=
  omap (fun l => match l with LTake b _ => Some b | _ => None end) tr.
Definition accepted (tr : list mlab) : list (list Z) :=
  omap (fun l => match l with LTake b true => Some b | _ => None end) tr.
Definition obtained (tr : list mlab) : list (list Z) :=
  omap (fun l => match l with LRead b => Some b | _ => None end) tr.

(** The single-consumer contract: each message is read, once, before the next call
    of [GetQueue]; [Some u] when the trace keeps to it, [u] telling whether a message
    was returned and not read yet. *)
Definition consume (u : option bool) (l : mlab) : option bool :=
  match u, l with
  | Some false, LGet b => Some b
  | Some true, LGet _ => None
  | Some true, LRead _ => Some false
  | Some false, LRead _ => None
  | _, _ => u
  end.
Definition consumed (tr : list mlab) : option bool := fold_left consume tr (Some false).

Lemma consumed_snoc tr l u : consumed (tr ++ [l]) = Some u ->
  exists u0, consumed tr = Some u0 /\ consume (Some u0) l = Some u.
Proof.
  unfold consumed. rewrite fold_left_app. cbn [fold_left].
  destruct (fold_left consume tr (Some false)) as [u0|]; [eauto|done].
Qed.

Definition payload (sizeT : nat) (e : EVENTINFO) : list Z := take sizeT (Value e).

Section delivery.
Context (sizeT : nat) `{MsgLaws K}.
Context (Hsize : (sizeT <= MAX_VALUE_SIZE)%nat).
Context (id ty : Z) (Hty : (0 < ty)%Z).
Implicit Types (m : mqthread) (k : K).

(** A started object, receiving messages of type [ty] from queue [id]. *)
Definition listening (m : mqthread) (k : K) : Prop :=
  let q := mt_queue m in
  queue_id_ q = id /\ recv_id_ q = ty /\ has_callback q = true /\
  length (mbody (recv_elem_ q)) = sizeT /\
  Forall (fun b => length b = sizeT) (of_type ty (kq id k)).

(** A sender's buffer holds what its call has stored in it so far. *)
Definition sender_ok (p : msgqueue * spc) : Prop :=
  queue_id_ p.1 = id /\
  match p.2 with
  | SIdle => True
  | STyped _ t => mtype (send_elem_ p.1) = t
  | SFilled e t => send_elem_ p.1 = Elem t (take sizeT e) /\ (sizeT <= length e)%nat
  end.

(** The object listens, and all send to its queue. *)
Definition minv (s : mstate K) : Prop :=
  listening (ms_mt s) (ms_kern s) /\ sender_ok (mt_queue (ms_mt s), ms_pc s) /\
  Forall sender_ok (ms_peers s).

Lemma splice_full (b l : list Z) : length b = length l -> splice 0 b l = b.
Proof.
  intros Hl. unfold splice. rewrite take_0. cbn. rewrite drop_ge by lia. by rewrite app_nil_r.
Qed.

(** What a message becomes in the event queue. *)
Lemma recv_adds b t : length b = sizeT ->
  exists r, MsgQueueRecv sizeT true b t = Ok r /\
    Queue.q_scratch (qt_queue r.2) = Queue.q_scratch (qt_queue t) /\
    (r.1 = true -> exists e, items r.2 = items t ++ [e] /\ payload sizeT e = b) /\
    (r.1 = false -> r.2 = t /\
       (Queue.q_closed (qt_queue t) = true \/ (max t <= Queue.size_int (qt_queue t))%Z)).
Proof.
  intros Hb. destruct (make_event_spec 0 0 b (Z.of_nat sizeT)) as (e & He & _ & _ & _ & _ & Hv);
    [lia|lia|].
  exists (add e t). unfold MsgQueueRecv, add_event, mbind, outcome_bind. cbn [negb]. rewrite He.
  split; [done|]. unfold add, Queue.put, max.
  destruct (Queue.q_closed (qt_queue t) || _) eqn:E; cbn; split_and!; try done.
  - intros _. split; [by destruct t|]. apply orb_true_iff in E as [E|E]; [by left|].
    right. by apply Z.leb_le.
  - intros _. exists e. split; [done|]. unfold payload. rewrite Nat2Z.id in Hv. rewrite Hv.
    by rewrite take_ge by lia.
Qed.

(** A round of the receiver on a listening object takes the first message of
    its type. *)
Lemma round_takes m k ok m' k' : listening m k ->
  mt_round sizeT m k = Some (Ok (Some ok, m', k')) ->
  let b := mbody (recv_elem_ (mt_queue m')) in
  listening m' k' /\ send_elem_ (mt_queue m') = send_elem_ (mt_queue m) /\
  of_type ty (kq id k) = b :: of_type ty (kq id k') /\
  Queue.deref (qt_queue (mt_q m')) = Queue.deref (qt_queue (mt_q m)) /\
  (ok = true -> map (payload sizeT) (items (mt_q m')) = map (payload sizeT) (items (mt_q m)) ++ [b]) /\
  (ok = false -> mt_q m' = mt_q m /\
     (owner_ (mt_queue m) = false \/ Queue.q_closed (qt_queue (mt_q m)) = true \/
      (max (mt_q m) <= Queue.size_int (qt_queue (mt_q m)))%Z)).
Proof.
  intros (Hid & Hrid & Hcb & Hlen & Hall). unfold mt_round, rcv_round.
  rewrite Hcb, Hid, Hrid. destruct (msgrcv id sizeT ty k) as [r k1] eqn:Hr.
  destruct r as [|e|b]; [done|done|].
  destruct (rcv_ok _ _ _ _ _ _ Hty Hr) as (l1 & l2 & Hk & Hl1 & Hk1).
  assert (of_type ty (kq id k) = b :: of_type ty (kq id k1)) as Hof.
  { rewrite Hk, Hk1, !of_type_app, (of_type_none ty l1 Hl1). unfold of_type. rewrite filter_cons.
    by rewrite decide_True. }
  rewrite Hof in Hall. apply Forall_cons in Hall as [Hb Hall].
  rewrite splice_full by congruence.
  destruct (owner_ (mt_queue m)) eqn:Ho.
  - destruct (recv_adds b (mt_q m) Hb) as ([ok1 t1] & Hadd & Hscr & Htrue & Hfalse).
    unfold mbind, outcome_bind. rewrite Hadd. intros [= -> <- <-]. cbn in *.
    split_and!; try done.
    + intros ->. destruct (Htrue eq_refl) as (e & He & Hp). rewrite He, map_app. cbn. by rewrite Hp.
    + intros ->. destruct (Hfalse eq_refl) as [-> [?|?]]; auto.
  - cbn. intros [= <- <- <-]. cbn. split_and!; try done. auto.
Qed.

(** A round that hands nothing on leaves messages and events alone. *)
Lemma round_retries m k m' k' : listening m k ->
  mt_round sizeT m k = Some (Ok (None, m', k')) ->
  listening m' k' /\ send_elem_ (mt_queue m') = send_elem_ (mt_queue m) /\
  kq id k' = kq id k /\ mt_q m' = mt_q m.
Proof.
  intros (Hid & Hrid & Hcb & Hlen & Hall). unfold mt_round, rcv_round.
  rewrite Hcb, Hid, Hrid. destruct (msgrcv id sizeT ty k) as [r k1] eqn:Hr.
  destruct r as [|e|b]; [done| |].
  - intros [= <- <-]. pose proof (rcv_none _ _ _ _ _ _ Hr) as Hn.
    assert (kq id k1 = kq id k) as Hk by (by apply Hn). unfold listening. cbn. by rewrite Hk.
  - unfold mbind, outcome_bind.
    by destruct (MsgQueueRecv sizeT (owner_ (mt_queue m)) _ (mt_q m)) as [[ok t]| |].
Qed.

(** [GetQueue] moves the first event into the scratch event. *)
Lemma get_removes m b m' : GetQueue m = (b, m') ->
  mt_queue m' = mt_queue m /\
  (if b then map (payload sizeT) (items (mt_q m)) = got_message sizeT m' :: map (payload sizeT) (items (mt_q m'))
   else items (mt_q m) = [] /\ items (mt_q m') = []).
Proof.
  unfold GetQueue, try_remove, Queue.try_get, items, got_message.
  destruct (Queue.q_items (qt_queue (mt_q m))) as [|e es] eqn:E; cbn; intros [= <- <-]; cbn; [|done].
  by rewrite E.
Qed.

(** A step in [send]: the buffer is the caller's, so the message posted under the
    type asked for is the one passed. *)
Lemma send_step_spec q pc k l q' pc' k' : sender_ok (q, pc) ->
  send_step sizeT (q, pc, k) l (q', pc', k') ->
  sender_ok (q', pc') /\ q' = with_send_elem (send_elem_ q') q /\
  Forall (fun b => length b = sizeT) (sent sizeT ty [l]) /\
  of_type ty (kq id k') = of_type ty (kq id k) ++ sent sizeT ty [l] /\
  taken [l] = [] /\ accepted [l] = [] /\ obtained [l] = [] /\
  (forall u, consume (Some u) l = Some u).
Proof.
  intros [Hid Hpc] Hst. cbn [fst snd] in *. inversion Hst as [|? ? ? ? ? Hb|e t ? r ? ? Hp]; subst; cbn [fst snd].
  - cbn. rewrite app_nil_r. split_and!; try done; by intros [].
  - unfold send_fill_body, slice, mbind, outcome_bind in Hb. case_ifs; [|done]. simplify_eq/=.
    rewrite app_nil_r. split_and!; try done; try (by intros []).
  - destruct Hpc as [He Hlen]. unfold send_post in Hp. rewrite He, Hid in Hp. cbn in Hp.
    split_and!; try done; try (by destruct q'); try (by intros []).
    + unfold sent. cbn. destruct (t =? ty)%Z, (negb (r =? -1)%Z); cbn; repeat constructor.
      rewrite length_take. lia.
    + unfold sent. cbn. destruct (decide (r = 0)%Z) as [->|Hr].
      * pose proof (snd_ok id t (take sizeT e) k) as Hk. rewrite Hp in Hk. cbn in Hk.
        rewrite Hk, of_type_app, of_type_one by done. by destruct (t =? ty)%Z.
      * destruct (snd_fails id t (take sizeT e) k) as [Hm Hk]; [by rewrite Hp|].
        rewrite Hp in Hm, Hk. cbn in Hm, Hk. subst r. rewrite Hk, andb_false_r. by rewrite app_nil_r.
Qed.

Lemma sender_ok_other q q' pc : queue_id_ q' = queue_id_ q -> send_elem_ q' = send_elem_ q ->
  sender_ok (q, pc) -> sender_ok (q', pc).
Proof. unfold sender_ok. cbn. by intros -> ->. Qed.

(** The kernel's part of the books after a [send] step. *)
Lemma listening_send m m' k k' l :
  (exists e, mt_queue m' = with_send_elem e (mt_queue m)) -> listening m k ->
  Forall (fun b => length b = sizeT) (sent sizeT ty [l]) ->
  of_type ty (kq id k') = of_type ty (kq id k) ++ sent sizeT ty [l] -> listening m' k'.
Proof.
  intros [e He] (? & ? & ? & ? & ?) Hl Hk. unfold listening. rewrite He, Hk. cbn.
  split_and!; try done. by apply Forall_app.
Qed.

(** One step: the books it keeps. *)
Definition to_read (u : bool) (m : mqthread) : list (list Z) := if u then [got_message sizeT m] else [].
Definition queued_msgs (m : mqthread) : list (list Z) := map (payload sizeT) (items (mt_q m)).

Lemma mstep_books s l s' : minv s -> mstep sizeT s l s' ->
  minv s' /\
  of_type ty (kq id (ms_kern s)) ++ sent sizeT ty [l] = taken [l] ++ of_type ty (kq id (ms_kern s')) /\
  (forall u u', consume (Some u) l = Some u' ->
     to_read u (ms_mt s) ++ queued_msgs (ms_mt s) ++ accepted [l] =
     obtained [l] ++ to_read u' (ms_mt s') ++ queued_msgs (ms_mt s')).
Proof.
  intros (Hl & Hs & Hps) Hst.
  inversion Hst as [? m pc ps k q' pc' k' Hss|? m pc ps1 q1 pc1 ps2 k q1' pc1' k' Hss
    |ok m pc ps k m' k' Hr|m pc ps k m' k' Hr|b m pc ps k m' Hg|m pc ps k|w m pc ps k m' Ho];
    subst; cbn [ms_mt ms_pc ms_peers ms_kern] in *.
  - destruct (send_step_spec _ _ _ _ _ _ _ Hs Hss) as (Hs' & Hq & Hf & Hk & Ht & Ha & Ho & Hu).
    split_and!; [split_and!; [|done|done]| |].
    + eapply listening_send; eauto.
    + by rewrite Hk, Ht.
    + intros u u'. rewrite Hu. intros [= <-]. by rewrite Ha, Ho, app_nil_r.
  - apply Forall_app in Hps as [Hp1 Hp2]. apply Forall_cons in Hp2 as [Hp Hp2].
    destruct (send_step_spec _ _ _ _ _ _ _ Hp Hss) as (Hp' & Hq & Hf & Hk & Ht & Ha & Ho & Hu).
    (split; [split; [|split]|split]).
    + eapply (listening_send m m); eauto. exists (send_elem_ (mt_queue m)). by destruct m as [ [] ].
    + done.
    + apply Forall_app. auto.
    + by rewrite Hk, Ht.
    + intros u u'. rewrite Hu. intros [= <-]. by rewrite Ha, Ho, app_nil_r.
  - destruct (round_takes _ _ _ _ _ Hl Hr) as (Hl' & He & Hof & Hd & Htrue & Hfalse).
    split_and!; [split_and!; [done| |done]| |].
    + eapply sender_ok_other; [|exact He|exact Hs]. cbn. by rewrite (proj1 Hl), (proj1 Hl').
    + cbn. by rewrite Hof, app_nil_r.
    + intros u u' Hu. assert (u' = u) as -> by (destruct u; cbn in Hu; congruence).
      unfold to_read, got_message, queued_msgs. rewrite Hd. cbn. f_equal.
      destruct ok; [by rewrite Htrue|]. destruct (Hfalse eq_refl) as [-> _]. by rewrite app_nil_r.
  - destruct (round_retries _ _ _ _ Hl Hr) as (Hl' & He & Hof & Hqq).
    split_and!; [split_and!; [done| |done]| |].
    + eapply sender_ok_other; [|exact He|exact Hs]. cbn. by rewrite (proj1 Hl), (proj1 Hl').
    + cbn. by rewrite Hof, app_nil_r.
    + intros u u' Hu. assert (u' = u) as -> by (destruct u; cbn in Hu; congruence).
      unfold to_read, got_message, queued_msgs. by rewrite Hqq, app_nil_r.
  - destruct (get_removes _ _ _ Hg) as [Hmq Hit].
    split_and!; [split_and!; [|cbn; by rewrite Hmq|done]| |].
    + cbn. unfold listening in *. by rewrite Hmq.
    + by rewrite app_nil_r.
    + intros u u'. destruct u; [done|]. intros [= <-]. unfold queued_msgs. rewrite app_nil_r. cbn.
      destruct b; [done|]. destruct Hit as [-> ->]. done.
  - split_and!; [done|by rewrite app_nil_r|].
    intros u u'. destruct u; [|done]. intros [= <-]. by rewrite app_nil_r.
  - unfold mt_start_end, QThread.start in Ho.
    destruct (create w (qt_thread (mt_q m))) as [ [ [r l1] t] |]; [|done]. cbn in Ho. simplify_eq.
    split_and!; [done|by rewrite app_nil_r|].
    intros u u' Hu. assert (u' = u) as -> by (destruct u; cbn in Hu; congruence).
    by rewrite app_nil_r.
Qed.

(** The books of a run: nothing is lost in the kernel, nothing between the
    event queue and the consumer. *)
Lemma mrun_books s0 tr s : minv s0 -> items (mt_q (ms_mt s0)) = [] -> mrun sizeT s0 tr s ->
  minv s /\
  of_type ty (kq id (ms_kern s0)) ++ sent sizeT ty tr = taken tr ++ of_type ty (kq id (ms_kern s)) /\
  (forall u, consumed tr = Some u ->
     accepted tr = obtained tr ++ to_read u (ms_mt s) ++ queued_msgs (ms_mt s)).
Proof.
  intros Hl0 Hi0 Hrun. induction Hrun as [s|s tr s1 l s2 Hrun IH Hst].
  { split_and!; [done|by rewrite app_nil_r|]. intros u [= <-]. unfold queued_msgs. by rewrite Hi0. }
  destruct (IH Hl0 Hi0) as (Hm & Hk & Hq). destruct (mstep_books _ _ _ Hm Hst) as (Hm' & Hk' & Hq').
  split_and!; [done| |].
  - unfold sent, taken in *. rewrite !omap_app, app_assoc, Hk, <-app_assoc, Hk'. by rewrite app_assoc.
  - intros u Hu. apply consumed_snoc in Hu as (u0 & Hu0 & Hu). specialize (Hq u0 Hu0).
    specialize (Hq' u0 u Hu). unfold accepted, obtained in *.
    rewrite !omap_app, Hq, <-!app_assoc. f_equal. exact Hq'.
Qed.
End delivery.

(** ** A kernel with one queue *)
Module SysV.
Definition kern : Type := list (Z * list Z).

Fixpoint take_type (ty : Z) (l : kern) : option (list Z * kern) :=
  match l with
  | [] => None
  | (t, b) :: l =>
      if (t =? ty)%Z then Some (b, l)
      else match take_type ty l with Some (b', l') => Some (b', (t, b) :: l') | None => None end
  end.

#[global] Instance sysv : MsgOs kern := {
  ftok _ id := id;
  msgget key k := (key, k);
  msgsnd _ ty b k := if (0 <? ty)%Z then (0%Z, k ++ [(ty, b)]) else ((-1)%Z, k);
  msgrcv _ _ ty k := match take_type ty k with Some (b, k') => (Rcv b, k') | None => (RcvBlocks, k) end;
  msg_rmid _ _ := [];
}.

Lemma take_type_spec ty l b l' : take_type ty l = Some (b, l') ->
  exists l1 l2, l = l1 ++ (ty, b) :: l2 /\ Forall (fun m => m.1 <> ty) l1 /\ l' = l1 ++ l2.
Proof.
  revert l'. induction l as [|[t c] l IH]; intros l' Hl; cbn in Hl; [done|].
  destruct (Z.eqb_spec t ty) as [->|Hne]; [simplify_eq; by exists [], l'|].
  destruct (take_type ty l) as [[b1 l1]|]; [|done]. simplify_eq.
  destruct (IH l1 eq_refl) as (x & y & -> & Hx & ->). exists ((t, c) :: x), y.
  split_and!; [done|by constructor|done].
Qed.

#[global] Instance sysv_laws : MsgLaws kern.
Proof.
  refine {| kq _ k := k |}; cbn.
  - intros _ ty b k. by destruct (0 <? ty)%Z.
  - intros _ ty b k. by destruct (0 <? ty)%Z.
  - intros _ _ ty k b k' _ Hr. destruct (take_type ty k) as [[b1 k1]|] eqn:E; [|done].
    simplify_eq. by apply take_type_spec.
  - intros _ _ ty k r k' Hr Hn. destruct (take_type ty k) as [[b1 k1]|]; simplify_eq; [|done].
    by destruct (Hn b1).
Defined.
End SysV.

(** ** What the shared buffer and the order of [start] allow *)

(** [send_elem_] is filled and posted without a lock: of two senders, one can
    post the other's body under its own type, and its own message is never
    sent. *)
Lemma send_race_mixes (q : msgqueue) (k : SysV.kern) a b :
  length a = 2%nat -> length b = 2%nat ->
  match send_fill_body 2 a (send_fill_type 5 q) with
  | Ok q1 =>
      match send_fill_body 2 b q1 with
      | Ok q2 => (send_post q2 k).2 = k ++ [(5%Z, b)]
      | _ => False
      end
  | _ => False
  end.
Proof.
  intros Ha Hb. unfold send_fill_body, mbind, outcome_bind.
  rewrite !slice_ok by lia. cbn. by rewrite drop_0, take_ge by lia.
Qed.

(** ** Properties *)

(** C28: message delivery.  A [CMsgQueueThread] that receives type [ty], and any
    number of [MsgQueue<P, T>] objects (its own among them) that send to its queue,
    each used by one sending thread, with messages that fit an event.  In every
    interleaving of the steps of [send], the receiver thread and the caller of
    [GetQueue]: the messages of that type that were in the queue, followed by those
    passed to a [send] that reported success, are, in order and byte for byte, those
    the receiver took followed by those still in the kernel.  When the one consumer
    reads the message [GetQueue] points at before it calls it again, the messages
    the callback accepted are those it read, the one it has yet to read and those in
    the event queue.  A message is dropped in between only while [start] has not set
    the owner, or when the event queue is full or shut down.  Assumed of the kernel:
    a send that succeeds appends, a receive takes the first message of the type. *)
Theorem msgqueue_delivery (sizeT : nat) `{MsgLaws K} (id ty : Z) (s0 s : mstate K) tr :
  (sizeT <= MAX_VALUE_SIZE)%nat -> (0 < ty)%Z ->
  listening sizeT id ty (ms_mt s0) (ms_kern s0) -> items (mt_q (ms_mt s0)) = [] ->
  ms_pc s0 = SIdle -> Forall (fun p => queue_id_ p.1 = id /\ p.2 = SIdle) (ms_peers s0) ->
  mrun sizeT s0 tr s ->
  of_type ty (kq id (ms_kern s0)) ++ sent sizeT ty tr = taken tr ++ of_type ty (kq id (ms_kern s)) /\
  (forall unread, consumed tr = Some unread ->
     accepted tr = obtained tr ++ (if unread then [got_message sizeT (ms_mt s)] else []) ++
                   map (payload sizeT) (items (mt_q (ms_mt s)))) /\
  (forall b s', mstep sizeT s (LTake b false) s' ->
     owner_ (mt_queue (ms_mt s)) = false \/ Queue.q_closed (qt_queue (mt_q (ms_mt s))) = true \/
     (max (mt_q (ms_mt s)) <= Queue.size_int (qt_queue (mt_q (ms_mt s))))%Z).
Proof.
  intros Hsz Hty Hl Hi Hpc Hps Hrun.
  assert (minv sizeT id ty s0) as Hm0.
  { split_and!; [done| |].
    - split; [apply Hl|]. cbn. by rewrite Hpc.
    - eapply Forall_impl; [exact Hps|]. intros [q pc] [Hid Hp]. cbn in *. subst pc. done. }
  destruct (mrun_books sizeT Hsz id ty Hty s0 tr s Hm0 Hi Hrun) as ((Hl' & _) & Hk & Hq).
  split_and!; [done|exact Hq|]. intros b s' Hst.
  inversion Hst as [? ? ? ? ? ? ? ? Hs|? ? ? ? ? ? ? ? ? ? ? Hs|? ? ? ? ? ? ? Hr| | | |]; subst;
    [by inversion Hs|by inversion Hs|].
  destruct (round_takes sizeT Hsz id ty Hty _ _ _ _ _ Hl' Hr) as (_ & _ & _ & _ & _ & Hf).
  by destruct (Hf eq_refl).
Qed.

(** An object between the two halves of [start], and a queue with one message
    of its type. *)
Definition demo_mt : mqthread :=
  MT (MQ (Thr (Some (Joinable 0)) false false) (Elem 0 [0; 0]%Z) (Elem 0 [0; 0]%Z) 9 2 1 true false)
     (QThread.new 4).
Definition demo_kern : SysV.kern := [(2, [7; 7]); (1, [3; 4])]%Z.

(** That message is lost: the callback finds no owner. *)
Lemma early_message_dropped :
  exists m k, mrun 2 (MS demo_mt SIdle [] demo_kern) [LTake [3; 4]%Z false; LOwner] (MS m SIdle [] k) /\
    of_type 1 k = [] /\ items (mt_q m) = [].
Proof.
  set (m1 := MT (with_recv_elem (Elem 1 [3; 4]%Z) (mt_queue demo_mt)) (mt_q demo_mt)).
  set (k1 := [(2, [7; 7])]%Z : SysV.kern).
  exists (MT (set_owner true (mt_queue m1)) (QT (Thr (Some (Joinable 1)) false false) (qt_queue (mt_q m1)))),
    k1.
  split; [|done].
  apply (mrun_snoc 2 _ [LTake [3; 4]%Z false] (MS m1 SIdle [] k1)); [|by apply (m_owner _ 1%nat)].
  apply (mrun_snoc 2 _ [] (MS demo_mt SIdle [] demo_kern)); [apply mrun_nil|].
  exact (m_take 2 false demo_mt SIdle [] demo_kern m1 k1 eq_refl).
Qed.

Definition demo_owned : mqthread := MT (set_owner true (mt_queue demo_mt)) (mt_q demo_mt).

(** A peer sends a message of the object's type. *)
Definition demo_peer : msgqueue :=
  MQ Thread_new (Elem 0 [0; 0]%Z) (Elem 0 [0; 0]%Z) 9 1 2 false false.
Definition demo_peer2 : msgqueue := with_send_elem (Elem 1 [5; 6]%Z) demo_peer.
Definition demo_kern2 : SysV.kern := demo_kern ++ [(1, [5; 6])]%Z.
Definition demo_start : mstate SysV.kern := MS demo_owned SIdle [(demo_peer, SIdle)] demo_kern.
Definition demo_sent : mstate SysV.kern := MS demo_owned SIdle [(demo_peer2, SIdle)] demo_kern2.
Definition demo_trace : list mlab := [LTau; LTau; LSend 1 [5; 6]%Z 0].

Lemma demo_send_run : mrun 2 demo_start demo_trace demo_sent.
Proof.
  destruct (send_steps 2 [5; 6]%Z (-1) demo_peer demo_kern 0 demo_peer2 demo_kern2)
    as (q1 & H1 & H2 & H3); [vm_compute; reflexivity|].
  apply (mrun_snoc 2 _ [LTau; LTau] (MS demo_owned SIdle [(demo_peer2, SFilled [5; 6]%Z 1)] demo_kern));
    [|by apply (m_peer _ _ _ _ [] _ _ [])].
  apply (mrun_snoc 2 _ [LTau] (MS demo_owned SIdle [(q1, STyped [5; 6]%Z 1)] demo_kern));
    [|by apply (m_peer _ _ _ _ [] _ _ [])].
  apply (mrun_snoc 2 _ [] demo_start); [apply mrun_nil|by apply (m_peer _ _ _ _ [] _ _ [])].
Qed.

Lemma msgqueue_delivery_witness :
  listening 2 9 1 demo_owned demo_kern /\
  of_type 1 (kq 9 demo_kern) ++ sent 2 1 demo_trace = taken demo_trace ++ of_type 1 (kq 9 demo_kern2) /\
  (forall unread, consumed demo_trace = Some unread ->
     accepted demo_trace = obtained demo_trace ++ (if unread then [got_message 2 demo_owned] else []) ++
                           map (payload 2) (items (mt_q demo_owned))) /\
  (forall b s', mstep 2 demo_sent (LTake b false) s' ->
     owner_ (mt_queue demo_owned) = false \/ Queue.q_closed (qt_queue (mt_q demo_owned)) = true \/
     (max (mt_q demo_owned) <= Queue.size_int (qt_queue (mt_q demo_owned)))%Z).
Proof.
  assert (listening 2 9 1 demo_owned demo_kern) as Hl.
  { split_and!; try reflexivity. repeat constructor. }
  split; [exact Hl|].
  apply (msgqueue_delivery 2 9 1 demo_start demo_sent demo_trace).
  - apply Nat2Z.inj_le. rewrite max_value_size_eq. lia.
  - lia.
  - exact Hl.
  - reflexivity.
  - reflexivity.
  - by repeat constructor.
  - apply demo_send_run.
Defined.

(** Two calls of [GetQueue] before the first read break the contract: the second
    message is read twice, the first is lost. *)
Lemma second_get_overwrites e1 e2 :
  let m := MT (mt_queue demo_owned) (QT Thread_new (Queue.Q [e1; e2] 4 event0 false)) in
  let m1 := (GetQueue m).2 in
  GetQueue m = (true, m1) /\ got_message 2 m1 = payload 2 e1 /\
  (GetQueue m1).1 = true /\ got_message 2 (GetQueue m1).2 = payload 2 e2.
Proof. done. Qed.
