(* ===== verification/IfConfig.v ===== *)
(** * Network interfaces (include/ifconfig.hpp)

    [IfConfig] owns a socket for the interface [ioctl]s.  The calls are outside
    the repository: [IfOs] gives what they fill in.  [mac_addr] is modelled
    from the point where it has the ARP entry. *)

From S2P Require Import Prelude Text Sock.

(** [SIOCGIFCONF] returns the bytes it filled (at most the size given);
    a request on a name fills the 24 bytes after [ifr_name]. *)
Class IfOs (OS : Type) := {
  if_conf : Z -> nat -> OS -> option (list Z);
  if_request : Z -> Z -> str -> OS -> option (list Z);
}.

Definition SIOCGIFFLAGS : Z := 0x8913.
Definition SIOCGIFADDR : Z := 0x8915.
Definition SIOCGIFBRDADDR : Z := 0x8919.
Definition SIOCGIFNETMASK : Z := 0x891b.
Definition IFNAMSIZ : nat := 16.
Definition IFF_UP : Z := 1.
(** [sizeof(struct ifreq)]. *)
Definition ifreq_size : nat := 40.

Record ifconfig : Type := IfC { if_fd : Z; iface_list_ : list (list Z) }.

(** The names in a filled buffer, [n] entries from [ifrp] on. *)
Fixpoint iface_names (n : nat) (ifrp : list Z) : outcome (list (list Z)) :=
  match n with
  | O => Ok []
  | S n => name ← c_string ifrp; rest ← iface_names n (drop ifreq_size ifrp); Ok (name :: rest)
  end.

(** ["%02x"] of a byte, and the loop of [mac_addr] that appends six of them. *)
Definition hex_digit (d : Z) : ascii :=
  ascii_of_N (Z.to_N (if (d <? 10)%Z then 48 + d else 87 + d)).
Definition hex_byte (b : Z) : str := [hex_digit (b / 16); hex_digit (b mod 16)].
Fixpoint mac_loop (sa_data : list Z) (mac : str) : str :=
  match sa_data with
  | [] => mac
  | b :: bs =>
      let mac := match mac with [] => mac | _ => mac ++ chars ":" end in
      mac_loop bs (mac ++ hex_byte (u8 b))
  end.
Definition mac_string (sa_data : list Z) : str := mac_loop (take 6 sa_data) [].

Section ifconfig.
Context `{SockOs OS, IfOs OS}.

(** [refresh_interfaces]; [Exc] is its exception. *)
Definition refresh_interfaces (c : ifconfig) (os : OS) : outcome ifconfig :=
  match if_conf (if_fd c) 4096 os with
  | None => Exc "ioctl SIOCGIFCONF"
  | Some buf =>
      names ← iface_names (length buf / ifreq_size) buf; Ok (IfC (if_fd c) names)
  end.

(** The constructor: an exception means there is no object, so no destructor
    either; the system's state is what it left. *)
Definition IfConfig_new (os : OS) : outcome ifconfig * OS :=
  let '(fd, os1) := sys_socket AF_INET SOCK_DGRAM 0 os in
  if (fd =? -1)%Z then (Exc "socket create error", os1)
  else (refresh_interfaces (IfC fd []) os1, os1).

Definition IfConfig_dtor (c : ifconfig) (os : OS) : OS :=
  if negb (if_fd c =? -1)%Z then sys_close (if_fd c) os else os.

Definition interfaces (c : ifconfig) (os : OS) : outcome (list (list Z) * ifconfig) :=
  c' ← refresh_interfaces c os; Ok (iface_list_ c', c').

(** [_getaddr] and [flags]: the name is cut to 15 characters. *)
Definition getaddr (request : Z) (pszifname : str) (c : ifconfig) (os : OS) : outcome str :=
  match if_request (if_fd c) request (strncpy (IFNAMSIZ - 1) pszifname) os with
  | None => Exc "ioctl"
  | Some sa => Ok (inet_ntoa sa)
  end.
Definition if_addr := getaddr SIOCGIFADDR.
Definition if_mask := getaddr SIOCGIFNETMASK.
Definition broadcast_addr := getaddr SIOCGIFBRDADDR.

Definition if_flags (pszifname : str) (c : ifconfig) (os : OS) : outcome Z :=
  match if_request (if_fd c) SIOCGIFFLAGS (strncpy (IFNAMSIZ - 1) pszifname) os with
  | None => Exc "ioctl SIOCGIFFLAGS"
  | Some r => Ok (swrap 16 (le_dec (take 2 r)))
  end.
Definition is_up (pszifname : str) (c : ifconfig) (os : OS) : outcome bool :=
  f ← if_flags pszifname c os; Ok (negb (Z.land f IFF_UP =? 0)%Z).
End ifconfig.

(** ** Lemmas *)

(** The entries of a buffer: a name, its terminator and padding, 40 bytes. *)
Definition ifreq (e : list Z * list Z) : list Z := e.1 ++ 0%Z :: e.2.
Definition ifreq_ok (e : list Z * list Z) : Prop :=
  Forall (fun b => b <> 0%Z) e.1 /\ (length (ifreq e) = ifreq_size)%nat.

Lemma iface_names_spec es rest : Forall ifreq_ok es ->
  iface_names (length es) (concat (map ifreq es) ++ rest) = Ok (map fst es).
Proof.
  induction 1 as [|[name pad] es [Hn Hl] _ IH]; [done|].
  cbn [length iface_names map concat]. cbn [fst snd] in *.
  assert (ifreq (name, pad) ++ concat (map ifreq es) = name ++ 0%Z :: pad ++ concat (map ifreq es))
    as Heq by (unfold ifreq; cbn; by rewrite <-app_assoc).
  rewrite <-app_assoc.
  assert (c_string (ifreq (name, pad) ++ concat (map ifreq es) ++ rest) = Ok name) as ->.
  { unfold ifreq. cbn [fst snd]. rewrite <-app_assoc. cbn [app]. by apply c_string_terminated. }
  rewrite drop_app_length' by done. unfold mbind, outcome_bind. by rewrite IH.
Qed.

Lemma length_entries es : Forall ifreq_ok es ->
  length (concat (map ifreq es)) = (length es * ifreq_size)%nat.
Proof.
  induction 1 as [|e es [_ Hl] _ IH]; [done|]. cbn [map concat length]. rewrite length_app, Hl, IH. lia.
Qed.

(** Reading two hexadecimal digits. *)
Definition hex_val (c : ascii) : Z := if (code c <? 58)%Z then (code c - 48)%Z else (code c - 87)%Z.
Fixpoint parse_mac (s : str) : list Z :=
  match s with
  | a :: b :: s => (16 * hex_val a + hex_val b)%Z :: match s with c :: s => parse_mac s | [] => [] end
  | _ => []
  end.

Lemma hex_val_digit d : (0 <= d < 16)%Z -> hex_val (hex_digit d) = d.
Proof.
  intros Hd. assert (d ∈ seqZ 0 16) as Hin by (apply elem_of_seqZ; lia).
  vm_compute (seqZ 0 16) in Hin.
  repeat (apply elem_of_cons in Hin as [->|Hin]; [done|]). set_solver.
Qed.

Lemma hex_byte_val b : (0 <= b < 256)%Z ->
  (16 * hex_val (hex_digit (b / 16)) + hex_val (hex_digit (b mod 16)))%Z = b.
Proof.
  intros Hb. rewrite !hex_val_digit; Z.to_euclidean_division_equations; lia.
Qed.

(** The loop writes a colon before every byte but the first. *)
Lemma mac_loop_acc bs mac : mac <> [] ->
  mac_loop bs mac = mac ++ concat (map (fun b => chars ":" ++ hex_byte (u8 b)) bs).
Proof.
  revert mac. induction bs as [|b bs IH]; intros mac Hm; cbn [mac_loop map concat].
  { by rewrite app_nil_r. }
  destruct mac as [|c mac]; [done|]. rewrite IH by done. by rewrite <-!app_assoc.
Qed.

Lemma parse_colons bs : Forall (fun b => (0 <= b < 256)%Z) bs ->
  match concat (map (fun b => chars ":" ++ hex_byte (u8 b)) bs) with
  | _ :: s => parse_mac s
  | [] => []
  end = bs.
Proof.
  induction 1 as [|b bs Hb _ IH]; [done|]. cbn [map concat app chars hex_byte parse_mac].
  assert (u8 b = b) as -> by (apply uwrap_small; exact Hb).
  rewrite hex_byte_val by done. f_equal. exact IH.
Qed.

(** ** Properties *)

(** Interface names and descriptors.  When [SIOCGIFCONF] fills in
    entries with terminated names, the constructor and [interfaces] list
    exactly those names in order, and the destructor gives the descriptor back;
    when it fails, the constructor throws and the descriptor it opened stays
    open for good. *)
Theorem ifconfig_lifecycle `{SockFds OS, IfOs OS} (os : OS) (es : list (list Z * list Z)) :
  let fd := (sys_socket AF_INET SOCK_DGRAM 0 os).1 in
  let os1 := (sys_socket AF_INET SOCK_DGRAM 0 os).2 in
  fd <> (-1)%Z -> Forall ifreq_ok es ->
  (if_conf fd 4096 os1 = Some (concat (map ifreq es)) ->
   exists c, IfConfig_new os = (Ok c, os1) /\ interfaces c os1 = Ok (map fst es, c) /\
     sfds (IfConfig_dtor c os1) = sfds os) /\
  (if_conf fd 4096 os1 = None ->
   exists e, IfConfig_new os = (Exc e, os1) /\ fd ∈ sfds os1 /\ fd ∉ sfds os).
Proof.
  intros fd os1 Hfd Hes. destruct (socket_fresh AF_INET SOCK_DGRAM 0 os Hfd) as [Hn Hset].
  fold fd os1 in Hn, Hset. unfold IfConfig_new.
  rewrite (surjective_pairing (sys_socket AF_INET SOCK_DGRAM 0 os)). fold fd os1.
  rewrite (proj2 (Z.eqb_neq _ _) Hfd). unfold interfaces, refresh_interfaces. cbn [if_fd].
  split; intros Hc; rewrite Hc.
  - assert (iface_names (length (concat (map ifreq es)) / ifreq_size) (concat (map ifreq es))
            = Ok (map fst es)) as Hnames.
    { rewrite length_entries, Nat.div_mul by done. rewrite <-(app_nil_r (concat _)).
      by apply iface_names_spec. }
    unfold mbind, outcome_bind. rewrite Hnames. exists (IfC fd (map fst es)). cbn [if_fd].
    rewrite Hc, Hnames. split_and!; [done|done|]. unfold IfConfig_dtor. cbn [if_fd].
    rewrite (proj2 (Z.eqb_neq _ _) Hfd). cbn [negb]. rewrite close_frees, Hset. set_solver.
  - eexists. split; [reflexivity|]. rewrite Hset. split; [set_solver|done].
Qed.

(** Hardware addresses.  The text [mac_addr] builds from six bytes has 17
    characters and reading its hexadecimal pairs gives the bytes back. *)
Theorem mac_string_roundtrip (bs : list Z) :
  length bs = 6%nat -> Forall (fun b => (0 <= b < 256)%Z) bs ->
  length (mac_string bs) = 17%nat /\ parse_mac (mac_string bs) = bs.
Proof.
  intros Hl Hb. unfold mac_string. rewrite take_ge by lia.
  destruct bs as [|b bs]; [done|]. apply Forall_cons in Hb as [Hb Hbs]. cbn [mac_loop app].
  assert (u8 b = b) as -> by (apply uwrap_small; exact Hb).
  rewrite mac_loop_acc by done. split.
  - destruct bs as [|b1 [|b2 [|b3 [|b4 [|b5 [|]]]]]]; try done.
  - cbn [app hex_byte parse_mac]. rewrite hex_byte_val by done. f_equal. by apply parse_colons.
Qed.

Lemma mac_string_roundtrip_witness :
  length (mac_string [0; 27; 68; 17; 58; 183]%Z) = 17%nat /\
  parse_mac (mac_string [0; 27; 68; 17; 58; 183]%Z) = [0; 27; 68; 17; 58; 183]%Z.
Proof.
  apply (mac_string_roundtrip [0; 27; 68; 17; 58; 183]%Z); [reflexivity|].
  repeat constructor; lia.
Defined.
