(* ===== verification/Runtime.v ===== *)
(** * Process-wide helpers
    (src/util.cpp, include/jthread.hpp, include/base.hpp, include/types.hpp,
    include/trace.hpp, include/destroyer.hpp)

    The [GlobalTimer] singleton and its free functions, the clock helpers, the
    command line of [ping_check], the signal masks of [Thread], the text of an
    [Exception], and the small templates. *)

From S2P Require Import Prelude Text Timer ThreadLife.

(** ** [GlobalTimer::get] *)

(** Where a caller of [get] is: about to test [instance_], to allocate, to call
    [create] on [instance_], waiting for [initialized_], or returned. *)
Inductive gloc : Type := GTest | GNew | GCreate | GWait | GDone (i : nat).

(** [instance_], the number of timers ever allocated, those whose worker runs,
    [initialized_], and the callers. *)
Record gsys : Type := GS {
  instance_ : option nat;
  allocated : nat;
  workers : gset nat;
  initialized_ : bool;
  callers : list gloc;
}.

Definition gsys_init (n : nat) : gsys := GS None 0 ∅ false (replicate n GTest).

(** The next step of a caller; [None] while it sleeps. *)
Definition gcall (l : gloc) (s : gsys) : option (gloc * gsys) :=
  match l with
  | GTest =>
      match instance_ s with
      | None => Some (GNew, s)
      | Some i => Some (GDone i, s)
      end
  | GNew =>
      Some (GCreate, GS (Some (allocated s)) (S (allocated s)) (workers s) (initialized_ s) (callers s))
  | GCreate =>
      match instance_ s with
      | None => None
      | Some i => Some (GWait, GS (Some i) (allocated s) ({[ i ]} ∪ workers s) (initialized_ s) (callers s))
      end
  | GWait =>
      if initialized_ s
      then match instance_ s with Some i => Some (GDone i, s) | None => None end
      else None
  | GDone _ => None
  end.

Inductive gstep : gsys -> gsys -> Prop :=
| g_caller c s l l' s' :
    callers s !! c = Some l -> gcall l s = Some (l', s') ->
    gstep s (GS (instance_ s') (allocated s') (workers s') (initialized_ s')
                (<[c := l']> (callers s')))
| g_worker s :
    workers s <> ∅ ->
    gstep s (GS (instance_ s) (allocated s) (workers s) true (callers s)).

(** ** Clock and command line *)
Definition current_time_ms (tv : timeval) : Z := (tv_sec tv * 1000 + Z.quot (tv_usec tv) 1000)%Z.
Definition current_time_sec (tv : timeval) : Z := s32 (tv_sec tv).

Definition octet (nAddr : Z) (k : Z) : Z := Z.land (Z.shiftr nAddr k) 0xff.
Definition ping_addr (nAddr : Z) : str :=
  print_int (octet nAddr 24) ++ chars "." ++ print_int (octet nAddr 16) ++ chars "."
  ++ print_int (octet nAddr 8) ++ chars "." ++ print_int (octet nAddr 0).
Definition ping_command (nAddr : Z) : str :=
  take 127 (chars "/usr/local/bin/ping_another -f -q " ++ ping_addr nAddr ++ chars " > /dev/null").
(** [system] is the result of the command. *)
Definition ping_check (system : str -> Z) (nAddr : Z) : Z :=
  if (system (ping_command nAddr) =? 0)%Z then 1%Z else (-1)%Z.

(** [host_ip_addr]: [buf] is the static buffer, [lphost] the four bytes of the
    resolver's answer.  Without one the buffer is returned as it was. *)
Definition host_ip_addr (lphost : option (list Z)) (buf : str) : str :=
  match lphost with
  | None => buf
  | Some a =>
      take 63 (print_int (u8 (nth 0 a 0)) ++ chars "." ++ print_int (u8 (nth 1 a 0)) ++ chars "."
               ++ print_int (u8 (nth 2 a 0)) ++ chars "." ++ print_int (u8 (nth 3 a 0)))%Z
  end.

(** [kbhit]: the set [select] leaves, which is the given one when it fails. *)
Definition kbhit (select : gset Z -> Z * gset Z) : bool := bool_decide (0%Z ∈ (select {[ 0%Z ]}).2).

(** ** Signal masks *)
Definition SIGABRT : Z := 6.
Definition SIGSEGV : Z := 11.
Definition all_signals : gset Z := list_to_set (seqZ 1 64).

Definition sig_allow (sig : Z) (blocked : gset Z) : gset Z := blocked ∖ {[ sig ]}.
Definition sig_prevent (sig : Z) (blocked : gset Z) : gset Z := {[ sig ]} ∪ blocked.
Definition sig_allow_all (blocked : gset Z) : gset Z := blocked ∖ all_signals.
Definition sig_prevent_all (blocked : gset Z) : gset Z :=
  (all_signals ∖ {[ SIGSEGV; SIGABRT ]}) ∪ blocked.

(** ** [Exception::format] *)
(** [vsnprintf] into 4096 bytes: [text] is what the format produces. *)
Definition exception_what (text : str) : str := cstr (take 4095 (cstr text)).

(** ** Templates *)
Definition PDK_MIN (a b : Z) : Z := if (a <? b)%Z then a else b.
Definition PDK_MAX (a b : Z) : Z := if (b <? a)%Z then a else b.
(** At [int]: the negation of the smallest value overflows. *)
Definition PDK_ABS (x : Z) : outcome Z := if (0 <=? x)%Z then Ok x else chk32 (- x).

(** [Trace<int>]: the variable and the values [OnWrite] was called with. *)
Record trace : Type := Tr { m_Variable : Z; written : list Z }.
Definition trace_assign (has_OnWrite : bool) (v : Z) (t : trace) : trace :=
  Tr v (if has_OnWrite then written t ++ [v] else written t).
Definition trace_add (has_OnWrite : bool) (v : Z) (t : trace) : outcome trace :=
  x ← chk32 (m_Variable t + v);
  Ok (Tr x (if has_OnWrite then written t ++ [x] else written t)).

(** [Singleton_Destroyer]: the pointer registered last is deleted. *)
Definition destroyer_register (p : nat) (m_pT : option nat) : option nat := Some p.
Definition destroyer_dtor (m_pT : option nat) (heap : gset nat) : gset nat :=
  match m_pT with None => heap | Some p => heap ∖ {[ p ]} end.

(** ** Lemmas *)
Lemma list_elem_of_insert_inv {A} (l : list A) i x y : y ∈ <[i := x]> l -> y = x \/ y ∈ l.
Proof.
  intros (j & Hj)%list_elem_of_lookup. destruct (decide (i = j)) as [->|Hne].
  - apply list_lookup_insert_Some in Hj as [(_ & -> & _)|[? _]]; [by left|done].
  - rewrite list_lookup_insert_ne in Hj by done. right. by apply list_elem_of_lookup_2 in Hj.
Qed.

(** Once the first call has stored the instance, every later call returns it
    and allocates nothing. *)
Lemma timer_get_after_first s s' i : rtc gstep s s' ->
  instance_ s = Some i -> GNew ∉ callers s ->
  instance_ s' = Some i /\ allocated s' = allocated s /\ GNew ∉ callers s' /\
  (forall j, GDone j ∈ callers s' -> j = i \/ GDone j ∈ callers s).
Proof.
  induction 1 as [s|s1 s2 s3 Hst _ IH]; [naive_solver|]. intros Hi Hn.
  assert (instance_ s2 = Some i /\ allocated s2 = allocated s1 /\ GNew ∉ callers s2 /\
    (forall j, GDone j ∈ callers s2 -> j = i \/ GDone j ∈ callers s1)) as (Hi2 & Ha2 & Hn2 & Hd2).
  { destruct Hst as [c s l l' s' Hc Hcall|s Hw]; [|by auto].
    destruct l; cbn in Hcall; rewrite ?Hi in Hcall; try done.
    - simplify_eq/=. split_and!; try done.
      + intros [?|?]%list_elem_of_insert_inv; [done|]. set_solver.
      + intros j Hj%list_elem_of_insert_inv. naive_solver.
    - exfalso. apply Hn. by apply list_elem_of_lookup_2 in Hc.
    - simplify_eq/=. split_and!; try done.
      + intros [?|?]%list_elem_of_insert_inv; [done|]. set_solver.
      + intros j Hj%list_elem_of_insert_inv. naive_solver.
    - destruct (initialized_ s); simplify_eq/=. split_and!; try done.
      + intros [?|?]%list_elem_of_insert_inv; [done|]. set_solver.
      + intros j Hj%list_elem_of_insert_inv. naive_solver. }
  destruct (IH Hi2 Hn2) as (? & ? & ? & Hd3). split_and!; try done; [congruence|].
  intros j [->|Hj]%Hd3; [by left|]. by apply Hd2.
Qed.

(** Two first calls at once: both find no instance, two timers run, and one
    caller is left with a timer that [get] does not return again. *)
Lemma timer_get_race :
  exists s, rtc gstep (gsys_init 2) s /\ allocated s = 2%nat /\ workers s = {[ 0%nat; 1%nat ]} /\
    instance_ s = Some 1%nat /\ GDone 0 ∈ callers s.
Proof.
  set (s1 := GS None 0 ∅ false [GNew; GTest]). set (s2 := GS None 0 ∅ false [GNew; GNew]).
  set (s3 := GS (Some 0%nat) 1 ∅ false [GCreate; GNew]).
  set (s4 := GS (Some 0%nat) 1 ({[ 0%nat ]} ∪ ∅) false [GWait; GNew]).
  set (s5 := GS (Some 0%nat) 1 ({[ 0%nat ]} ∪ ∅) true [GWait; GNew]).
  set (s6 := GS (Some 0%nat) 1 ({[ 0%nat ]} ∪ ∅) true [GDone 0; GNew]).
  set (s7 := GS (Some 1%nat) 2 ({[ 0%nat ]} ∪ ∅) true [GDone 0; GCreate]).
  set (s8 := GS (Some 1%nat) 2 ({[ 1%nat ]} ∪ ({[ 0%nat ]} ∪ ∅)) true [GDone 0; GWait]).
  exists s8. split_and!; [|done|cbn; set_solver|done|left].
  apply (rtc_l _ _ s1); [exact (g_caller 0 (gsys_init 2) GTest GNew (gsys_init 2) eq_refl eq_refl)|].
  apply (rtc_l _ _ s2); [exact (g_caller 1 s1 GTest GNew s1 eq_refl eq_refl)|].
  apply (rtc_l _ _ s3); [exact (g_caller 0 s2 GNew GCreate _ eq_refl eq_refl)|].
  apply (rtc_l _ _ s4); [exact (g_caller 0 s3 GCreate GWait _ eq_refl eq_refl)|].
  apply (rtc_l _ _ s5); [apply (g_worker s4); cbn; set_solver|].
  apply (rtc_l _ _ s6); [exact (g_caller 0 s5 GWait (GDone 0) s5 eq_refl eq_refl)|].
  apply (rtc_l _ _ s7); [exact (g_caller 1 s6 GNew GCreate _ eq_refl eq_refl)|].
  apply rtc_once. exact (g_caller 1 s7 GCreate GWait _ eq_refl eq_refl).
Qed.

(** The four octets of [ping_check] are those of the address. *)
Lemma octets_value a : (0 <= a < 2 ^ 32)%Z ->
  (octet a 24 * 2 ^ 24 + octet a 16 * 2 ^ 16 + octet a 8 * 2 ^ 8 + octet a 0)%Z = a.
Proof.
  intros Ha. unfold octet. change 0xff%Z with (Z.ones 8). rewrite !Z.land_ones by lia.
  rewrite !Z.shiftr_div_pow2 by lia. change (2 ^ 8)%Z with 256%Z. change (2 ^ 0)%Z with 1%Z.
  change (2 ^ 16)%Z with 65536%Z. change (2 ^ 24)%Z with 16777216%Z. change (2 ^ 32)%Z with 4294967296%Z in Ha.
  Z.to_euclidean_division_equations. lia.
Qed.

(** The masks: [sig_prevent_all] blocks every signal but the two that must stay
    deliverable, whose state it keeps. *)
Lemma sig_prevent_all_spec blocked sig : sig ∈ all_signals ->
  (sig ∈ sig_prevent_all blocked <->
   (sig <> SIGSEGV /\ sig <> SIGABRT) \/ sig ∈ blocked).
Proof. intros Hs. unfold sig_prevent_all. set_solver. Qed.

Lemma pdk_abs_overflow : PDK_ABS INT32_MIN = Ub SignedOverflow.
Proof. reflexivity. Qed.
Lemma pdk_abs_ok x : in_s32 x -> x <> INT32_MIN -> PDK_ABS x = Ok (Z.abs x).
Proof.
  unfold in_s32, PDK_ABS, INT32_MIN, INT32_MAX. intros Hx Hne.
  destruct (Z.leb_spec 0 x); [by rewrite Z.abs_eq by lia|].
  rewrite chk32_ok by (unfold in_s32, INT32_MIN, INT32_MAX; lia). f_equal. lia.
Qed.

(** A pointer registered over another one is never deleted. *)
Lemma destroyer_forgets p q heap : p <> q -> p ∈ heap ->
  p ∈ destroyer_dtor (destroyer_register q (destroyer_register p None)) heap.
Proof. intros Hpq Hp. cbn. set_solver. Qed.
