(* ===== verification/TimerEvents.v ===== *)
(** * Timers that post events (src/util.cpp, [GlobalTimer::thread_proc])

    The scan of the timer thread together with the threads it posts to: for a
    timer that is due the code calls [QThread::add_event] on the owner while it
    holds the timer lock.  The owners are a map from object to [QThread]; an
    owner that has been destroyed is not in it. *)

From S2P Require Import Prelude Text Sync ThreadLife Event Timer.
Import QThread QThreadFacts.

(** ** The text of a timer event *)

(** ["%ld"]. *)
Definition print_long (z : Z) : str :=
  if (z <? 0)%Z then "-"%char :: dec_digits 20 (- z) else dec_digits 20 z.

(** [strBuf], of 64 bytes. *)
Definition timer_text (now : timeval) (s : TimeSpec) : str :=
  take 63 (chars "Term:" ++ print_long (DIFFTIME (tv s) now) ++ chars ", Delay:" ++ print_int (nTerm s)).
Definition timer_bytes (now : timeval) (s : TimeSpec) : list Z := map code (timer_text now s) ++ [0%Z].

(** The call on the owner; its result is not looked at. *)
Definition post_timer (now : timeval) (s : TimeSpec) (q : qthread) : outcome qthread :=
  '(_, q') ← add_event CI_TIMER_DONE (u16 (nWhich s)) (Some (timer_bytes now s))
               (Z.of_nat (length (cstr (timer_text now s))) + 1) q;
  Ok q'.

(** ** The scan *)
Fixpoint scan_loop (now : timeval) (l : list nat) (t : timer) (ths : gmap nat qthread)
    : outcome (list nat * timer * gmap nat qthread) :=
  match l with
  | [] => Ok ([], t, ths)
  | p :: l =>
      match specs t !! p with
      | None => Ub UseAfterFree
      | Some s =>
          let keep := '(k, t', ths') ← scan_loop now l t ths; Ok (p :: k, t', ths') in
          match timer_map_ t !! obj s with
          | None => keep
          | Some whichMap =>
              match whichMap !! nWhich s with
              | None => keep
              | Some _ =>
                  if (nTerm s <=? DIFFTIME (tv s) now)%Z then
                    let t1 := MkTimer (erase_which (obj s) (nWhich s) whichMap (timer_map_ t))
                                (timer_list_ t) (delete p (specs t)) (next_spec t) in
                    match ths !! obj s with
                    | None => Ub UseAfterFree
                    | Some q => q' ← post_timer now s q; scan_loop now l t1 (<[obj s := q']> ths)
                    end
                  else keep
              end
          end
      end
  end.

Definition scan (now : timeval) (t : timer) (ths : gmap nat qthread) : outcome (timer * gmap nat qthread) :=
  '(k, t', ths') ← scan_loop now (timer_list_ t) t ths;
  Ok (MkTimer (timer_map_ t') k (specs t') (next_spec t'), ths').

(** ** The event of a timer *)
Definition announces (now : timeval) (s : TimeSpec) (e : EVENTINFO) : Prop :=
  usType (h e) = CI_TIMER_DONE /\ usSubType (h e) = nWhich s /\
  event_value_length e = Z.of_nat (length (timer_bytes now s)) /\
  take (length (timer_bytes now s)) (Value e) = timer_bytes now s.

Lemma length_dec_digits_le k n : (length (dec_digits k n) <= k)%nat.
Proof.
  revert n. induction k as [|k IH]; intros n; cbn [dec_digits]; [done|].
  destruct (n <? 10)%Z; [cbn; lia|]. rewrite length_app. cbn [length]. specialize (IH (n / 10)%Z). lia.
Qed.

Lemma digit_chr_not_nul d : (0 <= d < 10)%Z -> digit_chr d <> NUL.
Proof. intros Hd. by apply digit_not_nul, isdigit_chr. Qed.

Lemma dec_digits_not_nul k n : (0 <= n)%Z -> Forall (fun c => c <> NUL) (dec_digits k n).
Proof.
  revert n. induction k as [|k IH]; intros n Hn; cbn [dec_digits]; [done|].
  destruct (Z.ltb_spec n 10).
  - apply Forall_singleton, digit_chr_not_nul. lia.
  - apply Forall_app. split; [apply IH; by apply Z.div_pos|].
    apply Forall_singleton, digit_chr_not_nul. pose proof (Z.mod_pos_bound n 10). lia.
Qed.

(** Nothing is cut off, and the text has no terminator inside. *)
Lemma timer_text_whole now s : in_s32 (nTerm s) ->
  timer_text now s = chars "Term:" ++ print_long (DIFFTIME (tv s) now) ++ chars ", Delay:" ++ print_int (nTerm s)
  /\ cstr (timer_text now s) = timer_text now s /\ (length (timer_bytes now s) <= 64)%nat.
Proof.
  intros Hs.
  assert (length (print_long (DIFFTIME (tv s) now)) <= 21)%nat as Hl1.
  { unfold print_long. pose proof (length_dec_digits_le 20 (DIFFTIME (tv s) now)).
    pose proof (length_dec_digits_le 20 (- DIFFTIME (tv s) now)). case_match; cbn [length]; lia. }
  assert (length (print_int (nTerm s)) <= 11)%nat as Hl2.
  { unfold print_int. pose proof (length_dec_digits_le 10 (nTerm s)).
    pose proof (length_dec_digits_le 10 (- nTerm s)). case_match; cbn [length]; lia. }
  assert (timer_text now s = chars "Term:" ++ print_long (DIFFTIME (tv s) now) ++ chars ", Delay:" ++ print_int (nTerm s)) as Ht.
  { unfold timer_text. apply take_ge. rewrite !length_app. cbn [length chars]. lia. }
  split_and!; [done| |].
  - rewrite Ht. apply cstr_id. rewrite !Forall_app. split_and!.
    + repeat constructor; done.
    + unfold print_long. assert (0 <= DIFFTIME (tv s) now)%Z by (unfold DIFFTIME; lia).
      rewrite (proj2 (Z.ltb_ge _ _)) by lia. by apply dec_digits_not_nul.
    + repeat constructor; done.
    + eapply Forall_impl; [by apply print_int_chars|]. intros c [Hc| ->]; [by apply digit_not_nul|done].
  - unfold timer_bytes. rewrite length_app, length_map. unfold timer_text. rewrite length_take. cbn [length]. lia.
Qed.

(** ** Queues of the owners *)

(** A queue within its capacity, and the free places it has. *)
Definition qt_ok (q : qthread) : Prop :=
  (Z.of_nat (length (items q)) <= max q <= INT32_MAX)%Z.
Definition room (q : qthread) : nat :=
  if Queue.q_closed (qt_queue q) then 0 else Z.to_nat (max q - Z.of_nat (length (items q))).

Lemma add_take e q : qt_ok q -> exists ok q', add e q = (ok, q') /\
  items q' = items q ++ take (room q) [e] /\ room q' = pred (room q) /\ qt_ok q' /\
  max q' = max q /\ qt_thread q' = qt_thread q /\
  Queue.q_closed (qt_queue q') = Queue.q_closed (qt_queue q) /\ ok = bool_decide (0 < room q)%nat.
Proof.
  intros Hok. destruct q as [th [its m sc cl]].
  unfold add, Queue.put, room, qt_ok, items, max in *. cbn in *.
  unfold Queue.size_int. cbn. rewrite swrap_small by (unfold in_s32, INT32_MIN; lia).
  destruct cl; cbn; [do 2 eexists; split; [reflexivity|]; cbn; by rewrite app_nil_r|].
  destruct (Z.leb_spec m (Z.of_nat (length its))); cbn.
  - replace (Z.to_nat (m - Z.of_nat (length its))) with 0%nat by lia.
    do 2 eexists. split; [reflexivity|]. cbn. rewrite app_nil_r.
    replace (Z.to_nat (m - Z.of_nat (length its))) with 0%nat by lia. by split_and!; try lia.
  - do 2 eexists. split; [reflexivity|]. cbn. rewrite length_app. cbn [length].
    destruct (Z.to_nat (m - Z.of_nat (length its))) as [|k] eqn:Hk; [lia|].
    split_and!; try done; [by destruct k|lia..].
Qed.

(** [q'] is [q] after posting [es]: as many as there was room for, in order. *)
Record after (q : qthread) (es : list EVENTINFO) (q' : qthread) : Prop := {
  af_items : items q' = items q ++ take (room q) es;
  af_room : room q' = (room q - length es)%nat;
  af_ok : qt_ok q';
  af_max : max q' = max q;
  af_thread : qt_thread q' = qt_thread q;
  af_closed : Queue.q_closed (qt_queue q') = Queue.q_closed (qt_queue q);
}.

Lemma after_nil q : qt_ok q -> after q [] q.
Proof. intros Hok. split; rewrite ?take_nil, ?app_nil_r; cbn [length]; (done || lia). Qed.

Lemma after_add q e : qt_ok q -> after q [e] (add e q).2.
Proof.
  intros Hok. destruct (add_take e q Hok) as (ok & q' & -> & Hi & Hr & Hok' & Hm & Ht & Hc & _).
  split; cbn [snd length]; try done. lia.
Qed.

Lemma after_cons q e q1 es q2 : after q [e] q1 -> after q1 es q2 -> after q (e :: es) q2.
Proof.
  intros [Hi Hr _ Hm Ht Hc] [Hi2 Hr2 Hok Hm2 Ht2 Hc2]. split; try congruence.
  - rewrite Hi2, Hi, Hr, <-app_assoc. f_equal. destruct (room q) as [|k]; [done|]. cbn. by rewrite ?Nat.sub_0_r, ?take_nil.
  - rewrite Hr2, Hr. cbn [length]. lia.
Qed.

(** ** Posting *)
Definition spec_ok (s : TimeSpec) : Prop := in_s32 (nTerm s) /\ (0 <= nWhich s < 256)%Z.

Lemma post_timer_spec now s q : spec_ok s -> qt_ok q ->
  exists e q', post_timer now s q = Ok q' /\ announces now s e /\ after q [e] q'.
Proof.
  intros [Ht Hw] Hok. destruct (timer_text_whole now s Ht) as (_ & Hcstr & Hlen).
  assert (Z.of_nat (length (cstr (timer_text now s))) + 1 = Z.of_nat (length (timer_bytes now s)))%Z as Hn.
  { rewrite Hcstr. unfold timer_bytes. rewrite length_app, length_map. cbn [length]. lia. }
  destruct (make_event_spec CI_TIMER_DONE (u16 (nWhich s)) (timer_bytes now s)
    (Z.of_nat (length (cstr (timer_text now s))) + 1)) as (e & He & Hty & Hsub & Hlen' & _ & Hval).
  { lia. }
  { rewrite Hn, max_value_size_eq. lia. }
  exists e, (add e q).2. unfold post_timer, add_event, mbind, outcome_bind. rewrite He.
  split_and!; [by destruct (add e q)| |by apply after_add].
  rewrite Hn, Nat2Z.id in Hval. split_and!.
  - by rewrite Hty.
  - rewrite Hsub, uwrap_idem by lia. apply uwrap_small. unfold in_uw. lia.
  - by rewrite Hlen'.
  - by rewrite Hval, firstn_all.
Qed.

(** The due timers of one owner. *)
Definition mine (o : nat) (s : TimeSpec) : Prop := obj s = o.
#[export] Instance mine_dec o s : Decision (mine o s).
Proof. unfold mine. apply _. Defined.
Definition due_of (o : nat) (now : timeval) (l : list TimeSpec) : list TimeSpec :=
  filter (mine o) (filter (due now) l).

(** One event for each of the timers [fs], to its owner. *)
Definition posted_for (now : timeval) (fs : list TimeSpec) (ths ths' : gmap nat qthread) : Prop :=
  forall o, match ths !! o with
            | None => ths' !! o = None
            | Some q => exists q' es, ths' !! o = Some q' /\
                Forall2 (announces now) (filter (mine o) fs) es /\ after q es q'
            end.

(** What the scan does to the owners' queues. *)
Definition posted (now : timeval) (l : list TimeSpec) (ths ths' : gmap nat qthread) : Prop :=
  posted_for now (filter (due now) l) ths ths'.

Lemma posted_alive now l ths ths' o' : posted now l ths ths' -> is_Some (ths !! o') -> is_Some (ths' !! o').
Proof. intros Hp [q Hq]. specialize (Hp o'). rewrite Hq in Hp. destruct Hp as (q' & _ & -> & _). eauto. Qed.

Lemma posted_ok now l ths ths' : posted now l ths ths' -> map_Forall (fun _ => qt_ok) ths'.
Proof.
  intros Hp o' q' Hq'. specialize (Hp o'). destruct (ths !! o') as [q|].
  - destruct Hp as (q1 & es & Hq1 & _ & Haf). simplify_eq. apply Haf.
  - by rewrite Hp in Hq'.
Qed.

Lemma scan_loop_spec now Ls : forall t Lk ths, trep t (Lk ++ Ls) ->
  Forall (fun x => spec_ok x.2) Ls -> map_Forall (fun _ => qt_ok) ths ->
  Forall (fun x => due now x.2 -> is_Some (ths !! obj x.2)) Ls ->
  exists t' ths', scan_loop now (map fst Ls) t ths =
      Ok (map fst (filter (fun x => ~ due now x.2) Ls), t', ths') /\
    trep t' (Lk ++ filter (fun x => ~ due now x.2) Ls) /\ posted now (map snd Ls) ths ths'.
Proof.
  induction Ls as [|[p s] Ls IH]; intros t Lk ths Hrep Hspec Hok Hown; cbn [scan_loop map fst snd].
  { exists t, ths. split_and!; [by rewrite filter_nil|done|]. intros o. destruct (ths !! o) as [q|] eqn:Hq; [|done].
    exists q, []. split_and!; [done|constructor|]. by apply after_nil, (Hok o). }
  apply Forall_cons in Hspec as [Hs Hspec], Hown as [Hso Hown]. cbn [snd] in *.
  assert ((p, s) ∈ Lk ++ (p, s) :: Ls) as Hps by set_solver.
  destruct (tr_heap _ _ Hrep p s Hps) as [Hheap _]. rewrite Hheap.
  destruct (tm_split (timer_map_ t) (obj s) (nWhich s) p) as (wm & Hwm & Hp).
  { apply (tr_map _ _ Hrep). by exists s. }
  rewrite Hwm, Hp, !filter_cons. cbn [snd].
  destruct (Z.leb_spec (nTerm s) (DIFFTIME (tv s) now)) as [Hd|Hd].
  - rewrite decide_False by (unfold due; lia). destruct (Hso Hd) as [q Hq]. rewrite Hq.
    destruct (post_timer_spec now s q Hs (Hok _ _ Hq)) as (e & q1 & Hpost & Hann & Haf).
    unfold mbind, outcome_bind. rewrite Hpost.
    destruct (IH _ Lk (<[obj s := q1]> ths) (trep_remove t Lk p s Ls wm (timer_list_ t) Hrep Hwm) Hspec)
      as (t' & ths' & He & Hr & Hposted).
    + apply map_Forall_insert_2; [apply Haf|done].
    + eapply Forall_impl; [exact Hown|]. intros x Hx Hdx.
      destruct (decide (obj s = obj x.2)) as [<-|Hne]; [by rewrite lookup_insert_eq|].
      rewrite lookup_insert_ne by done. by apply Hx.
    + exists t', ths'. split_and!; [done|done|]. intros o. specialize (Hposted o).
      unfold due_of in *. rewrite filter_cons_True by done.
      destruct (decide (obj s = o)) as [<-|Hne].
      * rewrite lookup_insert_eq in Hposted. rewrite Hq. destruct Hposted as (q' & es & Hq' & Hes & Haf').
        exists q', (e :: es). split_and!; [done| |by eapply after_cons].
        rewrite filter_cons_True by done. by constructor.
      * rewrite lookup_insert_ne in Hposted by done. by rewrite filter_cons_False.
  - rewrite decide_True by (unfold due; lia).
    destruct (IH t (Lk ++ [(p, s)]) ths) as (t' & ths' & He & Hr & Hposted);
      [by rewrite <-app_assoc|done..|].
    exists t', ths'. unfold mbind, outcome_bind. rewrite He. cbn [map fst].
    split_and!; [done|by rewrite <-app_assoc in Hr|]. intros o. specialize (Hposted o).
    unfold due_of, posted, posted_for in *. by rewrite filter_cons_False by (unfold due; lia).
Qed.

(** A due timer whose owner is gone. *)
Lemma scan_loop_dangling now Ls : forall t Lk ths, trep t (Lk ++ Ls) ->
  Forall (fun x => spec_ok x.2) Ls -> map_Forall (fun _ => qt_ok) ths ->
  Exists (fun x => due now x.2 /\ ths !! obj x.2 = None) Ls ->
  scan_loop now (map fst Ls) t ths = Ub UseAfterFree.
Proof.
  induction Ls as [|[p s] Ls IH]; intros t Lk ths Hrep Hspec Hok Hex; [by apply Exists_nil in Hex|].
  cbn [scan_loop map fst]. apply Forall_cons in Hspec as [Hs Hspec]. apply Exists_cons in Hex. cbn [snd] in *.
  assert ((p, s) ∈ Lk ++ (p, s) :: Ls) as Hps by set_solver.
  destruct (tr_heap _ _ Hrep p s Hps) as [Hheap _]. rewrite Hheap.
  destruct (tm_split (timer_map_ t) (obj s) (nWhich s) p) as (wm & Hwm & Hp).
  { apply (tr_map _ _ Hrep). by exists s. }
  rewrite Hwm, Hp. unfold mbind, outcome_bind.
  destruct (Z.leb_spec (nTerm s) (DIFFTIME (tv s) now)) as [Hd|Hd].
  - destruct (ths !! obj s) as [q|] eqn:Hq; [|done].
    destruct (post_timer_spec now s q Hs (Hok _ _ Hq)) as (e & q1 & Hpost & _ & Haf). rewrite Hpost.
    apply (IH _ Lk); [by apply (trep_remove t Lk p s Ls wm)|done|by apply map_Forall_insert_2; [apply Haf|]|].
    destruct Hex as [[_ Hno]|Hex]; [by simplify_eq|].
    eapply Exists_impl; [exact Hex|]. intros x [Hdx Hno]. split; [done|].
    rewrite lookup_insert_ne; [done|]. intros Heq. rewrite Heq in Hq. by simplify_eq.
  - rewrite (IH t (Lk ++ [(p, s)])); [done|by rewrite <-app_assoc|done|done|].
    destruct Hex as [[Hdx _]|Hex]; [unfold due in Hdx; lia|done].
Qed.

Lemma scan_spec now t l ths : rep t l -> Forall spec_ok l -> map_Forall (fun _ => qt_ok) ths ->
  Forall (fun s => due now s -> is_Some (ths !! obj s)) l ->
  exists t' ths', scan now t ths = Ok (t', ths') /\ rep t' (filter (fun s => ~ due now s) l) /\
    posted now l ths ths'.
Proof.
  intros (L & Hrep & Hlist & <-) Hspec Hok Hown.
  destruct (scan_loop_spec now L t [] ths Hrep) as (t' & ths' & He & Hr & Hp);
    [by rewrite Stdlib.Lists.List.Forall_map in Hspec|done|by rewrite Stdlib.Lists.List.Forall_map in Hown|].
  unfold scan. rewrite Hlist. unfold mbind, outcome_bind. rewrite He.
  do 2 eexists. split_and!; [reflexivity| |done].
  exists (filter (fun x => ~ due now x.2) L). split_and!; [|done|apply filter_snd].
  destruct Hr as [H1 H2 H3 H4 H5 H6]. by split.
Qed.

Lemma scan_dangling now t l ths : rep t l -> Forall spec_ok l -> map_Forall (fun _ => qt_ok) ths ->
  Exists (fun s => due now s /\ ths !! obj s = None) l -> scan now t ths = Ub UseAfterFree.
Proof.
  intros (L & Hrep & Hlist & <-) Hspec Hok Hex. unfold scan. rewrite Hlist.
  rewrite (scan_loop_dangling now L t [] ths Hrep); [done|by rewrite Stdlib.Lists.List.Forall_map in Hspec|done|].
  by rewrite Stdlib.Lists.List.Exists_map in Hex.
Qed.

(** ** Properties *)

(** Calls with a number that fits eight bits and a delay that fits an [int]. *)
Definition call_ok (op : top) : Prop :=
  match op with
  | TStart _ ms w _ => in_s32 ms /\ (0 <= w < 256)%Z
  | _ => True
  end.

Lemma call_op_ok ops : Forall call_ok ops -> Forall op_ok ops.
Proof. intros Hok. eapply Forall_impl; [exact Hok|]. intros [] Hop; cbn in *; naive_solver. Qed.

Lemma Forall_filter_sub {A} (P Q : A -> Prop) `{!forall x, Decision (Q x)} l :
  Forall P l -> Forall P (filter Q l).
Proof.
  rewrite !Forall_forall. intros Hl x Hx. apply Hl. by apply list_elem_of_filter in Hx as [_ Hx].
Qed.

Lemma spec_run_ok ops : forall l, Forall call_ok ops -> Forall spec_ok l -> Forall spec_ok (spec_run ops l).2.
Proof.
  induction ops as [|o ops IH]; intros l Hok Hl; [done|]. apply Forall_cons in Hok as [Ho Hok].
  cbn [spec_run]. destruct (tspec o l) as [r l1] eqn:Ht.
  assert (Forall spec_ok l1) as Hl1.
  { destruct o as [o ms w now|o w|now]; cbn [tspec] in Ht.
    - case_bool_decide; simplify_eq; [done|]. apply Forall_app. split; [done|]. by apply Forall_singleton.
    - simplify_eq. by apply Forall_filter_sub.
    - simplify_eq. by apply Forall_filter_sub. }
  specialize (IH l1 Hok Hl1). by destruct (spec_run ops l1).
Qed.

(** C17: the timer thread and the event queues together.  After any sequence of
    timer calls with numbers [nWhich] from 0 to 255 and delays that fit an [int]
    (a larger number is cut to eight bits and its timer never fires,
    [timer_which_truncated]), and with queues within their capacity, a scan at any time either has all owners of due timers alive:
    then it returns, keeps exactly the timers that are not due, and gives every
    thread, in the order of their start and as far as its queue has room, one
    [CI_TIMER_DONE] event per due timer of that thread, with the timer's number
    as subtype and the elapsed and requested times as text; the queues of the
    other threads are unchanged.  Or the owner of a due timer has been destroyed
    without stopping it: then the scan uses the freed object. *)
Theorem timer_scan_delivers (ops : list top) (now : timeval) (ths : gmap nat qthread) :
  Forall call_ok ops -> map_Forall (fun _ => qt_ok) ths ->
  exists t, timer_run ops GlobalTimer_new = Ok ((spec_run ops []).1, t) /\
    (Forall (fun s => due now s -> is_Some (ths !! obj s)) (spec_run ops []).2 ->
     exists t' ths', scan now t ths = Ok (t', ths') /\
       rep t' (filter (fun s => ~ due now s) (spec_run ops []).2) /\
       posted now (spec_run ops []).2 ths ths') /\
    (Exists (fun s => due now s /\ ths !! obj s = None) (spec_run ops []).2 ->
     scan now t ths = Ub UseAfterFree).
Proof.
  intros Hops Hok. destruct (timer_run_rep ops (call_op_ok ops Hops)) as (t & He & Hr).
  assert (Forall spec_ok (spec_run ops []).2) as Hspec by by apply spec_run_ok.
  exists t. split_and!; [done|by apply scan_spec|by eapply scan_dangling].
Qed.

Lemma timer_scan_delivers_witness :
  let ops := [TStart 1 50 0 (TV 10 0); TStart 2 20 7 (TV 10 0); TStart 1 900 1 (TV 10 0)] in
  exists t, timer_run ops GlobalTimer_new = Ok ([RBool true; RBool true; RBool true], t) /\
    (exists t' ths' q' e, scan (TV 10 60000) t {[ 1%nat := new 4; 2%nat := new 4 ]} = Ok (t', ths') /\
       ths' !! 1%nat = Some q' /\ items q' = [e] /\ usSubType (h e) = 0%Z /\
       take (length (chars "Term:60, Delay:50")) (Value e) = map code (chars "Term:60, Delay:50")) /\
    scan (TV 10 60000) t {[ 1%nat := new 4 ]} = Ub UseAfterFree.
Proof.
  set (ops := [TStart 1 50 0 (TV 10 0); TStart 2 20 7 (TV 10 0); TStart 1 900 1 (TV 10 0)]).
  assert (Forall call_ok ops) as Hops by (repeat constructor; cbn; unfold in_s32, INT32_MIN, INT32_MAX; lia).
  destruct (timer_scan_delivers ops (TV 10 60000) {[ 1%nat := new 4; 2%nat := new 4 ]}) as (t & Ht & Hall & _); [done| |].
  { apply map_Forall_insert_2; [by vm_compute|]. by apply map_Forall_singleton; vm_compute. }
  destruct (timer_scan_delivers ops (TV 10 60000) {[ 1%nat := new 4 ]}) as (t2 & Ht2 & _ & Hdead); [done| |].
  { by apply map_Forall_singleton; vm_compute. }
  rewrite Ht in Ht2. simplify_eq. exists t2. split_and!; [done| |].
  - destruct Hall as (t' & ths' & Hs & _ & Hp).
    { repeat constructor; cbn; eauto. }
    specialize (Hp 1%nat). cbn in Hp. destruct Hp as (q' & es & Hq' & Hes & Haf).
    change (due_of 1 (TV 10 60000) (spec_run ops []).2) with [Spec (TV 10 0) 50 0 1] in Hes.
    apply Forall2_cons_inv_l in Hes as (e & es' & Hann & Hes & ->). apply Forall2_nil_inv_l in Hes as ->.
    destruct Hann as (_ & Hsub & _ & Hval). exists t', ths', q', e. split_and!; [done|done| |done|].
    + rewrite (af_items _ _ _ Haf). reflexivity.
    + change (length (timer_bytes _ _)) with 18%nat in Hval.
      change (length (chars "Term:60, Delay:50")) with 17%nat.
      change 17%nat with (17 `min` 18)%nat at 1. rewrite <-take_take, Hval. reflexivity.
  - apply Hdead. right. left. split; [by vm_compute|done].
Defined.
