(* ===== verification/TimerService.v ===== *)
(** * The timer service (src/util.cpp, [GlobalTimer] and its free functions)

    The timer thread with its loop, the clock it reads before it takes the lock,
    and any number of threads that start and stop timers, use their event queues
    and come and go.  The history is kept beside the state, so that the theorems can
    account for every timer: the timers started, those a stop and those a scan took
    off the list. *)

From S2P Require Import Prelude Text Sync ThreadLife Event Timer TimerEvents.
Import QThread QThreadFacts.

(** Where the timer thread is: at the test of [do_exit], before
    [gettimeofday], before the lock with the time it has read, or returned. *)
Inductive tphase : Type := PHead | PClock | PScan (ntv : timeval) | PDone.

Record tsvc : Type := Svc {
  sv_timer : timer;
  sv_threads : gmap nat qthread;
  sv_now : timeval;
  sv_stop : bool;
  sv_phase : tphase;
  sv_started : list TimeSpec;
  sv_stopped : list TimeSpec;
  sv_fired : list (TimeSpec * timeval);
}.

#[export] Instance timeval_eq_dec : EqDecision timeval.
Proof. solve_decision. Defined.
#[export] Instance TimeSpec_eq_dec : EqDecision TimeSpec.
Proof. solve_decision. Defined.

(** The pending timers, in the order of the list, and those that were pending in
    [t] and are not in [t']. *)
Definition pending_specs (t : timer) : list TimeSpec := omap (fun p => specs t !! p) (timer_list_ t).
Definition gone (t t' : timer) : list TimeSpec := filter (fun x => x ∉ pending_specs t') (pending_specs t).

(** After [get()] has returned for the first time. *)
Definition svc_init (ths : gmap nat qthread) (now : timeval) : tsvc :=
  Svc GlobalTimer_new ths now false PHead [] [] [].

(** ** The free functions *)
Definition svc_start_timer (o : nat) (msecs which : Z) (s : tsvc) : bool * tsvc :=
  let '(b, t) := start_timer o msecs which (sv_now s) (sv_timer s) in
  (b, Svc t (sv_threads s) (sv_now s) (sv_stop s) (sv_phase s)
        (sv_started s ++ if b then [Spec (sv_now s) msecs (u8 which) o] else [])
        (sv_stopped s) (sv_fired s)).

Definition svc_stop_timer (o : nat) (which : Z) (s : tsvc) : outcome (bool * tsvc) :=
  '(b, t) ← stop_timer o which (sv_timer s);
  Ok (b, Svc t (sv_threads s) (sv_now s) (sv_stop s) (sv_phase s) (sv_started s)
           (sv_stopped s ++ gone (sv_timer s) t) (sv_fired s)).

(** [stop_global_timer] up to the [join] of [close]: it returns when the timer
    thread is at [PDone]. *)
Definition stop_global_timer (s : tsvc) : tsvc :=
  Svc (sv_timer s) (sv_threads s) (sv_now s) true (sv_phase s) (sv_started s) (sv_stopped s) (sv_fired s).

(** ** The timer thread *)
Definition at_phase (p : tphase) (s : tsvc) : tsvc :=
  Svc (sv_timer s) (sv_threads s) (sv_now s) (sv_stop s) p (sv_started s) (sv_stopped s) (sv_fired s).

Definition timer_thread (s : tsvc) : outcome (option tsvc) :=
  match sv_phase s with
  | PHead => Ok (Some (at_phase (if sv_stop s then PDone else PClock) s))
  | PClock => Ok (Some (at_phase (PScan (sv_now s)) s))
  | PScan ntv =>
      '(t, ths) ← scan ntv (sv_timer s) (sv_threads s);
      Ok (Some (Svc t ths (sv_now s) (sv_stop s) PHead (sv_started s) (sv_stopped s)
                  (sv_fired s ++ map (fun x => (x, ntv)) (gone (sv_timer s) t))))
  | PDone => Ok None
  end.

(** ** Times *)
Definition usecs (a : timeval) : Z := (tv_sec a * 1000000 + tv_usec a)%Z.
Definition tv_ok (a : timeval) : Prop := (0 <= tv_usec a < 1000000)%Z.

(** [DIFFTIME] is the elapsed time in milliseconds, less than one off. *)
Lemma DIFFTIME_bound a b : tv_ok a -> tv_ok b ->
  (Z.abs (usecs b - usecs a) - 1000 < DIFFTIME a b * 1000 < Z.abs (usecs b - usecs a) + 1000)%Z.
Proof.
  unfold tv_ok, usecs, DIFFTIME. intros Ha Hb.
  pose proof (Z.quot_rem' (tv_usec a - tv_usec b) 1000) as Hq.
  pose proof (Z.rem_bound_abs (tv_usec a - tv_usec b) 1000 ltac:(lia)) as Hr. lia.
Qed.

(** ** Steps *)
Inductive vstep : tsvc -> tsvc -> Prop :=
| v_timer s s' : timer_thread s = Ok (Some s') -> vstep s s'
| v_start o msecs which s :
    is_Some (sv_threads s !! o) -> in_s32 msecs -> (0 <= which < 256)%Z ->
    vstep s (svc_start_timer o msecs which s).2
| v_stop o which b s s' : svc_stop_timer o which s = Ok (b, s') -> vstep s s'
| v_close s : vstep s (stop_global_timer s)
| v_clock now s :
    tv_ok now -> (usecs (sv_now s) <= usecs now)%Z ->
    vstep s (Svc (sv_timer s) (sv_threads s) now (sv_stop s) (sv_phase s) (sv_started s) (sv_stopped s) (sv_fired s))
| v_threads ths s :
    map_Forall (fun _ => qt_ok) ths ->
    (forall o, ths !! o = None -> Forall (fun x => obj x <> o) (pending_specs (sv_timer s))) ->
    vstep s (Svc (sv_timer s) ths (sv_now s) (sv_stop s) (sv_phase s) (sv_started s) (sv_stopped s) (sv_fired s)).

(** ** The invariant *)

(** Fired in time: the time was read no earlier than one millisecond before the
    timer was due, or the timer was started after the time was read. *)
Definition in_time (f : TimeSpec * timeval) : Prop :=
  (usecs f.2 < usecs (tv f.1) \/ nTerm f.1 * 1000 - 1000 < usecs f.2 - usecs (tv f.1))%Z.

Definition pending_ok (s : tsvc) (x : TimeSpec) : Prop :=
  spec_ok x /\ is_Some (sv_threads s !! obj x) /\ tv_ok (tv x) /\ (usecs (tv x) <= usecs (sv_now s))%Z.

Record vinv (s : tsvc) : Prop := {
  vi_rep : rep (sv_timer s) (pending_specs (sv_timer s));
  vi_pending : Forall (pending_ok s) (pending_specs (sv_timer s));
  vi_threads : map_Forall (fun _ => qt_ok) (sv_threads s);
  vi_now : tv_ok (sv_now s);
  vi_phase : match sv_phase s with
             | PScan ntv => tv_ok ntv /\ (usecs ntv <= usecs (sv_now s))%Z
             | PDone => sv_stop s = true
             | _ => True
             end;
  vi_account : sv_started s ≡ₚ map fst (sv_fired s) ++ sv_stopped s ++ pending_specs (sv_timer s);
  vi_time : Forall in_time (sv_fired s);
}.

Lemma rep_pending_specs t l : rep t l -> pending_specs t = l.
Proof.
  intros (L & Hrep & Hlist & <-). unfold pending_specs. rewrite Hlist.
  assert (forall p s, (p, s) ∈ L -> specs t !! p = Some s) as Hh by (intros p s Hin; by apply (tr_heap _ _ Hrep)).
  clear Hrep Hlist. induction L as [|[p s] L IH]; [done|]. cbn [map fst snd omap list_omap].
  rewrite (Hh p s) by by left. f_equal. apply IH. intros p' s' Hin. apply Hh. by right.
Qed.

Lemma filter_split {A} (P : A -> Prop) `{!forall x, Decision (P x)} l :
  l ≡ₚ filter P l ++ filter (fun x => ~ P x) l.
Proof.
  induction l as [|x l IH]; [done|]. rewrite !filter_cons.
  destruct (decide (P x)), (decide (~ P x)); try done; cbn [app]; [by constructor|].
  rewrite IH at 1. by rewrite Permutation_middle.
Qed.

Lemma due_in_time x ntv : tv_ok (tv x) -> tv_ok ntv -> due ntv x -> in_time (x, ntv).
Proof.
  intros Hx Hn Hd. unfold in_time, due in *. cbn [fst snd].
  pose proof (DIFFTIME_bound (tv x) ntv Hx Hn). lia.
Qed.

(** Due is implied by the elapsed time. *)
Lemma elapsed_due x now : tv_ok (tv x) -> tv_ok now ->
  (usecs (tv x) + nTerm x * 1000 <= usecs now)%Z -> due now x.
Proof.
  intros Hx Hn Ht. unfold due. pose proof (DIFFTIME_bound (tv x) now Hx Hn). lia.
Qed.

Lemma pending_ok_mono s s' x : (forall o, is_Some (sv_threads s !! o) -> is_Some (sv_threads s' !! o)) ->
  (usecs (sv_now s) <= usecs (sv_now s'))%Z -> pending_ok s x -> pending_ok s' x.
Proof. intros Ht Hn (Hs & Ho & Hv & Hle). split_and!; [done|by apply Ht|done|lia]. Qed.

Lemma filter_ext_in {A} (P Q : A -> Prop) `{!forall x, Decision (P x), !forall x, Decision (Q x)} (l : list A) :
  (forall x, x ∈ l -> P x <-> Q x) -> filter P l = filter Q l.
Proof.
  induction l as [|x l IH]; intros Hpq; [done|]. rewrite !filter_cons.
  rewrite IH by (intros y Hy; apply Hpq; by right). pose proof (Hpq x ltac:(by left)).
  destruct (decide (P x)), (decide (Q x)); naive_solver.
Qed.

(** What a filter has taken away. *)
Lemma gone_filter (P : TimeSpec -> Prop) `{!forall x, Decision (P x)} t t' :
  pending_specs t' = filter (fun x => ~ P x) (pending_specs t) -> gone t t' = filter P (pending_specs t).
Proof.
  intros Hp. unfold gone. apply filter_ext_in. intros x Hx. rewrite Hp, list_elem_of_filter.
  destruct (decide (P x)); naive_solver.
Qed.

(** A scan from the invariant. *)
Lemma vinv_scan s ntv : vinv s -> exists t ths,
  scan ntv (sv_timer s) (sv_threads s) = Ok (t, ths) /\
  rep t (filter (fun x => ~ due ntv x) (pending_specs (sv_timer s))) /\
  posted ntv (pending_specs (sv_timer s)) (sv_threads s) ths.
Proof.
  intros [Hr Hp Hq _ _ _ _]. apply scan_spec; [done| |done|].
  - eapply Forall_impl; [exact Hp|]. by intros x [Hs _].
  - eapply Forall_impl; [exact Hp|]. by intros x (_ & Ho & _) _.
Qed.

Lemma vinv_timer_thread s : vinv s ->
  match timer_thread s with Ok (Some s') => vinv s' | Ok None => sv_phase s = PDone | _ => False end.
Proof.
  intros Hinv. pose proof Hinv as [Hr Hp Hq Hn Hph Ha Ht]. unfold timer_thread.
  destruct (sv_phase s) as [| |ntv|] eqn:Hphase; [..|done].
  - split; try done. cbn. by destruct (sv_stop s).
  - split; try done.
  - destruct (vinv_scan s ntv Hinv) as (t & ths & He & Hr' & Hposted). unfold mbind, outcome_bind. rewrite He.
    pose proof (rep_pending_specs _ _ Hr') as Hps. destruct Hph as [Hntv _].
    split; cbn; rewrite ?(gone_filter (due ntv) _ _ Hps), ?Hps; try done.
    + apply Forall_filter_sub. eapply Forall_impl; [exact Hp|]. intros x. apply pending_ok_mono; [|done].
      intros o. by apply (posted_alive ntv (pending_specs (sv_timer s))).
    + by eapply posted_ok.
    + rewrite Ha, map_app, map_map, map_id, <-!app_assoc. f_equiv.
      rewrite (filter_split (due ntv) (pending_specs (sv_timer s))) at 1.
      rewrite !app_assoc. f_equiv. apply Permutation_app_comm.
    + apply Forall_app. split; [done|]. apply Forall_forall. intros f (x & -> & Hx)%list_elem_of_fmap.
      apply list_elem_of_filter in Hx as [Hd Hx]. rewrite Forall_forall in Hp. apply Hp in Hx as (_ & _ & Hv & _).
      by apply due_in_time.
Qed.

Lemma start_result o ms w now t l : rep t l -> (0 <= w < 256)%Z ->
  (start_timer o ms w now t).1 = negb (bool_decide (Exists (same_key o w) l)).
Proof.
  intros Hr Hw. destruct (texec_refines (TStart o ms w now) t l Hw Hr) as (t' & He & _).
  cbn [texec tspec] in He. destruct (start_timer o ms w now t) as [b t1]. case_bool_decide; by simplify_eq.
Qed.

Lemma vinv_step s s' : vinv s -> vstep s s' -> vinv s'.
Proof.
  intros Hinv Hst. pose proof Hinv as [Hr Hp Hq Hn Hph Ha Ht].
  destruct Hst as [s s' He|o ms w s Ho Hms Hw|o w b s s' He|s|now s Hnow Hle|ths s Hths Hown].
  - pose proof (vinv_timer_thread s Hinv) as H. by rewrite He in H.
  - pose proof (start_rep o ms w (sv_now s) _ _ Hr Hw) as Hr'.
    pose proof (start_result o ms w (sv_now s) _ _ Hr Hw) as Hb.
    unfold svc_start_timer. destruct (start_timer o ms w (sv_now s) (sv_timer s)) as [b t].
    cbn [fst snd] in *. pose proof (rep_pending_specs _ _ Hr') as Hps.
    split; cbn; rewrite ?Hps; try done.
    + apply Forall_forall. intros x Hx. apply start_list in Hx as [Hx| ->];
        [rewrite Forall_forall in Hp; by apply Hp|]. by split_and!.
    + subst b. cbn [tspec]. case_bool_decide; cbn [snd negb]; [by rewrite app_nil_r|].
      rewrite uwrap_small by (unfold in_uw; lia). by rewrite Ha, <-!app_assoc.
  - unfold svc_stop_timer, mbind, outcome_bind in He.
    destruct (stop_timer o w (sv_timer s)) as [[b1 t]| |] eqn:Hs; [|done|done]. simplify_eq.
    pose proof (stop_rep o w _ _ _ _ Hr Hs) as Hr'. pose proof (rep_pending_specs _ _ Hr') as Hps.
    split; cbn; rewrite ?(gone_filter (same_key o w) _ _ Hps), ?Hps; try done; [by apply Forall_filter_sub|].
    rewrite Ha, <-!app_assoc. f_equiv. f_equiv. apply filter_split.
  - split; try done. cbn. by destruct (sv_phase s).
  - split; try done; cbn.
    + eapply Forall_impl; [exact Hp|]. intros x. by apply pending_ok_mono.
    + destruct (sv_phase s); [done..| |done]. split; [apply Hph|]. destruct Hph. lia.
  - split; try done; cbn. rewrite Forall_forall in Hp |- *. intros x Hx. specialize (Hp x Hx) as (Hs & _ & Hv & Hle).
    split_and!; [done| |done|done]. cbn. destruct (ths !! obj x) eqn:Hl; [eauto|].
    apply Hown in Hl. rewrite Forall_forall in Hl. by apply Hl in Hx.
Qed.

Lemma vinv_init ths now : map_Forall (fun _ => qt_ok) ths -> tv_ok now -> vinv (svc_init ths now).
Proof.
  intros Hths Hnow. destruct (timer_run_rep [] (Forall_nil_2 _)) as (t & [= <-] & Hr).
  split; cbn; try done.
Qed.

Lemma vinv_run s s' : rtc vstep s s' -> vinv s -> vinv s'.
Proof. induction 1 as [s|s s1 s2 Hst _ IH]; [done|]. intros Hinv. apply IH. by eapply vinv_step. Qed.

(** ** The timer thread on its own *)
Definition tthread (s s' : tsvc) : Prop := timer_thread s = Ok (Some s').

(** The owner of a timer has its event, or has no room left for it. *)
Definition announced (s : tsvc) (x : TimeSpec) : Prop :=
  exists q, sv_threads s !! obj x = Some q /\
    (room q = 0%nat \/ exists ntv e, e ∈ items q /\ announces ntv x e).

(** What a step of the timer thread leaves alone; a pending timer stays pending or
    is announced, and no event is taken back. *)
Record tframe (s s' : tsvc) : Prop := {
  tf_now : sv_now s' = sv_now s;
  tf_stop : sv_stop s' = sv_stop s;
  tf_subset : forall x, x ∈ pending_specs (sv_timer s') -> x ∈ pending_specs (sv_timer s);
  tf_announced : forall x, announced s x -> announced s' x;
  tf_pending : forall x, x ∈ pending_specs (sv_timer s) ->
    announced s' x \/ x ∈ pending_specs (sv_timer s');
}.

#[export] Instance tframe_preorder : PreOrder tframe.
Proof.
  split; [by intros s; split; auto|]. intros s1 s2 s3 [Hn Hs Hb Hf Hp] [Hn' Hs' Hb' Hf' Hp'].
  split; [congruence|congruence|auto|auto|]. intros x [Hx|Hx]%Hp; [left; auto|by apply Hp'].
Qed.

(** Posting keeps what is there. *)
Lemma after_keeps q es q' : after q es q' ->
  (forall e, e ∈ items q -> e ∈ items q') /\ (room q = 0%nat -> room q' = 0%nat).
Proof. intros [Hi Hr _ _ _ _]. rewrite Hi, Hr. split; [set_solver|lia]. Qed.

Lemma posted_announced ntv fs s s' : posted_for ntv fs (sv_threads s) (sv_threads s') ->
  (forall x, announced s x -> announced s' x) /\
  (forall x, x ∈ fs -> is_Some (sv_threads s !! obj x) -> announced s' x).
Proof.
  intros Hp. split.
  - intros x (q & Hq & Hx). specialize (Hp (obj x)). rewrite Hq in Hp. destruct Hp as (q' & es & Hq' & _ & Haf).
    destruct (after_keeps q es q' Haf) as [Hi Hr]. exists q'. split; [done|]. naive_solver.
  - intros x Hx [q Hq]. specialize (Hp (obj x)). rewrite Hq in Hp. destruct Hp as (q' & es & Hq' & Hes & Haf).
    exists q'. split; [done|]. assert (x ∈ filter (mine (obj x)) fs) as Hin by (by apply list_elem_of_filter).
    apply list_elem_of_lookup in Hin as [i Hi]. destruct (Forall2_lookup_l _ _ _ _ _ Hes Hi) as (e & He & Hann).
    destruct Haf as [Hit Hr _ _ _ _]. destruct (decide (i < room q)%nat) as [Hlt|Hge].
    + right. exists ntv, e. split; [|done]. rewrite Hit. apply elem_of_app. right.
      apply list_elem_of_lookup. exists i. by rewrite lookup_take_lt.
    + left. apply lookup_lt_Some in He. lia.
Qed.

Lemma tthread_scan s ntv : vinv s -> sv_phase s = PScan ntv -> exists s', tthread s s' /\ tframe s s' /\
  sv_phase s' = PHead /\ pending_specs (sv_timer s') = filter (fun x => ~ due ntv x) (pending_specs (sv_timer s)) /\
  (forall x, x ∈ pending_specs (sv_timer s) -> due ntv x -> announced s' x) /\
  sv_fired s' = sv_fired s ++ map (fun x => (x, ntv)) (gone (sv_timer s) (sv_timer s')) /\
  posted_for ntv (gone (sv_timer s) (sv_timer s')) (sv_threads s) (sv_threads s').
Proof.
  intros Hinv Hph. destruct (vinv_scan s ntv Hinv) as (t & ths & He & Hr & Hposted).
  pose proof (rep_pending_specs _ _ Hr) as Hps. unfold tthread, timer_thread. rewrite Hph.
  unfold mbind, outcome_bind. rewrite He. eexists. split; [reflexivity|].
  set (s' := Svc t ths _ _ _ _ _ _).
  destruct (posted_announced ntv _ s s' Hposted) as [Hkeep Hnew].
  assert (forall x, x ∈ pending_specs (sv_timer s) -> due ntv x -> announced s' x) as Hdue.
  { intros x Hx Hd. apply Hnew; [by apply list_elem_of_filter|].
    pose proof (vi_pending _ Hinv) as Hp. rewrite Forall_forall in Hp. by apply Hp. }
  split_and!; [|done|done|done|done|cbn; by rewrite (gone_filter (due ntv) _ _ Hps)].
  split; cbn; try done.
  - intros x. rewrite Hps. by intros [_ Hx]%list_elem_of_filter.
  - intros x Hx. destruct (decide (due ntv x)); [left; by apply Hdue|right].
    rewrite Hps. by apply list_elem_of_filter.
Qed.

Lemma tthread_phase s p : timer_thread s = Ok (Some (at_phase p s)) ->
  tthread s (at_phase p s) /\ tframe s (at_phase p s).
Proof. intros He. split; [done|]. split; cbn; auto. Qed.

(** The thread comes back to the head of its loop, unless it has returned. *)
Lemma tthread_head s : vinv s -> sv_phase s <> PDone ->
  exists s', rtc tthread s s' /\ vinv s' /\ tframe s s' /\ sv_phase s' = PHead.
Proof.
  intros Hinv Hd.
  assert (forall ntv s1, vinv s1 -> sv_phase s1 = PScan ntv ->
    exists s', rtc tthread s1 s' /\ vinv s' /\ tframe s1 s' /\ sv_phase s' = PHead) as Hscan.
  { intros ntv s1 Hi Hph. destruct (tthread_scan s1 ntv Hi Hph) as (s' & Hst & Hf & Hh & _).
    exists s'. split_and!; [by apply rtc_once| |done|done]. eapply vinv_step; [done|by apply v_timer]. }
  destruct (sv_phase s) as [| |ntv|] eqn:Hph; [by exists s| |by eapply Hscan|done].
  destruct (tthread_phase s (PScan (sv_now s))) as [Hst Hf]; [unfold timer_thread; by rewrite Hph|].
  assert (vinv (at_phase (PScan (sv_now s)) s)) as Hi by (eapply vinv_step; [done|by apply v_timer]).
  destruct (Hscan (sv_now s) _ Hi eq_refl) as (s' & Hr & Hi' & Hf' & Hh).
  exists s'. split_and!; [by eapply rtc_l|done|by etrans|done].
Qed.

Lemma tthread_fires s : vinv s -> sv_stop s = false -> exists s', rtc tthread s s' /\
  forall x, x ∈ pending_specs (sv_timer s) ->
    (usecs (tv x) + nTerm x * 1000 <= usecs (sv_now s))%Z ->
    x ∉ pending_specs (sv_timer s') /\ announced s' x.
Proof.
  intros Hinv Hstop.
  assert (sv_phase s <> PDone) as Hd by (intros Hd; pose proof (vi_phase _ Hinv) as H; rewrite Hd in H; congruence).
  destruct (tthread_head s Hinv Hd) as (s1 & Hr1 & Hi1 & Hf1 & Hh1).
  destruct (tthread_phase s1 PClock) as [Hst2 Hf2]; [
    unfold timer_thread; by rewrite Hh1, (tf_stop _ _ Hf1), Hstop|].
  assert (vinv (at_phase PClock s1)) as Hi2 by (eapply vinv_step; [done|by apply v_timer]).
  destruct (tthread_phase (at_phase PClock s1) (PScan (sv_now s1))) as [Hst3 Hf3]; [done|].
  assert (vinv (at_phase (PScan (sv_now s1)) (at_phase PClock s1))) as Hi3 by (eapply vinv_step; [done|by apply v_timer]).
  destruct (tthread_scan _ (sv_now s1) Hi3 eq_refl) as (s4 & Hst4 & Hf4 & _ & Hps4 & Hdue & _).
  exists s4. split; [etrans; [exact Hr1|]; eapply rtc_l; [exact Hst2|]; eapply rtc_l; [exact Hst3|]; by apply rtc_once|].
  intros x Hx Ht. pose proof (vi_pending _ Hinv) as Hp. rewrite Forall_forall in Hp.
  destruct (Hp x Hx) as (_ & _ & Hv & _). rewrite (tf_now _ _ Hf1) in *.
  assert (due (sv_now s) x) as Hd' by (apply elapsed_due; [done|apply Hinv|done]). split.
  - rewrite Hps4. by intros [Hnd _]%list_elem_of_filter.
  - destruct (tf_pending _ _ Hf1 x Hx) as [Hx1|Hx1]; [by apply (tf_announced _ _ Hf4)|by apply Hdue].
Qed.

Lemma tthread_ends s : vinv s -> sv_stop s = true -> exists s', rtc tthread s s' /\ sv_phase s' = PDone.
Proof.
  intros Hinv Hstop. destruct (sv_phase s) as [| | |] eqn:Hph; [..|by exists s].
  all: destruct (tthread_head s Hinv) as (s1 & Hr & _ & Hf & Hh); [by rewrite Hph|];
    exists (at_phase PDone s1); split; [|done]; eapply rtc_r; [exact Hr|];
    unfold tthread, timer_thread; by rewrite Hh, (tf_stop _ _ Hf), Hstop.
Qed.

Lemma done_stays s s' : rtc vstep s s' -> sv_phase s = PDone ->
  sv_fired s' = sv_fired s /\ sv_phase s' = PDone.
Proof.
  induction 1 as [s|s s1 s2 Hst _ IH]; intros Hd; [done|].
  assert (sv_fired s1 = sv_fired s /\ sv_phase s1 = PDone) as [Hf Hp].
  { destruct Hst as [s s' He|o ms w s|o w b s s' He|s|now s|ths s]; try done.
    - unfold timer_thread in He. by rewrite Hd in He.
    - unfold svc_start_timer. by destruct (start_timer _ _ _ _ _).
    - unfold svc_stop_timer, mbind, outcome_bind in He. destruct (stop_timer _ _ _) as [[??]| |]; by simplify_eq. }
  rewrite <-Hf. by apply IH.
Qed.

(** ** Properties *)

(** C18: no timer is lost, fires twice, or fires early.  In every state of every run
    of the timer thread with threads that start and stop timers and use their
    queues (numbers [nWhich] from 0 to 255, delays that fit an [int], the clock not
    set back, owners alive when they start a timer and until it has fired or is
    stopped, queues within their capacity) the timers started are exactly those a
    scan took off the list, those that were stopped and those still pending.  A scan
    takes timers off only at a time less than one millisecond before their delay is
    over, or later; the only exception is a timer started between the timer thread's
    reading of the clock and its scan.  And the next step of the timer thread has no
    undefined behaviour; if it is a scan, it posts one [CI_TIMER_DONE] event for
    each timer it takes off, to its owner, in order and as far as the queue has
    room, and changes no other queue. *)
Theorem timer_service_accounts (ths : gmap nat qthread) (now : timeval) (s : tsvc) :
  map_Forall (fun _ => qt_ok) ths -> tv_ok now -> rtc vstep (svc_init ths now) s ->
  sv_started s ≡ₚ map fst (sv_fired s) ++ sv_stopped s ++ pending_specs (sv_timer s) /\
  Forall (fun f => usecs f.2 < usecs (tv f.1) \/ nTerm f.1 * 1000 - 1000 < usecs f.2 - usecs (tv f.1))%Z (sv_fired s) /\
  (exists r, timer_thread s = Ok r) /\
  (forall ntv, sv_phase s = PScan ntv -> exists s', timer_thread s = Ok (Some s') /\
     sv_fired s' = sv_fired s ++ map (fun x => (x, ntv)) (gone (sv_timer s) (sv_timer s')) /\
     posted_for ntv (gone (sv_timer s) (sv_timer s')) (sv_threads s) (sv_threads s')).
Proof.
  intros Hths Hnow Hrun. pose proof (vinv_run _ _ Hrun (vinv_init ths now Hths Hnow)) as Hinv.
  split_and!; [apply Hinv|apply (vi_time _ Hinv)| |].
  - pose proof (vinv_timer_thread s Hinv) as Hst. destruct (timer_thread s); [eauto|done|done].
  - intros ntv Hph. destruct (tthread_scan s ntv Hinv Hph) as (s' & Hst & _ & _ & _ & _ & Hf & Hp). by exists s'.
Qed.

(** A run for the witnesses: a timer of 20 ms is started and one of 500 ms,
    a second passes for the first only. *)
Definition svc_demo : gmap nat qthread := {[ 1%nat := new 4 ]}.
Definition svc_demo_run : tsvc :=
  let s1 := (svc_start_timer 1 20 3 (svc_init svc_demo (TV 10 0))).2 in
  let s2 := (svc_start_timer 1 500 4 s1).2 in
  Svc (sv_timer s2) (sv_threads s2) (TV 10 20000) false PHead (sv_started s2) [] [].

Lemma svc_demo_reached : rtc vstep (svc_init svc_demo (TV 10 0)) svc_demo_run.
Proof.
  eapply rtc_l; [apply (v_start 1 20 3); [by eexists|done|done]|].
  eapply rtc_l; [apply (v_start 1 500 4); [by eexists|done|done]|].
  apply rtc_once, (v_clock (TV 10 20000)); done.
Qed.

Lemma timer_service_accounts_witness :
  sv_started svc_demo_run ≡ₚ
    map fst (sv_fired svc_demo_run) ++ sv_stopped svc_demo_run ++ pending_specs (sv_timer svc_demo_run) /\
  sv_started svc_demo_run = [Spec (TV 10 0) 20 3 1; Spec (TV 10 0) 500 4 1].
Proof.
  split; [|reflexivity].
  apply (timer_service_accounts svc_demo (TV 10 0) svc_demo_run); [|done|exact svc_demo_reached].
  by apply map_Forall_singleton; vm_compute.
Defined.

(** C19: the timer thread makes progress and can be stopped.  In every state of such a
    run (as for [timer_service_accounts]): unless a stop has been requested, the timer
    thread needs nobody else to take every pending timer whose delay is over off the
    list, with the timer's event in its owner's queue unless that queue is full or
    shut down; once [stop_global_timer] has
    requested the stop it needs nobody else to return, so the [join] returns; and
    once it has returned no scan ever takes a timer off again. *)
Theorem timer_service_live (ths : gmap nat qthread) (now : timeval) (s : tsvc) :
  map_Forall (fun _ => qt_ok) ths -> tv_ok now -> rtc vstep (svc_init ths now) s ->
  (sv_stop s = false -> exists s', rtc tthread s s' /\
     forall x, x ∈ pending_specs (sv_timer s) ->
       (usecs (tv x) + nTerm x * 1000 <= usecs (sv_now s))%Z ->
       x ∉ pending_specs (sv_timer s') /\
       exists q, sv_threads s' !! obj x = Some q /\
         (room q = 0%nat \/ exists ntv e, e ∈ items q /\ announces ntv x e)) /\
  (exists s', rtc tthread (stop_global_timer s) s' /\ sv_phase s' = PDone) /\
  (sv_phase s = PDone -> forall s', rtc vstep s s' -> sv_fired s' = sv_fired s).
Proof.
  intros Hths Hnow Hrun. pose proof (vinv_run _ _ Hrun (vinv_init ths now Hths Hnow)) as Hinv.
  split_and!; [by apply tthread_fires| |].
  - apply tthread_ends; [|done]. eapply vinv_step; [done|apply v_close].
  - intros Hd s' Hr. by destruct (done_stays s s' Hr Hd).
Qed.

Lemma timer_service_live_witness :
  exists s', rtc tthread svc_demo_run s' /\ Spec (TV 10 0) 20 3 1 ∉ pending_specs (sv_timer s').
Proof.
  destruct (timer_service_live svc_demo (TV 10 0) svc_demo_run) as (Hfire & _ & _).
  { by apply map_Forall_singleton; vm_compute. }
  { done. }
  { exact svc_demo_reached. }
  destruct (Hfire eq_refl) as (s' & Hr & Hall). exists s'. split; [exact Hr|].
  apply Hall; [|by vm_compute]. apply list_elem_of_In. by left.
Defined.

(** After the service has been stopped timers are still accepted. *)
Lemma stopped_service_accepts o ms w s : vinv s -> (0 <= w < 256)%Z ->
  ~ Exists (same_key o w) (pending_specs (sv_timer s)) -> (svc_start_timer o ms w s).1 = true.
Proof.
  intros Hinv Hw Hno. unfold svc_start_timer.
  pose proof (start_result o ms w (sv_now s) _ _ (vi_rep _ Hinv) Hw) as Hb.
  destruct (start_timer o ms w (sv_now s) (sv_timer s)) as [b t]. cbn [fst] in *. subst b.
  by rewrite bool_decide_false.
Qed.

(** The exception is real: the timer thread reads the clock and is held up for
    five seconds; a timer of two seconds started now fires in the scan that
    follows. *)
Lemma late_start_fires_at_once :
  exists s s', rtc vstep (svc_init svc_demo (TV 10 0)) s /\ sv_now s = TV 15 0 /\
    pending_specs (sv_timer s) = [Spec (TV 15 0) 2000 0 1] /\
    tthread s s' /\ map fst (sv_fired s') = [Spec (TV 15 0) 2000 0 1].
Proof.
  set (s0 := svc_init svc_demo (TV 10 0)).
  set (s2 := at_phase (PScan (TV 10 0)) (at_phase PClock s0)).
  set (s3 := Svc (sv_timer s2) (sv_threads s2) (TV 15 0) false (sv_phase s2) [] [] []).
  set (s4 := (svc_start_timer 1 2000 0 s3).2).
  assert (rtc vstep s0 s4) as Hrun.
  { eapply rtc_l; [by apply (v_timer s0 (at_phase PClock s0))|].
    eapply rtc_l; [by apply (v_timer _ s2)|].
    eapply rtc_l; [by apply (v_clock (TV 15 0) s2)|].
    apply rtc_once, (v_start 1 2000 0 s3); [by eexists|done|done]. }
  assert (vinv s4) as Hinv.
  { eapply vinv_run; [exact Hrun|]. apply vinv_init; [|done]. by apply map_Forall_singleton; vm_compute. }
  destruct (tthread_scan s4 (TV 10 0) Hinv eq_refl) as (s5 & Hst & _ & _ & Hps & _ & Hf & _). exists s4, s5.
  split_and!; [exact Hrun|reflexivity|by vm_compute|exact Hst|].
  rewrite Hf, (gone_filter (due (TV 10 0)) _ _ Hps). by vm_compute.
Qed.
