(* ===== verification/Heartbeat.v ===== *)
(** * The ICMP monitor's heartbeat (include/icmp.hpp, src/util.cpp)

    [IcmpMonitor::thread_proc] lives on its own timer: it starts one, waits for
    [CI_TIMER_DONE] on its event queue, pings its managers and starts the timer
    again.  This file composes the timer thread (TimerEvents), the monitor's
    event queue (Event) and its loop (IcmpLink) with any other users of the timer
    and of the queue, and shows when the beat goes on. *)

From S2P Require Import Prelude Text Sync ThreadLife Event Timer TimerEvents IcmpLink.
Import QThread QThreadFacts.

Section heartbeat.
(** The monitor as a thread object, its callbacks, its managers and
    [interval_]. *)
Context (o : nat) (nt al : bool) (keys : list str) (interval : Z).

(** The timer, the event threads, and what is left of the monitor's round; [[]]
    when it is at the head of its loop. *)
Record hb : Type := HB {
  hb_timer : timer;
  hb_threads : gmap nat qthread;
  hb_todo : list maction;
}.

(** The loop has been entered: [start_timer(interval_)] comes first. *)
Definition hb_init (ths : gmap nat qthread) : hb := HB GlobalTimer_new ths [ATimer interval].

(** [IcmpMonitor::start_timer] and [stop_timer]: the free functions with [this]. *)
Definition monitor_start_timer (msec which : Z) (now : timeval) (t : timer) : bool * timer :=
  start_timer o msec (u8 which) now t.
Definition monitor_stop_timer (which : Z) (t : timer) : outcome (bool * timer) :=
  stop_timer o (u8 which) t.

(** The next statement of the round; the pings do not touch this state. *)
Definition hb_act (now : timeval) (s : hb) : option hb :=
  match hb_todo s with
  | [] => None
  | ATimer msec :: todo =>
      Some (HB (monitor_start_timer msec 0 now (hb_timer s)).2 (hb_threads s) todo)
  | _ :: todo => Some (HB (hb_timer s) (hb_threads s) todo)
  end.

(** The head of the loop: [remove], and the round its result asks for. *)
Definition hb_round (s : hb) : option hb :=
  match hb_todo s, hb_threads s !! o with
  | [], Some q =>
      '(r, q') ← remove q;
      acts ← monitor_round nt al keys interval r;
      Some (HB (hb_timer s) (<[o := q']> (hb_threads s)) acts)
  | _, _ => None
  end.

(** Steps of the timer thread and of the monitor. *)
Inductive hown : hb -> hb -> Prop :=
| h_scan now s t ths :
    scan now (hb_timer s) (hb_threads s) = Ok (t, ths) -> hown s (HB t ths (hb_todo s))
| h_act now s s' : hb_act now s = Some s' -> hown s s'
| h_round s s' : hb_round s = Some s' -> hown s s'.

(** All steps: others post events, and start and stop timers other than the
    monitor's. *)
Inductive hstep : hb -> hb -> Prop :=
| h_own s s' : hown s s' -> hstep s s'
| h_post o' q e s :
    hb_threads s !! o' = Some q ->
    hstep s (HB (hb_timer s) (<[o' := (add e q).2]> (hb_threads s)) (hb_todo s))
| h_start o' msec w now s :
    (o', w) <> (o, 0%Z) -> is_Some (hb_threads s !! o') -> in_s32 msec -> (0 <= w < 256)%Z ->
    hstep s (HB (start_timer o' msec w now (hb_timer s)).2 (hb_threads s) (hb_todo s))
| h_stop o' w b t s :
    (o', w) <> (o, 0%Z) -> stop_timer o' w (hb_timer s) = Ok (b, t) ->
    hstep s (HB t (hb_threads s) (hb_todo s)).

(** [~IcmpMonitor] after its worker has been joined: the callbacks are cleared,
    the queue goes with the object, the timer list is not touched. *)
Definition monitor_dtor (s : hb) : outcome hb :=
  match hb_threads s !! o with
  | None => Ub UseAfterFree
  | Some q => '(_, _) ← stop_begin q; Ok (HB (hb_timer s) (delete o (hb_threads s)) [])
  end.

(** The round that pings every manager. *)
Definition ping_round : list maction :=
  (if nt then [ANotify] else []) ++ (if al then [AAlive] else []) ++ map ASend keys ++ [ATimer interval].

(** ** Invariants *)
Definition hinv (s : hb) : Prop :=
  in_s32 interval /\ (exists q, hb_threads s !! o = Some q /\
     Queue.q_closed (qt_queue q) = false /\ (0 < max q)%Z) /\
  map_Forall (fun _ => qt_ok) (hb_threads s) /\
  (forall msec, ATimer msec ∈ hb_todo s -> msec = interval) /\
  exists l, rep (hb_timer s) l /\ Forall spec_ok l /\
    Forall (fun x => is_Some (hb_threads s !! obj x)) l.

(** The monitor's timer is pending, its event is queued, or it is about to start
    the timer. *)
Definition pending (s : hb) : Prop := is_Some (tm (timer_map_ (hb_timer s)) o 0).
Definition queued (s : hb) : Prop := exists q e, hb_threads s !! o = Some q /\
  e ∈ items q /\ usType (h e) = CI_TIMER_DONE.
Definition arming (s : hb) : Prop := exists msec, ATimer msec ∈ hb_todo s.
Definition beats (s : hb) : Prop := pending s \/ queued s \/ arming s.

Definition full (s : hb) : Prop := exists q, hb_threads s !! o = Some q /\ room q = 0%nat.

Lemma rep_pending t l w : rep t l -> is_Some (tm (timer_map_ t) o w) <-> Exists (same_key o w) l.
Proof. intros (L & Hrep & _ & <-). by apply tm_exists. Qed.

Lemma start_pending o' msec w now t l : rep t l -> (0 <= w < 256)%Z ->
  Exists (same_key o' w) (tspec (TStart o' msec w now) l).2.
Proof.
  intros Hr Hw. cbn [tspec]. case_bool_decide; [done|]. cbn [snd]. apply Exists_app. right. by left.
Qed.

(** [remove] on an open queue. *)
Lemma remove_open q : Queue.q_closed (qt_queue q) = false -> qt_ok q ->
  match items q with
  | [] => remove q = None
  | e :: rest => exists q', remove q = Some (Some e, q') /\ items q' = rest /\ qt_ok q' /\
      Queue.q_closed (qt_queue q') = false /\ max q' = max q
  end.
Proof.
  destruct q as [th [its m sc cl]]. unfold qt_ok, items, max, remove, Queue.get, Queue.ready. cbn.
  intros -> Hok. destruct its as [|e rest]; cbn; [done|]. eexists. split; [reflexivity|]. cbn in *.
  split_and!; [done|lia|lia|done|done].
Qed.

Lemma ping_round_timer msec : ATimer msec ∈ ping_round <-> msec = interval.
Proof.
  unfold ping_round. rewrite !elem_of_app. split.
  - intros [H|[H|[H|H]]].
    + destruct nt; set_solver.
    + destruct al; set_solver.
    + by apply list_elem_of_fmap in H as (k & Hk & _).
    + apply list_elem_of_singleton in H. by simplify_eq.
  - intros ->. set_solver.
Qed.

Lemma monitor_round_acts e acts : monitor_round nt al keys interval (Some e) = Some acts ->
  acts = if (usType (h e) =? CI_TIMER_DONE)%Z then ping_round else [].
Proof. unfold monitor_round, ping_round. destruct (_ =? _)%Z; by intros [= <-]. Qed.

(** The invariant after a change of the timer list only. *)
Lemma hinv_timer s t l todo : hinv s -> rep t l ->
  (forall x, x ∈ l -> spec_ok x /\ is_Some (hb_threads s !! obj x)) ->
  (forall msec, ATimer msec ∈ todo -> msec = interval) -> hinv (HB t (hb_threads s) todo).
Proof.
  intros (Hi & Hq & Hok & _ & _) Hr Hl Ht. split_and!; try done. exists l. split_and!; [done|..];
    apply Forall_forall; intros x Hx; by apply Hl.
Qed.

Lemma hinv_list s : hinv s -> exists l, rep (hb_timer s) l /\
  (forall x, x ∈ l -> spec_ok x /\ is_Some (hb_threads s !! obj x)).
Proof.
  intros (_ & _ & _ & _ & l & Hr & Hs & Ho). exists l. split; [done|]. intros x Hx.
  by rewrite Forall_forall in Hs, Ho; split; [apply Hs|apply Ho].
Qed.

(** What a scan does to a state with the invariant. *)
Lemma hinv_scan s : hinv s -> exists l, rep (hb_timer s) l /\ forall now, exists t ths,
  scan now (hb_timer s) (hb_threads s) = Ok (t, ths) /\ rep t (filter (fun x => ~ due now x) l) /\
  posted now l (hb_threads s) ths /\ hinv (HB t ths (hb_todo s)).
Proof.
  intros (Hi & (q & Hq & Hc & Hm) & Hok & Ht & l & Hr & Hs & Ho).
  exists l. split; [done|]. intros now.
  destruct (scan_spec now (hb_timer s) l (hb_threads s) Hr Hs Hok) as (t & ths & He & Hr' & Hp).
  { eapply Forall_impl; [exact Ho|]. by intros x ? _. }
  exists t, ths. unfold hinv. cbn [hb_timer hb_threads hb_todo]. split_and!; try done.
  - pose proof (Hp o) as Hpo. rewrite Hq in Hpo. destruct Hpo as (q' & es & Hq' & _ & Haf).
    exists q'. split_and!; [done| |].
    + by rewrite (af_closed _ _ _ Haf).
    + by rewrite (af_max _ _ _ Haf).
  - by eapply posted_ok.
  - exists (filter (fun x => ~ due now x) l). split_and!; [done|by apply Forall_filter_sub|].
    apply Forall_filter_sub. eapply Forall_impl; [exact Ho|]. intros x. by apply (posted_alive now l).
Qed.

Lemma hinv_act now s s' : hinv s -> hb_act now s = Some s' -> hinv s'.
Proof.
  intros Hinv Ha. pose proof Hinv as (Hi & Hq & Hok & Ht & _).
  destruct (hinv_list s Hinv) as (l & Hr & Hl). unfold hb_act in Ha.
  destruct (hb_todo s) as [|[| |k|msec] todo] eqn:Htodo; simplify_eq.
  1-3: apply (hinv_timer s _ l); [done|done|done|]; intros m Hm; apply Ht; by right.
  assert (msec = interval) as -> by (apply Ht; by left). unfold monitor_start_timer.
  eapply (hinv_timer s); [done|by apply start_rep|..].
  - intros x Hx. apply start_list in Hx as [Hx| ->]; [by apply Hl|].
    destruct Hq as (q & Hq & _). split; [done|]. cbn. by rewrite Hq.
  - intros m Hm. apply Ht. by right.
Qed.

(** The round of a state with the invariant: blocked on an empty queue. *)
Lemma hinv_round s : hinv s -> hb_todo s = [] -> exists q, hb_threads s !! o = Some q /\
  match items q with
  | [] => hb_round s = None
  | e :: rest => exists s' q', hb_round s = Some s' /\ hb_timer s' = hb_timer s /\
      hb_threads s' !! o = Some q' /\ items q' = rest /\
      hb_todo s' = (if (usType (h e) =? CI_TIMER_DONE)%Z then ping_round else []) /\ hinv s'
  end.
Proof.
  intros Hinv Htodo. pose proof Hinv as (Hi & (q & Hq & Hc & Hm) & Hok & Ht & l & Hr & Hs & Ho).
  exists q. split; [done|]. pose proof (remove_open q Hc (Hok _ _ Hq)) as Hrem.
  unfold hb_round. rewrite Htodo, Hq. destruct (items q) as [|e rest]; [by rewrite Hrem|].
  destruct Hrem as (q' & -> & Hit & Hok' & Hc' & Hm'). cbn [mbind option_bind].
  destruct (monitor_round nt al keys interval (Some e)) as [acts|] eqn:Hr2;
    [|unfold monitor_round in Hr2; by destruct (_ =? _)%Z].
  pose proof (monitor_round_acts e acts Hr2) as Hacts.
  exists (HB (hb_timer s) (<[o := q']> (hb_threads s)) acts), q'. cbn [hb_timer hb_threads hb_todo].
  rewrite lookup_insert_eq. split_and!; try done. split_and!; cbn [hb_timer hb_threads hb_todo].
  - done.
  - exists q'. rewrite lookup_insert_eq, Hm'. done.
  - by apply map_Forall_insert_2.
  - intros msec Hin. rewrite Hacts in Hin. destruct (_ =? _)%Z; [by apply ping_round_timer|set_solver].
  - exists l. split_and!; [done|done|]. eapply Forall_impl; [exact Ho|]. intros x Hx.
    destruct (decide (obj x = o)) as [->|]; [by rewrite lookup_insert_eq|by rewrite lookup_insert_ne].
Qed.

Lemma hinv_own s s' : hinv s -> hown s s' -> hinv s'.
Proof.
  intros Hinv Hst. destruct Hst as [now s0 t ths He|now s0 s1 Ha|s0 s1 Hr].
  - destruct (hinv_scan s0 Hinv) as (l & _ & Hscan). destruct (Hscan now) as (t1 & ths1 & He1 & _ & _ & Hinv').
    rewrite He in He1. by simplify_eq.
  - by eapply hinv_act.
  - destruct (hb_todo s0) as [|a todo] eqn:Ht; [|by unfold hb_round in Hr; rewrite Ht in Hr].
    destruct (hinv_round s0 Hinv Ht) as (q & _ & Hq). destruct (items q); [by simplify_eq|].
    destruct Hq as (s2 & q' & Hr2 & _ & _ & _ & _ & Hinv'). by simplify_eq.
Qed.

Lemma hinv_step s s' : hinv s -> hstep s s' -> hinv s'.
Proof.
  intros Hinv Hst. pose proof Hinv as (Hi & (q0 & Hq0 & Hc & Hm) & Hok & Ht & _).
  destruct (hinv_list s Hinv) as (l & Hr & Hl).
  destruct Hst as [s s' Hown|o' q e s Hq|o' msec w now s Hne Ho' Hms Hw|o' w b t s Hne Hst].
  - by eapply hinv_own.
  - pose proof (after_add q e (Hok _ _ Hq)) as Haf.
    split_and!; cbn [hb_timer hb_threads hb_todo]; try done.
    + destruct (decide (o' = o)) as [->|Hoo]; [|exists q0; by rewrite lookup_insert_ne].
      simplify_eq. exists (add e q).2. rewrite lookup_insert_eq, (af_closed _ _ _ Haf), (af_max _ _ _ Haf). done.
    + apply map_Forall_insert_2; [apply Haf|done].
    + exists l. split_and!; [done|..]; apply Forall_forall; intros x Hx; [by apply Hl|].
      destruct (decide (obj x = o')) as [->|]; [by rewrite lookup_insert_eq|].
      rewrite lookup_insert_ne by done. by apply Hl.
  - eapply hinv_timer; [done|by apply start_rep|..|done].
    intros x Hx. apply start_list in Hx as [Hx| ->]; [by apply Hl|done].
  - eapply hinv_timer; [done|by eapply stop_rep|..|done].
    intros x [_ Hx]%list_elem_of_filter. by apply Hl.
Qed.

Lemma hinv_init ths q : in_s32 interval -> map_Forall (fun _ => qt_ok) ths -> ths !! o = Some q ->
  Queue.q_closed (qt_queue q) = false -> (0 < max q)%Z -> hinv (hb_init ths).
Proof.
  intros Hi Hok Hq Hc Hm. split_and!; cbn [hb_init hb_timer hb_threads hb_todo]; [done|by exists q|done| |].
  - intros m Hm'. apply list_elem_of_singleton in Hm'. by simplify_eq.
  - exists []. split_and!; [|by constructor..].
    by destruct (timer_run_rep [] (Forall_nil_2 _)) as (t & [= <-] & Hr).
Qed.

(** ** The beat goes on *)

Lemma Exists_filter {A} (P Q : A -> Prop) `{!forall x, Decision (Q x)} l x :
  x ∈ l -> P x -> Q x -> Exists P (filter Q l).
Proof. intros Hx HP HQ. apply Exists_exists. exists x. by rewrite list_elem_of_filter. Qed.

(** A due timer of the monitor and a free place give a queued event. *)
Lemma posted_queued now l ths ths' q x : posted now l ths ths' -> ths !! o = Some q ->
  x ∈ l -> obj x = o -> due now x -> (0 < room q)%nat ->
  exists q' e rest, ths' !! o = Some q' /\ items q' = items q ++ e :: rest /\ usType (h e) = CI_TIMER_DONE.
Proof.
  intros Hp Hq Hx Ho Hd Hroom. specialize (Hp o). rewrite Hq in Hp.
  destruct Hp as (q' & es & Hq' & Hes & Haf).
  assert (x ∈ due_of o now l) as Hin by (unfold due_of; by rewrite !list_elem_of_filter).
  fold (due_of o now l) in Hes.
  destruct (due_of o now l) as [|y ys]; [by apply elem_of_nil in Hin|].
  apply Forall2_cons_inv_l in Hes as (e & es' & (Hty & _) & _ & ->).
  destruct (room q) as [|k] eqn:Hk; [lia|]. exists q', e, (take k es').
  by rewrite (af_items _ _ _ Haf), Hk.
Qed.

Lemma queued_mono s ths t todo q q' : hb_threads s !! o = Some q -> ths !! o = Some q' ->
  items q ⊆ items q' -> queued s -> queued (HB t ths todo).
Proof. intros Hq Hq' Hsub (q1 & e & Hq1 & He & Hty). simplify_eq. exists q', e. split_and!; [done|set_solver|done]. Qed.

Lemma beats_act now s s' : hinv s -> beats s -> hb_act now s = Some s' -> beats s'.
Proof.
  intros Hinv Hb Ha. destruct (hinv_list s Hinv) as (l & Hr & _). unfold hb_act in Ha.
  destruct (hb_todo s) as [|a todo] eqn:Ht; [done|].
  assert (hb_threads s' = hb_threads s) as Hths by (destruct a; by simplify_eq).
  destruct a as [| |k|msec]; simplify_eq.
  4:{ left. unfold pending. cbn [hb_timer]. unfold monitor_start_timer.
      rewrite rep_pending; [|by apply start_rep]. by apply start_pending with (t := hb_timer s). }
  all: destruct Hb as [Hb|[Hb|[m Hm]]]; [by left|by right; left|right; right; exists m; cbn [hb_todo]].
  all: rewrite Ht in Hm; by apply elem_of_cons in Hm as [?|?].
Qed.

Lemma beats_scan now s t ths : hinv s -> beats s ->
  scan now (hb_timer s) (hb_threads s) = Ok (t, ths) -> beats (HB t ths (hb_todo s)) \/ full s.
Proof.
  intros Hinv Hb He. pose proof Hinv as (_ & (q0 & Hq0 & _) & _).
  destruct (hinv_scan s Hinv) as (l & Hr & Hscan). destruct (Hscan now) as (t1 & ths1 & He1 & Hr1 & Hp & _).
  rewrite He in He1. simplify_eq. destruct Hb as [Hb|[Hb|Hb]]; [|left; right; left|by left; right; right].
  - unfold pending in Hb. rewrite rep_pending, Exists_exists in Hb by done. destruct Hb as (x & Hx & Hk).
    destruct (decide (due now x)) as [Hd|Hd].
    + destruct (decide (room q0 = 0%nat)) as [Hz|Hz]; [right; by exists q0|left; right; left].
      destruct Hk as [Hox _].
      destruct (posted_queued now l _ _ q0 x Hp Hq0 Hx Hox Hd) as (q' & e & rest & Hq' & Hit & Hty); [lia|].
      exists q', e. split_and!; [done|rewrite Hit; set_solver|done].
    + left. left. unfold pending. rewrite rep_pending by done. by eapply Exists_filter.
  - pose proof (Hp o) as Hpo. rewrite Hq0 in Hpo. destruct Hpo as (q' & es & Hq' & _ & Haf).
    eapply queued_mono; [done..| |done]. rewrite (af_items _ _ _ Haf). set_solver.
Qed.

Lemma beats_round s s' : hinv s -> beats s -> hb_round s = Some s' -> beats s'.
Proof.
  intros Hinv Hb Hr. destruct (hb_todo s) as [|a todo] eqn:Htodo; [|by unfold hb_round in Hr; rewrite Htodo in Hr].
  destruct (hinv_round s Hinv Htodo) as (q & Hq & Hround).
  destruct (items q) as [|e rest] eqn:Hit; [by rewrite Hr in Hround|].
  destruct Hround as (s2 & q' & Hr2 & Htm & Hq' & Hit' & Htodo' & _). rewrite Hr in Hr2. simplify_eq.
  destruct (Z.eqb_spec (usType (h e)) CI_TIMER_DONE) as [Hty|Hty].
  { right. right. exists interval. rewrite Htodo'. by apply ping_round_timer. }
  destruct Hb as [Hb|[(q1 & e1 & Hq1 & He1 & Hty1)|[m Hm']]].
  - left. unfold pending in *. by rewrite Htm.
  - right. left. simplify_eq. exists q', e1. rewrite Hit in He1. split_and!; [done|set_solver|done].
  - rewrite Htodo in Hm'. set_solver.
Qed.

Lemma beats_step s s' : hinv s -> beats s -> hstep s s' -> beats s' \/ full s.
Proof.
  intros Hinv Hb Hst. pose proof Hinv as (Hi & (q0 & Hq0 & Hc & Hm) & Hok & Ht & _).
  destruct (hinv_list s Hinv) as (l & Hr & _).
  destruct Hst as [s s' Hown|o' q e s Hq|o' msec w now s Hne Ho' Hms Hw|o' w b t s Hne Hstop].
  - destruct Hown as [now s t ths He|now s s' Ha|s s' Hround]; [by eapply beats_scan|left; by eapply beats_act|left; by eapply beats_round].
  - left. destruct Hb as [Hb|[Hb|Hb]]; [by left|right; left|by right; right].
    destruct (decide (o' = o)) as [->|Hoo].
    + eapply (queued_mono s _ _ _ q (add e q).2); [done|by rewrite lookup_insert_eq| |done].
      rewrite (af_items _ _ _ (after_add q e (Hok _ _ Hq))). set_solver.
    + eapply (queued_mono s _ _ _ q0 q0); [done|by rewrite lookup_insert_ne|done|done].
  - left. destruct Hb as [Hb|[Hb|Hb]]; [left|by right; left|by right; right].
    unfold pending in *. rewrite rep_pending, Exists_exists in Hb by done. destruct Hb as (x & Hx & Hk).
    rewrite rep_pending by by apply start_rep. apply Exists_exists. exists x. split; [by apply start_mono|done].
  - left. destruct Hb as [Hb|[Hb|Hb]]; [left|by right; left|by right; right].
    unfold pending in *. rewrite rep_pending, Exists_exists in Hb by done. destruct Hb as (x & Hx & Hk).
    rewrite rep_pending by by eapply stop_rep. eapply Exists_filter; [done|done|].
    intros [Ho Hw]. destruct Hk as [Ho2 Hw2]. apply Hne. congruence.
Qed.

Lemma hinv_run s s' : rtc hstep s s' -> hinv s -> hinv s'.
Proof. induction 1 as [s|s s1 s2 Hst _ IH]; [done|]. intros Hinv. apply IH. by eapply hinv_step. Qed.

(** Either the beat survives a run, or the queue was full on the way. *)
Lemma beats_run s s' : rtc hstep s s' -> hinv s -> beats s ->
  hinv s' /\ (beats s' \/ exists s1, rtc hstep s s1 /\ rtc hstep s1 s' /\ full s1).
Proof.
  induction 1 as [s|s s1 s2 Hst Hrun IH]; intros Hinv Hb; [by split; [|left]|].
  pose proof (hinv_step s s1 Hinv Hst) as Hinv1.
  destruct (beats_step s s1 Hinv Hb Hst) as [Hb1|Hf].
  - destruct (IH Hinv1 Hb1) as [Hi2 [Hb2|(sf & Hr1 & Hr2 & Hf)]]; split; [done|by left|done|].
    right. exists sf. split_and!; [by eapply rtc_l|done|done].
  - split; [|right; exists s; split_and!; [done|by eapply rtc_l|done]].
    by eapply hinv_run.
Qed.

(** ** The next ping *)

(** A time at which a timer is due. *)
Lemma due_later x : exists now, due now x.
Proof.
  exists (TV (tv_sec (tv x) + Z.abs (nTerm x)) (tv_usec (tv x))). unfold due, DIFFTIME. cbn [tv_sec tv_usec].
  rewrite Z.sub_diag, Z.quot_0_l by lia. lia.
Qed.

Lemma finish_round s : hinv s -> beats s ->
  exists s', rtc hown s s' /\ hinv s' /\ beats s' /\ hb_todo s' = [].
Proof.
  remember (hb_todo s) as todo eqn:Ht. revert s Ht.
  induction todo as [|a todo IH]; intros s Ht Hinv Hb; [by exists s|].
  destruct (hb_act (TV 0 0) s) as [s1|] eqn:Ha; [|unfold hb_act in Ha; rewrite <-Ht in Ha; by destruct a].
  assert (hb_todo s1 = todo) as Ht1 by (unfold hb_act in Ha; rewrite <-Ht in Ha; destruct a; by simplify_eq).
  destruct (IH s1) as (s2 & Hr & Hrest); [done|by eapply hinv_act|by eapply beats_act|].
  exists s2. split; [|done]. eapply rtc_l; [by eapply h_act|done].
Qed.

(** At the head of the loop: drain the queue up to the event, or let the timer
    fire first. *)
Lemma next_ping s : hinv s -> beats s -> hb_todo s = [] ->
  exists s', rtc hown s s' /\ hb_todo s' = ping_round.
Proof.
  intros Hinv Hb Ht. pose proof Hinv as (_ & (q & Hq & _) & _).
  remember (items q) as its eqn:Hits. revert s q Hinv Hb Ht Hq Hits.
  induction its as [|e its IH]; intros s q Hinv Hb Ht Hq Hits.
  - destruct Hb as [Hb|[(q1 & e1 & Hq1 & He1 & _)|[m Hm]]];
      [|simplify_eq; rewrite <-Hits in He1; set_solver|rewrite Ht in Hm; set_solver].
    pose proof Hinv as (_ & (q1 & Hq1 & Hc & Hmax) & Hok & _). simplify_eq.
    assert (0 < room q)%nat as Hroom by (unfold room; rewrite Hc, <-Hits; cbn [length]; lia).
    destruct (hinv_scan s Hinv) as (l & Hr & Hscan). unfold pending in Hb.
    rewrite rep_pending, Exists_exists in Hb by done. destruct Hb as (x & Hx & Hox & Hwx).
    destruct (due_later x) as [now Hd].
    destruct (Hscan now) as (t & ths & He & _ & Hp & Hinv').
    destruct (posted_queued now l _ _ q x Hp Hq Hx Hox Hd Hroom) as (q' & e & rest & Hq' & Hit & Hty).
    destruct (hinv_round (HB t ths (hb_todo s)) Hinv' Ht) as (q2 & Hq2 & Hround). cbn [hb_threads] in Hq2.
    simplify_eq. rewrite Hit, <-Hits in Hround. cbn [app] in Hround.
    destruct Hround as (s2 & _ & Hr2 & _ & _ & _ & Htodo & _). rewrite Hty, Z.eqb_refl in Htodo.
    exists s2. split; [|done]. eapply rtc_l; [by eapply h_scan|]. apply rtc_once. by apply h_round.
  - destruct (hinv_round s Hinv Ht) as (q1 & Hq1 & Hround). simplify_eq. rewrite <-Hits in Hround.
    destruct Hround as (s1 & q' & Hr & Htm & Hq' & Hit' & Htodo & Hinv').
    destruct (Z.eqb_spec (usType (h e)) CI_TIMER_DONE) as [Hty|Hty].
    { exists s1. split; [|done]. apply rtc_once. by apply h_round. }
    pose proof (beats_round s s1 Hinv Hb Hr) as Hb1.
    destruct (IH s1 q' Hinv' Hb1 Htodo Hq') as (s2 & Hrun & Hs2); [done|].
    exists s2. split; [|done]. eapply rtc_l; [by apply h_round|done].
Qed.

(** ** Silence *)

(** Nothing pending, nothing queued, at the head of the loop. *)
Definition silent (s : hb) : Prop := hb_todo s = [] /\ rep (hb_timer s) [] /\
  exists q, hb_threads s !! o = Some q /\ items q = [] /\ Queue.q_closed (qt_queue q) = false.

Lemma silent_own s s' : hinv s -> silent s -> hown s s' -> silent s'.
Proof.
  intros Hinv (Ht & Hr & q & Hq & Hit & Hc) Hst. pose proof Hinv as (_ & _ & Hok & _).
  destruct Hst as [now s t ths He|now s s' Ha|s s' Hround].
  - destruct (scan_spec now (hb_timer s) [] (hb_threads s) Hr (Forall_nil_2 _) Hok (Forall_nil_2 _))
      as (t1 & ths1 & He1 & Hr1 & Hp). rewrite He in He1. simplify_eq.
    split_and!; [done|done|]. specialize (Hp o). rewrite Hq in Hp. destruct Hp as (q' & es & Hq' & Hes & Haf).
    apply Forall2_nil_inv_l in Hes as ->. exists q'. rewrite (af_items _ _ _ Haf), (af_closed _ _ _ Haf), Hit, take_nil.
    done.
  - unfold hb_act in Ha. by rewrite Ht in Ha.
  - destruct (hinv_round s Hinv Ht) as (q1 & Hq1 & Hr1). simplify_eq. rewrite Hit in Hr1. by rewrite Hround in Hr1.
Qed.

Lemma silent_forever s s' : rtc hown s s' -> hinv s -> silent s -> hb_todo s' = [].
Proof.
  induction 1 as [s|s s1 s2 Hst _ IH]; intros Hinv Hs; [by destruct Hs|].
  apply IH; [by eapply hinv_own|by eapply silent_own].
Qed.
End heartbeat.

(** ** Properties *)

(** C20: the heartbeat of the ICMP monitor.  Take any run of the timer thread, the
    monitor's loop and other threads that post events and use timers of their
    own.  In every state of it, unless the monitor's event queue was full at some
    moment before, the timer thread and the monitor need nobody else to come to the
    next round that pings every manager and starts the timer again. *)
Theorem monitor_heartbeat (o : nat) (nt al : bool) (keys : list str) (interval : Z)
    (ths : gmap nat qthread) (q : qthread) (s : hb) :
  in_s32 interval -> map_Forall (fun _ => qt_ok) ths -> ths !! o = Some q ->
  Queue.q_closed (qt_queue q) = false -> (0 < max q)%Z ->
  rtc (hstep o nt al keys interval) (hb_init interval ths) s ->
  (exists s1, rtc (hstep o nt al keys interval) (hb_init interval ths) s1 /\
     rtc (hstep o nt al keys interval) s1 s /\ full o s1) \/
  (exists s2, rtc (hown o nt al keys interval) s s2 /\ hb_todo s2 = ping_round nt al keys interval).
Proof.
  intros Hi Hok Hq Hc Hm Hrun.
  pose proof (hinv_init o interval ths q Hi Hok Hq Hc Hm) as Hinv.
  assert (beats o (hb_init interval ths)) as Hb by (right; right; exists interval; by left).
  destruct (beats_run o nt al keys interval _ s Hrun Hinv Hb) as [Hinv' [Hb'|Hf]]; [right|by left].
  destruct (finish_round o nt al keys interval s Hinv' Hb') as (s1 & Hr1 & Hi1 & Hb1 & Ht1).
  destruct (next_ping o nt al keys interval s1 Hi1 Hb1 Ht1) as (s2 & Hr2 & Ht2).
  exists s2. split; [by etrans|done].
Qed.

(** A run for the witness: the timer is started, fires, and the event is
    taken. *)
Definition hb_demo : gmap nat qthread := {[ 1%nat := new 4 ]}.

Lemma monitor_heartbeat_witness :
  exists s, rtc (hstep 1 false false [chars "10.0.0.1"] 500) (hb_init 500 hb_demo) s /\ hb_todo s = [] /\
  ((exists s1, rtc (hstep 1 false false [chars "10.0.0.1"] 500) (hb_init 500 hb_demo) s1 /\
      rtc (hstep 1 false false [chars "10.0.0.1"] 500) s1 s /\ full 1 s1) \/
   (exists s2, rtc (hown 1 false false [chars "10.0.0.1"] 500) s s2 /\
      hb_todo s2 = [ASend (chars "10.0.0.1"); ATimer 500])).
Proof.
  destruct (hb_act 1 (TV 10 0) (hb_init 500 hb_demo)) as [s|] eqn:Ha; [|by vm_compute in Ha].
  assert (rtc (hstep 1 false false [chars "10.0.0.1"] 500) (hb_init 500 hb_demo) s) as Hrun
    by (apply rtc_once, h_own; by eapply h_act).
  exists s. split_and!; [done|by injection Ha as <-|].
  apply (monitor_heartbeat 1 false false [chars "10.0.0.1"] 500 hb_demo (new 4) s); try done.
  by apply map_Forall_singleton; vm_compute.
Defined.

(** With a queue of one place and an event of another thread in it the timer's
    event is dropped; once the queue is drained the monitor never pings
    again. *)
Lemma monitor_silenced (o : nat) (nt al : bool) (keys : list str) :
  exists s, rtc (hstep o nt al keys 500) (hb_init 500 {[ o := new 1 ]}) s /\
    forall s', rtc (hown o nt al keys 500) s s' -> hb_todo s' = [].
Proof.
  set (step := hstep o nt al keys 500). set (s0 := hb_init 500 {[ o := new 1 ]}).
  destruct (timer_run_rep [] (Forall_nil_2 _)) as (t0 & [= <-] & Hr0).
  assert (hinv o 500 s0) as Hinv0.
  { apply (hinv_init o 500 _ (new 1)); try done; [by apply map_Forall_singleton; vm_compute|by rewrite lookup_singleton_eq]. }
  set (t1 := (start_timer o 500 0 (TV 10 0) GlobalTimer_new).2).
  pose proof (start_rep o 500 0 (TV 10 0) GlobalTimer_new [] Hr0 ltac:(lia)) as Hr1.
  change (rep t1 [Spec (TV 10 0) 500 0 o]) in Hr1.
  set (q2 := (add event0 (new 1)).2).
  set (s1 := HB t1 {[ o := new 1 ]} []). set (s2 := HB t1 (<[o := q2]> {[ o := new 1 ]}) []).
  assert (rtc step s0 s2) as Hrun2.
  { eapply rtc_l; [apply h_own, (h_act o nt al keys 500 (TV 10 0) s0 s1); reflexivity|].
    apply rtc_once, (h_post o nt al keys 500 o (new 1) event0 s1). cbn [s1 hb_threads]. by rewrite lookup_singleton_eq. }
  pose proof (hinv_run o nt al keys 500 s0 s2 Hrun2 Hinv0) as Hinv2.
  assert (room q2 = 0%nat /\ items q2 = [event0]) as [Hroom Hitems] by by vm_compute.
  pose proof Hinv2 as (_ & _ & Hok2 & _).
  destruct (scan_spec (TV 11 0) t1 [Spec (TV 10 0) 500 0 o] (hb_threads s2) Hr1) as (t3 & ths3 & Hs3 & Hr3 & Hp3).
  { repeat constructor; cbn; unfold INT32_MIN, INT32_MAX; lia. }
  { done. }
  { apply Forall_singleton. intros _. cbn. by rewrite lookup_insert_eq. }
  rewrite filter_cons_False, filter_nil in Hr3 by (intros Hx; apply Hx; by vm_compute).
  assert (rtc step s0 (HB t3 ths3 [])) as Hrun3.
  { eapply rtc_r; [exact Hrun2|]. apply h_own, (h_scan o nt al keys 500 (TV 11 0) s2). exact Hs3. }
  pose proof (hinv_run o nt al keys 500 _ _ Hrun3 Hinv0) as Hinv3.
  specialize (Hp3 o). cbn [hb_threads s2] in Hp3. rewrite lookup_insert_eq in Hp3.
  destruct Hp3 as (q3 & es & Hq3 & _ & Haf). pose proof (af_items _ _ _ Haf) as Hit3. rewrite Hroom, Hitems in Hit3.
  destruct (hinv_round o nt al keys 500 _ Hinv3 eq_refl) as (q3' & Hq3' & Hround). cbn [hb_threads] in Hq3'.
  simplify_eq. rewrite Hit3 in Hround. cbn [app take] in Hround.
  destruct Hround as (s4 & q4 & Hr4 & Htm & Hq4 & Hit4 & Htodo & Hinv4).
  exists s4. split; [eapply rtc_r; [exact Hrun3|]; by apply h_own, h_round|].
  intros s' Hrun. apply (silent_forever o nt al keys 500 s4 s' Hrun Hinv4).
  pose proof Hinv4 as (_ & (q & Hq & Hc & _) & _). simplify_eq.
  split_and!; [exact Htodo|by rewrite Htm|by exists q4].
Qed.

(** Destroying a monitor leaves its timer: the scan that finds it due uses the
    freed object. *)
Lemma destroyed_monitor_dangles (o : nat) (interval : Z) (s s' : hb) (now : timeval) :
  hinv o interval s -> monitor_dtor o s = Ok s' ->
  (forall l, rep (hb_timer s) l -> Exists (fun x => obj x = o /\ due now x) l) ->
  scan now (hb_timer s') (hb_threads s') = Ub UseAfterFree.
Proof.
  intros (_ & (q & Hq & _) & Hok & _ & l & Hr & Hs & _) Hd Hex. unfold monitor_dtor in Hd. rewrite Hq in Hd.
  unfold mbind, outcome_bind in Hd. destruct (stop_begin q) as [[j q']| |]; [|done|done]. simplify_eq.
  cbn [hb_timer hb_threads]. eapply scan_dangling; [done|done|by apply map_Forall_delete|].
  eapply Exists_impl; [by apply Hex|]. intros x [<- Hx]. split; [done|]. apply lookup_delete_eq.
Qed.
