(* ===== verification/Objects.v ===== *)
(** * The VoiceXML object hierarchy (include/objects.hpp)

    The header declares the classes; what it defines itself are the data members,
    the accessors and the virtual interface through which a running document looks
    at its objects.  An object is its dynamic class with the members of that class
    and its bases; a virtual call is a match on the dynamic class, a call of a
    non-virtual member is a function on the static class.  Bodies outside the
    header are arguments. *)

From S2P Require Import Prelude.

(** A count and the array it belongs to ([T**], null or an array of objects). *)
Definition arr : Type := Z * option (list nat).
Definition null_arr : arr := (0%Z, None).

(** ** Data *)

(** [VXMLOBJTYPE] is declared outside the repository; these are the enumerators
    the header names. *)
Inductive VXMLOBJTYPE : Type :=
| VXMLOBJ_NOINPUT | VXMLOBJ_NOMATCH | VXMLOBJ_CATCH | VXMLOBJ_EXIT | VXMLOBJ_ERROR | VXMLOBJ_PLAY
| VXMLOBJ_other (n : Z).

(** The [CIdList] members, null or a list of object ids. *)
Record idlists : Type := MkIds {
  m_pliDialogId : option (list Z);
  m_pliPlayId : option (list Z);
  m_pliChoiceId : option (list Z);
  m_pliEventId : option (list Z);
  m_pliPropId : option (list Z);
  m_pliVarId : option (list Z);
  m_pliAssignId : option (list Z);
  m_pliIfId : option (list Z);
  m_pliTransferId : option (list Z);
}.

(** Without the logger and the interpreter, which the header only stores. *)
Record CObjBase : Type := MkBase {
  m_nVersion : Z;
  type_ : VXMLOBJTYPE;
  name_ : str;
  m_nId : Z;
  m_nParentId : Z;
  m_pParent : option nat;
  m_pVxmlObjects : option nat;
  ids : idlists;
}.

Record CObjVxml : Type := MkVxml {
  vxml_base : CObjBase;
  m_strVxmlVersion : str;
  vxml_dialogs : arr;
  vxml_props : arr;
  vxml_vars : arr;
  vxml_assigns : arr;
  vxml_ifs : arr;
  vxml_transfers : arr;
}.

Record CObjProperty : Type := MkProperty { prop_base : CObjBase; m_strPropName : str; m_strPropValue : str }.
Record CObjVar : Type := MkVar { var_base : CObjBase; m_strVarName : str; m_strVarValue : str }.
Record CObjAssign : Type := MkAssign { assign_base : CObjBase; m_strAssignName : str; m_strAssignValue : str }.

Record CObjPlay : Type := MkPlay { play_base : CObjBase; play_count : Z }.
Record CObjAudio : Type := MkAudio {
  audio_play : CObjPlay;
  audio_source : str;
  m_bExist : bool;
  audio_expr : str;
  m_strExprResult : str;
}.
Record CObjPrompt : Type := MkPrompt {
  prompt_play : CObjPlay;
  prompt_cond : str;
  m_nTimeout : Z;
  prompt_plays : arr;
  m_nIndexOfPlays : Z;
}.

Record CObjChoice : Type := MkChoice {
  choice_base : CObjBase;
  m_strDtmf : str;
  choice_next_doc : str;
  choice_next : str;
  m_strEvent : str;
  choice_next_id : Z;
  choice_dialog : option nat;
  choice_expr : str;
}.
Record CObjGoto : Type := MkGoto {
  goto_base : CObjBase;
  goto_next_doc : str;
  goto_next : str;
  m_strNextItem : str;
  goto_next_id : Z;
  m_nNextItemId : Z;
  goto_dialog : option nat;
  goto_expr : str;
  m_strExprItem : str;
}.
Record CObjScript : Type := MkScript {
  script_base : CObjBase;
  script_source : str;
  m_strCharset : str;
  m_strBlock : str;
}.

(** [CObjRecord] has a [name_] of its own beside the inherited one. *)
Record CObjRecord : Type := MkRecord {
  rec_base : CObjBase;
  rec_name_ : str;
  m_nMaxTime : Z;
  m_nAudioType : Z;
  m_bBeep : bool;
  m_bDtmfTerm : bool;
  rec_plays : arr;
}.

Record CObjDialog : Type := MkDialog {
  dlg_base : CObjBase;
  m_strDialogName : str;
  m_nPromptCount : Z;
  m_mapEventCount : list (str * Z);
}.

Record CObjMenu : Type := MkMenu {
  menu_dialog : CObjDialog;
  m_bDtmf : bool;
  m_bWait : bool;
  m_nNumOfDtmfInput : Z;
  m_strValidDtmfs : str;
  m_nRecordId : Z;
  menu_choices : arr;
  menu_events : arr;
  menu_plays : arr;
  m_pRecord : option nat;
  menu_assigns : arr;
  menu_next : option nat;
  menu_ifs : arr;
  menu_transfers : arr;
}.

Record CObjEvent : Type := MkEvent {
  ev_base : CObjBase;
  m_nCount : Z;
  m_strEventName : str;
  ev_cond : str;
  ev_plays : arr;
}.
(** A pointer member; [None] before anything is stored in it. *)
Definition init_ptr : Type := option (option nat).
Definition load (p : init_ptr) : outcome (option nat) :=
  match p with None => Ub Uninitialised | Some d => Ok d end.

Record CObjNoinput : Type := MkNoinput { noinput_event : CObjEvent; noinput_next : init_ptr }.
Record CObjNomatch : Type := MkNomatch { nomatch_event : CObjEvent; nomatch_next : init_ptr }.
Record CObjCatch : Type := MkCatch { catch_event : CObjEvent; catch_next : init_ptr }.

Section constructors.
(** [CObjEvent(VXMLOBJTYPE, int)]. *)
Context (event_new : VXMLOBJTYPE -> Z -> CObjEvent).

Definition CObjNoinput_new (nId : Z) : CObjNoinput := MkNoinput (event_new VXMLOBJ_NOINPUT nId) None.
Definition CObjNomatch_new (nId : Z) : CObjNomatch := MkNomatch (event_new VXMLOBJ_NOMATCH nId) None.
Definition CObjCatch_new (nId : Z) : CObjCatch := MkCatch (event_new VXMLOBJ_CATCH nId) None.
Definition CObjExit_new (nId : Z) : CObjEvent := event_new VXMLOBJ_EXIT nId.
Definition CObjError_new (nId : Z) : CObjEvent := event_new VXMLOBJ_ERROR nId.
End constructors.

Record CObjIf : Type := MkIf {
  if_base : CObjBase;
  if_cond : str;
  if_assigns : arr;
  if_ifs : arr;
  if_next : option nat;
}.

(** [CObjTransfer] hides [name_], [SetName] and [name] as well. *)
Record CObjTransfer : Type := MkTransfer {
  tr_base : CObjBase;
  m_strDestExpr : str;
  tr_name_ : str;
  m_nConnectTimeout : Z;
  tr_ifs : arr;
}.

(** An object by its dynamic class. *)
Inductive vxobj : Type :=
| OVxml (v : CObjVxml)
| ORecord (r : CObjRecord)
| ODialog (d : CObjDialog)
| OMenu (m : CObjMenu)
| OForm (d : CObjDialog)
| OEvent (e : CObjEvent)
| ONoinput (e : CObjNoinput)
| ONomatch (e : CObjNomatch)
| OExit (e : CObjEvent)
| OError (e : CObjEvent)
| OCatch (e : CObjCatch)
| OIf (i : CObjIf)
| OElseif (i : CObjIf)
| OElse (i : CObjIf)
| OTransfer (t : CObjTransfer)
| OChoice (c : CObjChoice)
| OGoto (g : CObjGoto)
| OProperty (p : CObjProperty)
| OVar (v : CObjVar)
| OAssign (a : CObjAssign)
| OPlay (p : CObjPlay)
| OAudio (a : CObjAudio)
| OPrompt (p : CObjPrompt)
| OScript (c : CObjScript).

(** The conversion to [CObjBase*]. *)
Definition base_of (x : vxobj) : CObjBase :=
  match x with
  | OVxml v => vxml_base v
  | ORecord r => rec_base r
  | ODialog d | OForm d => dlg_base d
  | OMenu m => dlg_base (menu_dialog m)
  | OEvent e | OExit e | OError e => ev_base e
  | ONoinput e => ev_base (noinput_event e)
  | ONomatch e => ev_base (nomatch_event e)
  | OCatch e => ev_base (catch_event e)
  | OIf i | OElseif i | OElse i => if_base i
  | OTransfer t => tr_base t
  | OChoice c => choice_base c
  | OGoto g => goto_base g
  | OProperty p => prop_base p
  | OVar v => var_base v
  | OAssign a => assign_base a
  | OPlay p => play_base p
  | OAudio a => play_base (audio_play a)
  | OPrompt p => play_base (prompt_play p)
  | OScript c => script_base c
  end.

(** ** The count and array methods *)

(** [GetPropertyCount]/[GetProperties], [GetVarCount]/[GetVars],
    [GetAssignCount]/[GetAssigns], [GetIfCount]/[GetIfs],
    [GetTransferCount]/[GetTransfers], [GetNumberOfPrompts]/[GetPrompts]. *)
Inductive akind : Type := KProps | KVars | KAssigns | KIfs | KTransfers | KPrompts.

Definition base_count (k : akind) : Z := 0.
Definition base_array (k : akind) : option (list nat) := None.

Definition vxml_count (k : akind) (v : CObjVxml) : Z :=
  match k with
  | KProps => (vxml_props v).1
  | KVars => (vxml_vars v).1
  | KAssigns => (vxml_assigns v).1
  | KIfs => (vxml_ifs v).1
  | KTransfers => (vxml_transfers v).1
  | KPrompts => base_count k
  end.
Definition vxml_array (k : akind) (v : CObjVxml) : option (list nat) :=
  match k with
  | KProps => (vxml_props v).2
  | KVars => (vxml_vars v).2
  | KAssigns => (vxml_assigns v).2
  | KIfs => (vxml_ifs v).2
  | KTransfers => (vxml_transfers v).2
  | KPrompts => base_array k
  end.

Definition record_count (k : akind) (r : CObjRecord) : Z :=
  match k with KPrompts => (rec_plays r).1 | _ => base_count k end.
Definition record_array (k : akind) (r : CObjRecord) : option (list nat) :=
  match k with KPrompts => (rec_plays r).2 | _ => base_array k end.

(** [CObjDialog] overrides the prompts and assigns with the same constants. *)
Definition dialog_count (k : akind) : Z :=
  match k with KPrompts | KAssigns => 0%Z | _ => base_count k end.
Definition dialog_array (k : akind) : option (list nat) :=
  match k with KPrompts | KAssigns => None | _ => base_array k end.

Definition menu_count (k : akind) (m : CObjMenu) : Z :=
  match k with
  | KPrompts => (menu_plays m).1
  | KAssigns => (menu_assigns m).1
  | KIfs => (menu_ifs m).1
  | KTransfers => (menu_transfers m).1
  | _ => dialog_count k
  end.
Definition menu_array (k : akind) (m : CObjMenu) : option (list nat) :=
  match k with
  | KPrompts => (menu_plays m).2
  | KAssigns => (menu_assigns m).2
  | KIfs => (menu_ifs m).2
  | KTransfers => (menu_transfers m).2
  | _ => dialog_array k
  end.

Definition event_count (k : akind) (e : CObjEvent) : Z :=
  match k with KPrompts => (ev_plays e).1 | _ => base_count k end.
Definition event_array (k : akind) (e : CObjEvent) : option (list nat) :=
  match k with KPrompts => (ev_plays e).2 | _ => base_array k end.

Definition if_count (k : akind) (i : CObjIf) : Z :=
  match k with KAssigns => (if_assigns i).1 | KIfs => (if_ifs i).1 | _ => base_count k end.
Definition if_array (k : akind) (i : CObjIf) : option (list nat) :=
  match k with KAssigns => (if_assigns i).2 | KIfs => (if_ifs i).2 | _ => base_array k end.

Definition transfer_count (k : akind) (t : CObjTransfer) : Z :=
  match k with KIfs => (tr_ifs t).1 | _ => base_count k end.
Definition transfer_array (k : akind) (t : CObjTransfer) : option (list nat) :=
  match k with KIfs => (tr_ifs t).2 | _ => base_array k end.

(** The virtual calls. *)
Definition get_count (k : akind) (x : vxobj) : Z :=
  match x with
  | OVxml v => vxml_count k v
  | ORecord r => record_count k r
  | ODialog _ | OForm _ => dialog_count k
  | OMenu m => menu_count k m
  | OEvent e | OExit e | OError e => event_count k e
  | ONoinput e => event_count k (noinput_event e)
  | ONomatch e => event_count k (nomatch_event e)
  | OCatch e => event_count k (catch_event e)
  | OIf i | OElseif i | OElse i => if_count k i
  | OTransfer t => transfer_count k t
  | OChoice _ | OGoto _ | OProperty _ | OVar _ | OAssign _ | OPlay _ | OAudio _ | OPrompt _ | OScript _ => base_count k
  end.
Definition get_array (k : akind) (x : vxobj) : option (list nat) :=
  match x with
  | OVxml v => vxml_array k v
  | ORecord r => record_array k r
  | ODialog _ | OForm _ => dialog_array k
  | OMenu m => menu_array k m
  | OEvent e | OExit e | OError e => event_array k e
  | ONoinput e => event_array k (noinput_event e)
  | ONomatch e => event_array k (nomatch_event e)
  | OCatch e => event_array k (catch_event e)
  | OIf i | OElseif i | OElse i => if_array k i
  | OTransfer t => transfer_array k t
  | OChoice _ | OGoto _ | OProperty _ | OVar _ | OAssign _ | OPlay _ | OAudio _ | OPrompt _ | OScript _ => base_array k
  end.

(** The interface that starts at [CObjDialog], and [CObjMenu]'s choices. *)
Definition GetNumberOfEvents (x : CObjDialog + CObjMenu) : Z :=
  match x with inl _ => 0%Z | inr m => (menu_events m).1 end.
Definition GetEvents (x : CObjDialog + CObjMenu) : option (list nat) :=
  match x with inl _ => None | inr m => (menu_events m).2 end.
Definition GetWait (x : CObjDialog + CObjMenu) : bool :=
  match x with inl _ => true | inr m => m_bWait m end.
Definition GetRecord (x : CObjDialog + CObjMenu) : option nat :=
  match x with inl _ => None | inr m => m_pRecord m end.

(** [GetNumOfDtmfInput] and [GetValidDtmfs]; only [CObjMenu] has its own. *)
Definition GetNumOfDtmfInput (x : vxobj) : Z :=
  match x with OMenu m => m_nNumOfDtmfInput m | _ => 1%Z end.
Definition GetValidDtmfs (x : vxobj) : str :=
  match x with OMenu m => m_strValidDtmfs m | _ => [] end.

(** ** Prompts and following dialogs *)
Definition incr_dialog (d : CObjDialog) : outcome CObjDialog :=
  n ← chk32 (m_nPromptCount d + 1); Ok (MkDialog (dlg_base d) (m_strDialogName d) n (m_mapEventCount d)).
Definition with_dialog (d : CObjDialog) (m : CObjMenu) : CObjMenu :=
  MkMenu d (m_bDtmf m) (m_bWait m) (m_nNumOfDtmfInput m) (m_strValidDtmfs m) (m_nRecordId m)
    (menu_choices m) (menu_events m) (menu_plays m) (m_pRecord m) (menu_assigns m) (menu_next m)
    (menu_ifs m) (menu_transfers m).

(** [IncrPromptCount]: the base's does nothing. *)
Definition IncrPromptCount (x : vxobj) : outcome vxobj :=
  match x with
  | ODialog d => d' ← incr_dialog d; Ok (ODialog d')
  | OForm d => d' ← incr_dialog d; Ok (OForm d')
  | OMenu m => d' ← incr_dialog (menu_dialog m); Ok (OMenu (with_dialog d' m))
  | _ => Ok x
  end.

Definition menu_set_next (pDialog : option nat) (m : CObjMenu) : CObjMenu :=
  MkMenu (menu_dialog m) (m_bDtmf m) (m_bWait m) (m_nNumOfDtmfInput m) (m_strValidDtmfs m)
    (m_nRecordId m) (menu_choices m) (menu_events m) (menu_plays m) (m_pRecord m) (menu_assigns m)
    pDialog (menu_ifs m) (menu_transfers m).

Definition SetNextDialog (pDialog : option nat) (x : vxobj) : vxobj :=
  match x with
  | OMenu m => OMenu (menu_set_next pDialog m)
  | ONoinput e => ONoinput (MkNoinput (noinput_event e) (Some pDialog))
  | ONomatch e => ONomatch (MkNomatch (nomatch_event e) (Some pDialog))
  | OCatch e => OCatch (MkCatch (catch_event e) (Some pDialog))
  | _ => x
  end.

Section next.
(** [GetNextDialog] of [CObjChoice], [CObjGoto] and [CObjIf]. *)
Context (next_of : vxobj -> outcome (option nat)).

Definition GetNextDialog (x : vxobj) : outcome (option nat) :=
  match x with
  | OMenu m => Ok (menu_next m)
  | ONoinput e => load (noinput_next e)
  | ONomatch e => load (nomatch_next e)
  | OCatch e => load (catch_next e)
  | OChoice _ | OGoto _ | OIf _ | OElseif _ | OElse _ => next_of x
  | _ => Ok None
  end.
End next.

(** [CObjBase::PrepareToRun], which [CObjDialog] repeats. *)
Definition PrepareToRun (b : CObjBase) : bool := bool_decide (m_pVxmlObjects b <> None).

(** ** Non-virtual members *)
Definition SetName (pszName : str) (b : CObjBase) : CObjBase :=
  MkBase (m_nVersion b) (type_ b) pszName (m_nId b) (m_nParentId b) (m_pParent b) (m_pVxmlObjects b) (ids b).
Definition name (b : CObjBase) : str := name_ b.
Definition SetRecName (pszName : str) (r : CObjRecord) : CObjRecord :=
  MkRecord (rec_base r) pszName (m_nMaxTime r) (m_nAudioType r) (m_bBeep r) (m_bDtmfTerm r) (rec_plays r).
Definition GetRecName (r : CObjRecord) : str := rec_name_ r.
Definition transfer_SetName (pszName : str) (t : CObjTransfer) : CObjTransfer :=
  MkTransfer (tr_base t) (m_strDestExpr t) pszName (m_nConnectTimeout t) (tr_ifs t).
Definition transfer_name (t : CObjTransfer) : str := tr_name_ t.

Definition SetDialogName (pszName : str) (d : CObjDialog) : CObjDialog :=
  MkDialog (dlg_base d) pszName (m_nPromptCount d) (m_mapEventCount d).
(** [CObjDialog::operator=]: the base's copy is an argument. *)
Definition dialog_assign (base_assign : CObjBase -> CObjBase -> CObjBase) (o d : CObjDialog) : CObjDialog :=
  MkDialog (base_assign (dlg_base o) (dlg_base d)) (m_strDialogName o) (m_nPromptCount d) (m_mapEventCount d).

(** [CObjChoice::CheckDtmf] with the [find] of the string class. *)
Definition CheckDtmf (find : str -> ascii -> Z) (c : CObjChoice) (dtmf : ascii) : bool :=
  (0 <=? find (m_strDtmf c) dtmf)%Z.

(** [CObjPlay]'s constructors; [base_new] is the one of [CObjBase]. *)
Definition CObjPlay_new (base_new : VXMLOBJTYPE -> Z -> option str -> CObjBase)
    (nType : VXMLOBJTYPE) (nId : Z) (pszName : option str) : CObjPlay := MkPlay (base_new nType nId pszName) 1.
Definition CObjPlay_default (base_new : VXMLOBJTYPE -> Z -> option str -> CObjBase) : CObjPlay :=
  CObjPlay_new base_new VXMLOBJ_PLAY 0 None.
Definition play_set_limit (n : Z) (p : CObjPlay) : CObjPlay := MkPlay (play_base p) n.

(** The setters of the plain classes. *)
Definition SetPropName (v : str) (p : CObjProperty) := MkProperty (prop_base p) v (m_strPropValue p).
Definition SetPropValue (v : str) (p : CObjProperty) := MkProperty (prop_base p) (m_strPropName p) v.
Definition SetVarName (v : str) (x : CObjVar) := MkVar (var_base x) v (m_strVarValue x).
Definition SetVarValue (v : str) (x : CObjVar) := MkVar (var_base x) (m_strVarName x) v.
Definition SetAssignName (v : str) (x : CObjAssign) := MkAssign (assign_base x) v (m_strAssignValue x).
Definition SetAssignValue (v : str) (x : CObjAssign) := MkAssign (assign_base x) (m_strAssignName x) v.
Definition audio_SetSource (v : str) (x : CObjAudio) :=
  MkAudio (audio_play x) v (m_bExist x) (audio_expr x) (m_strExprResult x).
Definition audio_SetExpr (v : str) (x : CObjAudio) :=
  MkAudio (audio_play x) (audio_source x) (m_bExist x) v (m_strExprResult x).
Definition prompt_SetCondition (v : str) (x : CObjPrompt) :=
  MkPrompt (prompt_play x) v (m_nTimeout x) (prompt_plays x) (m_nIndexOfPlays x).
Definition SetTimeout (t : Z) (x : CObjPrompt) :=
  MkPrompt (prompt_play x) (prompt_cond x) t (prompt_plays x) (m_nIndexOfPlays x).
Definition SetEvent (v : str) (c : CObjChoice) :=
  MkChoice (choice_base c) (m_strDtmf c) (choice_next_doc c) (choice_next c) v (choice_next_id c)
    (choice_dialog c) (choice_expr c).
Definition SetDtmf (v : str) (c : CObjChoice) :=
  MkChoice (choice_base c) v (choice_next_doc c) (choice_next c) (m_strEvent c) (choice_next_id c)
    (choice_dialog c) (choice_expr c).
Definition choice_SetNextId (n : Z) (c : CObjChoice) :=
  MkChoice (choice_base c) (m_strDtmf c) (choice_next_doc c) (choice_next c) (m_strEvent c) n
    (choice_dialog c) (choice_expr c).
Definition SetSource (v : str) (x : CObjScript) := MkScript (script_base x) v (m_strCharset x) (m_strBlock x).
Definition SetCharSet (v : str) (x : CObjScript) := MkScript (script_base x) (script_source x) v (m_strBlock x).
Definition SetBlock (v : str) (x : CObjScript) := MkScript (script_base x) (script_source x) (m_strCharset x) v.

(** [CVxmlObjects]' reference count, a [PDK32U]. *)
Definition IncRefCount (m_nRefCount : Z) : Z := u32 (m_nRefCount + 1).

(** ** Lemmas *)

(** A count that fits its array: zero for a null pointer. *)
Definition good (a : arr) : Prop :=
  match a.2 with None => a.1 = 0%Z | Some xs => a.1 = Z.of_nat (length xs) end.

Definition event_good (e : CObjEvent) : Prop := good (ev_plays e).
Definition if_good (i : CObjIf) : Prop := good (if_assigns i) /\ good (if_ifs i).

(** The arrays of an object are good. *)
Definition obj_good (x : vxobj) : Prop :=
  match x with
  | OVxml v => good (vxml_props v) /\ good (vxml_vars v) /\ good (vxml_assigns v) /\
               good (vxml_ifs v) /\ good (vxml_transfers v)
  | ORecord r => good (rec_plays r)
  | OMenu m => good (menu_plays m) /\ good (menu_assigns m) /\ good (menu_ifs m) /\ good (menu_transfers m)
  | OEvent e | OExit e | OError e => event_good e
  | ONoinput e => event_good (noinput_event e)
  | ONomatch e => event_good (nomatch_event e)
  | OCatch e => event_good (catch_event e)
  | OIf i | OElseif i | OElse i => if_good i
  | OTransfer t => good (tr_ifs t)
  | ODialog _ | OForm _ | OChoice _ | OGoto _ | OProperty _ | OVar _ | OAssign _ | OPlay _ | OAudio _
  | OPrompt _ | OScript _ => True
  end.

Lemma dispatch_good k x : obj_good x -> good (get_count k x, get_array k x).
Proof. destruct x, k; cbn; unfold event_good, if_good, good; cbn; naive_solver. Qed.

(** The classes that remember the following dialog. *)
Definition keeps_next (x : vxobj) : bool :=
  match x with OMenu _ | ONoinput _ | ONomatch _ | OCatch _ => true | _ => false end.

Lemma SetNextDialog_frame d x k :
  get_count k (SetNextDialog d x) = get_count k x /\ get_array k (SetNextDialog d x) = get_array k x /\
  base_of (SetNextDialog d x) = base_of x.
Proof. by destruct x, k. Qed.

Lemma IncrPromptCount_frame x x' k : IncrPromptCount x = Ok x' ->
  get_count k x' = get_count k x /\ get_array k x' = get_array k x /\ base_of x' = base_of x.
Proof.
  destruct x; cbn; unfold incr_dialog, mbind, outcome_bind; try (by intros [= <-]);
    destruct (chk32 _); try done; intros [= <-]; by destruct k.
Qed.

(** ** Properties *)

(** The virtual interface of the document objects is consistent.  Whatever the
    dynamic class of an object whose arrays have the lengths its counts say, each
    count method and the array method that belongs to it, called through a base
    pointer, agree: a zero count with a null pointer, or an array in which every
    index below the count is an element.  Neither [SetNextDialog] nor
    [IncrPromptCount] disturbs this, and [SetNextDialog] followed by
    [GetNextDialog] gives back the dialog exactly for the menus and the noinput,
    nomatch and catch handlers; for every other class it changes nothing. *)
Theorem vxml_dispatch_agrees (next_of : vxobj -> outcome (option nat)) (x : vxobj) (k : akind) (d : option nat) :
  obj_good x ->
  (forall y, y = x \/ y = SetNextDialog d x \/ IncrPromptCount x = Ok y ->
     match get_array k y with
     | None => get_count k y = 0%Z
     | Some xs => forall i, (0 <= i < get_count k y)%Z -> is_Some (xs !! Z.to_nat i)
     end) /\
  GetNextDialog next_of (SetNextDialog d x) =
    (if keeps_next x then Ok d else GetNextDialog next_of x).
Proof.
  intros Hx. split; [|by destruct x].
  assert (forall y, get_count k y = get_count k x -> get_array k y = get_array k x ->
    match get_array k y with
    | None => get_count k y = 0%Z
    | Some xs => forall i, (0 <= i < get_count k y)%Z -> is_Some (xs !! Z.to_nat i)
    end) as Hy.
  { intros y -> ->. pose proof (dispatch_good k x Hx) as Hg. unfold good in Hg. cbn in Hg.
    destruct (get_array k x) as [xs|]; [|done]. intros i Hi. apply lookup_lt_is_Some. lia. }
  intros y [->|[->|Hinc]]; apply Hy; try done.
  - by destruct (SetNextDialog_frame d x k) as (? & ? & _).
  - by destruct (SetNextDialog_frame d x k) as (? & ? & _).
  - by destruct (IncrPromptCount_frame x y k Hinc) as (? & ? & _).
  - by destruct (IncrPromptCount_frame x y k Hinc) as (? & ? & _).
Qed.

Lemma vxml_dispatch_agrees_witness :
  let b := MkBase 1 (VXMLOBJ_other 3) [] 7 0 None None
             (MkIds None None None None None None None None None) in
  let m := MkMenu (MkDialog b [] 0 []) true true 1 [] 0 null_arr null_arr (2%Z, Some [4%nat; 5%nat]) None
             null_arr None null_arr null_arr in
  obj_good (OMenu m) /\ is_Some ([4%nat; 5%nat] !! 1%nat) /\
  GetNextDialog (fun _ => Ok None) (SetNextDialog (Some 9%nat) (OMenu m)) = Ok (Some 9%nat).
Proof.
  intros b m. assert (obj_good (OMenu m)) as Hm by (cbn; unfold good, null_arr; cbn; naive_solver).
  destruct (vxml_dispatch_agrees (fun _ => Ok None) (OMenu m) KPrompts (Some 9%nat) Hm) as [Hy Hn].
  split_and!; [done| |done]. apply (Hy (OMenu m) (or_introl eq_refl) 1%Z). cbn. lia.
Defined.

(** A handler asked for its dialog before one is set reads an uninitialised
    pointer. *)
Lemma fresh_handler_uninitialised next_of event_new nId :
  GetNextDialog next_of (ONoinput (CObjNoinput_new event_new nId)) = Ub Uninitialised /\
  GetNextDialog next_of (ONomatch (CObjNomatch_new event_new nId)) = Ub Uninitialised /\
  GetNextDialog next_of (OCatch (CObjCatch_new event_new nId)) = Ub Uninitialised.
Proof. done. Qed.

(** The two names of a transfer: the one set through the class is not the one
    read through a base pointer. *)
Lemma transfer_name_split n t :
  transfer_name (transfer_SetName n t) = n /\ name (base_of (OTransfer (transfer_SetName n t))) = name (tr_base t).
Proof. done. Qed.
Lemma record_name_split n r :
  GetRecName (SetRecName n r) = n /\ name (base_of (ORecord (SetRecName n r))) = name (rec_base r).
Proof. done. Qed.

(** With a [find] of unsigned result every key matches every choice. *)
Lemma CheckDtmf_unsigned find c dtmf : (0 <= find (m_strDtmf c) dtmf)%Z -> CheckDtmf find c dtmf = true.
Proof. intros Hf. by apply Z.leb_le. Qed.
