(* ===== verification/Props.v ===== *)
(** * Typed properties (include/props.hpp)

    [PropBase] and its five subclasses: the constructors, the setters and the
    virtual accessors.  Parsing a value ([set_value]), the list of saved values
    and the table of properties have no body in the repository. *)

From S2P Require Import Prelude.

Inductive PROPTYPE : Type := PT_NONE | PT_TIME | PT_CHAR | PT_BOOL | PT_INT | PT_STRING | PT_USER.
#[global] Instance PROPTYPE_eq_dec : EqDecision PROPTYPE.
Proof. solve_decision. Defined.

Record PropBase : Type := MkProp { type_ : PROPTYPE; key_ : str; values_ : list str }.

(** [key ? key : ""]. *)
Definition PropBase_new (nType : PROPTYPE) (key : option str) : PropBase := MkProp nType (default [] key) [].
Definition set_type (nType : PROPTYPE) (b : PropBase) : PropBase := MkProp nType (key_ b) (values_ b).
Definition SetKey (pszKey : option str) (b : PropBase) : PropBase := MkProp (type_ b) (default [] pszKey) (values_ b).

(** A property by its dynamic class, with the member the class adds. *)
Inductive prop : Type :=
| PropTime (b : PropBase) (time_val_ : Z)
| PropChar (b : PropBase) (char_val_ : Z)
| PropBool (b : PropBase) (bool_val_ : bool)
| PropInt (b : PropBase) (int_val_ : Z)
| PropString (b : PropBase) (str_val_ : str).

Definition PropTime_new (key : option str) : prop := PropTime (PropBase_new PT_TIME key) 0.
Definition PropChar_new (key : option str) : prop := PropChar (PropBase_new PT_CHAR key) 0.
Definition PropBool_new (key : option str) : prop := PropBool (PropBase_new PT_BOOL key) false.
Definition PropInt_new (key : option str) : prop := PropInt (PropBase_new PT_INT key) 0.
Definition PropString_new (key : option str) : prop := PropString (PropBase_new PT_STRING key) [].

Definition prop_base (p : prop) : PropBase :=
  match p with PropTime b _ | PropChar b _ | PropBool b _ | PropInt b _ | PropString b _ => b end.

(** The virtual accessors: the base class's default unless the class overrides
    it. *)
Definition time_value (p : prop) : Z := match p with PropTime _ v => v | _ => 0%Z end.
Definition char_value (p : prop) : Z := match p with PropChar _ v => v | _ => 0%Z end.
Definition bool_value (p : prop) : bool := match p with PropBool _ v => v | _ => false end.
Definition int_value (p : prop) : Z := match p with PropInt _ v => v | _ => 0%Z end.
Definition string_value (p : prop) : str := match p with PropString _ v => v | _ => [] end.

(** The class a property was constructed as. *)
Definition class_type (p : prop) : PROPTYPE :=
  match p with
  | PropTime _ _ => PT_TIME | PropChar _ _ => PT_CHAR | PropBool _ _ => PT_BOOL
  | PropInt _ _ => PT_INT | PropString _ _ => PT_STRING
  end.

Definition prop_new (ty : PROPTYPE) (key : option str) : option prop :=
  match ty with
  | PT_TIME => Some (PropTime_new key)
  | PT_CHAR => Some (PropChar_new key)
  | PT_BOOL => Some (PropBool_new key)
  | PT_INT => Some (PropInt_new key)
  | PT_STRING => Some (PropString_new key)
  | PT_NONE | PT_USER => None
  end.

(** A fresh property has the tag of its class, and only the accessor of its tag can
    give anything but the default. *)
Lemma prop_tag ty key p : prop_new ty key = Some p ->
  type_ (prop_base p) = ty /\ class_type p = ty /\ key_ (prop_base p) = default [] key.
Proof. by destruct ty; intros [= <-]. Qed.

Lemma accessor_of_class p :
  (class_type p <> PT_TIME -> time_value p = 0%Z) /\ (class_type p <> PT_CHAR -> char_value p = 0%Z) /\
  (class_type p <> PT_BOOL -> bool_value p = false) /\ (class_type p <> PT_INT -> int_value p = 0%Z) /\
  (class_type p <> PT_STRING -> string_value p = []).
Proof. by destruct p. Qed.
